(** * HIPL: control-plane input handlers, userspace ESP and the ESP-protection
      connection tracker

    A shallow embedding of the parts of [libhipl/input.c],
    [hipfw/user_ipsec_esp.c] and [hipfw/esp_prot_conntrack.c] that decide the
    properties stated in the second half of this file, together with the
    functions around them: [libcore/statistics.c], the Diffie-Hellman size
    table of [libcore/crypto.c], [hipfw/esp_prot_config.c], the rule parser
    of [hipfw/rule_management.c] and [hipfw/helpers.c], the white list and
    address filter of [libhipl/netdev.c] and the transform selection of
    [libhipl/esp_prot_hipd_msg.c].

    Conventions.
    - Unsigned C integers are [Z] with the wrap-around written out
      ([wrap16], [wrap32]).
    - Buffers are [list Z] (one element per octet).  [memcmp] and [memcpy]
      take the octet count as the C functions do.
    - A function that can dereference a NULL pointer, index an array out of
      bounds or divide by zero returns [option]; [None] stands for that
      undefined behaviour.
    - Functions of the repository that are called but whose body is in a file
      outside the embedded sources are section variables (oracles), or are
      modelled from the specification under a comment that says so. *)

From Stdlib Require Import ZArith Lia Bool String.
From stdpp Require Import base option list.

Local Open Scope Z_scope.

(* ===================================================================== *)
(** * Part I.  Definitions                                                *)
(* ===================================================================== *)

(** ** Machine integers and buffers *)

Abbreviation bytes := (list Z).

Definition wrap8 (z : Z) : Z := z mod 2 ^ 8.
Definition wrap16 (z : Z) : Z := z mod 2 ^ 16.
Definition wrap32 (z : Z) : Z := z mod 2 ^ 32.

(** [ntohs] and [ntohl] on a little-endian host: the octets of a 16-bit
    (32-bit) value are swapped. *)
Definition ntohs (x : Z) : Z :=
  Z.lor (Z.shiftl (Z.land x 255) 8) (Z.land (Z.shiftr x 8) 255).

Definition ntohl (x : Z) : Z :=
  Z.lor (Z.shiftl (Z.land x 255) 24)
    (Z.lor (Z.shiftl (Z.land (Z.shiftr x 8) 255) 16)
       (Z.lor (Z.shiftl (Z.land (Z.shiftr x 16) 255) 8)
          (Z.land (Z.shiftr x 24) 255))).

(** [memcmp s1 s2 n]: sign of the first differing octet among the first [n].
    Both buffers are expected to hold at least [n] octets. *)
Fixpoint memcmp (s1 s2 : bytes) (n : nat) : Z :=
  match n with
  | O => 0
  | S n' =>
      match s1, s2 with
      | x :: s1', y :: s2' => if x =? y then memcmp s1' s2' n' else x - y
      | _, _ => 0
      end
  end.

(** [memcpy dst src n]: the first [n] octets of [dst] are replaced by the
    first [n] octets of [src]. *)
Definition memcpy (dst src : bytes) (n : nat) : bytes :=
  take n src ++ drop n dst.

(** [memcpy] into the middle of a buffer: [memcpy(&dst[off], src, n)]. *)
Definition memcpy_at (dst : bytes) (off : nat) (src : bytes) (n : nat) : bytes :=
  take off dst ++ memcpy (drop off dst) src n.

(** errno values (Linux). *)
Definition EINVAL : Z := 22.
Definition ENOMEM : Z := 12.
Definition ENOMSG : Z := 42.
Definition ENODATA : Z := 61.
Definition EPROTO : Z := 71.
Definition EOPNOTSUPP : Z := 95.
Definition ENOSYS : Z := 38.
Definition ENOENT : Z := 2.
Definition ECANCELED : Z := 125.

(** ** Host Identity Tags *)

(** A HIT is a [struct in6_addr]: sixteen octets. *)
Abbreviation hip_hit_t := (list Z).

Definition HIT_LEN : nat := 16.

(** Modelled from the spec: [hip_hit_is_bigger] (libcore/hit.c) is not among
    the embedded sources.  The specification gives HITs a bytewise total
    order: the first HIT is bigger when [memcmp] over the sixteen octets is
    positive. *)
Definition hip_hit_is_bigger (hit1 hit2 : hip_hit_t) : bool :=
  0 <? memcmp hit1 hit2 HIT_LEN.

(** ** Diffie-Hellman groups (libcore/crypto.c) *)

(** Modelled from the spec: the group identifiers (libcore/crypto.h) are not
    among the embedded sources; they are numbered in the order in which the
    specification lists the supported groups (modp-384 = 1 ... NIST-P-521 = 9). *)
Definition HIP_DH_384 : Z := 1.
Definition HIP_DH_OAKLEY_1 : Z := 2.
Definition HIP_DH_OAKLEY_5 : Z := 3.
Definition HIP_DH_OAKLEY_15 : Z := 4.
Definition HIP_DH_OAKLEY_17 : Z := 5.
Definition HIP_DH_OAKLEY_18 : Z := 6.
Definition HIP_DH_NIST_P_256 : Z := 7.
Definition HIP_DH_NIST_P_384 : Z := 8.
Definition HIP_DH_NIST_P_521 : Z := 9.

(** [const uint8_t HIP_DH_GROUP_LIST[HIP_DH_GROUP_LIST_SIZE]]. *)
Definition HIP_DH_GROUP_LIST : list Z :=
  [HIP_DH_NIST_P_384; HIP_DH_OAKLEY_15; HIP_DH_OAKLEY_5].

(** The inner loop of [check_dh_downgrade_v2]: scan the peer's list for the
    local group [g]; [Some r] when the function returns [r] inside the loop. *)
Fixpoint check_dh_downgrade_v2_inner (g peer_group : Z) (list : list Z)
  : option Z :=
  match list with
  | [] => None
  | lj :: rest =>
      if g =? lj
      then (if lj =? peer_group then Some 0 else Some (-1))
      else check_dh_downgrade_v2_inner g peer_group rest
  end.

(** The outer loop, over the local preference list. *)
Fixpoint check_dh_downgrade_v2_outer (ours : list Z) (peer_group : Z)
  (list : list Z) : Z :=
  match ours with
  | [] => -1
  | g :: rest =>
      match check_dh_downgrade_v2_inner g peer_group list with
      | Some r => r
      | None => check_dh_downgrade_v2_outer rest peer_group list
      end
  end.

(** [check_dh_downgrade_v2 peer_group list]; [list] is what
    [hip_get_list_from_param] extracted from the peer's DH_GROUP_LIST
    parameter. *)
Definition check_dh_downgrade_v2 (peer_group : Z) (list : list Z) : Z :=
  check_dh_downgrade_v2_outer HIP_DH_GROUP_LIST peer_group list.

(** The first group of the local preference list that the peer lists too. *)
Definition first_dh_match (ours theirs : list Z) : option Z :=
  List.find (fun g => existsb (Z.eqb g) theirs) ours.

(** ** HIP control messages *)

(** Parameter types that the embedded handlers look up. *)
Inductive hip_tlv :=
| HIP_PARAM_ESP_INFO
| HIP_PARAM_R1_COUNTER
| HIP_PARAM_SOLUTION
| HIP_PARAM_DIFFIE_HELLMAN
| HIP_PARAM_HIP_TRANSFORM
| HIP_PARAM_ESP_TRANSFORM
| HIP_PARAM_ENCRYPTED
| HIP_PARAM_HOST_ID
| HIP_PARAM_HMAC
| HIP_PARAM_HMAC2
| HIP_PARAM_OTHER (code : Z).

Definition hip_tlv_eqb (a b : hip_tlv) : bool :=
  match a, b with
  | HIP_PARAM_ESP_INFO, HIP_PARAM_ESP_INFO
  | HIP_PARAM_R1_COUNTER, HIP_PARAM_R1_COUNTER
  | HIP_PARAM_SOLUTION, HIP_PARAM_SOLUTION
  | HIP_PARAM_DIFFIE_HELLMAN, HIP_PARAM_DIFFIE_HELLMAN
  | HIP_PARAM_HIP_TRANSFORM, HIP_PARAM_HIP_TRANSFORM
  | HIP_PARAM_ESP_TRANSFORM, HIP_PARAM_ESP_TRANSFORM
  | HIP_PARAM_ENCRYPTED, HIP_PARAM_ENCRYPTED
  | HIP_PARAM_HOST_ID, HIP_PARAM_HOST_ID
  | HIP_PARAM_HMAC, HIP_PARAM_HMAC
  | HIP_PARAM_HMAC2, HIP_PARAM_HMAC2 => true
  | HIP_PARAM_OTHER x, HIP_PARAM_OTHER y => x =? y
  | _, _ => false
  end.

(** [struct hip_dh_public_value]; [pub_len] is kept in network byte order. *)
Record hip_dh_public_value := {
  group_id : Z;
  pub_len : Z;
  public_value : bytes
}.

(** The contents of a parameter, as a tagged union.  Multi-octet integers are
    kept as they are on the wire; the handlers apply [ntohs]/[ntohl]. *)
Inductive hip_param :=
| P_ESP_INFO (keymat_index old_spi new_spi : Z)
| P_R1_COUNTER (generation : Z)
| P_SOLUTION (K : Z) (I J : bytes)
| P_DIFFIE_HELLMAN (pub_val : hip_dh_public_value)
    (pub_val2 : option hip_dh_public_value)
| P_HIP_TRANSFORM (suite_ids : list Z)
| P_ESP_TRANSFORM (suite_ids : list Z)
| P_ENCRYPTED (contents : bytes)
| P_HOST_ID (raw : bytes)
| P_HMAC (hmac_data : bytes)
| P_HMAC2 (hmac_data : bytes)
| P_OTHER (code : Z) (contents : bytes).

Definition hip_get_param_type (p : hip_param) : hip_tlv :=
  match p with
  | P_ESP_INFO _ _ _ => HIP_PARAM_ESP_INFO
  | P_R1_COUNTER _ => HIP_PARAM_R1_COUNTER
  | P_SOLUTION _ _ _ => HIP_PARAM_SOLUTION
  | P_DIFFIE_HELLMAN _ _ => HIP_PARAM_DIFFIE_HELLMAN
  | P_HIP_TRANSFORM _ => HIP_PARAM_HIP_TRANSFORM
  | P_ESP_TRANSFORM _ => HIP_PARAM_ESP_TRANSFORM
  | P_ENCRYPTED _ => HIP_PARAM_ENCRYPTED
  | P_HOST_ID _ => HIP_PARAM_HOST_ID
  | P_HMAC _ => HIP_PARAM_HMAC
  | P_HMAC2 _ => HIP_PARAM_HMAC2
  | P_OTHER c _ => HIP_PARAM_OTHER c
  end.

(** [struct hip_common] followed by its parameters.  Each parameter comes
    with its offset from the start of the message (what the pointer
    difference [(uint8_t * ) param - (uint8_t * ) msg] yields).

    Modelled from the spec: the header accessors ([hip_get_msg_total_len],
    [hip_set_msg_total_len], [hip_get_msg_checksum], [hip_zero_msg_checksum],
    [hip_set_msg_checksum], libcore/builder.c) are not among the embedded
    sources; the header carries a length field and a 16-bit checksum field,
    read and written by these accessors. *)
Record hip_common := {
  total_len : Z;
  ver_res : Z;
  checksum : Z;
  control : Z;
  hit_sender : hip_hit_t;
  hit_receiver : hip_hit_t;
  params : list (Z * hip_param)
}.

Definition hip_get_msg_total_len (msg : hip_common) : Z := total_len msg.
Definition hip_get_msg_checksum (msg : hip_common) : Z := checksum msg.
Definition hip_get_msg_version (msg : hip_common) : Z := ver_res msg.

Definition hip_set_msg_total_len (msg : hip_common) (len : Z) : hip_common :=
  {| total_len := len; ver_res := ver_res msg; checksum := checksum msg;
     control := control msg; hit_sender := hit_sender msg;
     hit_receiver := hit_receiver msg; params := params msg |}.

Definition hip_set_msg_checksum (msg : hip_common) (c : Z) : hip_common :=
  {| total_len := total_len msg; ver_res := ver_res msg; checksum := c;
     control := control msg; hit_sender := hit_sender msg;
     hit_receiver := hit_receiver msg; params := params msg |}.

Definition hip_zero_msg_checksum (msg : hip_common) : hip_common :=
  hip_set_msg_checksum msg 0.

(** Modelled from the spec: [hip_get_param] (libcore/builder.c) is not among
    the embedded sources; it returns the first parameter of the requested
    type, or NULL. *)
Definition hip_get_param (msg : hip_common) (ty : hip_tlv)
  : option (Z * hip_param) :=
  List.find (fun op => hip_tlv_eqb (hip_get_param_type (snd op)) ty)
    (params msg).

Definition HIP_AH_SHA_LEN : nat := 20.
Definition HIP_DIGEST_SHA1_HMAC : Z := 2.

(** [struct hip_crypto_key]: the key octets. *)
Abbreviation hip_crypto_key := (list Z).

Definition hmac_data_of (p : hip_param) : bytes :=
  match p with
  | P_HMAC d | P_HMAC2 d => d
  | _ => []
  end.

Section HMAC.

(** [hip_write_hmac type key in in_len out] (libcore/crypto.c, through
    OpenSSL): [None] when it reports an error, otherwise the digest. *)
Variable hip_write_hmac : Z -> hip_crypto_key -> hip_common -> Z -> option bytes.

(** [verify_hmac] of input.c. *)
Definition verify_hmac (buffer : hip_common) (buf_len : Z) (hmac : bytes)
  (hmac_key : hip_crypto_key) (hmac_type : Z) : Z :=
  match hip_write_hmac hmac_type hmac_key buffer buf_len with
  | None => - EINVAL
  | Some hmac_res =>
      if negb (memcmp hmac_res hmac HIP_AH_SHA_LEN =? 0) then - EINVAL else 0
  end.

(** [hip_verify_packet_hmac_general]: the return value and the message buffer
    as the function leaves it.  [orig_checksum] is a [uint8_t] local. *)
Definition hip_verify_packet_hmac_general (msg : hip_common)
  (crypto_key : hip_crypto_key) (parameter_type : hip_tlv)
  : Z * hip_common :=
  match hip_get_param msg parameter_type with
  | None => (- ENOMSG, msg)
  | Some (hmac_off, hmac) =>
      let orig_len := hip_get_msg_total_len msg in
      let orig_checksum := wrap8 (hip_get_msg_checksum msg) in
      let msg1 := hip_zero_msg_checksum msg in
      let len := hmac_off in
      let msg2 := hip_set_msg_total_len msg1 len in
      let tmpkey := crypto_key in
      if negb (verify_hmac msg2 (hip_get_msg_total_len msg2)
                 (hmac_data_of hmac) tmpkey HIP_DIGEST_SHA1_HMAC =? 0)
      then (-1, msg2)
      else
        let msg3 := hip_set_msg_total_len msg2 orig_len in
        let msg4 := hip_set_msg_checksum msg3 orig_checksum in
        (0, msg4)
  end.

(** [hip_verify_packet_hmac]. *)
Definition hip_verify_packet_hmac (msg : hip_common)
  (crypto_key : hip_crypto_key) : Z * hip_common :=
  hip_verify_packet_hmac_general msg crypto_key HIP_PARAM_HMAC.

End HMAC.

(** ** Host associations (libcore/state.h) *)

Inductive hip_state :=
| HIP_STATE_NONE
| HIP_STATE_UNASSOCIATED
| HIP_STATE_I1_SENT
| HIP_STATE_I2_SENT
| HIP_STATE_R2_SENT
| HIP_STATE_ESTABLISHED
| HIP_STATE_FAILED
| HIP_STATE_CLOSING
| HIP_STATE_CLOSED.

Definition HIP_V1 : Z := 1.
Definition HIP_V2 : Z := 2.

(** [struct hip_hadb_state], restricted to the members that the embedded
    handlers read or write.  Pointer members are [option]. *)
Record hip_hadb_state := {
  hit_our : hip_hit_t;
  hit_peer : hip_hit_t;
  state : hip_state;
  is_loopback : Z;
  our_addr : bytes;
  esp_transform : Z;
  hip_transform : Z;
  birthday : Z;
  dh_shared_key : option bytes;
  dh_shared_key_len : Z;
  hip_enc_out : hip_crypto_key;
  hip_hmac_out : hip_crypto_key;
  esp_out : hip_crypto_key;
  auth_out : hip_crypto_key;
  hip_enc_in : hip_crypto_key;
  hip_hmac_in : hip_crypto_key;
  esp_in : hip_crypto_key;
  auth_in : hip_crypto_key;
  current_keymat_index : Z;
  keymat_calc_index : Z;
  esp_keymat_index : Z;
  current_keymat_K : bytes;
  our_pub : option bytes;
  peer_pub : option bytes;
  spi_inbound_current : Z;
  spi_outbound_old : Z;
  spi_outbound_new : Z;
  hip_version : Z
}.

(** The eight keys of a host association, in the order
    out: HIP-enc, HIP-HMAC, ESP-enc, ESP-auth; in: the same. *)
Record ha_keys := {
  k_hip_enc_out : hip_crypto_key;
  k_hip_hmac_out : hip_crypto_key;
  k_esp_out : hip_crypto_key;
  k_auth_out : hip_crypto_key;
  k_hip_enc_in : hip_crypto_key;
  k_hip_hmac_in : hip_crypto_key;
  k_esp_in : hip_crypto_key;
  k_auth_in : hip_crypto_key
}.

Definition keys_of (e : hip_hadb_state) : ha_keys :=
  {| k_hip_enc_out := hip_enc_out e; k_hip_hmac_out := hip_hmac_out e;
     k_esp_out := esp_out e; k_auth_out := auth_out e;
     k_hip_enc_in := hip_enc_in e; k_hip_hmac_in := hip_hmac_in e;
     k_esp_in := esp_in e; k_auth_in := auth_in e |}.

(** Member assignments. *)
Definition set_keys (e : hip_hadb_state) (k : ha_keys) : hip_hadb_state :=
  {| hit_our := hit_our e; hit_peer := hit_peer e; state := state e;
     is_loopback := is_loopback e; our_addr := our_addr e;
     esp_transform := esp_transform e; hip_transform := hip_transform e;
     birthday := birthday e; dh_shared_key := dh_shared_key e;
     dh_shared_key_len := dh_shared_key_len e;
     hip_enc_out := k_hip_enc_out k; hip_hmac_out := k_hip_hmac_out k;
     esp_out := k_esp_out k; auth_out := k_auth_out k;
     hip_enc_in := k_hip_enc_in k; hip_hmac_in := k_hip_hmac_in k;
     esp_in := k_esp_in k; auth_in := k_auth_in k;
     current_keymat_index := current_keymat_index e;
     keymat_calc_index := keymat_calc_index e;
     esp_keymat_index := esp_keymat_index e;
     current_keymat_K := current_keymat_K e;
     our_pub := our_pub e; peer_pub := peer_pub e;
     spi_inbound_current := spi_inbound_current e;
     spi_outbound_old := spi_outbound_old e;
     spi_outbound_new := spi_outbound_new e; hip_version := hip_version e |}.

Definition set_keymat_state (e : hip_hadb_state)
  (cur calc espidx : Z) (K : bytes) (dh : option bytes) (dhlen : Z)
  : hip_hadb_state :=
  {| hit_our := hit_our e; hit_peer := hit_peer e; state := state e;
     is_loopback := is_loopback e; our_addr := our_addr e;
     esp_transform := esp_transform e; hip_transform := hip_transform e;
     birthday := birthday e; dh_shared_key := dh;
     dh_shared_key_len := dhlen;
     hip_enc_out := hip_enc_out e; hip_hmac_out := hip_hmac_out e;
     esp_out := esp_out e; auth_out := auth_out e;
     hip_enc_in := hip_enc_in e; hip_hmac_in := hip_hmac_in e;
     esp_in := esp_in e; auth_in := auth_in e;
     current_keymat_index := cur;
     keymat_calc_index := calc;
     esp_keymat_index := espidx;
     current_keymat_K := K;
     our_pub := our_pub e; peer_pub := peer_pub e;
     spi_inbound_current := spi_inbound_current e;
     spi_outbound_old := spi_outbound_old e;
     spi_outbound_new := spi_outbound_new e; hip_version := hip_version e |}.

(** Assignment to the members that [hip_check_i2] and the HADB helpers write
    apart from keys and keying-material state. *)
Definition set_ids (e : hip_hadb_state) (our peer : hip_hit_t) (addr : bytes)
  (opub ppub : option bytes) (ver : Z) : hip_hadb_state :=
  {| hit_our := our; hit_peer := peer; state := state e;
     is_loopback := is_loopback e; our_addr := addr;
     esp_transform := esp_transform e; hip_transform := hip_transform e;
     birthday := birthday e; dh_shared_key := dh_shared_key e;
     dh_shared_key_len := dh_shared_key_len e;
     hip_enc_out := hip_enc_out e; hip_hmac_out := hip_hmac_out e;
     esp_out := esp_out e; auth_out := auth_out e;
     hip_enc_in := hip_enc_in e; hip_hmac_in := hip_hmac_in e;
     esp_in := esp_in e; auth_in := auth_in e;
     current_keymat_index := current_keymat_index e;
     keymat_calc_index := keymat_calc_index e;
     esp_keymat_index := esp_keymat_index e;
     current_keymat_K := current_keymat_K e;
     our_pub := opub; peer_pub := ppub;
     spi_inbound_current := spi_inbound_current e;
     spi_outbound_old := spi_outbound_old e;
     spi_outbound_new := spi_outbound_new e; hip_version := ver |}.

Definition set_misc (e : hip_hadb_state) (loopback tfm bday : Z)
  : hip_hadb_state :=
  {| hit_our := hit_our e; hit_peer := hit_peer e; state := state e;
     is_loopback := loopback; our_addr := our_addr e;
     esp_transform := esp_transform e; hip_transform := tfm;
     birthday := bday; dh_shared_key := dh_shared_key e;
     dh_shared_key_len := dh_shared_key_len e;
     hip_enc_out := hip_enc_out e; hip_hmac_out := hip_hmac_out e;
     esp_out := esp_out e; auth_out := auth_out e;
     hip_enc_in := hip_enc_in e; hip_hmac_in := hip_hmac_in e;
     esp_in := esp_in e; auth_in := auth_in e;
     current_keymat_index := current_keymat_index e;
     keymat_calc_index := keymat_calc_index e;
     esp_keymat_index := esp_keymat_index e;
     current_keymat_K := current_keymat_K e;
     our_pub := our_pub e; peer_pub := peer_pub e;
     spi_inbound_current := spi_inbound_current e;
     spi_outbound_old := spi_outbound_old e;
     spi_outbound_new := spi_outbound_new e; hip_version := hip_version e |}.

Definition set_hip_version (e : hip_hadb_state) (v : Z) : hip_hadb_state :=
  set_ids e (hit_our e) (hit_peer e) (our_addr e) (our_pub e) (peer_pub e) v.
Definition set_hit_peer (e : hip_hadb_state) (h : hip_hit_t) : hip_hadb_state :=
  set_ids e (hit_our e) h (our_addr e) (our_pub e) (peer_pub e) (hip_version e).
Definition set_our_addr (e : hip_hadb_state) (a : bytes) : hip_hadb_state :=
  set_ids e (hit_our e) (hit_peer e) a (our_pub e) (peer_pub e) (hip_version e).
Definition set_peer_pub (e : hip_hadb_state) (p : option bytes) : hip_hadb_state :=
  set_ids e (hit_our e) (hit_peer e) (our_addr e) (our_pub e) p (hip_version e).
Definition set_is_loopback (e : hip_hadb_state) (v : Z) : hip_hadb_state :=
  set_misc e v (hip_transform e) (birthday e).
Definition set_hip_transform (e : hip_hadb_state) (v : Z) : hip_hadb_state :=
  set_misc e (is_loopback e) v (birthday e).
Definition set_birthday (e : hip_hadb_state) (v : Z) : hip_hadb_state :=
  set_misc e (is_loopback e) (hip_transform e) v.

(** [struct hip_packet_context]. *)
Record hip_packet_context := {
  input_msg : hip_common;
  src_addr : bytes;
  dst_addr : bytes;
  hadb_entry : option hip_hadb_state;
  error : Z
}.

Definition set_error (ctx : hip_packet_context) (err : Z) : hip_packet_context :=
  {| input_msg := input_msg ctx; src_addr := src_addr ctx;
     dst_addr := dst_addr ctx; hadb_entry := hadb_entry ctx; error := err |}.

Definition set_hadb_entry (ctx : hip_packet_context)
  (e : option hip_hadb_state) : hip_packet_context :=
  {| input_msg := input_msg ctx; src_addr := src_addr ctx;
     dst_addr := dst_addr ctx; hadb_entry := e; error := error ctx |}.

Definition set_input_msg (ctx : hip_packet_context) (m : hip_common)
  : hip_packet_context :=
  {| input_msg := m; src_addr := src_addr ctx;
     dst_addr := dst_addr ctx; hadb_entry := hadb_entry ctx;
     error := error ctx |}.

(** ** The I2/I2 collision rule *)

(** [hip_handle_i2_in_i2_sent]: the return value and the packet context.
    [None]: the context carries no host association. *)
Definition hip_handle_i2_in_i2_sent (ctx : hip_packet_context)
  : option (Z * hip_packet_context) :=
  match hadb_entry ctx with
  | None => None
  | Some entry =>
      let ctx' :=
        if hip_hit_is_bigger (hit_peer entry) (hit_our entry)
        then set_error ctx 1
        else ctx in
      Some (error ctx', ctx')
  end.

(** ** Retransmitted I2 *)

(** [i2_is_retransmission].  [None]: no host association in the context
    (the function's comment leaves that case undefined). *)
Definition i2_is_retransmission (ctx : hip_packet_context) : option bool :=
  match hip_get_param (input_msg ctx) HIP_PARAM_ESP_INFO with
  | Some (_, P_ESP_INFO keymat_index _ new_spi) =>
      match hadb_entry ctx with
      | None => None
      | Some entry =>
          Some ((spi_outbound_new entry =? ntohl new_spi)
                && (esp_keymat_index entry =? ntohs keymat_index))
      end
  | _ => Some false
  end.

(** ** The daemon's environment *)

(** Calls into the HADB and the Diffie-Hellman engine are recorded, in call
    order. *)
Inductive hipd_event :=
| EvDelPeerInfo (entry : hip_hadb_state)
| EvCreateState
| EvInsertState (entry : hip_hadb_state)
| EvDhSharedSecret (group : Z).

(** Functions that the embedded handlers call and whose bodies are in files
    outside the embedded sources (hidb.c, hadb.c, cookie.c, keylen.c, dh.c,
    crypto.c, builder.c), as oracles.  Return values follow the C signatures:
    [int] results are [Z]; a result pointer that may be NULL, or a buffer
    that is only valid on success, is an [option]. *)
Record hipd_env := {
  hip_hidb_hit_is_our : hip_hit_t -> bool;
  hip_controls_sane : Z -> Z -> bool;
  hip_del_peer_info_entry : hip_hadb_state -> Z;
  hip_hadb_create_state : option hip_hadb_state;
  hip_init_us : hip_hadb_state -> hip_hit_t -> hip_hadb_state;
  hip_init_peer : hip_hadb_state -> bytes -> Z * hip_hadb_state;
  hip_get_dh_size : Z -> Z;
  hip_verify_cookie :
    bytes -> bytes -> hip_common -> Z -> bytes -> bytes -> Z -> Z -> Z;
  hip_select_hip_transform : list Z -> Z;
  hip_select_esp_transform : list Z -> Z;
  hip_transform_key_length : Z -> Z;
  hip_hmac_key_length : Z -> Z;
  hip_enc_key_length : Z -> Z;
  hip_auth_key_length_esp : Z -> Z;
  hip_dh_select_key :
    hip_dh_public_value -> option hip_dh_public_value -> hip_dh_public_value;
  hip_calculate_shared_secret : Z -> bytes -> Z -> Z -> option bytes;
  sha1 : bytes -> bytes;
  hip_write_hmac : Z -> hip_crypto_key -> hip_common -> Z -> option bytes;
  hip_get_param_transform_suite_id : list Z -> Z;
  hip_crypto_encrypted :
    bytes -> option bytes -> Z -> Z -> hip_crypto_key -> option bytes;
  raw_param_type : bytes -> hip_tlv;
  hip_build_host_id_from_param : bytes -> option bytes;
  verify : hip_hadb_state -> hip_common -> Z;
  build_r2 :
    hip_hit_t -> hip_hit_t -> Z -> Z -> Z -> hip_crypto_key -> option bytes -> bytes
}.

(** ** Keying material *)

(** [sort(HIT_i, HIT_r)]: the two HITs concatenated, the smaller one first. *)
Definition sort_hits (hit1 hit2 : hip_hit_t) : bytes :=
  if hip_hit_is_bigger hit1 hit2 then hit2 ++ hit1 else hit1 ++ hit2.

(** The blocks K_n, K_n+1, ... of the keying material over a fixed seed. *)
Fixpoint keymat_blocks (H : bytes -> bytes) (seed : bytes) (n : Z)
  (count : nat) : bytes :=
  match count with
  | O => []
  | S c => H (seed ++ [wrap8 n]) ++ keymat_blocks H seed (n + 1) c
  end.

(** Modelled from the spec: [hip_make_keymat] (libhipl/keymat.c) is not among
    the embedded sources.  The specification defines the keying material as
    the concatenation of K_n = SHA1(key-material ‖ sort(HIT_i,HIT_r) ‖ I ‖ J ‖ n),
    n = 1, 2, ...; the function fills [keymat_len] octets. *)
Definition hip_make_keymat (H : bytes -> bytes) (kij : bytes)
  (keymat_len : Z) (hit1 hit2 : hip_hit_t) (I J : bytes) : bytes :=
  take (Z.to_nat keymat_len)
    (keymat_blocks H (kij ++ sort_hits hit1 hit2 ++ I ++ J) 1
       (Z.to_nat ((keymat_len + 19) / 20))).

(** [struct hip_keymat_keymat]: the drawing cursor over the keying material. *)
Record hip_keymat_keymat := {
  km_offset : nat;
  keymatdst : bytes
}.

(** Modelled from the spec: [hip_keymat_draw_and_copy] (libhipl/keymat.c) is
    not among the embedded sources.  Keys are drawn contiguously: the next
    [len] octets of the keying material are copied to the start of [dst] and
    the cursor advances by [len]. *)
Definition hip_keymat_draw_and_copy (dst : hip_crypto_key)
  (km : hip_keymat_keymat) (len : Z) : hip_crypto_key * hip_keymat_keymat :=
  (memcpy dst (drop (km_offset km) (keymatdst km)) (Z.to_nat len),
   {| km_offset := km_offset km + Z.to_nat len; keymatdst := keymatdst km |}).

(** The eight draws of [produce_keying_material], in call order, for either
    branch of [we_are_HITg]. *)
Definition draw_bex_keys (entry : hip_hadb_state) (km0 : hip_keymat_keymat)
  (we_are_HITg : bool)
  (hip_transf_length hmac_transf_length esp_transf_length auth_transf_length : Z)
  : ha_keys :=
  if we_are_HITg then
    let '(k1, km1) := hip_keymat_draw_and_copy (hip_enc_out entry) km0 hip_transf_length in
    let '(k2, km2) := hip_keymat_draw_and_copy (hip_hmac_out entry) km1 hmac_transf_length in
    let '(k3, km3) := hip_keymat_draw_and_copy (hip_enc_in entry) km2 hip_transf_length in
    let '(k4, km4) := hip_keymat_draw_and_copy (hip_hmac_in entry) km3 hmac_transf_length in
    let '(k5, km5) := hip_keymat_draw_and_copy (esp_out entry) km4 esp_transf_length in
    let '(k6, km6) := hip_keymat_draw_and_copy (auth_out entry) km5 auth_transf_length in
    let '(k7, km7) := hip_keymat_draw_and_copy (esp_in entry) km6 esp_transf_length in
    let '(k8, km8) := hip_keymat_draw_and_copy (auth_in entry) km7 auth_transf_length in
    {| k_hip_enc_out := k1; k_hip_hmac_out := k2; k_hip_enc_in := k3;
       k_hip_hmac_in := k4; k_esp_out := k5; k_auth_out := k6;
       k_esp_in := k7; k_auth_in := k8 |}
  else
    let '(k1, km1) := hip_keymat_draw_and_copy (hip_enc_in entry) km0 hip_transf_length in
    let '(k2, km2) := hip_keymat_draw_and_copy (hip_hmac_in entry) km1 hmac_transf_length in
    let '(k3, km3) := hip_keymat_draw_and_copy (hip_enc_out entry) km2 hip_transf_length in
    let '(k4, km4) := hip_keymat_draw_and_copy (hip_hmac_out entry) km3 hmac_transf_length in
    let '(k5, km5) := hip_keymat_draw_and_copy (esp_in entry) km4 esp_transf_length in
    let '(k6, km6) := hip_keymat_draw_and_copy (auth_in entry) km5 auth_transf_length in
    let '(k7, km7) := hip_keymat_draw_and_copy (esp_out entry) km6 esp_transf_length in
    let '(k8, km8) := hip_keymat_draw_and_copy (auth_out entry) km7 auth_transf_length in
    {| k_hip_enc_in := k1; k_hip_hmac_in := k2; k_hip_enc_out := k3;
       k_hip_hmac_out := k4; k_esp_in := k5; k_auth_in := k6;
       k_esp_out := k7; k_auth_out := k8 |}.

(** [produce_keying_material]: return value, packet context and the recorded
    calls.  Memory allocation is taken to succeed.  [None]: the context has
    no host association when the function first dereferences it.
    [current_keymat_K] is read at offset [(keymat_calc_index - 1) * 20] of
    the keying material; the model yields the octets that lie inside it. *)
Definition produce_keying_material (E : hipd_env) (ctx : hip_packet_context)
  (I J : bytes) : option (Z * hip_packet_context * list hipd_event) :=
  let msg := input_msg ctx in
  match hip_get_param msg HIP_PARAM_HIP_TRANSFORM with
  | Some (_, P_HIP_TRANSFORM hip_ids) =>
    let hip_tfm := hip_select_hip_transform E hip_ids in
    if hip_tfm =? 0 then Some (- EINVAL, ctx, []) else
    match hip_get_param msg HIP_PARAM_ESP_TRANSFORM with
    | Some (_, P_ESP_TRANSFORM esp_ids) =>
      let esp_tfm := hip_select_esp_transform E esp_ids in
      if esp_tfm =? 0 then Some (- EINVAL, ctx, []) else
      let hip_transf_length := hip_transform_key_length E hip_tfm in
      let hmac_transf_length := hip_hmac_key_length E esp_tfm in
      let esp_transf_length := hip_enc_key_length E esp_tfm in
      let auth_transf_length := hip_auth_key_length_esp E esp_tfm in
      let keymat_len_min :=
        hip_transf_length + hmac_transf_length +
        hip_transf_length + hmac_transf_length + esp_transf_length +
        auth_transf_length + esp_transf_length + auth_transf_length in
      let esp_default_keymat_index :=
        wrap16 (hip_transf_length + hmac_transf_length +
                hip_transf_length + hmac_transf_length) in
      let esp_keymat_index :=
        match hip_get_param msg HIP_PARAM_ESP_INFO with
        | Some (_, P_ESP_INFO keymat_index _ _) => ntohs keymat_index
        | _ => esp_default_keymat_index
        end in
      if negb (esp_keymat_index =? esp_default_keymat_index)
      then Some (-1, ctx, []) else
      let keymat_len :=
        if negb (keymat_len_min mod Z.of_nat HIP_AH_SHA_LEN =? 0)
        then keymat_len_min +
             (Z.of_nat HIP_AH_SHA_LEN - keymat_len_min mod Z.of_nat HIP_AH_SHA_LEN)
        else keymat_len_min in
      match hip_get_param msg HIP_PARAM_DIFFIE_HELLMAN with
      | Some (_, P_DIFFIE_HELLMAN pv pv2) =>
        let dhpv := hip_dh_select_key E pv pv2 in
        let ev := [EvDhSharedSecret (group_id dhpv)] in
        match hip_calculate_shared_secret E (group_id dhpv)
                (public_value dhpv) (ntohs (pub_len dhpv)) 1024 with
        | None => Some (- EINVAL, ctx, ev)
        | Some dh_shared_key =>
          let dh_shared_len := Z.of_nat (length dh_shared_key) in
          if dh_shared_len <=? 0 then Some (- EINVAL, ctx, ev) else
          match hadb_entry ctx with
          | None => None
          | Some entry =>
            let keymat :=
              hip_make_keymat (sha1 E) dh_shared_key keymat_len
                (hit_sender msg) (hit_receiver msg) I J in
            let km := {| km_offset := 0; keymatdst := keymat |} in
            let we_are_HITg :=
              hip_hit_is_bigger (hit_receiver msg) (hit_sender msg) in
            let entry1 :=
              set_keys entry
                (draw_bex_keys entry km we_are_HITg hip_transf_length
                   hmac_transf_length esp_transf_length auth_transf_length) in
            let cur := wrap16 keymat_len_min in
            let calc := wrap8 (cur / Z.of_nat HIP_AH_SHA_LEN + 1) in
            let K :=
              take HIP_AH_SHA_LEN
                (drop (Z.to_nat ((calc - 1) * Z.of_nat HIP_AH_SHA_LEN)) keymat) in
            let entry2 :=
              set_keymat_state entry1 cur calc esp_keymat_index K
                (Some dh_shared_key) dh_shared_len in
            Some (0, set_hadb_entry ctx (Some entry2), ev)
          end
        end
      | _ => Some (- ENOENT, ctx, [])
      end
    | _ => Some (- EINVAL, ctx, [])
    end
  | _ => Some (- EINVAL, ctx, [])
  end.

(** The four key lengths that [produce_keying_material] derives from the
    HIP_TRANSFORM and ESP_TRANSFORM parameters of the message: HIP
    encryption, HIP HMAC, ESP encryption, ESP authentication. *)
Definition bex_key_lengths (E : hipd_env) (msg : hip_common)
  : option (Z * Z * Z * Z) :=
  match hip_get_param msg HIP_PARAM_HIP_TRANSFORM,
        hip_get_param msg HIP_PARAM_ESP_TRANSFORM with
  | Some (_, P_HIP_TRANSFORM hip_ids), Some (_, P_ESP_TRANSFORM esp_ids) =>
      let hip_tfm := hip_select_hip_transform E hip_ids in
      let esp_tfm := hip_select_esp_transform E esp_ids in
      if (hip_tfm =? 0) || (esp_tfm =? 0) then None
      else Some (hip_transform_key_length E hip_tfm,
                 hip_hmac_key_length E esp_tfm,
                 hip_enc_key_length E esp_tfm,
                 hip_auth_key_length_esp E esp_tfm)
  | _, _ => None
  end.

(** [keymat_len_min] and [keymat_len] of [produce_keying_material]. *)
Definition bex_keymat_len_min (lens : Z * Z * Z * Z) : Z :=
  let '(hip_l, hmac_l, esp_l, auth_l) := lens in
  hip_l + hmac_l + hip_l + hmac_l + esp_l + auth_l + esp_l + auth_l.

Definition bex_keymat_len (lens : Z * Z * Z * Z) : Z :=
  let m := bex_keymat_len_min lens in
  if negb (m mod Z.of_nat HIP_AH_SHA_LEN =? 0)
  then m + (Z.of_nat HIP_AH_SHA_LEN - m mod Z.of_nat HIP_AH_SHA_LEN)
  else m.

(** The keys of a host association, each cut to the length of its transform. *)
Definition truncate_keys (k : ha_keys) (lens : Z * Z * Z * Z) : ha_keys :=
  let '(hip_l, hmac_l, esp_l, auth_l) := lens in
  {| k_hip_enc_out := take (Z.to_nat hip_l) (k_hip_enc_out k);
     k_hip_hmac_out := take (Z.to_nat hmac_l) (k_hip_hmac_out k);
     k_esp_out := take (Z.to_nat esp_l) (k_esp_out k);
     k_auth_out := take (Z.to_nat auth_l) (k_auth_out k);
     k_hip_enc_in := take (Z.to_nat hip_l) (k_hip_enc_in k);
     k_hip_hmac_in := take (Z.to_nat hmac_l) (k_hip_hmac_in k);
     k_esp_in := take (Z.to_nat esp_l) (k_esp_in k);
     k_auth_in := take (Z.to_nat auth_l) (k_auth_in k) |}.

(** The keys of the peer's point of view: outbound and inbound exchanged. *)
Definition swap_direction (k : ha_keys) : ha_keys :=
  {| k_hip_enc_out := k_hip_enc_in k; k_hip_hmac_out := k_hip_hmac_in k;
     k_esp_out := k_esp_in k; k_auth_out := k_auth_in k;
     k_hip_enc_in := k_hip_enc_out k; k_hip_hmac_in := k_hip_hmac_out k;
     k_esp_in := k_esp_out k; k_auth_in := k_auth_out k |}.

(** The key block of a host association in the order HIP-enc-gL,
    HIP-HMAC-gL, HIP-enc-Lg, HIP-HMAC-Lg, ESP-enc-gL, ESP-auth-gL,
    ESP-enc-Lg, ESP-auth-Lg, where the gL keys are the local outbound keys
    when the local host has the greater HIT ([local_is_g]) and the local
    inbound keys otherwise. *)
Definition bex_key_block (k : ha_keys) (local_is_g : bool)
  (lens : Z * Z * Z * Z) : bytes :=
  let t := truncate_keys k lens in
  if local_is_g then
    k_hip_enc_out t ++ k_hip_hmac_out t ++ k_hip_enc_in t ++ k_hip_hmac_in t ++
    k_esp_out t ++ k_auth_out t ++ k_esp_in t ++ k_auth_in t
  else
    k_hip_enc_in t ++ k_hip_hmac_in t ++ k_hip_enc_out t ++ k_hip_hmac_out t ++
    k_esp_in t ++ k_auth_in t ++ k_esp_out t ++ k_auth_out t.

(** ** Checking a received I2 *)

(** HIP transform suite identifiers (RFC 5201, 5.2.7; libcore/protodefs.h is
    not among the embedded sources). *)
Definition HIP_HIP_RESERVED : Z := 0.
Definition HIP_HIP_AES_SHA1 : Z := 1.
Definition HIP_HIP_3DES_SHA1 : Z := 2.
Definition HIP_HIP_3DES_MD5 : Z := 3.
Definition HIP_HIP_BLOWFISH_SHA1 : Z := 4.
Definition HIP_HIP_NULL_SHA1 : Z := 5.
Definition HIP_HIP_NULL_MD5 : Z := 6.

Definition HIP_PACKET_CTRL_ANON : Z := 1.

(** The [out_err:] epilogue of [hip_check_i2]. *)
Definition check_i2_out_err (err : Z) (ctx : hip_packet_context)
  (tr : list hipd_event) : option (Z * hip_packet_context * list hipd_event) :=
  Some (err, if err =? 0 then ctx else set_error ctx err, tr).

(** The [switch] over the HIP transform that locates the encrypted HOST_ID
    and the IV inside the ENCRYPTED parameter: [inl err] for the cases that
    leave through [out_err], otherwise the ciphertext, the IV and
    [crypto_len] (a [uint16_t]). *)
Definition locate_encrypted_host_id (hip_tfm : Z) (contents : bytes)
  : Z + (bytes * option bytes * Z) :=
  let clen := Z.of_nat (length contents) in
  if hip_tfm =? HIP_HIP_RESERVED then inl (- EOPNOTSUPP)
  else if hip_tfm =? HIP_HIP_AES_SHA1 then
    inr (drop 20 contents, Some (take 16 (drop 4 contents)), wrap16 (clen - 4 - 16))
  else if hip_tfm =? HIP_HIP_3DES_SHA1 then
    inr (drop 12 contents, Some (take 8 (drop 4 contents)), wrap16 (clen - 4 - 8))
  else if hip_tfm =? HIP_HIP_3DES_MD5 then inl (- ENOSYS)
  else if hip_tfm =? HIP_HIP_BLOWFISH_SHA1 then inl (- ENOSYS)
  else if hip_tfm =? HIP_HIP_NULL_SHA1 then
    inr (drop 4 contents, None, wrap16 (clen - 4))
  else if hip_tfm =? HIP_HIP_NULL_MD5 then inl (- ENOSYS)
  else inl (- EOPNOTSUPP).

(** The DIFFIE_HELLMAN validation of [hip_check_i2]: the loop over
    [HIP_DH_GROUP_LIST] and the public-value length test. *)
Definition i2_dh_group_known (dh_group_id : Z) : bool :=
  existsb (Z.eqb dh_group_id) HIP_DH_GROUP_LIST.

(** The last part of [hip_check_i2], from the HMAC check on.  [ctx] holds
    the host association [entry]. *)
Definition hip_check_i2_tail (E : hipd_env) (ctx : hip_packet_context)
  (entry : hip_hadb_state) (tr : list hipd_event)
  : option (Z * hip_packet_context * list hipd_event) :=
  let msg := input_msg ctx in
  let loop := hip_hidb_hit_is_our E (hit_sender msg)
              && hip_hidb_hit_is_our E (hit_receiver msg) in
  let is_loopback := if loop then 1 else 0 in
  let entry1 := if loop then set_is_loopback entry 1 else entry in
  let '(hres, msg1) :=
    hip_verify_packet_hmac (hip_write_hmac E) msg
      (if loop then hip_hmac_out entry1 else hip_hmac_in entry1) in
  let ctx1 := set_hadb_entry (set_input_msg ctx msg1) (Some entry1) in
  if negb (hres =? 0) then check_i2_out_err (- EPROTO) ctx1 tr else
  match hip_get_param msg1 HIP_PARAM_HIP_TRANSFORM with
  | Some (_, P_HIP_TRANSFORM ids) =>
    let entry2 :=
      set_hip_transform entry1 (hip_get_param_transform_suite_id E ids) in
    let ctx2 := set_hadb_entry ctx1 (Some entry2) in
    if hip_transform entry2 =? 0 then check_i2_out_err (- EPROTO) ctx2 tr else
    let host_id_in_enc : Z + bytes :=
      match hip_get_param msg1 HIP_PARAM_ENCRYPTED with
      | Some (_, P_ENCRYPTED contents) =>
        match locate_encrypted_host_id (hip_transform entry2) contents with
        | inl err => inl err
        | inr (data, iv, crypto_len) =>
          match hip_crypto_encrypted E data iv (hip_transform entry2)
                  crypto_len
                  (if is_loopback =? 0 then hip_enc_in entry2
                   else hip_enc_out entry2) with
          | None => inl (-1)
          | Some plain =>
            if hip_tlv_eqb (raw_param_type E plain) HIP_PARAM_HOST_ID
            then inr plain else inl (- EPROTO)
          end
        end
      | _ =>
        match hip_get_param msg1 HIP_PARAM_HOST_ID with
        | Some (_, P_HOST_ID raw) => inr raw
        | _ => inl (-1)
        end
      end in
    match host_id_in_enc with
    | inl err => check_i2_out_err err ctx2 tr
    | inr raw =>
      match hip_build_host_id_from_param E raw with
      | None => check_i2_out_err (-1) ctx2 tr
      | Some host_id =>
        let '(ires, entry3) := hip_init_peer E entry2 host_id in
        let ctx3 := set_hadb_entry ctx2 (Some entry3) in
        if negb (ires =? 0) then check_i2_out_err (- EINVAL) ctx3 tr else
        if negb (verify E entry3 msg1 =? 0)
        then check_i2_out_err (- EINVAL) ctx3 tr else
        match hip_get_param msg1 HIP_PARAM_R1_COUNTER with
        | Some (_, P_R1_COUNTER generation) =>
          check_i2_out_err 0
            (set_hadb_entry ctx3 (Some (set_birthday entry3 generation))) tr
        | _ => check_i2_out_err 0 ctx3 tr
        end
      end
    end
  | _ => check_i2_out_err (- ENODATA) ctx1 tr
  end.

(** The middle part of [hip_check_i2]: SOLUTION, DIFFIE_HELLMAN, cookie and
    keying material.  [hip_version] is the function's local variable. *)
Definition hip_check_i2_mid (E : hipd_env) (ctx : hip_packet_context)
  (hip_version : Z) (skip_key_creation : bool) (tr : list hipd_event)
  : option (Z * hip_packet_context * list hipd_event) :=
  let msg := input_msg ctx in
  match hip_get_param msg HIP_PARAM_SOLUTION with
  | Some (_, P_SOLUTION sK sI sJ) =>
    match hip_get_param msg HIP_PARAM_DIFFIE_HELLMAN with
    | Some (_, P_DIFFIE_HELLMAN pv _) =>
      let dh_group_id := group_id pv in
      if negb (i2_dh_group_known dh_group_id)
      then Some (- EINVAL, set_error ctx (- EINVAL), tr) else
      if negb (hip_get_dh_size E dh_group_id =? ntohs (pub_len pv))
      then Some (- EINVAL, set_error ctx (- EINVAL), tr) else
      let dh_group_id := if hip_version =? HIP_V1 then 0 else dh_group_id in
      if negb (hip_verify_cookie E (src_addr ctx) (dst_addr ctx) msg sK sI sJ
                 hip_version dh_group_id =? 0)
      then check_i2_out_err (- EPROTO) ctx tr else
      if skip_key_creation then
        match hadb_entry ctx with
        | None => None
        | Some entry => hip_check_i2_tail E ctx entry tr
        end
      else
        match produce_keying_material E ctx sI sJ with
        | None => None
        | Some (kres, ctx1, ev) =>
          if negb (kres =? 0) then check_i2_out_err (- EPROTO) ctx1 (tr ++ ev)
          else
            match hadb_entry ctx1 with
            | None => None
            | Some entry => hip_check_i2_tail E ctx1 entry (tr ++ ev)
            end
        end
    | _ => Some (- ENODATA, set_error ctx (- ENODATA), tr)
    end
  | _ => check_i2_out_err (- ENODATA) ctx tr
  end.

(** The branch of [hip_check_i2] that sets up a new host association, after
    a previous one (if any) has been removed.  [hip_version] is the local
    variable: the version of the removed association, or 0. *)
Definition hip_check_i2_create (E : hipd_env) (ctx : hip_packet_context)
  (hip_version : Z) (tr : list hipd_event)
  : option (Z * hip_packet_context * list hipd_event) :=
  let msg := input_msg ctx in
  match hip_hadb_create_state E with
  | None =>
    check_i2_out_err (- ENOMEM) (set_hadb_entry ctx None) (tr ++ [EvCreateState])
  | Some fresh =>
    let hip_version :=
      if hip_version =? 0 then hip_get_msg_version msg else hip_version in
    let e1 := set_hip_version fresh hip_version in
    let e2 := set_hit_peer e1 (hit_sender msg) in
    let e3 := set_our_addr e2 (dst_addr ctx) in
    let e4 := hip_init_us E e3 (hit_receiver msg) in
    hip_check_i2_mid E (set_hadb_entry ctx (Some e4)) hip_version false
      (tr ++ [EvCreateState; EvInsertState e4])
  end.

(** [hip_check_i2] (built without CONFIG_HIP_RVS and CONFIG_HIP_PERFORMANCE):
    return value, packet context and recorded calls.  A build with
    CONFIG_HIP_RVS puts one block before the first test: when the relay is
    on and the receiver HIT is not a local one, a packet for which
    [hip_relht_get] finds a relay record of another type than HIP_RVSRELAY
    is forwarded and leaves through [out_err] with -ECANCELED; every other
    packet, and every packet to a local HIT, goes on as here. *)
Definition hip_check_i2 (E : hipd_env) (ctx : hip_packet_context)
  : option (Z * hip_packet_context * list hipd_event) :=
  let msg := input_msg ctx in
  if negb (hip_hidb_hit_is_our E (hit_receiver msg)) then Some (-1, ctx, [])
  else if negb (hip_controls_sane E (ntohs (control msg)) HIP_PACKET_CTRL_ANON)
  then Some (-1, ctx, [])
  else
    let retransmission :=
      match hadb_entry ctx with
      | None => false
      | Some _ => default false (i2_is_retransmission ctx)
      end in
    if retransmission then hip_check_i2_mid E ctx 0 true []
    else
      match hadb_entry ctx with
      | Some old =>
        let hip_version := hip_version old in
        if negb (hip_del_peer_info_entry E old =? 0)
        then check_i2_out_err (-1) ctx [EvDelPeerInfo old]
        else hip_check_i2_create E ctx hip_version [EvDelPeerInfo old]
      | None => hip_check_i2_create E ctx 0 []
      end.


(** ** What a retransmitted I2 must leave alone *)


(** What the model asks of [hip_init_peer] (libhipl/hadb.c): it stores the
    peer's host identity and touches nothing else of the host association. *)
Definition init_peer_sets_peer_pub_only (E : hipd_env) : Prop :=
  forall e host_id, exists p, snd (hip_init_peer E e host_id) = set_peer_pub e p.

(** The assignments of [hip_handle_i2] to the outbound SPIs. *)
Definition set_spi_outbound (e : hip_hadb_state) (old new : Z)
  : hip_hadb_state :=
  {| hit_our := hit_our e; hit_peer := hit_peer e; state := state e;
     is_loopback := is_loopback e; our_addr := our_addr e;
     esp_transform := esp_transform e; hip_transform := hip_transform e;
     birthday := birthday e; dh_shared_key := dh_shared_key e;
     dh_shared_key_len := dh_shared_key_len e;
     hip_enc_out := hip_enc_out e; hip_hmac_out := hip_hmac_out e;
     esp_out := esp_out e; auth_out := auth_out e;
     hip_enc_in := hip_enc_in e; hip_hmac_in := hip_hmac_in e;
     esp_in := esp_in e; auth_in := auth_in e;
     current_keymat_index := current_keymat_index e;
     keymat_calc_index := keymat_calc_index e;
     esp_keymat_index := esp_keymat_index e;
     current_keymat_K := current_keymat_K e;
     our_pub := our_pub e; peer_pub := peer_pub e;
     spi_inbound_current := spi_inbound_current e;
     spi_outbound_old := old;
     spi_outbound_new := new; hip_version := hip_version e |}.

(** ** Userspace ESP in BEET mode (hipfw/user_ipsec_esp.c) *)

(** Reading [n] octets at offset [off] and writing a block at offset [off];
    [None] when the access leaves the buffer. *)
Definition buf_read (buf : bytes) (off n : nat) : option bytes :=
  if (off + n <=? length buf)%nat then Some (take n (drop off buf)) else None.

Definition buf_write (buf : bytes) (off : nat) (src : bytes) : option bytes :=
  if (off + length src <=? length buf)%nat
  then Some (take off buf ++ src ++ drop (off + length src) buf)
  else None.

(** The ESP transform of an SA ([entry->ealg]); the named suites are the
    [case] labels of the source. *)
Inductive esp_ealg :=
| HIP_ESP_AES_SHA1
| HIP_ESP_3DES_SHA1
| HIP_ESP_3DES_MD5
| HIP_ESP_BLOWFISH_SHA1
| HIP_ESP_NULL_SHA1
| HIP_ESP_NULL_MD5
| HIP_ESP_OTHER (id : Z).

(** The digests handed to OpenSSL's [HMAC]. *)
Inductive EVP_MD := EVP_md5 | EVP_sha1.

(** The block ciphers of OpenSSL used in CBC mode. *)
Inductive cbc_cipher := DES_EDE3_CBC | BF_CBC | AES_CBC.

(** [struct hip_sa_entry], restricted to the members used here.  The cipher
    key schedules ([ks], [aes_key], [bf_key]) are derived from [enc_key]. *)
Record hip_sa_entry := {
  ealg : esp_ealg;
  auth_key : option hip_crypto_key;
  enc_key : option hip_crypto_key
}.

Definition ICV_LENGTH : Z := 12.
Definition AES_BLOCK_SIZE : Z := 16.
(** [sizeof(struct hip_esp_tail)]: pad length and next header, one octet each. *)
Definition sizeof_hip_esp_tail : Z := 2.

(** First [switch] of [payload_encrypt] and third of [payload_decrypt]: the
    IV length, or the error return when the key is missing or the transform
    unsupported. *)
Definition esp_iv_len (entry : hip_sa_entry) : Z + Z :=
  match ealg entry with
  | HIP_ESP_3DES_SHA1 | HIP_ESP_3DES_MD5 =>
      if enc_key entry is Some _ then inr 8 else inl (-1)
  | HIP_ESP_BLOWFISH_SHA1 =>
      if enc_key entry is Some _ then inr 8 else inl (-1)
  | HIP_ESP_NULL_SHA1 | HIP_ESP_NULL_MD5 => inr 0
  | HIP_ESP_AES_SHA1 =>
      if enc_key entry is Some _ then inr AES_BLOCK_SIZE else inl (-1)
  | HIP_ESP_OTHER _ => inl (-1)
  end.

(** Cipher applied by the second [switch]; [None] for NULL encryption. *)
Definition esp_cipher (a : esp_ealg) : option cbc_cipher :=
  match a with
  | HIP_ESP_3DES_SHA1 | HIP_ESP_3DES_MD5 => Some DES_EDE3_CBC
  | HIP_ESP_BLOWFISH_SHA1 => Some BF_CBC
  | HIP_ESP_AES_SHA1 => Some AES_CBC
  | _ => None
  end.

(** Digest chosen by the authentication [switch] of [payload_encrypt] and
    [payload_decrypt]; [None] is the [default] label. *)
Definition esp_auth_md (a : esp_ealg) : option EVP_MD :=
  match a with
  | HIP_ESP_3DES_MD5 | HIP_ESP_NULL_MD5 => Some EVP_md5
  | HIP_ESP_3DES_SHA1 | HIP_ESP_NULL_SHA1 | HIP_ESP_AES_SHA1 => Some EVP_sha1
  | _ => None
  end.

(** The pad length computed by [payload_encrypt] (a [uint16_t]). *)
Definition esp_pad_len (iv_len elen : Z) : Z :=
  if 0 <? iv_len
  then wrap16 (iv_len - ((elen + sizeof_hip_esp_tail) mod iv_len))
  else wrap16 (4 - ((elen + sizeof_hip_esp_tail) mod 4)).

(** The padding loop [for (i = 0; i < pad_len; i++) in[in_len + i] = i + 1;],
    started at [i]. *)
Fixpoint esp_write_padding (buf : bytes) (in_len : nat) (i : nat)
  (count : nat) : option bytes :=
  match count with
  | O => Some buf
  | S c =>
      buf' ← buf_write buf (in_len + i) [wrap8 (Z.of_nat i + 1)];
      esp_write_padding buf' in_len (S i) c
  end.

Section UserspaceESP.

(** [esp_prot_get_data_offset] (hipfw/esp_prot_api.c): offset of the IV or
    payload from the start of the ESP header. *)
Variable esp_prot_get_data_offset : hip_sa_entry -> Z.
(** [hip_auth_key_length_esp] (libcore/keylen.c). *)
Variable auth_key_length_esp : esp_ealg -> Z.
(** OpenSSL: CBC encryption ([true]) and decryption ([false]) of a buffer
    under a key and an IV; the output has the length of the input. *)
Variable cbc_crypt : cbc_cipher -> bool -> hip_crypto_key -> bytes -> bytes -> bytes.
(** OpenSSL: [HMAC md key key_len data]. *)
Variable HMAC : EVP_MD -> hip_crypto_key -> Z -> bytes -> bytes.

(** [payload_encrypt].  [rnd] is what [RAND_bytes] delivers.  The result is
    the return value, the [in] buffer, the [out] buffer and [*out_len];
    [None] when an access leaves one of the buffers. *)
Definition payload_encrypt (in_ : bytes) (in_type in_len : Z) (out : bytes)
  (out_len : Z) (entry : hip_sa_entry) (rnd : bytes)
  : option (Z * bytes * bytes * Z) :=
  let elen := in_len in
  let esp_data_offset := wrap16 (esp_prot_get_data_offset entry) in
  match esp_iv_len entry with
  | inl err => Some (err, in_, out, out_len)
  | inr iv_len =>
    let cbc_iv := take (Z.to_nat iv_len) rnd in
    out1 ← (if 0 <? iv_len
            then buf_write out (Z.to_nat esp_data_offset) cbc_iv
            else Some out);
    let pad_len := esp_pad_len iv_len elen in
    in1 ← esp_write_padding in_ (Z.to_nat in_len) 0 (Z.to_nat pad_len);
    in2 ← buf_write in1 (Z.to_nat (elen + pad_len)) [wrap8 pad_len; in_type];
    let elen := wrap16 (elen + (pad_len + sizeof_hip_esp_tail)) in
    plain ← buf_read in2 0 (Z.to_nat elen);
    out2 ← match esp_cipher (ealg entry) with
           | Some c =>
               buf_write out1 (Z.to_nat (esp_data_offset + iv_len))
                 (cbc_crypt c true (default [] (enc_key entry)) cbc_iv plain)
           | None => buf_write out1 0 plain
           end;
    let elen := wrap16 (elen + iv_len) in
    let out_len := wrap16 (out_len + elen) in
    let elen := wrap16 (elen + esp_data_offset) in
    match esp_auth_md (ealg entry) with
    | None => Some (-1, in2, out2, out_len)
    | Some md =>
      match auth_key entry with
      | None => Some (-1, in2, out2, out_len)
      | Some key =>
        authed ← buf_read out2 0 (Z.to_nat elen);
        out3 ← buf_write out2 (Z.to_nat elen)
                 (HMAC md key (auth_key_length_esp (ealg entry)) authed);
        Some (0, in2, out3, wrap16 (out_len + ICV_LENGTH))
      end
    end
  end.

(** [payload_decrypt]: the return value, the [out] buffer, [*out_type] and
    [*out_len]; [None] when an access leaves one of the buffers, as the read
    of the ESP tail at [out[elen - 2]] does when fewer than two octets were
    decrypted. *)
Definition payload_decrypt (in_ : bytes) (in_len : Z) (out : bytes)
  (out_type out_len : Z) (entry : hip_sa_entry)
  : option (Z * bytes * Z * Z) :=
  let esp_data_offset := wrap16 (esp_prot_get_data_offset entry) in
  match esp_auth_md (ealg entry) with
  | None => Some (-1, out, out_type, out_len)
  | Some md =>
    let alen := ICV_LENGTH in
    let elen := wrap16 (in_len - alen) in
    match auth_key entry with
    | None => Some (-1, out, out_type, out_len)
    | Some key =>
      authed ← buf_read in_ 0 (Z.to_nat elen);
      let hmac_md := HMAC md key (auth_key_length_esp (ealg entry)) authed in
      let cmp_len :=
        match md with
        | EVP_md5 => length hmac_md
        | EVP_sha1 => Z.to_nat alen
        end in
      icv ← buf_read in_ (Z.to_nat elen) cmp_len;
      if negb (memcmp icv hmac_md cmp_len =? 0)
      then Some (1, out, out_type, out_len)
      else
        let elen := wrap16 (elen - esp_data_offset) in
        match esp_iv_len entry with
        | inl err => Some (err, out, out_type, out_len)
        | inr iv_len =>
          cbc_iv ← buf_read in_ (Z.to_nat esp_data_offset) (Z.to_nat iv_len);
          let elen := wrap16 (elen - iv_len) in
          cipher ← buf_read in_ (Z.to_nat (esp_data_offset + iv_len))
                     (Z.to_nat elen);
          out1 ← match esp_cipher (ealg entry) with
                 | Some c =>
                     buf_write out 0
                       (cbc_crypt c false (default [] (enc_key entry)) cbc_iv
                          cipher)
                 | None => buf_write out 0 cipher
                 end;
          if elen <? sizeof_hip_esp_tail then None
          else
            esp_padlen ← out1 !! Z.to_nat (elen - sizeof_hip_esp_tail);
            esp_next ← out1 !! Z.to_nat (elen - sizeof_hip_esp_tail + 1);
            Some (0, out1, esp_next,
                  wrap16 (elen - (esp_padlen + sizeof_hip_esp_tail)))
        end
    end
  end.

End UserspaceESP.


(** The number of octets that [payload_encrypt] authenticates: ESP header and
    token ([esp_data_offset]), IV, and payload with padding and tail; each
    step is a [uint16_t] addition. *)
Definition esp_auth_len (esp_data_offset iv_len in_len : Z) : Z :=
  wrap16
    (wrap16
       (wrap16 (in_len + (esp_pad_len iv_len in_len + sizeof_hip_esp_tail))
        + iv_len)
     + wrap16 esp_data_offset).

(** The ICV that an ESP packet of [len] octets (from the ESP header on)
    carries in buffer [buf]: its last [ICV_LENGTH] octets. *)
Definition esp_icv (buf : bytes) (len : Z) : bytes :=
  take (Z.to_nat ICV_LENGTH) (drop (Z.to_nat (len - ICV_LENGTH)) buf).

(** The suites whose name says HMAC-SHA1 and for which the authentication
    [switch] has a [case]. *)
Definition is_sha1_suite (a : esp_ealg) : bool :=
  match a with
  | HIP_ESP_3DES_SHA1 | HIP_ESP_NULL_SHA1 | HIP_ESP_AES_SHA1 => true
  | _ => false
  end.

Definition is_md5_suite (a : esp_ealg) : bool :=
  match a with
  | HIP_ESP_3DES_MD5 | HIP_ESP_NULL_MD5 => true
  | _ => false
  end.

(** ** ESP-protection connection tracking (hipfw/esp_prot_conntrack.c) *)

(** Modelled from the spec: the transform identifiers
    (hipfw/esp_prot_defines.h) are not among the embedded sources; they are
    numbered in the order in which the specification lists the transforms. *)
Definition ESP_PROT_TFM_UNUSED : Z := 0.
Definition ESP_PROT_TFM_PLAIN : Z := 1.
Definition ESP_PROT_TFM_PARALLEL : Z := 2.
Definition ESP_PROT_TFM_CUMULATIVE : Z := 3.
Definition ESP_PROT_TFM_PARA_CUMUL : Z := 4.
Definition ESP_PROT_TFM_TREE : Z := 5.

(** [struct esp_prot_conntrack_tfm]. *)
Record esp_prot_conntrack_tfm := {
  hash_function : bytes -> bytes;
  hash_length : Z;
  is_used : Z
}.

(** [struct esp_anchor_item], a cached anchor update.  The three arrays hold
    pointers; the model keeps the entries the caching loop has written, the
    remaining entries are NULL. *)
Record esp_anchor_item := {
  item_seq : Z;
  item_transform : Z;
  item_hash_item_length : Z;
  item_active_anchors : list (option bytes);
  item_next_anchors : list (option bytes);
  item_root_length : Z;
  item_roots : list (option bytes)
}.

(** [struct esp_cumulative_item]. *)
Record esp_cumulative_item := {
  cumulative_seq : Z;
  packet_hash : bytes
}.

(** [struct esp_tuple], restricted to the members used by the ESP-protection
    extension. *)
Record esp_tuple := {
  spi : Z;
  seq_no : Z;
  esp_prot_tfm : Z;
  hash_item_length : Z;
  hash_tree_depth : Z;
  num_hchains : Z;
  active_anchors : list bytes;
  first_active_anchors : list bytes;
  next_anchors : list bytes;
  active_root_length : Z;
  active_roots : list (option bytes);
  next_root_length : list Z;
  next_roots : list (option bytes);
  anchor_cache : list esp_anchor_item;
  hash_buffer : list esp_cumulative_item
}.

Definition set_anchor_cache (t : esp_tuple) (c : list esp_anchor_item)
  : esp_tuple :=
  {| spi := spi t; seq_no := seq_no t; esp_prot_tfm := esp_prot_tfm t;
     hash_item_length := hash_item_length t;
     hash_tree_depth := hash_tree_depth t; num_hchains := num_hchains t;
     active_anchors := active_anchors t;
     first_active_anchors := first_active_anchors t;
     next_anchors := next_anchors t;
     active_root_length := active_root_length t;
     active_roots := active_roots t; next_root_length := next_root_length t;
     next_roots := next_roots t; anchor_cache := c;
     hash_buffer := hash_buffer t |}.

Definition set_hash_buffer (t : esp_tuple) (b : list esp_cumulative_item)
  : esp_tuple :=
  {| spi := spi t; seq_no := seq_no t; esp_prot_tfm := esp_prot_tfm t;
     hash_item_length := hash_item_length t;
     hash_tree_depth := hash_tree_depth t; num_hchains := num_hchains t;
     active_anchors := active_anchors t;
     first_active_anchors := first_active_anchors t;
     next_anchors := next_anchors t;
     active_root_length := active_root_length t;
     active_roots := active_roots t; next_root_length := next_root_length t;
     next_roots := next_roots t; anchor_cache := anchor_cache t;
     hash_buffer := b |}.

(** Assignment to the members that describe the next hash item. *)
Definition set_next_item (t : esp_tuple) (len : Z) (next : list bytes)
  (root_len : list Z) (roots : list (option bytes)) : esp_tuple :=
  {| spi := spi t; seq_no := seq_no t; esp_prot_tfm := esp_prot_tfm t;
     hash_item_length := len;
     hash_tree_depth := hash_tree_depth t; num_hchains := num_hchains t;
     active_anchors := active_anchors t;
     first_active_anchors := first_active_anchors t;
     next_anchors := next;
     active_root_length := active_root_length t;
     active_roots := active_roots t; next_root_length := root_len;
     next_roots := roots; anchor_cache := anchor_cache t;
     hash_buffer := hash_buffer t |}.

(** Assignment to the members that describe the active hash item. *)
Definition set_active_item (t : esp_tuple) (active first_active : list bytes)
  (root_len : Z) (roots : list (option bytes)) : esp_tuple :=
  {| spi := spi t; seq_no := seq_no t; esp_prot_tfm := esp_prot_tfm t;
     hash_item_length := hash_item_length t;
     hash_tree_depth := hash_tree_depth t; num_hchains := num_hchains t;
     active_anchors := active;
     first_active_anchors := first_active;
     next_anchors := next_anchors t;
     active_root_length := root_len;
     active_roots := roots; next_root_length := next_root_length t;
     next_roots := next_roots t; anchor_cache := anchor_cache t;
     hash_buffer := hash_buffer t |}.

Inductive direction := ORIGINAL_DIR | REPLY_DIR.

(** [struct tuple], one direction of a connection.  The back pointer to the
    connection is not stored: the functions below receive the connection and
    the direction of the tuple they work on. *)
Record tuple := {
  esp_tuples : list esp_tuple;
  lupdate_seq : Z
}.

(** [struct connection]. *)
Record connection := {
  original : tuple;
  reply : tuple
}.

Definition tuple_of (c : connection) (d : direction) : tuple :=
  match d with ORIGINAL_DIR => original c | REPLY_DIR => reply c end.

Definition set_tuple (c : connection) (d : direction) (t : tuple) : connection :=
  match d with
  | ORIGINAL_DIR => {| original := t; reply := reply c |}
  | REPLY_DIR => {| original := original c; reply := t |}
  end.

Definition other_dir (d : direction) : direction :=
  match d with ORIGINAL_DIR => REPLY_DIR | REPLY_DIR => ORIGINAL_DIR end.

(** Parameters of the ESP-protection extension as they are on the wire. *)
Record esp_prot_anchor := {
  transform : Z;
  anchor_hash_item_length : Z;
  anchors : bytes
}.

Record esp_prot_root := {
  root_length : Z;
  root : bytes
}.

Record esp_prot_branch := {
  branch_length : Z;
  anchor_offset : Z;
  branch_nodes : bytes
}.

Record esp_prot_secret := {
  secret_length : Z;
  secret : bytes
}.

(** The firewall's configuration variables (hipfw/esp_prot_config.c,
    hipfw/esp_prot_conntrack.c). *)
Record fw_config := {
  hip_esp_protection : Z;
  window_size : Z;
  num_parallel_hchains : Z;
  ring_buffer_size : Z;
  num_linear_elements : Z;
  num_random_elements : Z;
  esp_prot_conntrack_tfms : Z -> esp_prot_conntrack_tfm
}.

(** [esp_prot_conntrack_resolve_transform]; [None] is NULL. *)
Definition esp_prot_conntrack_resolve_transform (G : fw_config)
  (transform : Z) : option esp_prot_conntrack_tfm :=
  if ESP_PROT_TFM_UNUSED <? transform
  then Some (esp_prot_conntrack_tfms G transform)
  else None.

(** The linked list of libcore/linkedlist.h, as a list: [hip_ll_add_first],
    [hip_ll_get], [hip_ll_del] and [hip_ll_get_size]. *)
Definition hip_ll_add_first {A} (l : list A) (x : A) : list A := x :: l.
Definition hip_ll_get {A} (l : list A) (index : nat) : option A := l !! index.
Definition hip_ll_del {A} (l : list A) (index : nat) : list A := delete index l.
Definition hip_ll_get_size {A} (l : list A) : nat := length l.

(** Modelled from the spec: [find_esp_tuple] (hipfw/conntrack.c) is not among
    the embedded sources; it returns the ESP tuple of the list that carries
    the SPI.  The result is the position in the list and the tuple. *)
Definition find_esp_tuple (l : list esp_tuple) (s : Z)
  : option (nat * esp_tuple) :=
  list_find (fun t => spi t = s) l.

(** [esp_prot_conntrack_find_esp_tuple]: the first ESP tuple whose first
    active anchor of chain 0 equals [active_anchor]. *)
Definition esp_prot_conntrack_find_esp_tuple (t : tuple)
  (active_anchor : bytes) (hash_length : Z) : option (nat * esp_tuple) :=
  list_find
    (fun et => memcmp (default [] (first_active_anchors et !! 0%nat))
                 active_anchor (Z.to_nat hash_length) = 0)
    (esp_tuples t).

(** Writing back the ESP tuple at position [k] of a direction's list. *)
Definition update_esp_tuple (c : connection) (d : direction) (k : nat)
  (et : esp_tuple) : connection :=
  let t := tuple_of c d in
  set_tuple c d
    {| esp_tuples := <[k := et]> (esp_tuples t);
       lupdate_seq := lupdate_seq t |}.

(** One iteration of the caching loop of [esp_prot_conntrack_cache_anchor]:
    the active anchor, the next anchor (NULL when all-zero) and the root of
    chain [i]. *)
Definition cache_anchor_entry (hash_length : Z) (a : esp_prot_anchor)
  (r : option esp_prot_root) : bytes * option bytes * option esp_prot_root :=
  let hl := Z.to_nat hash_length in
  let cmp_value := replicate hl 0 in
  (take hl (anchors a),
   if negb (memcmp (drop hl (anchors a)) cmp_value hl =? 0)
   then Some (take hl (drop hl (anchors a)))
   else None,
   r).

(** The caching loop, over chains [i .. i + count - 1]; [None] when an
    anchor parameter is missing.  A missing root entry is a NULL pointer. *)
Fixpoint cache_anchor_loop (hash_length : Z) (esp_anchors : list esp_prot_anchor)
  (esp_roots : list (option esp_prot_root)) (i count : nat)
  (item : esp_anchor_item) : option esp_anchor_item :=
  match count with
  | O => Some item
  | S c =>
      a ← esp_anchors !! i;
      let '(act, nxt, r) :=
        cache_anchor_entry hash_length a (mjoin (esp_roots !! i)) in
      cache_anchor_loop hash_length esp_anchors esp_roots (S i) c
        {| item_seq := item_seq item; item_transform := item_transform item;
           item_hash_item_length := item_hash_item_length item;
           item_active_anchors := item_active_anchors item ++ [Some act];
           item_next_anchors := item_next_anchors item ++ [nxt];
           item_root_length :=
             match r with
             | Some rt => root_length rt
             | None => item_root_length item
             end;
           item_roots :=
             item_roots item ++
             [match r with
              | Some rt => Some (take (Z.to_nat (root_length rt)) (root rt))
              | None => None
              end] |}
  end.

(** [esp_prot_conntrack_cache_anchor] for the tuple of direction [d].
    [update_id] is the SEQ parameter's field as it is on the wire.  Memory
    allocation is taken to succeed. *)
Definition esp_prot_conntrack_cache_anchor (G : fw_config) (c : connection)
  (d : direction) (update_id : Z) (esp_anchors : list esp_prot_anchor)
  (esp_roots : list (option esp_prot_root)) : option (Z * connection) :=
  a0 ← esp_anchors !! 0%nat;
  conntrack_tfm ← esp_prot_conntrack_resolve_transform G (transform a0);
  let hash_length := hash_length conntrack_tfm in
  match esp_prot_conntrack_find_esp_tuple (tuple_of c d) (anchors a0)
          hash_length with
  | None => Some (-1, c)
  | Some (k, et) =>
      let item0 :=
        {| item_seq := update_id; item_transform := transform a0;
           item_hash_item_length := anchor_hash_item_length a0;
           item_active_anchors := []; item_next_anchors := [];
           item_root_length := 0; item_roots := [] |} in
      anchor_item ← cache_anchor_loop hash_length esp_anchors esp_roots 0
                      (Z.to_nat (num_hchains et)) item0;
      Some (0, update_esp_tuple c d k
                 (set_anchor_cache et
                    (hip_ll_add_first (anchor_cache et) anchor_item)))
  end.

(** The loop over the hash chains of [esp_prot_conntrack_update_anchor],
    over chains [i .. i + count - 1].  [None]: an array index out of range
    or a NULL anchor handed to [memcmp] or [memcpy]. *)
Fixpoint update_anchor_loop (hash_length : Z) (anchor_item : esp_anchor_item)
  (i count : nat) (et : esp_tuple) : option esp_tuple :=
  match count with
  | O => Some et
  | S c =>
      let hl := Z.to_nat hash_length in
      first ← first_active_anchors et !! i;
      cached ← mjoin (item_active_anchors anchor_item !! i);
      if memcmp first cached hl =? 0 then
        nxt_src ← mjoin (item_next_anchors anchor_item !! i);
        nxt_dst ← next_anchors et !! i;
        _ ← next_root_length et !! i;
        _ ← next_roots et !! i;
        let next' := <[i := memcpy nxt_dst nxt_src hl]> (next_anchors et) in
        let et' :=
          match mjoin (item_roots anchor_item !! i) with
          | Some r =>
              set_next_item et (hash_item_length et) next'
                (<[i := item_root_length anchor_item]> (next_root_length et))
                (<[i := Some r]> (next_roots et))
          | None =>
              set_next_item et (hash_item_length et) next'
                (next_root_length et) (next_roots et)
          end in
        update_anchor_loop hash_length anchor_item (S i) c et'
      else update_anchor_loop hash_length anchor_item (S i) c et
  end.

(** [esp_prot_conntrack_update_anchor] for an acknowledgement seen on the
    tuple of direction [d].  [peer_update_id] is the ACK parameter's field
    and [old_spi] the ESP_INFO parameter's field, both as on the wire;
    [esp_info] is [None] when the message carries no ESP_INFO (the function
    asserts that it does). *)
Definition esp_prot_conntrack_update_anchor (G : fw_config) (c : connection)
  (d : direction) (peer_update_id : Z) (esp_info : option Z)
  : option (Z * connection) :=
  old_spi ← esp_info;
  let od := other_dir d in
  match find_esp_tuple (esp_tuples (tuple_of c od)) (ntohl old_spi) with
  | None => Some (-1, c)
  | Some (k, et) =>
      match list_find (fun it => item_seq it = peer_update_id)
              (anchor_cache et) with
      | Some (element_index, anchor_item) =>
          conntrack_tfm ← esp_prot_conntrack_resolve_transform G
                            (esp_prot_tfm et);
          let hash_length := hash_length conntrack_tfm in
          let et1 :=
            set_next_item et (item_hash_item_length anchor_item)
              (next_anchors et) (next_root_length et) (next_roots et) in
          et2 ← update_anchor_loop hash_length anchor_item 0
                  (Z.to_nat (num_hchains et1)) et1;
          Some (0, update_esp_tuple c od k
                     (set_anchor_cache et2
                        (hip_ll_del (anchor_cache et2) element_index)))
      | None => Some (-1, c)
      end
  end.

Section Conntrack.

(** [htree_verify_branch] (libcore/hashtree.c): root, root length, branch
    nodes, branch length, verified data, data length, leaf position, secret,
    secret length; 0 when the branch verifies. *)
Variable htree_verify_branch :
  option bytes -> Z -> bytes -> Z -> bytes -> Z -> Z -> bytes -> Z -> Z.

(** [esp_prot_verify_hchain_element] (hipfw/esp_prot_api.c): hash function,
    hash length, active anchor, next anchor, token, tolerance, active root
    and length, next root and length.  Negative on failure, positive when
    the token belongs to the next hash chain; the second component is the
    active-anchor buffer as the function leaves it. *)
Variable esp_prot_verify_hchain_element :
  (bytes -> bytes) -> Z -> bytes -> bytes -> bytes -> Z ->
  option bytes -> Z -> option bytes -> Z -> Z * bytes.

(** [esp_prot_verify_htree_element] (hipfw/esp_prot_api.c): hash function,
    hash length, tree depth, active root, next root, active uroot and length,
    next uroot and length, token. *)
Variable esp_prot_verify_htree_element :
  (bytes -> bytes) -> Z -> Z -> bytes -> bytes ->
  option bytes -> Z -> option bytes -> Z -> bytes -> Z.

(** The loop of [esp_prot_conntrack_verify_branch]. *)
Fixpoint verify_branch_loop (et : esp_tuple) (hash_length : Z)
  (esp_anchors : list esp_prot_anchor) (esp_branches : list esp_prot_branch)
  (esp_secrets : list esp_prot_secret) (i count : nat) (err : Z) : option Z :=
  match count with
  | O => Some err
  | S c =>
      a ← esp_anchors !! i;
      b ← esp_branches !! i;
      s ← esp_secrets !! i;
      r ← active_roots et !! i;
      let branch_length := ntohl (branch_length b) in
      let anchor_offset := ntohl (anchor_offset b) in
      let err' :=
        if htree_verify_branch r (active_root_length et) (branch_nodes b)
             branch_length (drop (Z.to_nat hash_length) (anchors a))
             hash_length anchor_offset (secret s) (secret_length s) =? 0
        then err else -1 in
      verify_branch_loop et hash_length esp_anchors esp_branches esp_secrets
        (S i) c err'
  end.

(** [esp_prot_conntrack_verify_branch]. *)
Definition esp_prot_conntrack_verify_branch (G : fw_config) (t : tuple)
  (esp_anchors : list esp_prot_anchor) (esp_branches : list esp_prot_branch)
  (esp_secrets : list esp_prot_secret) : option Z :=
  a0 ← esp_anchors !! 0%nat;
  _ ← esp_branches !! 0%nat;
  _ ← esp_secrets !! 0%nat;
  conntrack_tfm ← esp_prot_conntrack_resolve_transform G (transform a0);
  let hash_length := hash_length conntrack_tfm in
  match esp_prot_conntrack_find_esp_tuple t (anchors a0) hash_length with
  | None => Some (-1)
  | Some (_, et) =>
      verify_branch_loop et hash_length esp_anchors esp_branches esp_secrets
        0 (Z.to_nat (num_hchains et)) 0
  end.

(** The parameters of a light UPDATE, as the extraction loops of
    [esp_prot_conntrack_lupdate] deliver them: the SEQ and ACK fields (as on
    the wire), the ESP_INFO's old SPI, and the arrays of anchor, branch,
    secret and root parameters (the root array is zero-initialised). *)
Record lupdate_params := {
  lu_seq : option Z;
  lu_ack : option Z;
  lu_esp_info : option Z;
  lu_anchors : list esp_prot_anchor;
  lu_branches : list esp_prot_branch;
  lu_secrets : list esp_prot_secret;
  lu_roots : list (option esp_prot_root)
}.

Definition set_lupdate_seq (c : connection) (d : direction) (s : Z)
  : connection :=
  set_tuple c d {| esp_tuples := esp_tuples (tuple_of c d); lupdate_seq := s |}.

(** [esp_prot_conntrack_lupdate] for a light UPDATE seen on the tuple of
    direction [d]. *)
Definition esp_prot_conntrack_lupdate (G : fw_config) (c : connection)
  (d : direction) (common : lupdate_params) : option (Z * connection) :=
  if negb (hip_esp_protection G =? 0) then
    match lu_seq common with
    | Some update_id =>
        if ntohl update_id <? lupdate_seq (tuple_of c d)
        then Some (-1, c)
        else
          let c1 := set_lupdate_seq c d (ntohl update_id) in
          vres ← esp_prot_conntrack_verify_branch G (tuple_of c1 d)
                   (lu_anchors common) (lu_branches common)
                   (lu_secrets common);
          if negb (vres =? 0) then Some (-1, c1)
          else
            '(cres, c2) ← esp_prot_conntrack_cache_anchor G c1 d update_id
                            (lu_anchors common) (lu_roots common);
            if negb (cres =? 0) then Some (-1, c2) else Some (0, c2)
    | None =>
        match lu_ack common with
        | Some peer_update_id =>
            '(ures, c1) ← esp_prot_conntrack_update_anchor G c d
                            peer_update_id (lu_esp_info common);
            if negb (ures =? 0) then Some (-1, c1) else Some (0, c1)
        | None => Some (-1, c)
        end
    end
  else Some (0, c).

(** The part of an ESP packet that the verifier reads: the sequence number
    (as on the wire), the token behind the ESP header, the cumulative
    authentication items behind the token, and the octets of the packet from
    the ESP header on. *)
Record esp_packet := {
  esp_seq : Z;
  esp_token : bytes;
  esp_cumulative : list esp_cumulative_item;
  esp_octets : bytes
}.

(** [struct hip_fw_context], restricted to what the verifier reads. *)
Record hip_fw_context := {
  data_len : Z;
  ip_hdr_len : Z;
  udp_encap_hdr : bool;
  esp : esp_packet
}.

Definition sizeof_udphdr : Z := 8.

(** C's [%] on operands of which the left one is not negative. *)
Definition c_rem (a b : Z) : option Z :=
  if b =? 0 then None else Some (Z.rem a b).

Definition is_cumulative (tfm : Z) : bool :=
  (tfm =? ESP_PROT_TFM_CUMULATIVE) || (tfm =? ESP_PROT_TFM_PARA_CUMUL).

(** The loop that stores the cumulative-authentication items of a verified
    packet in the ring buffer, over items [i .. i + count - 1]. *)
Fixpoint track_cumulative (G : fw_config) (items : list esp_cumulative_item)
  (i count : nat) (buf : list esp_cumulative_item)
  : option (list esp_cumulative_item) :=
  match count with
  | O => Some buf
  | S c =>
      it ← items !! i;
      idx ← c_rem (cumulative_seq it) (ring_buffer_size G);
      old ← buf !! Z.to_nat idx;
      if idx <? 0 then None
      else
        track_cumulative G items (S i) c
          (if cumulative_seq old <? cumulative_seq it
           then <[Z.to_nat idx := it]> buf else buf)
  end.

(** The anchor change at the end of [esp_prot_conntrack_verify]
    ([err > 0]). *)
Definition anchor_change (et : esp_tuple) (active_hchain : nat)
  (use_hash_trees : bool) (hash_length : Z) (token : bytes)
  : option esp_tuple :=
  let hl := Z.to_nat hash_length in
  act ← active_anchors et !! active_hchain;
  fst_act ← first_active_anchors et !! active_hchain;
  nxt ← next_anchors et !! active_hchain;
  nroot ← next_roots et !! active_hchain;
  nlen ← next_root_length et !! active_hchain;
  _ ← active_roots et !! active_hchain;
  let act' := if use_hash_trees then memcpy act nxt hl else memcpy act token hl in
  let et1 :=
    set_active_item et
      (<[active_hchain := act']> (active_anchors et))
      (<[active_hchain := memcpy fst_act nxt hl]> (first_active_anchors et))
      nlen
      (<[active_hchain := nroot]> (active_roots et)) in
  Some (set_next_item et1 (hash_item_length et1) (next_anchors et1)
          (<[active_hchain := 0]> (next_root_length et1))
          (<[active_hchain := None]> (next_roots et1))).

(** The members of chain [h] that are handed to the token verification:
    active anchor, next anchor, active root, next root and its length. *)
Definition chain_state (et : esp_tuple) (h : nat)
  : option (bytes * bytes * option bytes * option bytes * Z) :=
  act ← active_anchors et !! h;
  nxt ← next_anchors et !! h;
  aroot ← active_roots et !! h;
  nroot ← next_roots et !! h;
  nlen ← next_root_length et !! h;
  Some (act, nxt, aroot, nroot, nlen).

(** The verification window test of [esp_prot_conntrack_verify]:
    the difference is taken on [uint32_t], [window_size] is cast to
    [unsigned]. *)
Definition seq_diff (current_seq stored : Z) : Z := wrap32 (current_seq - stored).

Definition in_verify_window (G : fw_config) (current_seq stored : Z) : bool :=
  (0 <? seq_diff current_seq stored)
  && (seq_diff current_seq stored <=? wrap32 (window_size G)).

(** [esp_prot_conntrack_verify]: the return value and the ESP tuple. *)
Definition esp_prot_conntrack_verify (G : fw_config) (ctx : hip_fw_context)
  (et : esp_tuple) : option (Z * esp_tuple) :=
  if negb (hip_esp_protection G =? 0) then
    if ESP_PROT_TFM_UNUSED <? esp_prot_tfm et then
      conntrack_tfm ← esp_prot_conntrack_resolve_transform G (esp_prot_tfm et);
      let pkt := esp ctx in
      let esp_len :=
        let l := data_len ctx - ip_hdr_len ctx in
        if udp_encap_hdr ctx then l - sizeof_udphdr else l in
      let current_seq := ntohl (esp_seq pkt) in
      h ← c_rem (wrap32 (current_seq - 1)) (num_hchains et);
      let active_hchain := Z.to_nat h in
      let hl := hash_length conntrack_tfm in
      if esp_prot_tfm et =? ESP_PROT_TFM_TREE then
        '(act, nxt, aroot, nroot, nlen) ← chain_state et active_hchain;
        let err :=
          esp_prot_verify_htree_element (hash_function conntrack_tfm) hl
            (hash_tree_depth et) act nxt aroot (active_root_length et)
            nroot nlen (esp_token pkt) in
        if err <? 0 then Some (-1, et)
        else if 0 <? err then
          et' ← anchor_change et active_hchain true hl (esp_token pkt);
          Some (0, et')
        else Some (err, et)
      else
        '(err, et1) ←
          (if in_verify_window G current_seq (seq_no et) then
             '(act, nxt, aroot, nroot, nlen) ← chain_state et active_hchain;
             let num_verify := seq_diff current_seq (seq_no et) in
             let '(err, act') :=
               esp_prot_verify_hchain_element (hash_function conntrack_tfm)
                 hl act nxt (esp_token pkt) num_verify aroot
                 (active_root_length et) nroot nlen in
             Some (err,
                   set_active_item et
                     (<[active_hchain := act']> (active_anchors et))
                     (first_active_anchors et) (active_root_length et)
                     (active_roots et))
           else if is_cumulative (esp_prot_tfm et)
                   && (0 <? wrap32 (seq_no et - current_seq)) then
             idx ← c_rem current_seq (ring_buffer_size G);
             if idx <? 0 then None else
             cached_element ← hash_buffer et !! Z.to_nat idx;
             if cumulative_seq cached_element =? current_seq then
               let packet_hash' :=
                 hash_function conntrack_tfm
                   (take (Z.to_nat esp_len) (esp_octets pkt)) in
               if negb (memcmp (packet_hash cached_element) packet_hash'
                          (Z.to_nat hl) =? 0)
               then Some (-1, et) else Some (0, et)
             else Some (-1, et)
           else Some (-1, et));
        if err <? 0 then Some (-1, et1)
        else
          et2 ← (if is_cumulative (esp_prot_tfm et1) then
                   buf ← track_cumulative G (esp_cumulative pkt) 0
                           (Z.to_nat (num_linear_elements G
                                      + num_random_elements G))
                           (hash_buffer et1);
                   Some (set_hash_buffer et1 buf)
                 else Some et1);
          if 0 <? err then
            et3 ← anchor_change et2 active_hchain false hl (esp_token pkt);
            Some (0, et3)
          else Some (err, et2)
    else Some (0, et)
  else Some (0, et).

End Conntrack.

(** ** Concrete inputs *)

(** A zeroed host association, as [calloc] delivers it. *)
Definition hip_hadb_state_zero : hip_hadb_state :=
  {| hit_our := replicate 16 0; hit_peer := replicate 16 0;
     state := HIP_STATE_NONE; is_loopback := 0; our_addr := replicate 16 0;
     esp_transform := 0; hip_transform := 0; birthday := 0;
     dh_shared_key := None; dh_shared_key_len := 0;
     hip_enc_out := replicate 32 0; hip_hmac_out := replicate 32 0;
     esp_out := replicate 32 0; auth_out := replicate 32 0;
     hip_enc_in := replicate 32 0; hip_hmac_in := replicate 32 0;
     esp_in := replicate 32 0; auth_in := replicate 32 0;
     current_keymat_index := 0; keymat_calc_index := 0;
     esp_keymat_index := 0; current_keymat_K := replicate 20 0;
     our_pub := None; peer_pub := None; spi_inbound_current := 0;
     spi_outbound_old := 0; spi_outbound_new := 0; hip_version := 0 |}.

(** Two HITs under the ORCHID prefix; [hit_A] is the bigger one. *)
Definition hit_A : hip_hit_t := [32; 1; 0; 16; 0; 0; 0; 0; 0; 0; 0; 0; 0; 0; 0; 9].
Definition hit_B : hip_hit_t := [32; 1; 0; 16; 0; 0; 0; 0; 0; 0; 0; 0; 0; 0; 0; 4].

Definition empty_msg (sender receiver : hip_hit_t) : hip_common :=
  {| total_len := 40; ver_res := 1; checksum := 0; control := 0;
     hit_sender := sender; hit_receiver := receiver; params := [] |}.

(** A host in state I2-SENT that receives the peer's I2. *)
Definition ctx_i2_sent (our peer : hip_hit_t) : hip_packet_context :=
  {| input_msg := empty_msg peer our;
     src_addr := replicate 16 0; dst_addr := replicate 16 0;
     hadb_entry :=
       Some (set_ids hip_hadb_state_zero our peer (replicate 16 0) None None 1);
     error := 0 |}.

(** Whether [hip_handle_i2_in_i2_sent] makes the handler chain drop the
    received I2. *)
Definition i2_dropped_in_i2_sent (ctx : hip_packet_context) : bool :=
  match hip_handle_i2_in_i2_sent ctx with
  | Some (r, _) => negb (r =? 0)
  | None => false
  end.


(** A toy HMAC: twenty octets, each the sum of the key octets, the length
    and the checksum field, modulo 256. *)
Definition toy_write_hmac (ty : Z) (key : hip_crypto_key) (m : hip_common)
  (len : Z) : option bytes :=
  Some (replicate 20 (wrap8 (foldr Z.add 0 key + len + checksum m))).

(** A message whose HMAC parameter, at offset 56, does not verify. *)
Definition msg_bad_hmac : hip_common :=
  {| total_len := 80; ver_res := 1; checksum := 48879; control := 0;
     hit_sender := hit_B; hit_receiver := hit_A;
     params := [(40, P_ESP_INFO 18432 0 1); (56, P_HMAC (replicate 20 9))] |}.

(** A message whose HMAC parameter verifies under the key [[1; 2; 3]] and
    whose checksum field, 0x1234, does not fit into one octet. *)
Definition msg_good_hmac : hip_common :=
  {| total_len := 80; ver_res := 1; checksum := 4660; control := 0;
     hit_sender := hit_B; hit_receiver := hit_A;
     params := [(40, P_ESP_INFO 18432 0 1); (56, P_HMAC (replicate 20 62))] |}.


(** A toy digest: twenty octets, each the sum of the input modulo 256. *)
Definition toy_sha1 (l : bytes) : bytes :=
  replicate 20 (wrap8 (foldr Z.add 0 l)).

(** A responder whose only HIT is [hit_B] and whose helpers accept what they
    are given; keys have the lengths of AES-CBC with HMAC-SHA1. *)
Definition toy_env : hipd_env :=
  {| hip_hidb_hit_is_our := fun h => bool_decide (h = hit_B);
     hip_controls_sane := fun _ _ => true;
     hip_del_peer_info_entry := fun _ => 0;
     hip_hadb_create_state := Some hip_hadb_state_zero;
     hip_init_us := fun e h =>
       set_ids e h (hit_peer e) (our_addr e) (Some [7; 7]) (peer_pub e)
         (hip_version e);
     hip_init_peer := fun e hid => (0, set_peer_pub e (Some hid));
     hip_get_dh_size := fun g =>
       if g =? HIP_DH_OAKLEY_5 then 192
       else if g =? HIP_DH_OAKLEY_15 then 384
       else if g =? HIP_DH_NIST_P_384 then 96 else 0;
     hip_verify_cookie := fun _ _ _ _ _ _ _ _ => 0;
     hip_select_hip_transform := fun l => default 0 (head l);
     hip_select_esp_transform := fun l => default 0 (head l);
     hip_transform_key_length := fun _ => 16;
     hip_hmac_key_length := fun _ => 20;
     hip_enc_key_length := fun _ => 16;
     hip_auth_key_length_esp := fun _ => 20;
     hip_dh_select_key := fun pv _ => pv;
     hip_calculate_shared_secret := fun _ _ _ _ => Some [5; 6; 7; 8];
     sha1 := toy_sha1;
     hip_write_hmac := toy_write_hmac;
     hip_get_param_transform_suite_id := fun l => default 0 (head l);
     hip_crypto_encrypted := fun data _ _ _ _ => Some data;
     raw_param_type := fun _ => HIP_PARAM_HOST_ID;
     hip_build_host_id_from_param := fun raw => Some raw;
     verify := fun _ _ => 0;
     build_r2 := fun our peer ver ki spi_in key pub =>
       our ++ peer ++ [ver; ki; spi_in] ++ key ++ default [] pub |}.

(** An I2 from [hit_A] to [hit_B] under HIPv2 whose DIFFIE_HELLMAN parameter
    uses the group [dh_group] with a public value of [dh_len] octets
    ([dh_len_wire] is the length in network byte order) and whose HMAC
    parameter holds [hmac]. *)
Definition msg_i2 (dh_group dh_len_wire : Z) (hmac : bytes) : hip_common :=
  {| total_len := 480; ver_res := HIP_V2; checksum := 4660; control := 0;
     hit_sender := hit_A; hit_receiver := hit_B;
     params :=
       [(40, P_ESP_INFO 18432 0 16777216);
        (56, P_SOLUTION 10 (replicate 8 1) (replicate 8 2));
        (80, P_DIFFIE_HELLMAN
               {| group_id := dh_group; pub_len := dh_len_wire;
                  public_value := [5; 6; 7; 8; 9] |} None);
        (280, P_HIP_TRANSFORM [HIP_HIP_AES_SHA1]);
        (288, P_ESP_TRANSFORM [1]);
        (296, P_HOST_ID [3; 1; 4; 1; 5]);
        (448, P_HMAC hmac)] |}.

Definition ctx_i2 (m : hip_common) (entry : option hip_hadb_state)
  : hip_packet_context :=
  {| input_msg := m; src_addr := replicate 16 1; dst_addr := replicate 16 2;
     hadb_entry := entry; error := 0 |}.


(** The I2 of the examples, and the responder's host association after this
    I2 has been checked and handled once ([hip_handle_i2] stores the SPIs). *)
Definition msg_i2_ok : hip_common :=
  msg_i2 HIP_DH_OAKLEY_5 49152 (replicate 20 120).

Definition entry_after_i2 : hip_hadb_state :=
  match hip_check_i2 toy_env (ctx_i2 msg_i2_ok None) with
  | Some (_, c, _) =>
      set_spi_outbound (default hip_hadb_state_zero (hadb_entry c)) 0 1
  | None => hip_hadb_state_zero
  end.

(** The R1 that the initiator [hit_A] receives from [hit_B], and the
    initiator's context when it handles it. *)
Definition msg_r1 : hip_common :=
  {| total_len := 400; ver_res := HIP_V2; checksum := 0; control := 0;
     hit_sender := hit_B; hit_receiver := hit_A;
     params :=
       [(40, P_DIFFIE_HELLMAN
               {| group_id := HIP_DH_OAKLEY_5; pub_len := 49152;
                  public_value := [9; 9; 9] |} None);
        (240, P_HIP_TRANSFORM [HIP_HIP_AES_SHA1; HIP_HIP_3DES_SHA1]);
        (256, P_ESP_TRANSFORM [1; 2])] |}.

Definition ctx_r1 : hip_packet_context :=
  {| input_msg := msg_r1; src_addr := replicate 16 2;
     dst_addr := replicate 16 1;
     hadb_entry :=
       Some (set_ids hip_hadb_state_zero hit_A hit_B (replicate 16 1) None
               None HIP_V2);
     error := 0 |}.

Definition ctx_i2_fresh : hip_packet_context :=
  ctx_i2 msg_i2_ok
    (Some (set_ids hip_hadb_state_zero hit_B hit_A (replicate 16 2) None None
             HIP_V2)).

Definition puzzle_I : bytes := replicate 8 1.
Definition puzzle_J : bytes := replicate 8 2.

(** The two runs of [produce_keying_material], on the initiator and on the
    responder, and what they leave behind. *)
Definition keymat_run_A := produce_keying_material toy_env ctx_r1 puzzle_I puzzle_J.
Definition keymat_run_B :=
  produce_keying_material toy_env ctx_i2_fresh puzzle_I puzzle_J.

Definition run_ctx (r : option (Z * hip_packet_context * list hipd_event))
  (d : hip_packet_context) : hip_packet_context :=
  match r with Some (_, c, _) => c | None => d end.

Definition run_events (r : option (Z * hip_packet_context * list hipd_event))
  : list hipd_event :=
  match r with Some (_, _, t) => t | None => [] end.

Definition run_entry (r : option (Z * hip_packet_context * list hipd_event))
  : hip_hadb_state :=
  default hip_hadb_state_zero (hadb_entry (run_ctx r ctx_r1)).

(** Toy primitives for the userspace ESP: an ESP header of eight octets and
    no token, a "cipher" that XORs every octet with 90, and an HMAC that
    yields sixteen (MD5) or twenty (SHA-1) octets derived from the digest,
    the key and the data. *)
Definition toy_data_offset (_ : hip_sa_entry) : Z := 8.
Definition toy_auth_key_length (_ : esp_ealg) : Z := 20.
Definition toy_cbc (_ : cbc_cipher) (_ : bool) (_ : hip_crypto_key)
  (_ : bytes) (data : bytes) : bytes :=
  (fun x => Z.lxor x 90) <$> data.
Definition toy_hmac (md : EVP_MD) (key : hip_crypto_key) (_ : Z)
  (data : bytes) : bytes :=
  match md with
  | EVP_md5 => replicate 16 (wrap8 (foldr Z.add 1 (key ++ data)))
  | EVP_sha1 => replicate 20 (wrap8 (foldr Z.add 2 (key ++ data)))
  end.

Definition toy_sa (a : esp_ealg) : hip_sa_entry :=
  {| ealg := a; auth_key := Some (replicate 20 3);
     enc_key := Some (replicate 16 4) |}.

(** A transport payload of five octets in a buffer with room for padding,
    and an output buffer that starts with the ESP header (SPI 1, sequence
    number 7). *)
Definition esp_payload_buf : bytes := [10; 20; 30; 40; 50] ++ replicate 40 0.
Definition esp_out_buf : bytes := [0; 0; 0; 1; 0; 0; 0; 7] ++ replicate 72 0.
Definition toy_rnd : bytes := Z.of_nat <$> seq 100 16.

Definition toy_encrypt (a : esp_ealg) : option (Z * bytes * bytes * Z) :=
  payload_encrypt toy_data_offset toy_auth_key_length toy_cbc toy_hmac
    esp_payload_buf 6 5 esp_out_buf 0 (toy_sa a) toy_rnd.

Definition enc_ret (r : option (Z * bytes * bytes * Z)) : Z :=
  match r with Some (e, _, _, _) => e | None => -2 end.
Definition enc_in (r : option (Z * bytes * bytes * Z)) : bytes :=
  match r with Some (_, i, _, _) => i | None => [] end.
Definition enc_out (r : option (Z * bytes * bytes * Z)) : bytes :=
  match r with Some (_, _, o, _) => o | None => [] end.
Definition enc_out_len (r : option (Z * bytes * bytes * Z)) : Z :=
  match r with Some (_, _, _, l) => l | None => 0 end.

(** The AES-CBC/HMAC-SHA1 packet of the example (52 octets from the ESP
    header on), the same packet with one octet of its ICV changed, and the
    verification of a packet. *)
Definition toy_packet : bytes := take 52 (enc_out (toy_encrypt HIP_ESP_AES_SHA1)).
Definition tampered_packet : bytes := <[45%nat := 0]> toy_packet.

Definition toy_decrypt (pkt : bytes) : option (Z * bytes * Z * Z) :=
  payload_decrypt toy_data_offset toy_auth_key_length toy_cbc toy_hmac
    pkt 52 (replicate 64 0) 0 0 (toy_sa HIP_ESP_AES_SHA1).

Definition dec_ret (r : option (Z * bytes * Z * Z)) : Z :=
  match r with Some (e, _, _, _) => e | None => -2 end.
Definition dec_out (r : option (Z * bytes * Z * Z)) : bytes :=
  match r with Some (_, o, _, _) => o | None => [] end.
Definition dec_type (r : option (Z * bytes * Z * Z)) : Z :=
  match r with Some (_, _, t, _) => t | None => 0 end.
Definition dec_len (r : option (Z * bytes * Z * Z)) : Z :=
  match r with Some (_, _, _, l) => l | None => 0 end.

(** A firewall configuration with one hash chain per direction, a window of
    64 and a toy hash of four octets for every transform. *)
Definition toy_hash4 (l : bytes) : bytes :=
  replicate 4 (wrap8 (foldr Z.add 0 l * 7 + 1)).

Definition toy_tfm : esp_prot_conntrack_tfm :=
  {| hash_function := toy_hash4; hash_length := 4; is_used := 1 |}.

Definition toy_fw : fw_config :=
  {| hip_esp_protection := 1; window_size := 64; num_parallel_hchains := 1;
     ring_buffer_size := 64; num_linear_elements := 1;
     num_random_elements := 0; esp_prot_conntrack_tfms := fun _ => toy_tfm |}.

Definition anchor_old : bytes := [1; 1; 1; 1].
Definition anchor_new : bytes := [2; 2; 2; 2].
Definition token_seen : bytes := [9; 9; 9; 9].

(** An ESP tuple with SPI 1 that has seen seven packets: its anchor is
    [anchor_old], the last verified token [token_seen]. *)
Definition et_of (tfm : Z) (buf : list esp_cumulative_item) : esp_tuple :=
  {| spi := 1; seq_no := 7; esp_prot_tfm := tfm; hash_item_length := 100;
     hash_tree_depth := 0; num_hchains := 1;
     active_anchors := [token_seen]; first_active_anchors := [anchor_old];
     next_anchors := [[0; 0; 0; 0]]; active_root_length := 0;
     active_roots := [None]; next_root_length := [0]; next_roots := [None];
     anchor_cache := []; hash_buffer := buf |}.

Definition et_plain : esp_tuple := et_of ESP_PROT_TFM_PLAIN [].

Definition conn0 : connection :=
  {| original := {| esp_tuples := [et_plain]; lupdate_seq := 0 |};
     reply := {| esp_tuples := []; lupdate_seq := 0 |} |}.

(** The anchor parameter of a first UPDATE: active anchor, then the new
    anchor. *)
Definition update_anchor_param : esp_prot_anchor :=
  {| transform := ESP_PROT_TFM_PLAIN; anchor_hash_item_length := 200;
     anchors := anchor_old ++ anchor_new |}.

Definition ct_ret (r : option (Z * connection)) : Z :=
  match r with Some (e, _) => e | None => -2 end.
Definition ct_conn (r : option (Z * connection)) : connection :=
  match r with Some (_, c) => c | None => conn0 end.
Definition ct_tuple (c : connection) (d : direction) (k : nat) : esp_tuple :=
  default et_plain (esp_tuples (tuple_of c d) !! k).

(** The connection after the first UPDATE with SEQ 5 has been seen in the
    original direction, and after the matching ACK (with the ESP_INFO's old
    SPI 1 in network byte order) has been seen in the reply direction. *)
Definition conn_cached : connection :=
  ct_conn (esp_prot_conntrack_cache_anchor toy_fw conn0 ORIGINAL_DIR 5
             [update_anchor_param] [None]).

Definition conn_acked : connection :=
  ct_conn (esp_prot_conntrack_update_anchor toy_fw conn_cached REPLY_DIR 5
             (Some 16777216)).

(** A light UPDATE that announces [anchor_new] with SEQ 5, and a branch
    verification that accepts it. *)
Definition toy_htree_verify_branch (_ : option bytes) (_ : Z) (_ : bytes)
  (_ : Z) (_ : bytes) (_ _ : Z) (_ : bytes) (_ : Z) : Z := 0.

Definition light_update : lupdate_params :=
  {| lu_seq := Some 5; lu_ack := None; lu_esp_info := None;
     lu_anchors := [update_anchor_param];
     lu_branches :=
       [{| branch_length := 0; anchor_offset := 0; branch_nodes := [] |}];
     lu_secrets := [{| secret_length := 0; secret := [] |}];
     lu_roots := [None] |}.

(** The connection after the light UPDATE has been seen once, and after it
    has been seen a second time. *)
Definition conn_lu1 : connection :=
  ct_conn (esp_prot_conntrack_lupdate toy_htree_verify_branch toy_fw conn0
             ORIGINAL_DIR light_update).

Definition conn_lu2 : connection :=
  ct_conn (esp_prot_conntrack_lupdate toy_htree_verify_branch toy_fw conn_lu1
             ORIGINAL_DIR light_update).

(** A stand-in for the hash chain verification of esp_prot_api.c: the token
    is accepted when hashing it at most [tolerance] times yields the active
    anchor, which it then replaces. *)
Fixpoint toy_hchain_steps (h : bytes -> bytes) (hl : nat) (x anchor : bytes)
  (n : nat) : bool :=
  match n with
  | O => false
  | S k =>
      (memcmp (h x) anchor hl =? 0) || toy_hchain_steps h hl (h x) anchor k
  end.

Definition toy_verify_hchain_element (h : bytes -> bytes) (hl : Z)
  (active_anchor next_anchor hash_value : bytes) (tolerance : Z)
  (_ : option bytes) (_ : Z) (_ : option bytes) (_ : Z) : Z * bytes :=
  if toy_hchain_steps h (Z.to_nat hl) hash_value active_anchor
       (Z.to_nat tolerance)
  then (0, memcpy active_anchor hash_value (Z.to_nat hl))
  else (-1, active_anchor).

Definition toy_verify_htree_element (_ : bytes -> bytes) (_ _ : Z)
  (_ _ : bytes) (_ : option bytes) (_ : Z) (_ : option bytes) (_ : Z)
  (_ : bytes) : Z := -1.

(** The packet with sequence number 8 that follows the seven packets seen:
    its token hashes to [token_seen]. *)
Definition ctx_next : hip_fw_context :=
  {| data_len := 32; ip_hdr_len := 20; udp_encap_hdr := false;
     esp := {| esp_seq := 134217728; esp_token := [184; 0; 0; 0];
               esp_cumulative := [];
               esp_octets := [0; 0; 0; 1; 0; 0; 0; 8; 184; 0; 0; 0] |} |}.

(** A reordered packet with sequence number 3 in cumulative authentication
    mode, and an ESP tuple whose ring buffer holds the hash of that packet
    in slot 3. *)
Definition ctx_reordered : hip_fw_context :=
  {| data_len := 40; ip_hdr_len := 20; udp_encap_hdr := false;
     esp := {| esp_seq := 50331648; esp_token := [3; 3; 3; 3];
               esp_cumulative :=
                 [{| cumulative_seq := 2; packet_hash := [4; 4; 4; 4] |}];
               esp_octets := [0; 0; 0; 1; 0; 0; 0; 3; 3; 3; 3; 3;
                              2; 0; 0; 0; 4; 4; 4; 4] |} |}.

Definition et_cumulative : esp_tuple :=
  et_of ESP_PROT_TFM_CUMULATIVE
    (<[3%nat := {| cumulative_seq := 3;
                   packet_hash := toy_hash4 (esp_octets (esp ctx_reordered)) |}]>
       (replicate 64 {| cumulative_seq := 0; packet_hash := [0; 0; 0; 0] |})).

Definition verify_ret (r : option (Z * esp_tuple)) : Z :=
  match r with Some (e, _) => e | None => -2 end.
Definition verify_tuple (r : option (Z * esp_tuple)) : esp_tuple :=
  match r with Some (_, t) => t | None => et_plain end.

(** ** Vocabulary of the statements *)


(** A slice of the keying material. *)
Definition km_slice (keymat : bytes) (off n : nat) : bytes :=
  take n (drop off keymat).

(** The keys that the eight draws deliver when the local host has the
    greater HIT, as slices of the keying material. *)
Definition keys_of_keymat (keymat : bytes) (lens : Z * Z * Z * Z) : ha_keys :=
  let '(hip_l, hmac_l, esp_l, auth_l) := lens in
  let a := Z.to_nat hip_l in
  let b := Z.to_nat hmac_l in
  let c := Z.to_nat esp_l in
  let d := Z.to_nat auth_l in
  {| k_hip_enc_out := km_slice keymat 0 a;
     k_hip_hmac_out := km_slice keymat a b;
     k_hip_enc_in := km_slice keymat (a + b) a;
     k_hip_hmac_in := km_slice keymat (a + b + a) b;
     k_esp_out := km_slice keymat (a + b + a + b) c;
     k_auth_out := km_slice keymat (a + b + a + b + c) d;
     k_esp_in := km_slice keymat (a + b + a + b + c + d) c;
     k_auth_in := km_slice keymat (a + b + a + b + c + d + c) d |}.

Definition lens_nonneg (lens : Z * Z * Z * Z) : Prop :=
  let '(hip_l, hmac_l, esp_l, auth_l) := lens in
  0 <= hip_l /\ 0 <= hmac_l /\ 0 <= esp_l /\ 0 <= auth_l.

(** The octets written by the padding loop. *)
Definition pad_octets (i count : nat) : bytes :=
  (fun j => wrap8 (Z.of_nat j + 1)) <$> seq i count.

(** What [payload_encrypt] hands to the cipher: the payload, the pad octets
    and the ESP tail (pad length and next header). *)
Definition esp_plaintext (in_ : bytes) (in_type in_len iv_len : Z) : bytes :=
  let pad_len := esp_pad_len iv_len in_len in
  take (Z.to_nat in_len) in_ ++ pad_octets 0 (Z.to_nat pad_len)
    ++ [wrap8 pad_len; in_type].

(** Proof steps: a return that is not 0 cannot be a successful one. *)
Ltac bad_ret H :=
  exfalso; unfold check_i2_out_err in H;
  injection H as H _ _; cbv in H; discriminate H.

Ltac bad_ret_pkm H :=
  exfalso; injection H as H _ _; cbv in H; discriminate H.

(** The arrays of an ESP tuple that the anchor update indexes by hash chain
    hold an entry for each of its [num_hchains] chains (in C they have
    MAX_NUM_PARALLEL_HCHAINS entries). *)
Definition chains_allocated (et : esp_tuple) : Prop :=
  let n := Z.to_nat (num_hchains et) in
  (n <= length (first_active_anchors et))%nat /\
  (n <= length (next_anchors et))%nat /\
  (n <= length (next_root_length et))%nat /\
  (n <= length (next_roots et))%nat.

(** The update anchor that an ESP_PROT_ANCHOR parameter announces behind its
    active anchor, as the caching loop reads it: NULL when it is all-zero. *)
Definition announced_anchor (hash_length : Z) (a : esp_prot_anchor)
  : option bytes :=
  snd (fst (cache_anchor_entry hash_length a None)).

(** The light UPDATE that acknowledges [light_update] and names SPI 1. *)
Definition light_ack : lupdate_params :=
  {| lu_seq := None; lu_ack := Some 5; lu_esp_info := Some 16777216;
     lu_anchors := []; lu_branches := []; lu_secrets := []; lu_roots := [] |}.

(** A stand-in for the hash chain verification that also knows the next
    anchor: a token that hashes to the active anchor is accepted with 0, one
    that hashes to the next anchor with 1 (anchor change). *)
Definition toy_verify_hchain_next (h : bytes -> bytes) (hl : Z)
  (active_anchor next_anchor hash_value : bytes) (tolerance : Z)
  (_ : option bytes) (_ : Z) (_ : option bytes) (_ : Z) : Z * bytes :=
  if toy_hchain_steps h (Z.to_nat hl) hash_value active_anchor
       (Z.to_nat tolerance)
  then (0, memcpy active_anchor hash_value (Z.to_nat hl))
  else if toy_hchain_steps h (Z.to_nat hl) hash_value next_anchor
            (Z.to_nat tolerance)
  then (1, active_anchor)
  else (-1, active_anchor).

(** The ESP tuple after the anchor update has been acknowledged, and the
    first packet of the new hash chain: its token hashes to [anchor_new]. *)
Definition et_acked : esp_tuple := ct_tuple conn_acked ORIGINAL_DIR 0.

Definition ctx_new_chain : hip_fw_context :=
  {| data_len := 32; ip_hdr_len := 20; udp_encap_hdr := false;
     esp := {| esp_seq := 134217728; esp_token := [183; 0; 0; 0];
               esp_cumulative := [];
               esp_octets := [0; 0; 0; 1; 0; 0; 0; 8; 183; 0; 0; 0] |} |}.

(** ** Sample statistics (libcore/statistics.c) *)

Definition wrap64 (x : Z) : Z := x mod 2 ^ 64.

(** [struct statistics_data]: [num_items] is a [uint32_t], the other members
    are [uint64_t]. *)
Record statistics_data := {
  num_items : Z;
  added_values : Z;
  added_squared_values : Z;
  min_value : Z;
  max_value : Z
}.

(** The [out_err] branch of [add_statistics_item]: the counters are reset,
    minimum and maximum are left as they are. *)
Definition statistics_reset (sd : statistics_data) : statistics_data :=
  {| num_items := 0; added_values := 0; added_squared_values := 0;
     min_value := min_value sd; max_value := max_value sd |}.

(** [add_statistics_item]: the return value and the data set.  The three
    range checks compare a member with its wrapped-around successor. *)
Definition add_statistics_item (sd : statistics_data) (item_value : Z)
  : Z * statistics_data :=
  if negb (num_items sd <? wrap32 (num_items sd + 1))
  then (-1, statistics_reset sd)
  else if negb (added_values sd <? wrap64 (added_values sd + item_value))
  then (-1, statistics_reset sd)
  else if negb (added_squared_values sd
                <? wrap64 (added_squared_values sd
                           + wrap64 (item_value * item_value)))
  then (-1, statistics_reset sd)
  else
    (0,
     {| num_items := wrap32 (num_items sd + 1);
        added_values := wrap64 (added_values sd + item_value);
        added_squared_values :=
          wrap64 (added_squared_values sd + wrap64 (item_value * item_value));
        min_value :=
          if (item_value <? min_value sd) || (min_value sd =? 0)
          then item_value else min_value sd;
        max_value :=
          if max_value sd <? item_value then item_value else max_value sd |}).

(** A data set as [calloc] or a static initialiser delivers it. *)
Definition statistics_zero : statistics_data :=
  {| num_items := 0; added_values := 0; added_squared_values := 0;
     min_value := 0; max_value := 0 |}.

(** Feeding a list of samples to [add_statistics_item], one call each: the
    number of calls that failed, and the data set. *)
Definition add_statistics_items (sd : statistics_data) (samples : list Z)
  : nat * statistics_data :=
  foldl (fun acc v =>
           let '(r, sd') := add_statistics_item (snd acc) v in
           ((if r =? 0 then fst acc else S (fst acc)), sd'))
        (O, sd) samples.

(** The members are in the range of their C types. *)
Definition statistics_in_range (sd : statistics_data) : Prop :=
  0 <= num_items sd < 2 ^ 32 /\ 0 <= added_values sd < 2 ^ 64 /\
  0 <= added_squared_values sd < 2 ^ 64 /\
  0 <= min_value sd < 2 ^ 64 /\ 0 <= max_value sd < 2 ^ 64.

Definition sum_list (l : list Z) : Z := foldr Z.add 0 l.
Definition sum_squares (l : list Z) : Z := foldr (fun v s => v * v + s) 0 l.
Definition max_list (l : list Z) : Z := foldl Z.max 0 l.
Definition min_list (l : list Z) : Z :=
  match l with [] => 0 | v :: l' => foldl Z.min v l' end.

(** [struct timeval]; [time_t] and [suseconds_t] are 64-bit signed. *)
Record timeval := { tv_sec : Z; tv_usec : Z }.

Definition STATS_IN_USECS : Z := 1000000.

Definition in_int64 (x : Z) : bool := (- 2 ^ 63 <=? x) && (x <? 2 ^ 63).

(** [timeval_to_uint64]: the sum is formed in [long] and converted to
    [uint64_t]; [None] when the signed arithmetic overflows. *)
Definition timeval_to_uint64 (t : timeval) : option Z :=
  if in_int64 (tv_sec t * STATS_IN_USECS)
     && in_int64 (tv_sec t * STATS_IN_USECS + tv_usec t)
  then Some (wrap64 (tv_sec t * STATS_IN_USECS + tv_usec t))
  else None.

(** The macro [timersub] of <sys/time.h>. *)
Definition timersub (a b : timeval) : option timeval :=
  let sec := tv_sec a - tv_sec b in
  let usec := tv_usec a - tv_usec b in
  if in_int64 sec && in_int64 usec then
    if usec <? 0
    then if in_int64 (sec - 1)
         then Some {| tv_sec := sec - 1; tv_usec := usec + 1000000 |}
         else None
    else Some {| tv_sec := sec; tv_usec := usec |}
  else None.

(** [calc_timeval_diff]. *)
Definition calc_timeval_diff (timeval_start timeval_end : timeval)
  : option Z :=
  rel_timeval ←
    (if (tv_sec timeval_start <? tv_sec timeval_end)
        || ((tv_sec timeval_end =? tv_sec timeval_start)
            && (tv_usec timeval_start <? tv_usec timeval_end))
     then timersub timeval_end timeval_start
     else Some {| tv_sec := 0; tv_usec := 0 |});
  timeval_to_uint64 rel_timeval.

(** Microseconds of a point in time. *)
Definition usecs (t : timeval) : Z := tv_sec t * 1000000 + tv_usec t.

(** ** Diffie-Hellman group sizes (libcore/crypto.c) *)

Module Crypto.

(** The initialisers of the table [dhprime_len]: the sizes of the six MODP
    primes of the file, then the three NIST curves, then SECP 160R1. *)
Definition dhprime_len_init : list Z :=
  [-1; 48; 96; 192; 384; 768; 1024; 64; 96; 132; 0].

(** [static int dhprime_len[HIP_MAX_DH_GROUP_ID]]: entries without an
    initialiser are 0.  HIP_MAX_DH_GROUP_ID (libcore/protodefs.h) is not
    among the embedded sources and is a parameter. *)
Definition dhprime_len (HIP_MAX_DH_GROUP_ID : nat) : list Z :=
  take HIP_MAX_DH_GROUP_ID
    (dhprime_len_init ++ replicate (HIP_MAX_DH_GROUP_ID - 11) 0).

(** [hip_get_dh_size]; the argument is a [uint8_t], the result a
    [uint16_t].  [None]: the table is read outside its bounds. *)
Definition hip_get_dh_size (HIP_MAX_DH_GROUP_ID : nat)
  (hip_dh_group_type : Z) : option Z :=
  if hip_dh_group_type =? 0 then Some 0
  else if Z.of_nat HIP_MAX_DH_GROUP_ID <? hip_dh_group_type then Some 0
  else
    ret ← dhprime_len HIP_MAX_DH_GROUP_ID !! Z.to_nat hip_dh_group_type;
    Some (wrap16 ret).

(** [hip_is_ecdh_group]. *)
Definition hip_is_ecdh_group (group_id : Z) : bool :=
  (group_id =? HIP_DH_NIST_P_256) || (group_id =? HIP_DH_NIST_P_384)
  || (group_id =? HIP_DH_NIST_P_521).

End Crypto.

(** ** Dropping control packets by state (libhipl/input.c) *)

(** Packet types of HIP control messages (RFC 5201, 5.3; the values are in
    libcore/protodefs.h, which is not among the embedded sources): the types
    that the embedded code names, and the others by value. *)
Inductive hip_hdr :=
| HIP_I1 | HIP_R1 | HIP_I2 | HIP_R2
| HIP_UPDATE | HIP_NOTIFY | HIP_CLOSE | HIP_CLOSE_ACK
| HIP_TYPE_OTHER (code : Z).

Definition is_r1_or_r2 (type : hip_hdr) : bool :=
  match type with HIP_R1 | HIP_R2 => true | _ => false end.

(** [packet_to_drop].  [hip_shotgun_status] is given as
    [hip_shotgun_status == HIP_MSG_SHOTGUN_ON]; [addresses] and
    [peer_addr_list_to_be_added] (NULL or a table) by their [num_items]. *)
Definition packet_to_drop (E : hipd_env) (shotgun_on : bool)
  (addresses_num_items : Z) (peer_addr_list_to_be_added : option Z)
  (entry : hip_hadb_state) (type : hip_hdr) (hitr : hip_hit_t) : Z :=
  if negb (hip_hidb_hit_is_our E hitr) then 0
  else
    match state entry with
    | HIP_STATE_I2_SENT =>
        if shotgun_on
           && (match type with HIP_R1 => true | _ => false end)
           && (match peer_addr_list_to_be_added with
               | Some n => (1 <? n) || (1 <? addresses_num_items)
               | None => false
               end)
        then 1 else 0
    | HIP_STATE_R2_SENT =>
        if is_r1_or_r2 type then 1
        else if is_r1_or_r2 type then 1 else 0
    | HIP_STATE_ESTABLISHED => if is_r1_or_r2 type then 1 else 0
    | _ => 0
    end.

(** ** Receiving an I1 (libhipl/input.c) *)

Definition set_dst_addr (ctx : hip_packet_context) (a : bytes)
  : hip_packet_context :=
  {| input_msg := input_msg ctx; src_addr := src_addr ctx;
     dst_addr := a; hadb_entry := hadb_entry ctx; error := error ctx |}.

(** The address tests of <netinet/in.h> on the sixteen octets of a
    [struct in6_addr]. *)
Definition IN6_IS_ADDR_V4MAPPED (a : bytes) : bool :=
  bool_decide (take 12 a = replicate 10 0 ++ [255; 255]).

Definition IN6_IS_ADDR_MULTICAST (a : bytes) : bool :=
  bool_decide (a !! 0%nat = Some 255).

(** [addr4.s_addr == INADDR_BROADCAST] for the IPv4 address that
    [IPV6_TO_IPV4_MAP] (libcore/prefix.h) takes from the last four octets. *)
Definition is_ipv4_broadcast (a : bytes) : bool :=
  bool_decide (drop 12 a = [255; 255; 255; 255]).

Section HandleI1.

(** [hip_select_source_address src dst] (libhipl/netdev.c; it consults the
    address cache and the routing table): the return value and what it
    leaves in [*src]. *)
Variable hip_select_source_address : bytes -> bytes -> Z * bytes.

(** The two steps taken for a broadcast or multicast destination: [inl] is
    the context of the early [return -1]. *)
Definition i1_broadcast_checks (src_hit_is_our : bool)
  (ctx : hip_packet_context) : hip_packet_context + hip_packet_context :=
  if src_hit_is_our then inl (set_error ctx 1)
  else
    let '(r, a) := hip_select_source_address (dst_addr ctx) (src_addr ctx) in
    let ctx1 := set_dst_addr ctx a in
    if negb (r =? 0) then inl (set_error ctx1 1) else inr ctx1.

(** [hip_handle_i1]: the return value and the packet context. *)
Definition hip_handle_i1 (E : hipd_env) (ctx : hip_packet_context)
  : Z * hip_packet_context :=
  let src_hit_is_our := hip_hidb_hit_is_our E (hit_sender (input_msg ctx)) in
  let checked :=
    if IN6_IS_ADDR_V4MAPPED (dst_addr ctx) then
      if is_ipv4_broadcast (dst_addr ctx)
      then i1_broadcast_checks src_hit_is_our ctx
      else inr ctx
    else if IN6_IS_ADDR_MULTICAST (dst_addr ctx)
    then i1_broadcast_checks src_hit_is_our ctx
    else inr ctx in
  match checked with
  | inl ctx' => (-1, ctx')
  | inr ctx1 =>
      match hadb_entry ctx1 with
      | Some entry =>
          if (match state entry with HIP_STATE_I1_SENT => true | _ => false end)
             && hip_hit_is_bigger (hit_peer entry) (hit_our entry)
          then (0, set_error ctx1 1)
          else (0, ctx1)
      | None => (0, ctx1)
      end
  end.

End HandleI1.

(** The destination is neither an IPv4 broadcast nor an IPv6 multicast
    address. *)
Definition unicast_destination (a : bytes) : bool :=
  negb (if IN6_IS_ADDR_V4MAPPED a then is_ipv4_broadcast a
        else IN6_IS_ADDR_MULTICAST a).

(** Assignment to [state]. *)
Definition set_state (e : hip_hadb_state) (s : hip_state) : hip_hadb_state :=
  {| hit_our := hit_our e; hit_peer := hit_peer e; state := s;
     is_loopback := is_loopback e; our_addr := our_addr e;
     esp_transform := esp_transform e; hip_transform := hip_transform e;
     birthday := birthday e; dh_shared_key := dh_shared_key e;
     dh_shared_key_len := dh_shared_key_len e;
     hip_enc_out := hip_enc_out e; hip_hmac_out := hip_hmac_out e;
     esp_out := esp_out e; auth_out := auth_out e;
     hip_enc_in := hip_enc_in e; hip_hmac_in := hip_hmac_in e;
     esp_in := esp_in e; auth_in := auth_in e;
     current_keymat_index := current_keymat_index e;
     keymat_calc_index := keymat_calc_index e;
     esp_keymat_index := esp_keymat_index e;
     current_keymat_K := current_keymat_K e;
     our_pub := our_pub e; peer_pub := peer_pub e;
     spi_inbound_current := spi_inbound_current e;
     spi_outbound_old := spi_outbound_old e;
     spi_outbound_new := spi_outbound_new e; hip_version := hip_version e |}.

(** The responder's host association once the base exchange is complete. *)
Definition entry_established : hip_hadb_state :=
  set_state entry_after_i2 HIP_STATE_ESTABLISHED.

(** ** Buffered retransmissions (libhipl/input.c) *)

(** The classes of UPDATE packets ([hip_classify_update_type],
    modules/update; not among the embedded sources). *)
Inductive update_packet_type :=
| FIRST_UPDATE_PACKET | SECOND_UPDATE_PACKET | THIRD_UPDATE_PACKET
| OTHER_UPDATE_PACKET.

(** [struct hip_msg_retrans], restricted to the members used here; the
    buffered message is kept as its octets. *)
Record hip_msg_retrans := {
  retrans_count : Z;
  retrans_buf : option bytes
}.

Definition HIP_RETRANSMIT_QUEUE_SIZE : nat := 3.

Section Retransmissions.

(** Accessors of libcore/builder.c and the UPDATE classifier, on the
    received message and on a buffered one. *)
Variable hip_get_msg_type : hip_common -> hip_hdr.
Variable hip_classify_update_type : hip_common -> update_packet_type.
Variable buf_msg_type : bytes -> hip_hdr.
Variable buf_msg_total_len : bytes -> Z.
Variable buf_classify_update_type : bytes -> update_packet_type.

(** [hip_clear_retransmission] on a slot of the queue.  [None]: [memset]
    leaves the buffer. *)
Definition hip_clear_retransmission (retrans : hip_msg_retrans)
  : option hip_msg_retrans :=
  match retrans_buf retrans with
  | Some b =>
      let n := Z.to_nat (buf_msg_total_len b) in
      if (n <=? length b)%nat
      then Some {| retrans_count := 0;
                   retrans_buf := Some (replicate n 0 ++ drop n b) |}
      else None
  | None => Some {| retrans_count := 0; retrans_buf := None |}
  end.

(** [update_retrans_is_invalid]; [None]: the classifier is handed the NULL
    buffer of the slot. *)
Definition update_retrans_is_invalid (ctx : hip_packet_context)
  (retrans : hip_msg_retrans) : option bool :=
  match hip_classify_update_type (input_msg ctx) with
  | SECOND_UPDATE_PACKET =>
      b ← retrans_buf retrans;
      Some match buf_classify_update_type b with
           | FIRST_UPDATE_PACKET => true | _ => false end
  | THIRD_UPDATE_PACKET =>
      b ← retrans_buf retrans;
      Some match buf_classify_update_type b with
           | SECOND_UPDATE_PACKET => true | _ => false end
  | _ => Some false
  end.

(** The body of the loop of [hip_update_retransmissions] for one slot. *)
Definition update_retransmission_slot (ctx : hip_packet_context)
  (entry : hip_hadb_state) (retrans : hip_msg_retrans)
  : option hip_msg_retrans :=
  if retrans_count retrans =? 0 then Some retrans
  else
    match hip_get_msg_type (input_msg ctx) with
    | HIP_I1 =>
        b ← retrans_buf retrans;
        if match buf_msg_type b with HIP_I1 => true | _ => false end
           && hip_hit_is_bigger (hit_our entry) (hit_peer entry)
        then hip_clear_retransmission retrans
        else Some retrans
    | HIP_I2 | HIP_R1 | HIP_R2 | HIP_CLOSE | HIP_CLOSE_ACK =>
        hip_clear_retransmission retrans
    | HIP_UPDATE =>
        update_retrans_is_invalid ctx retrans ≫= fun invalid : bool =>
          if invalid then hip_clear_retransmission retrans else Some retrans
    | _ => Some retrans
    end.

(** The loop over the slots [i .. i + count - 1] of the queue. *)
Fixpoint update_retransmissions_loop (ctx : hip_packet_context)
  (entry : hip_hadb_state) (i count : nat) (queue : list hip_msg_retrans)
  : option (list hip_msg_retrans) :=
  match count with
  | O => Some queue
  | S c =>
      retrans ← queue !! i;
      retrans' ← update_retransmission_slot ctx entry retrans;
      update_retransmissions_loop ctx entry (S i) c (<[i := retrans']> queue)
  end.

(** [hip_update_retransmissions]: the return value and the retransmission
    queue [hip_msg_retrans] of the host association of the context. *)
Definition hip_update_retransmissions (ctx : hip_packet_context)
  (queue : list hip_msg_retrans) : option (Z * list hip_msg_retrans) :=
  match hadb_entry ctx with
  | None => Some (0, queue)
  | Some entry =>
      queue' ← update_retransmissions_loop ctx entry 0
                 HIP_RETRANSMIT_QUEUE_SIZE queue;
      Some (0, queue')
  end.

End Retransmissions.

(** A slot of the queue is unused, or it holds a buffered message whose
    length field does not exceed the buffer. *)
Definition buffered (buf_msg_total_len : bytes -> Z) (r : hip_msg_retrans)
  : Prop :=
  retrans_count r = 0 \/
  exists b, retrans_buf r = Some b /\
            (Z.to_nat (buf_msg_total_len b) <= length b)%nat.

(** The types after whose handling every buffered packet is dropped. *)
Definition clears_all_retransmissions (t : hip_hdr) : bool :=
  match t with
  | HIP_I2 | HIP_R1 | HIP_R2 | HIP_CLOSE | HIP_CLOSE_ACK => true
  | _ => false
  end.

(** ** Checking a received R2 (libhipl/input.c) *)

Section CheckR2.

(** [hip_create_msg_pseudo_hmac2] (libcore/builder.c): the return value and
    the pseudo message it builds from the message and the host identity. *)
Variable hip_create_msg_pseudo_hmac2 : hip_common -> option bytes -> Z * hip_common.

(** [verify_packet_hmac2]; the allocation of the copy is taken to succeed. *)
Definition verify_packet_hmac2 (E : hipd_env) (msg : hip_common)
  (key : hip_crypto_key) (host_id : option bytes) : Z :=
  let '(perr, msg_copy) := hip_create_msg_pseudo_hmac2 msg host_id in
  if negb (perr =? 0) then -1
  else
    match hip_get_param msg HIP_PARAM_HMAC2 with
    | None => - ENOMSG
    | Some (_, hmac) =>
        if negb (verify_hmac (hip_write_hmac E) msg_copy
                   (hip_get_msg_total_len msg_copy) (hmac_data_of hmac) key
                   HIP_DIGEST_SHA1_HMAC =? 0)
        then -1 else 0
    end.

(** [hip_check_r2]: the return value and the packet context. *)
Definition hip_check_r2 (E : hipd_env) (ctx : hip_packet_context)
  : Z * hip_packet_context :=
  let msg := input_msg ctx in
  if negb (hip_hidb_hit_is_our E (hit_receiver msg)) then (-1, ctx)
  else if negb (hip_controls_sane E (ntohs (control msg)) 0) then (-1, ctx)
  else
    match hadb_entry ctx with
    | None => (-1, set_error ctx (-1))
    | Some entry =>
        let key :=
          if negb (is_loopback entry =? 0) then hip_hmac_out entry
          else hip_hmac_in entry in
        if negb (verify_packet_hmac2 E msg key (peer_pub entry) =? 0)
        then (-1, set_error ctx (-1))
        else if negb (verify E entry msg =? 0)
        then (- EINVAL, set_error ctx (- EINVAL))
        else (0, ctx)
    end.

End CheckR2.

(** Two hosts that have sent an I1 to each other, and the I1 each receives
    from the other. *)
Definition entry_i1_sent (our peer : hip_hit_t) : hip_hadb_state :=
  set_state (set_ids hip_hadb_state_zero our peer [] None None HIP_V1)
    HIP_STATE_I1_SENT.

Definition ctx_i1 (our peer : hip_hit_t) (src dst : bytes)
  : hip_packet_context :=
  {| input_msg := empty_msg peer our; src_addr := src; dst_addr := dst;
     hadb_entry := Some (entry_i1_sent our peer); error := 0 |}.

Definition toy_select_source_address (src _ : bytes) : Z * bytes := (0, src).

(** A retransmission queue with two buffered packets, and oracles that read
    every received message as an R2 and take the length of a buffered message
    from the buffer. *)
Definition toy_queue : list hip_msg_retrans :=
  [ {| retrans_count := 2; retrans_buf := Some [1; 2; 3; 4] |};
    {| retrans_count := 0; retrans_buf := None |};
    {| retrans_count := 1; retrans_buf := Some [5; 6] |} ].

Definition toy_buf_len (b : bytes) : Z := Z.of_nat (length b).


(** What the last part of [hip_check_i2] has established when it returns 0
    for the context [ctx], leaving [ctx']: the HMAC of the message verified
    under the HIP-HMAC key of the host association that is left in the
    context (the outgoing key when both HITs are local ones, else the
    incoming key); the signature verified for that host association as it
    was before its birthday was taken from R1_COUNTER, with the HIP
    transform selected from HIP_TRANSFORM (not 0) and the peer's host
    identity built and stored by [hip_init_peer] with return value 0 (from
    the contents of the ENCRYPTED parameter, decrypted under the HIP
    encryption key of the association and found to be a HOST_ID, when the
    message has one; from the HOST_ID parameter otherwise); and addresses
    and error flag as they were. *)
Definition i2_authenticated (E : hipd_env) (ctx ctx' : hip_packet_context)
  : Prop :=
  let msg := input_msg ctx in
  (exists entry',
     hadb_entry ctx' = Some entry' /\
     hip_verify_packet_hmac (hip_write_hmac E) msg
       (if hip_hidb_hit_is_our E (hit_sender msg)
           && hip_hidb_hit_is_our E (hit_receiver msg)
        then hip_hmac_out entry' else hip_hmac_in entry')
     = (0, input_msg ctx')) /\
  (exists entry,
     verify E entry (input_msg ctx') = 0 /\
     (exists o ids,
        hip_get_param (input_msg ctx') HIP_PARAM_HIP_TRANSFORM
          = Some (o, P_HIP_TRANSFORM ids) /\
        hip_transform entry = hip_get_param_transform_suite_id E ids /\
        hip_transform entry <> 0) /\
     (exists raw host_id e0,
        hip_build_host_id_from_param E raw = Some host_id /\
        hip_init_peer E e0 host_id = (0, entry) /\
        match hip_get_param (input_msg ctx') HIP_PARAM_ENCRYPTED with
        | Some (_, P_ENCRYPTED contents) =>
          exists data iv crypto_len,
            locate_encrypted_host_id (hip_transform entry) contents
              = inr (data, iv, crypto_len) /\
            hip_crypto_encrypted E data iv (hip_transform entry) crypto_len
              (if hip_hidb_hit_is_our E (hit_sender msg)
                  && hip_hidb_hit_is_our E (hit_receiver msg)
               then hip_enc_out entry else hip_enc_in entry)
              = Some raw /\
            hip_tlv_eqb (raw_param_type E raw) HIP_PARAM_HOST_ID = true
        | _ =>
          exists oh, hip_get_param (input_msg ctx') HIP_PARAM_HOST_ID
                     = Some (oh, P_HOST_ID raw)
        end) /\
     hadb_entry ctx'
     = Some match hip_get_param (input_msg ctx') HIP_PARAM_R1_COUNTER with
            | Some (_, P_R1_COUNTER generation) => set_birthday entry generation
            | _ => entry
            end) /\
  src_addr ctx' = src_addr ctx /\ dst_addr ctx' = dst_addr ctx /\
  error ctx' = error ctx.


(** An R2 from [hit_A] that the host [hit_B] receives for an association
    whose incoming HIP-HMAC key is all zero; the pseudo message is taken to
    be the message itself. *)
Definition toy_pseudo_hmac2 (msg : hip_common) (_ : option bytes)
  : Z * hip_common := (0, msg).

Definition msg_r2 : hip_common :=
  {| total_len := 80; ver_res := HIP_V2; checksum := 0; control := 0;
     hit_sender := hit_A; hit_receiver := hit_B;
     params := [(40, P_ESP_INFO 18432 0 1); (56, P_HMAC2 (replicate 20 80))] |}.

Definition ctx_r2 : hip_packet_context :=
  ctx_i2 msg_r2
    (Some (set_ids hip_hadb_state_zero hit_B hit_A (replicate 16 2) None None
             HIP_V2)).


(** ** Checking a received R1 (libhipl/input.c) *)

Section CheckR1.

(** Functions of other files that [hip_check_r1] calls (hit.c, hadb.c,
    hiprelay.c, builder.c), as oracles: the opportunistic-mode handling of
    the context, the peer address of a host association and its update, the
    rendezvous bookkeeping, the [int] result of
    [hip_get_param_host_id_di_type_len], the address comparison, and the
    list that [hip_get_list_from_param] takes from the DH_GROUP_LIST
    parameter of a message ([None]: no such parameter). *)
Variable hit_is_opportunistic_hit : hip_hit_t -> bool.
Variable hip_handle_opp_r1 : hip_packet_context -> hip_packet_context.
Variable hip_hadb_get_peer_addr : hip_hadb_state -> bytes.
Variable hip_hadb_add_peer_addr : hip_hadb_state -> bytes -> hip_hadb_state.
Variable hip_relay_add_rvs_to_ha : hip_common -> hip_hadb_state -> hip_hadb_state.
Variable hip_get_param_host_id_di_type_len : bytes -> Z.
Variable ipv6_addr_cmp : bytes -> bytes -> Z.
Variable dh_group_list_param : hip_common -> option (list Z).

(** The label [out_err] of [hip_check_r1]. *)
Definition check_r1_out_err (err : Z) (ctx : hip_packet_context)
  : option (Z * hip_packet_context) :=
  Some (err, if err =? 0 then ctx else set_error ctx err).

(** The HIPv2 part and the signature check of [hip_check_r1]. *)
Definition hip_check_r1_verify (E : hipd_env) (ctx : hip_packet_context)
  (entry : hip_hadb_state) : option (Z * hip_packet_context) :=
  let msg := input_msg ctx in
  let downgrade_err :=
    if hip_version entry =? HIP_V2 then
      match dh_group_list_param msg with
      | None => - ENOENT
      | Some dh_list =>
          match hip_get_param msg HIP_PARAM_DIFFIE_HELLMAN with
          | Some (_, P_DIFFIE_HELLMAN pv _) =>
              if check_dh_downgrade_v2 (group_id pv) dh_list <? 0
              then - EINVAL else 0
          | _ => - ENOENT
          end
      end
    else 0 in
  if negb (downgrade_err =? 0) then check_r1_out_err downgrade_err ctx
  else if negb (verify E entry msg =? 0) then check_r1_out_err (- EINVAL) ctx
  else check_r1_out_err 0 ctx.

(** [hip_check_r1] (built without CONFIG_HIP_RVS and
    CONFIG_HIP_PERFORMANCE): the return value and the packet context.
    [None]: the opportunistic handling has left the context without a host
    association.  The writes to [msg_ports] and [peer_hostname], which are
    not among the members of the records, are left out. *)
Definition hip_check_r1 (E : hipd_env) (ctx : hip_packet_context)
  : option (Z * hip_packet_context) :=
  match hadb_entry ctx with
  | None => check_r1_out_err (-1) ctx
  | Some entry0 =>
    let ctx1 :=
      if hit_is_opportunistic_hit (hit_peer entry0)
      then hip_handle_opp_r1 ctx else ctx in
    if negb (hip_hidb_hit_is_our E (hit_receiver (input_msg ctx1)))
    then Some (-1, ctx1)
    else if negb (hip_controls_sane E (ntohs (control (input_msg ctx1)))
                    HIP_PACKET_CTRL_ANON)
    then Some (-1, ctx1)
    else
      entry1 ← hadb_entry ctx1;
      let daddr := hip_hadb_get_peer_addr entry1 in
      let entry2 :=
        if negb (ipv6_addr_cmp daddr (src_addr ctx1) =? 0)
        then hip_hadb_add_peer_addr entry1 (src_addr ctx1) else entry1 in
      let entry3 := hip_relay_add_rvs_to_ha (input_msg ctx1) entry2 in
      let ctx2 := set_hadb_entry ctx1 (Some entry3) in
      match hip_get_param (input_msg ctx2) HIP_PARAM_HOST_ID with
      | Some (_, P_HOST_ID raw) =>
        match hip_build_host_id_from_param E raw with
        | None => check_r1_out_err (-1) ctx2
        | Some peer_host_id =>
          if hip_get_param_host_id_di_type_len peer_host_id <? 0
          then check_r1_out_err (-1) ctx2
          else
            let '(ires, entry4) := hip_init_peer E entry3 peer_host_id in
            let ctx3 := set_hadb_entry ctx2 (Some entry4) in
            if negb (ires =? 0) then check_r1_out_err (- EINVAL) ctx3
            else hip_check_r1_verify E ctx3 entry4
        end
      | _ => check_r1_out_err (- ENOENT) ctx2
      end
  end.

End CheckR1.

(** An R1 for the host [hit_B] under HIPv2 that uses the Diffie-Hellman
    group [dh_group], and the context in which it is checked; the peer lists
    the groups NIST P-384 and modp-1536. *)
Definition msg_r1_for_B (dh_group : Z) : hip_common :=
  {| total_len := 400; ver_res := HIP_V2; checksum := 0; control := 0;
     hit_sender := hit_A; hit_receiver := hit_B;
     params :=
       [(40, P_DIFFIE_HELLMAN
               {| group_id := dh_group; pub_len := 24576;
                  public_value := [9; 9; 9] |} None);
        (240, P_HIP_TRANSFORM [HIP_HIP_AES_SHA1]);
        (256, P_HOST_ID [3; 1; 4; 1; 5])] |}.

Definition ctx_r1_for_B (dh_group : Z) : hip_packet_context :=
  ctx_i2 (msg_r1_for_B dh_group)
    (Some (set_ids hip_hadb_state_zero hit_B hit_A (replicate 16 2) None None
             HIP_V2)).

Definition toy_check_r1 (dh_group : Z) : option (Z * hip_packet_context) :=
  hip_check_r1 (fun _ => false) (fun c => c) (fun e => our_addr e)
    (fun e _ => e) (fun _ e => e) (fun _ => 0)
    (fun a b => memcmp a b 16)
    (fun _ => Some [HIP_DH_NIST_P_384; HIP_DH_OAKLEY_5])
    toy_env (ctx_r1_for_B dh_group).

(** Proof step: a return value that is not 0 is not an acceptance. *)
Ltac bad_r1 H :=
  exfalso; unfold check_r1_out_err in H;
  injection H as H _; cbv in H; discriminate H.


(** ** Receiving a control packet (libhipl/input.c) *)

(** [IN6_ARE_ADDR_EQUAL] of <netinet/in.h>. *)
Definition IN6_ARE_ADDR_EQUAL (a b : bytes) : bool := memcmp a b 16 =? 0.

Definition IN6ADDR_ANY_INIT : bytes := replicate 16 0.

Section ReceiveControlPacket.

(** Functions of other files (builder.c, prefix.c, hadb.c, opp mode, the
    handler registry of modularization) and the two globals that
    [packet_to_drop] reads, as oracles. *)
Variable hip_check_network_msg : hip_common -> Z.
Variable hip_addr_is_loopback : bytes -> bool.
Variable ipv6_addr_any : bytes -> bool.
Variable hip_get_msg_type : hip_common -> hip_hdr.
Variable hip_hadb_find_byhits : hip_hit_t -> hip_hit_t -> option hip_hadb_state.
Variable hip_opp_get_hadb_entry_i1_r1 : hip_common -> bytes -> option hip_hadb_state.
Variable hip_run_handle_functions :
  hip_hdr -> hip_state -> hip_packet_context -> hip_packet_context.
Variable shotgun_on : bool.
Variable addresses_num_items : Z.
Variable peer_addr_list_to_be_added : hip_hadb_state -> option Z.

(** The build option CONFIG_HIP_RVS and the two functions of hiprelay.c that
    the code under it calls: whether [hip_relay_get_status()] is
    HIP_RELAY_OFF, and [hip_relay_handle_relay_to], which gets the packet
    context by pointer (the result is its return value and the context as it
    leaves it). *)
Variable CONFIG_HIP_RVS : bool.
Variable relay_status_is_off : bool.
Variable hip_relay_handle_relay_to :
  hip_hdr -> hip_state -> hip_packet_context -> Z * hip_packet_context.

(** The end of [hip_receive_control_packet]: the relay check of a
    CONFIG_HIP_RVS build and the call of the handlers. *)
Definition relay_or_run_handlers (type : hip_hdr) (state : hip_state)
  (ctx : hip_packet_context)
  : Z * hip_packet_context * option (hip_hdr * hip_state * hip_packet_context) :=
  if CONFIG_HIP_RVS then
    let '(relayed, ctx') := hip_relay_handle_relay_to type state ctx in
    if negb (relayed =? 0) then (- ECANCELED, ctx', None)
    else (0, hip_run_handle_functions type state ctx',
          Some (type, state, ctx'))
  else (0, hip_run_handle_functions type state ctx, Some (type, state, ctx)).

(** [hip_receive_control_packet] (built without CONFIG_HIP_PERFORMANCE):
    the return value, the packet context, and the arguments of the call of
    [hip_run_handle_functions] if it is reached. *)
Definition hip_receive_control_packet (E : hipd_env)
  (ctx : hip_packet_context)
  : Z * hip_packet_context * option (hip_hdr * hip_state * hip_packet_context) :=
  let msg := input_msg ctx in
  if negb (hip_check_network_msg msg =? 0) then (-1, ctx, None)
  else if hip_hidb_hit_is_our E (hit_sender msg)
          && (IN6_ARE_ADDR_EQUAL (hit_receiver msg) (hit_sender msg)
              || IN6_ARE_ADDR_EQUAL (hit_receiver msg) IN6ADDR_ANY_INIT)
          && negb (hip_addr_is_loopback (dst_addr ctx))
          && negb (hip_addr_is_loopback (src_addr ctx))
          && negb (IN6_ARE_ADDR_EQUAL (src_addr ctx) (dst_addr ctx))
  then (-1, ctx, None)
  else if negb (hip_hidb_hit_is_our E (hit_receiver msg))
          && negb (ipv6_addr_any (hit_receiver msg))
          && (if CONFIG_HIP_RVS then relay_status_is_off else true)
  then (-1, ctx, None)
  else
    let msg_hip_version := wrap8 (hip_get_msg_version msg) in
    let type := hip_get_msg_type msg in
    let ctx1 :=
      set_hadb_entry ctx
        (hip_hadb_find_byhits (hit_sender msg) (hit_receiver msg)) in
    if match hadb_entry ctx1 with
       | Some entry =>
           packet_to_drop E shotgun_on addresses_num_items
             (peer_addr_list_to_be_added entry) entry type (hit_receiver msg)
           =? 1
       | None => false
       end
    then (-1, ctx1, None)
    else
      let ctx2 :=
        match hadb_entry ctx1 with
        | None =>
            match type with
            | HIP_I1 | HIP_R1 =>
                set_hadb_entry ctx1
                  (hip_opp_get_hadb_entry_i1_r1 msg (src_addr ctx1))
            | _ => ctx1
            end
        | Some _ => ctx1
        end in
      match hadb_entry ctx2 with
      | Some entry =>
          let state := state entry in
          if hip_version entry =? 0 then
            let ctx3 :=
              set_hadb_entry ctx2
                (Some (set_hip_version entry msg_hip_version)) in
            relay_or_run_handlers type state ctx3
          else if negb (hip_version entry =? msg_hip_version)
          then (-1, ctx2, None)
          else relay_or_run_handlers type state ctx2
      | None => relay_or_run_handlers type HIP_STATE_NONE ctx2
      end.

End ReceiveControlPacket.


(** ** Configuration of the ESP protection (hipfw/esp_prot_config.c) *)

(** The settings that the configuration functions look up, named as the
    path constants of the source. *)
Inductive esp_prot_setting :=
| path_hash_length
| path_hash_structure_length
| path_token_transform
| path_num_parallel_hchains
| path_ring_buffer_size
| path_num_linear_elements
| path_num_random_elements
| path_window_size.

(** A parsed configuration file, as far as [config_lookup_int] of libconfig
    reads it: the integer value of a setting, if the file has one. *)
Definition config_t := esp_prot_setting -> option Z.

(** [wrap_config_lookup_int]: whether the lookup succeeded, and [*result]. *)
Definition wrap_config_lookup_int (cfg : config_t) (name : esp_prot_setting)
  (result : Z) : bool * Z :=
  match cfg name with
  | Some value => (true, value)
  | None => (false, result)
  end.

(** The statement
    [if (!wrap_config_lookup_int(cfg, name, &var)) var = default;]:
    the value of [var] afterwards. *)
Definition lookup_or_default (cfg : config_t) (name : esp_prot_setting)
  (var default : Z) : Z :=
  let '(success, var') := wrap_config_lookup_int cfg name var in
  if success then var' else default.

(** The global variables that [esp_prot_token_config] sets. *)
Record token_globals := {
  token_transform : Z;
  hash_length_g : Z;
  hash_structure_length : Z;
  tg_num_parallel_hchains : Z;
  tg_ring_buffer_size : Z;
  tg_num_linear_elements : Z;
  tg_num_random_elements : Z
}.

(** The sanity checks at the end of [esp_prot_token_config]. *)
Definition token_sanity_checks (g : token_globals) : Z * token_globals :=
  if hash_length_g g <=? 0 then (-1, g)
  else if hash_structure_length g <=? 0 then (-1, g)
  else (0, g).

(** [esp_prot_token_config] (built with HAVE_LIBCONFIG): the return value
    and the global variables; [cfg] is [None] for the NULL pointer. *)
Definition esp_prot_token_config (cfg : option config_t) (g : token_globals)
  : Z * token_globals :=
  match cfg with
  | Some cfg =>
      let tfm :=
        lookup_or_default cfg path_token_transform (token_transform g)
          ESP_PROT_TFM_UNUSED in
      let hl := lookup_or_default cfg path_hash_length (hash_length_g g) 20 in
      let hsl :=
        lookup_or_default cfg path_hash_structure_length
          (hash_structure_length g) 16 in
      let g1 :=
        {| token_transform := tfm; hash_length_g := hl;
           hash_structure_length := hsl;
           tg_num_parallel_hchains := tg_num_parallel_hchains g;
           tg_ring_buffer_size := tg_ring_buffer_size g;
           tg_num_linear_elements := tg_num_linear_elements g;
           tg_num_random_elements := tg_num_random_elements g |} in
      let modes (n r l e : Z) :=
        {| token_transform := tfm; hash_length_g := hl;
           hash_structure_length := hsl;
           tg_num_parallel_hchains := n; tg_ring_buffer_size := r;
           tg_num_linear_elements := l; tg_num_random_elements := e |} in
      if tfm =? ESP_PROT_TFM_PLAIN then token_sanity_checks (modes 1 0 0 0)
      else if tfm =? ESP_PROT_TFM_PARALLEL then
        token_sanity_checks
          (modes (lookup_or_default cfg path_num_parallel_hchains
                    (tg_num_parallel_hchains g) 2) 0 0 0)
      else if tfm =? ESP_PROT_TFM_CUMULATIVE then
        token_sanity_checks
          (modes 1
             (lookup_or_default cfg path_ring_buffer_size
                (tg_ring_buffer_size g) 64)
             (lookup_or_default cfg path_num_linear_elements
                (tg_num_linear_elements g) 1)
             (lookup_or_default cfg path_num_random_elements
                (tg_num_random_elements g) 0))
      else if tfm =? ESP_PROT_TFM_PARA_CUMUL then
        token_sanity_checks
          (modes
             (lookup_or_default cfg path_num_parallel_hchains
                (tg_num_parallel_hchains g) 1)
             (lookup_or_default cfg path_ring_buffer_size
                (tg_ring_buffer_size g) 64)
             (lookup_or_default cfg path_num_linear_elements
                (tg_num_linear_elements g) 1)
             (lookup_or_default cfg path_num_random_elements
                (tg_num_random_elements g) 0))
      else if tfm =? ESP_PROT_TFM_TREE then token_sanity_checks (modes 1 0 0 0)
      else (-1, g1)
  | None =>
      token_sanity_checks
        {| token_transform := ESP_PROT_TFM_PLAIN; hash_length_g := 20;
           hash_structure_length := 16; tg_num_parallel_hchains := 1;
           tg_ring_buffer_size := 0; tg_num_linear_elements := 0;
           tg_num_random_elements := 0 |}
  end.

(** [esp_prot_verifier_config]: the return value and [window_size]. *)
Definition esp_prot_verifier_config (cfg : option config_t) (window_size : Z)
  : Z * Z :=
  let window_size :=
    match cfg with
    | Some cfg => lookup_or_default cfg path_window_size window_size 64
    | None => 64
    end in
  if window_size <=? 0 then (-1, window_size) else (0, window_size).

(** The configuration without a file. *)
Definition token_defaults : token_globals :=
  {| token_transform := ESP_PROT_TFM_PLAIN; hash_length_g := 20;
     hash_structure_length := 16; tg_num_parallel_hchains := 1;
     tg_ring_buffer_size := 0; tg_num_linear_elements := 0;
     tg_num_random_elements := 0 |}.


(** ** Firewall rules (hipfw/rule_management.c, hipfw/helpers.c) *)

Module RuleManagement.

Local Open Scope string_scope.

Definition SRC_HIT_STR : string := "-src_hit".
Definition DST_HIT_STR : string := "-dst_hit".
Definition TYPE_STR : string := "-type".
Definition IN_IF_STR : string := "-i".
Definition OUT_IF_STR : string := "-o".
Definition STATE_STR : string := "-state".
Definition CERT_STR : string := "-cert".
Definition SRC_HI_STR : string := "--hi".
Definition VERIFY_RESPONDER_STR : string := "--verify_responder".
Definition ACCEPT_MOBILE_STR : string := "--accept_mobile".
Definition DECRYPT_CONTENTS_STR : string := "--decrypt_contents".
Definition NEGATE_STR : string := "!".
Definition INPUT_STR : string := "INPUT".
Definition OUTPUT_STR : string := "OUTPUT".
Definition FORWARD_STR : string := "FORWARD".
Definition NEW_STR : string := "NEW".
Definition ESTABLISHED_STR : string := "ESTABLISHED".
Definition ACCEPT_STR : string := "ACCEPT".
Definition DROP_STR : string := "DROP".

(** [IF_NAMESIZE] of <net/if.h>. *)
Definition IF_NAMESIZE : nat := 16.

(** The netfilter hooks and the connection states that a rule can name. *)
Inductive nf_hook := NF_IP6_LOCAL_IN | NF_IP6_LOCAL_OUT | NF_IP6_FORWARD.
Inductive conn_state := CONN_NEW | CONN_ESTABLISHED.

(** The [enum] of [parse_rule]. *)
Inductive option_kind :=
| NO_OPTION | SRC_HIT_OPTION | DST_HIT_OPTION | SRC_HI_OPTION | DST_HI_OPTION
| TYPE_OPTION | STATE_OPTION | IN_IF_OPTION | OUT_IF_OPTION | CERT_OPTION
| HOOK.

(** The option structures and [struct rule] (rule_management.h), with the
    members that [parse_rule] sets; pointer members are [option]. *)
Record hit_option := { hit_boolean : Z; hit_value : bytes }.
Record int_option := { int_boolean : Z; int_value : hip_hdr }.
Record state_option := {
  state_boolean : Z;
  state_value : conn_state;
  verify_responder : Z;
  accept_mobile : Z;
  decrypt_contents : Z
}.
Record string_option := { string_boolean : Z; string_value : string }.

Record rule := {
  src_hit : option hit_option;
  dst_hit : option hit_option;
  src_hi : option bytes;
  type : option int_option;
  state : option state_option;
  in_if : option string_option;
  out_if : option string_option;
  cert : option string_option;
  hook : nf_hook;
  accept : Z
}.

(** [alloc_empty_rule], with the hook that [parse_rule] stores right after
    the allocation. *)
Definition alloc_empty_rule (h : nf_hook) : rule :=
  {| src_hit := None; dst_hit := None; src_hi := None; type := None;
     state := None; in_if := None; out_if := None; cert := None;
     hook := h; accept := -1 |}.

Definition set_src_hit (r : rule) (v : option hit_option) : rule :=
  {| src_hit := v; dst_hit := dst_hit r; src_hi := src_hi r; type := type r;
     state := state r; in_if := in_if r; out_if := out_if r; cert := cert r;
     hook := hook r; accept := accept r |}.
Definition set_dst_hit (r : rule) (v : option hit_option) : rule :=
  {| src_hit := src_hit r; dst_hit := v; src_hi := src_hi r; type := type r;
     state := state r; in_if := in_if r; out_if := out_if r; cert := cert r;
     hook := hook r; accept := accept r |}.
Definition set_src_hi (r : rule) (v : option bytes) : rule :=
  {| src_hit := src_hit r; dst_hit := dst_hit r; src_hi := v; type := type r;
     state := state r; in_if := in_if r; out_if := out_if r; cert := cert r;
     hook := hook r; accept := accept r |}.
Definition set_type (r : rule) (v : option int_option) : rule :=
  {| src_hit := src_hit r; dst_hit := dst_hit r; src_hi := src_hi r;
     type := v; state := state r; in_if := in_if r; out_if := out_if r;
     cert := cert r; hook := hook r; accept := accept r |}.
Definition set_rule_state (r : rule) (v : option state_option) : rule :=
  {| src_hit := src_hit r; dst_hit := dst_hit r; src_hi := src_hi r;
     type := type r; state := v; in_if := in_if r; out_if := out_if r;
     cert := cert r; hook := hook r; accept := accept r |}.
Definition set_in_if (r : rule) (v : option string_option) : rule :=
  {| src_hit := src_hit r; dst_hit := dst_hit r; src_hi := src_hi r;
     type := type r; state := state r; in_if := v; out_if := out_if r;
     cert := cert r; hook := hook r; accept := accept r |}.
Definition set_out_if (r : rule) (v : option string_option) : rule :=
  {| src_hit := src_hit r; dst_hit := dst_hit r; src_hi := src_hi r;
     type := type r; state := state r; in_if := in_if r; out_if := v;
     cert := cert r; hook := hook r; accept := accept r |}.
Definition set_cert (r : rule) (v : option string_option) : rule :=
  {| src_hit := src_hit r; dst_hit := dst_hit r; src_hi := src_hi r;
     type := type r; state := state r; in_if := in_if r; out_if := out_if r;
     cert := v; hook := hook r; accept := accept r |}.
Definition set_accept (r : rule) (v : Z) : rule :=
  {| src_hit := src_hit r; dst_hit := dst_hit r; src_hi := src_hi r;
     type := type r; state := state r; in_if := in_if r; out_if := out_if r;
     cert := cert r; hook := hook r; accept := v |}.

Definition set_verify_responder (s : state_option) : state_option :=
  {| state_boolean := state_boolean s; state_value := state_value s;
     verify_responder := 1; accept_mobile := accept_mobile s;
     decrypt_contents := decrypt_contents s |}.
Definition set_accept_mobile (s : state_option) : state_option :=
  {| state_boolean := state_boolean s; state_value := state_value s;
     verify_responder := verify_responder s; accept_mobile := 1;
     decrypt_contents := decrypt_contents s |}.
Definition set_decrypt_contents (s : state_option) : state_option :=
  {| state_boolean := state_boolean s; state_value := state_value s;
     verify_responder := verify_responder s;
     accept_mobile := accept_mobile s; decrypt_contents := 1 |}.

(** What [parse_rule] delivers: a rule, the NULL pointer, or undefined
    behaviour (a NULL token handed to [strcmp], [strlen] or [inet_pton], or
    [strcpy] beyond the interface name buffer).  [OutOfFuel] belongs to the
    model only: the loop is run for a bounded number of rounds. *)
Inductive parse_result :=
| Parsed (r : rule)
| Rejected
| Undefined
| OutOfFuel.

(** [strtok(NULL, " ")] on the tokens that are left of the string. *)
Definition strtok (rest : list string) : option string * list string :=
  (head rest, tail rest).

(** The common start of [parse_hit], [parse_type], [parse_state] and
    [parse_if]: the [boolean] member, the token to be parsed and the tokens
    that are left. *)
Definition parse_negation (token : string) (rest : list string)
  : Z * option string * list string :=
  if String.eqb token NEGATE_STR
  then let '(t, rest') := strtok rest in (0, t, rest')
  else (1, Some token, rest).

Section Parse.

(** [inet_pton(AF_INET6, num, &ap) == 1] with the address it stores, and
    [parse_hi], which reads a key file and compares its HIT with the given
    one. *)
Variable inet_pton6 : string -> option bytes.
Variable parse_hi : string -> bytes -> option bytes.

(** [numeric_to_addr] of helpers.c. *)
Definition numeric_to_addr (num : string) : option bytes := inet_pton6 num.

(** The four value parsers: [None] is undefined behaviour, [Some (None, _)]
    the NULL pointer. *)
Definition parse_hit (token : string) (rest : list string)
  : option (option hit_option * list string) :=
  let '(boolean, token, rest) := parse_negation token rest in
  token ← token;
  Some (match numeric_to_addr token with
        | Some hit => Some {| hit_boolean := boolean; hit_value := hit |}
        | None => None
        end, rest).

Definition type_of_token (token : string) : option hip_hdr :=
  if String.eqb token "I1" then Some HIP_I1
  else if String.eqb token "R1" then Some HIP_R1
  else if String.eqb token "I2" then Some HIP_I2
  else if String.eqb token "R2" then Some HIP_R2
  else if String.eqb token "UPDATE" then Some HIP_UPDATE
  else if String.eqb token "NOTIFY" then Some HIP_NOTIFY
  else if String.eqb token "CLOSE" then Some HIP_CLOSE
  else if String.eqb token "CLOSE_ACK" then Some HIP_CLOSE_ACK
  else None.

Definition parse_type (token : string) (rest : list string)
  : option (option int_option * list string) :=
  let '(boolean, token, rest) := parse_negation token rest in
  token ← token;
  Some (match type_of_token token with
        | Some v => Some {| int_boolean := boolean; int_value := v |}
        | None => None
        end, rest).

Definition parse_state (token : string) (rest : list string)
  : option (option state_option * list string) :=
  let '(boolean, token, rest) := parse_negation token rest in
  token ← token;
  let mk v :=
    Some {| state_boolean := boolean; state_value := v;
            verify_responder := 0; accept_mobile := 0;
            decrypt_contents := 0 |} in
  Some (if String.eqb token NEW_STR then mk CONN_NEW
        else if String.eqb token ESTABLISHED_STR then mk CONN_ESTABLISHED
        else None, rest).

Definition parse_if (token : string) (rest : list string)
  : option (option string_option * list string) :=
  let '(boolean, token, rest) := parse_negation token rest in
  token ← token;
  if (IF_NAMESIZE <? String.length token)%nat then Some (None, rest)
  else if (String.length token =? IF_NAMESIZE)%nat then None
  else Some (Some {| string_boolean := boolean; string_value := token |},
             rest).

(** What one round of the loop of [parse_rule] ends in. *)
Inductive round :=
| Continue (r : rule) (option_found : option_kind) (rest : list string)
| Break (r : rule) (rest : list string)
| Return (res : parse_result).

(** A round that has read a new option ([option_found == NO_OPTION]). *)
Definition match_option (r : rule) (token : string) (rest : list string)
  : round :=
  if String.eqb token SRC_HIT_STR then
    if src_hit r is Some _ then Return Rejected
    else Continue r SRC_HIT_OPTION rest
  else if String.eqb token DST_HIT_STR then
    if dst_hit r is Some _ then Return Rejected
    else Continue r DST_HIT_OPTION rest
  else if String.eqb token SRC_HI_STR then
    match src_hit r with
    | None => Return Rejected
    | Some h =>
        if (hit_boolean h =? 0)%Z then Return Rejected
        else if src_hi r is Some _ then Return Rejected
        else Continue r SRC_HI_OPTION rest
    end
  else if String.eqb token TYPE_STR then
    if type r is Some _ then Return Rejected
    else Continue r TYPE_OPTION rest
  else if String.eqb token STATE_STR then
    if state r is Some _ then Return Rejected
    else Continue r STATE_OPTION rest
  else if String.eqb token CERT_STR then
    match cert r, hook r with
    | None, NF_IP6_FORWARD => Continue r CERT_OPTION rest
    | _, _ => Return Rejected
    end
  else if String.eqb token VERIFY_RESPONDER_STR then
    match state r with
    | None => Return Rejected
    | Some s =>
        Continue (set_rule_state r (Some (set_verify_responder s)))
          NO_OPTION rest
    end
  else if String.eqb token ACCEPT_MOBILE_STR then
    match state r with
    | None => Return Rejected
    | Some s =>
        Continue (set_rule_state r (Some (set_accept_mobile s)))
          NO_OPTION rest
    end
  else if String.eqb token DECRYPT_CONTENTS_STR then
    match state r with
    | None => Return Rejected
    | Some s =>
        Continue (set_rule_state r (Some (set_decrypt_contents s)))
          NO_OPTION rest
    end
  else if String.eqb token IN_IF_STR then
    match in_if r, hook r with
    | Some _, _ | _, NF_IP6_LOCAL_OUT => Return Rejected
    | None, _ => Continue r IN_IF_OPTION rest
    end
  else if String.eqb token OUT_IF_STR then
    match in_if r, hook r with
    | Some _, _ | _, NF_IP6_LOCAL_IN => Return Rejected
    | None, _ => Continue r OUT_IF_OPTION rest
    end
  else if String.eqb token ACCEPT_STR then
    if (-1 <? accept r)%Z then Return Rejected
    else Break (set_accept r 1) rest
  else if String.eqb token DROP_STR then
    if (-1 <? accept r)%Z then Return Rejected
    else Break (set_accept r 0) rest
  else Return Rejected.

(** The result of a value parser, stored by [store]. *)
Definition store_value {A} (parsed : option (option A * list string))
  (store : rule -> option A -> rule) (r : rule) : round :=
  match parsed with
  | None => Return Undefined
  | Some (None, _) => Return Rejected
  | Some (Some v, rest) => Continue (store r (Some v)) NO_OPTION rest
  end.

(** A round that has read the value of the option found before. *)
Definition match_value (r : rule) (option_found : option_kind)
  (token : string) (rest : list string) : round :=
  match option_found with
  | SRC_HIT_OPTION => store_value (parse_hit token rest) set_src_hit r
  | DST_HIT_OPTION => store_value (parse_hit token rest) set_dst_hit r
  | SRC_HI_OPTION =>
      match src_hit r with
      | None => Return Undefined
      | Some h =>
          match parse_hi token (hit_value h) with
          | Some hi => Continue (set_src_hi r (Some hi)) NO_OPTION rest
          | None => Return Rejected
          end
      end
  | TYPE_OPTION => store_value (parse_type token rest) set_type r
  | STATE_OPTION => store_value (parse_state token rest) set_rule_state r
  | CERT_OPTION =>
      Continue
        (set_cert r (Some {| string_boolean := 0; string_value := token |}))
        NO_OPTION rest
  | IN_IF_OPTION => store_value (parse_if token rest) set_in_if r
  | OUT_IF_OPTION => store_value (parse_if token rest) set_out_if r
  | _ => Continue r option_found rest
  end.

(** What follows the loop: the rule must have a verdict, and nothing may
    follow it. *)
Definition finish_rule (r : rule) (rest : list string) : parse_result :=
  if (accept r =? -1)%Z then Rejected
  else if fst (strtok rest) is Some _ then Rejected
  else Parsed r.

(** The loop of [parse_rule], for at most [fuel] rounds.  Its condition
    [strlen(string) > 0] holds in every round: [string] starts with blanks
    or with the first token. *)
Fixpoint parse_rule_loop (fuel : nat) (r : rule) (option_found : option_kind)
  (rest : list string) : parse_result :=
  match fuel with
  | O => OutOfFuel
  | S fuel' =>
      match strtok rest with
      | (None, rest') => finish_rule r rest'
      | (Some token, rest') =>
          match (match option_found with
                 | NO_OPTION => match_option r token rest'
                 | _ => match_value r option_found token rest'
                 end) with
          | Continue r' option_found' rest'' =>
              parse_rule_loop fuel' r' option_found' rest''
          | Break r' rest'' => finish_rule r' rest''
          | Return res => res
          end
      end
  end.

(** [parse_rule] on the tokens that [strtok] cuts out of the string;
    allocation is taken to succeed. *)
Definition parse_rule (tokens : list string) : parse_result :=
  match strtok tokens with
  | (None, _) => Rejected
  | (Some token, rest) =>
      let loop h :=
        parse_rule_loop (S (length rest)) (alloc_empty_rule h) NO_OPTION
          rest in
      if String.eqb token INPUT_STR then loop NF_IP6_LOCAL_IN
      else if String.eqb token OUTPUT_STR then loop NF_IP6_LOCAL_OUT
      else if String.eqb token FORWARD_STR then loop NF_IP6_FORWARD
      else Rejected
  end.

End Parse.

(** The token that names a hook. *)
Definition hook_token (h : nf_hook) : string :=
  match h with
  | NF_IP6_LOCAL_IN => INPUT_STR
  | NF_IP6_LOCAL_OUT => OUTPUT_STR
  | NF_IP6_FORWARD => FORWARD_STR
  end.

(** What holds of a rule while it is being parsed. *)
Definition rule_wf (r : rule) : Prop :=
  (cert r <> None -> hook r = NF_IP6_FORWARD) /\
  (in_if r <> None -> hook r <> NF_IP6_LOCAL_OUT) /\
  (out_if r <> None -> hook r <> NF_IP6_LOCAL_IN) /\
  (src_hi r <> None ->
   exists h, src_hit r = Some h /\ hit_boolean h <> 0%Z).

(** What holds of the option whose value is awaited. *)
Definition pending_ok (r : rule) (o : option_kind) : Prop :=
  match o with
  | SRC_HI_OPTION =>
      src_hi r = None /\
      exists h, src_hit r = Some h /\ hit_boolean h <> 0%Z
  | CERT_OPTION => hook r = NF_IP6_FORWARD
  | IN_IF_OPTION => hook r <> NF_IP6_LOCAL_OUT
  | OUT_IF_OPTION => hook r <> NF_IP6_LOCAL_IN
  | SRC_HIT_OPTION => src_hit r = None
  | _ => True
  end.

End RuleManagement.

(** Three rules as their tokens: a rule for forwarded packets with two
    outgoing interfaces, one with an incoming and an outgoing interface, and
    one whose verdict is not the last token. *)
Definition rule_two_out_ifs : list string :=
  ["FORWARD"; "-o"; "eth0"; "-o"; "eth1"; "DROP"]%string.
Definition rule_in_and_out_if : list string :=
  ["FORWARD"; "-i"; "eth0"; "-o"; "eth1"; "DROP"]%string.
Definition rule_verdict_first : list string :=
  ["INPUT"; "ACCEPT"; "-type"; "I1"]%string.

Definition toy_parse_rule (tokens : list string)
  : RuleManagement.parse_result :=
  RuleManagement.parse_rule (fun _ => Some (replicate 16 0))
    (fun _ _ => None) tokens.


(** ** Local interfaces and addresses (libhipl/netdev.c) *)

Definition HIP_NETDEV_MAX_WHITE_LIST : Z := 5.

(** The white list of interface indices: the array and the number of slots
    in use. *)
Record white_list := {
  hip_netdev_white_list : list Z;
  hip_netdev_white_list_count : Z
}.

(** [netdev_white_list_add_index].  [None]: the daemon is stopped by
    [HIP_DIE] because all slots are in use (or the store leaves the
    array). *)
Definition netdev_white_list_add_index (wl : white_list) (if_index : Z)
  : option white_list :=
  let count := hip_netdev_white_list_count wl in
  if count <? HIP_NETDEV_MAX_WHITE_LIST then
    if (0 <=? count)
       && (Z.to_nat count <? length (hip_netdev_white_list wl))%nat
    then Some {| hip_netdev_white_list :=
                   <[Z.to_nat count := if_index]> (hip_netdev_white_list wl);
                 hip_netdev_white_list_count := count + 1 |}
    else None
  else None.

(** The loop of [netdev_is_in_white_list] over the slots
    [i .. i + count - 1]; [None]: a read outside the array. *)
Fixpoint white_list_scan (l : list Z) (if_index : Z) (i count : nat)
  : option Z :=
  match count with
  | O => Some 0
  | S c =>
      x ← l !! i;
      if x =? if_index then Some 1 else white_list_scan l if_index (S i) c
  end.

Definition netdev_is_in_white_list (wl : white_list) (if_index : Z)
  : option Z :=
  white_list_scan (hip_netdev_white_list wl) if_index 0
    (Z.to_nat (hip_netdev_white_list_count wl)).

(** The white list as the program keeps it: an array of
    [HIP_NETDEV_MAX_WHITE_LIST] slots of which the first [count] are in
    use. *)
Definition white_list_ok (wl : white_list) : Prop :=
  length (hip_netdev_white_list wl) = Z.to_nat HIP_NETDEV_MAX_WHITE_LIST /\
  0 <= hip_netdev_white_list_count wl <= HIP_NETDEV_MAX_WHITE_LIST.

Definition white_list_empty : white_list :=
  {| hip_netdev_white_list := replicate 5 0;
     hip_netdev_white_list_count := 0 |}.

(** Socket addresses: an IPv6 address of sixteen octets, an IPv4 address as
    the 32-bit value of [s_addr], or another address family. *)
Inductive sockaddr :=
| sockaddr_in6 (sin6_addr : bytes)
| sockaddr_in (s_addr : Z)
| sockaddr_other (sa_family : Z).

(** Address families of <sys/socket.h> (Linux). *)
Definition AF_INET : Z := 2.
Definition AF_INET6 : Z := 10.

Definition FA_IGNORE : Z := 0.
Definition FA_ADD : Z := 1.

(** The address tests of <netinet/in.h>. *)
Definition IN6_IS_ADDR_UNSPECIFIED (a : bytes) : bool :=
  bool_decide (a = replicate 16 0).
Definition IN6_IS_ADDR_LOOPBACK (a : bytes) : bool :=
  bool_decide (a = replicate 15 0 ++ [1]).
Definition IN6_IS_ADDR_LINKLOCAL (a : bytes) : bool :=
  bool_decide (a !! 0%nat = Some 254)
  && match a !! 1%nat with
     | Some b => Z.land b 192 =? 128
     | None => false
     end.
Definition IN6_IS_ADDR_V4COMPAT (a : bytes) : bool :=
  bool_decide (take 12 a = replicate 12 0)
  && match drop 12 a with
     | [b0; b1; b2; b3] => 1 <? ((b0 * 256 + b1) * 256 + b2) * 256 + b3
     | _ => false
     end.
Definition INADDR_ANY : Z := 0.
Definition INADDR_BROADCAST : Z := 4294967295.
Definition IN_MULTICAST (a : Z) : bool :=
  Z.land a 4026531840 =? 3758096384.

Section FilterAddress.

(** The tests of libcore/prefix.h, and the global [suppress_af_family]. *)
Variable ipv6_addr_is_hit : bytes -> bool.
Variable IS_LSI32 : Z -> bool.
Variable IS_IPV4_LOOPBACK : Z -> bool.
Variable IS_LSI : Z -> bool.
Variable suppress_af_family : Z.

(** [filter_address].  [ntohs] is handed the 32-bit address, of which it
    gets the low sixteen bits. *)
Definition filter_address (addr : sockaddr) : Z :=
  match addr with
  | sockaddr_in6 a_in6 =>
      if suppress_af_family =? AF_INET then FA_IGNORE
      else if IN6_IS_ADDR_UNSPECIFIED a_in6 then FA_IGNORE
      else if IN6_IS_ADDR_LOOPBACK a_in6 then FA_IGNORE
      else if IN6_IS_ADDR_MULTICAST a_in6 then FA_IGNORE
      else if IN6_IS_ADDR_LINKLOCAL a_in6 then FA_IGNORE
      else if IN6_IS_ADDR_V4MAPPED a_in6 then FA_IGNORE
      else if IN6_IS_ADDR_V4COMPAT a_in6 then FA_IGNORE
      else if ipv6_addr_is_hit a_in6 then FA_IGNORE
      else FA_ADD
  | sockaddr_in a_in =>
      if suppress_af_family =? AF_INET6 then FA_IGNORE
      else if a_in =? INADDR_ANY then FA_IGNORE
      else if a_in =? INADDR_BROADCAST then FA_IGNORE
      else if IN_MULTICAST (ntohs (wrap16 a_in)) then FA_IGNORE
      else if IS_LSI32 a_in then FA_IGNORE
      else if IS_IPV4_LOOPBACK a_in then FA_IGNORE
      else if IS_LSI a_in then FA_IGNORE
      else FA_ADD
  | sockaddr_other _ => FA_IGNORE
  end.

End FilterAddress.

(** The IPv4 multicast address 224.0.0.1 as the value of [s_addr] on a
    little-endian host. *)
Definition all_hosts_group : Z := 16777440.


(** ** Negotiating the ESP protection transform (libhipl/esp_prot_hipd_msg.c) *)

(** The inner loop of [esp_prot_select_transform] for the local transform
    [i], over the peer's transforms [j .. j + count - 1]: whether a match is
    found.  [None]: a read outside one of the arrays. *)
Fixpoint select_transform_inner (esp_prot_transforms transforms : list Z)
  (i j count : nat) : option bool :=
  match count with
  | O => Some false
  | S c =>
      ours ← esp_prot_transforms !! i;
      theirs ← transforms !! j;
      if ours =? theirs then Some true
      else select_transform_inner esp_prot_transforms transforms i (S j) c
  end.

(** The outer loop, over the local transforms [i .. i + count - 1]. *)
Fixpoint select_transform_outer (esp_prot_transforms transforms : list Z)
  (num_transforms : nat) (i count : nat) : option Z :=
  match count with
  | O => Some ESP_PROT_TFM_UNUSED
  | S c =>
      select_transform_inner esp_prot_transforms transforms i 0
        num_transforms ≫= fun found : bool =>
        if found then esp_prot_transforms !! i
        else select_transform_outer esp_prot_transforms transforms
               num_transforms (S i) c
  end.

(** [esp_prot_select_transform]; [esp_prot_transforms] and
    [esp_prot_num_transforms] are the globals set by the firewall. *)
Definition esp_prot_select_transform (esp_prot_transforms : list Z)
  (esp_prot_num_transforms : Z) (num_transforms : Z) (transforms : list Z)
  : option Z :=
  select_transform_outer esp_prot_transforms transforms
    (Z.to_nat num_transforms) 0 (Z.to_nat esp_prot_num_transforms).

(** [esp_prot_r1_handle_transforms]: the return value and the members
    [esp_prot_param] and [esp_prot_transform] of the host association.
    [prot_transforms] is the ESP_PROT_TRANSFORMS parameter of the R1 (its
    [num_transforms] and [transforms]), if there is one. *)
Definition esp_prot_r1_handle_transforms (hip_use_userspace_ipsec : Z)
  (esp_prot_transforms : list Z) (esp_prot_num_transforms : Z)
  (prot_transforms : option (Z * list Z)) (esp_prot_param : Z)
  : option (Z * Z * Z) :=
  if negb (hip_use_userspace_ipsec =? 0) then
    match prot_transforms with
    | Some (num_transforms, transforms) =>
        t ← esp_prot_select_transform esp_prot_transforms
              esp_prot_num_transforms num_transforms transforms;
        Some (0, 1, t)
    | None => Some (0, 0, ESP_PROT_TFM_UNUSED)
    end
  else Some (0, esp_prot_param, ESP_PROT_TFM_UNUSED).


(** ** Handling an accepted I2 and an accepted R2 (libhipl/input.c) *)

Definition ENXIO : Z := 6.

(** Assignment to [esp_transform]. *)
Definition set_esp_transform (e : hip_hadb_state) (v : Z) : hip_hadb_state :=
  {| hit_our := hit_our e; hit_peer := hit_peer e; state := state e;
     is_loopback := is_loopback e; our_addr := our_addr e;
     esp_transform := v; hip_transform := hip_transform e;
     birthday := birthday e; dh_shared_key := dh_shared_key e;
     dh_shared_key_len := dh_shared_key_len e;
     hip_enc_out := hip_enc_out e; hip_hmac_out := hip_hmac_out e;
     esp_out := esp_out e; auth_out := auth_out e;
     hip_enc_in := hip_enc_in e; hip_hmac_in := hip_hmac_in e;
     esp_in := esp_in e; auth_in := auth_in e;
     current_keymat_index := current_keymat_index e;
     keymat_calc_index := keymat_calc_index e;
     esp_keymat_index := esp_keymat_index e;
     current_keymat_K := current_keymat_K e;
     our_pub := our_pub e; peer_pub := peer_pub e;
     spi_inbound_current := spi_inbound_current e;
     spi_outbound_old := spi_outbound_old e;
     spi_outbound_new := spi_outbound_new e; hip_version := hip_version e |}.

Section HandleI2R2.

(** Functions that [hip_handle_i2] and [hip_handle_r2] call, as oracles.
    [hip_devaddr2ifindex] (netdev.c) searches the address list of the host.
    [hip_hadb_add_peer_addr] (hadb.c) gets the host association by pointer:
    its result is the return value and the association as it leaves it.
    [esp_prot_i2_handle_anchor] and [esp_prot_r2_handle_anchor]
    (esp_prot_hipd_msg.c) read the message and write only the
    ESP-protection members of the host association, which the record
    leaves out: the model takes their return value.  The three functions of
    registration.c get the host association by pointer before the state is
    assigned.  [hip_relay_handle_relay_to_in_client] (hiprelay.c) is called
    in a build with CONFIG_HIP_RVS and gets the packet context by
    pointer. *)
Variable hip_devaddr2ifindex : bytes -> Z.
Variable hip_hadb_add_peer_addr : hip_hadb_state -> bytes -> Z * hip_hadb_state.
Variable esp_prot_i2_handle_anchor : hip_packet_context -> Z.
Variable esp_prot_r2_handle_anchor : hip_hadb_state -> hip_common -> Z.
Variable hip_handle_param_reg_response : hip_hadb_state -> hip_common -> hip_hadb_state.
Variable hip_handle_param_reg_failed : hip_hadb_state -> hip_common -> hip_hadb_state.
Variable hip_handle_reg_from : hip_hadb_state -> hip_common -> hip_hadb_state.
Variable CONFIG_HIP_RVS : bool.
Variable hip_relay_handle_relay_to_in_client :
  hip_hdr -> hip_state -> hip_packet_context -> hip_packet_context.

(** The two functions that [hip_setup_ipsec_sa] calls, whose bodies are not
    among the embedded sources; each gets the host association by pointer.
    The first returns nothing, the second an [int]. *)
Variable hip_delete_security_associations_and_sp :
  hip_hadb_state -> hip_hadb_state.
Variable hip_create_security_associations_and_sp :
  hip_hadb_state -> bytes -> bytes -> Z * hip_hadb_state.

(** The label [out_err] of [hip_handle_i2]. *)
Definition handle_i2_out_err (err : Z) (ctx : hip_packet_context)
  : option (Z * hip_packet_context) :=
  Some (err, if err =? 0 then ctx else set_error ctx err).

(** [hip_handle_i2] (built without CONFIG_HIP_PERFORMANCE): the return value
    and the packet context.  [None]: the context carries no host
    association.  The call of [hip_add_address_to_list], which changes the
    address list of the host only, and the writes to [nat_mode], the UDP
    ports and [peer_controls], which are not among the members of the
    record, are left out. *)
Definition hip_handle_i2 (E : hipd_env) (ctx : hip_packet_context)
  : option (Z * hip_packet_context) :=
  let msg := input_msg ctx in
  entry ← hadb_entry ctx;
  if hip_devaddr2ifindex (our_addr entry) <? 0
  then handle_i2_out_err (- ENXIO) ctx
  else
    let entry1 :=
      match our_pub entry with
      | None => hip_init_us E entry (hit_receiver msg)
      | Some _ => entry
      end in
    let ctx1 := set_hadb_entry ctx (Some entry1) in
    match hip_get_param msg HIP_PARAM_ESP_INFO with
    | Some (_, P_ESP_INFO _ old_spi new_spi) =>
      let entry2 := set_spi_outbound entry1 (ntohl old_spi) (ntohl new_spi) in
      let '(added, entry3) := hip_hadb_add_peer_addr entry2 (src_addr ctx) in
      let ctx3 := set_hadb_entry ctx (Some entry3) in
      if negb (added =? 0) then handle_i2_out_err (-1) ctx3
      else
        match hip_get_param msg HIP_PARAM_ESP_TRANSFORM with
        | Some (_, P_ESP_TRANSFORM esp_ids) =>
          let entry4 :=
            set_esp_transform entry3 (hip_select_esp_transform E esp_ids) in
          let ctx4 := set_hadb_entry ctx (Some entry4) in
          if esp_transform entry4 =? 0 then handle_i2_out_err (-1) ctx4
          else if negb (esp_prot_i2_handle_anchor ctx4 =? 0)
          then handle_i2_out_err (-1) ctx4
          else
            handle_i2_out_err 0
              (set_hadb_entry ctx
                 (Some (set_state entry4 HIP_STATE_ESTABLISHED)))
        | _ => handle_i2_out_err (- ENOENT) ctx3
        end
    | _ => handle_i2_out_err (- EINVAL) ctx1
    end.

(** [hip_handle_r2] (built without CONFIG_HIP_PERFORMANCE): the return
    value, the packet context and the recorded call of
    [hip_hadb_insert_state].  The function has no [out_err] label: it
    returns its error values without writing [ctx->error].  [None]: no host
    association in the context (the model does not follow the UDP ports:
    the source writes the ports of the association before it looks for
    ESP_INFO when the packet came to the NAT port, and the SPIs after it).
    The writes to the UDP ports, which are not among the members of the
    record, and the notification of the firewall ([hipfw_set_bex_data],
    given the two HITs) are left out. *)
Definition hip_handle_r2 (packet_type : hip_hdr) (ha_state : hip_state)
  (ctx : hip_packet_context)
  : option (Z * hip_packet_context * list hipd_event) :=
  let msg := input_msg ctx in
  entry ← hadb_entry ctx;
  match hip_get_param msg HIP_PARAM_ESP_INFO with
  | Some (_, P_ESP_INFO _ old_spi new_spi) =>
    let entry1 := set_spi_outbound entry (ntohl old_spi) (ntohl new_spi) in
    let ctx1 := set_hadb_entry ctx (Some entry1) in
    if negb (esp_prot_r2_handle_anchor entry1 msg =? 0)
    then Some (-1, ctx1, [])
    else
      let ctx2 :=
        if CONFIG_HIP_RVS
        then hip_relay_handle_relay_to_in_client packet_type ha_state ctx1
        else ctx1 in
      entry2 ← hadb_entry ctx2;
      let entry3 := hip_handle_param_reg_response entry2 (input_msg ctx2) in
      let entry4 := hip_handle_param_reg_failed entry3 (input_msg ctx2) in
      let entry5 := hip_handle_reg_from entry4 (input_msg ctx2) in
      let entry6 := set_state entry5 HIP_STATE_ESTABLISHED in
      Some (0, set_hadb_entry ctx2 (Some entry6), [EvInsertState entry6])
  | _ => Some (- EINVAL, ctx, [])
  end.


End HandleI2R2.



(** Helpers of the two handlers that succeed and leave the host association
    as it is. *)
Definition toy_ifindex (_ : bytes) : Z := 1.
Definition toy_add_peer_addr (e : hip_hadb_state) (_ : bytes)
  : Z * hip_hadb_state := (0, e).
Definition toy_i2_anchor (_ : hip_packet_context) : Z := 0.
Definition toy_r2_anchor (_ : hip_hadb_state) (_ : hip_common) : Z := 0.
Definition toy_reg (e : hip_hadb_state) (_ : hip_common) : hip_hadb_state := e.
Definition toy_relay_in_client (_ : hip_hdr) (_ : hip_state)
  (c : hip_packet_context) : hip_packet_context := c.

Definition toy_handle_i2 (ctx : hip_packet_context)
  : option (Z * hip_packet_context) :=
  hip_handle_i2 toy_ifindex toy_add_peer_addr toy_i2_anchor toy_env ctx.


Definition toy_handle_r2 (ctx : hip_packet_context)
  : option (Z * hip_packet_context * list hipd_event) :=
  hip_handle_r2 toy_r2_anchor toy_reg toy_reg toy_reg false
    toy_relay_in_client HIP_R2 HIP_STATE_I2_SENT ctx.

(** The I2/I2 collision of the hosts [hit_A] and [hit_B]: each is in state
    I2-SENT and receives the other's I2; [hit_B] later receives the R2 with
    which [hit_A] answers its I2. *)
Definition entry_i2_sent (our peer : hip_hit_t) : hip_hadb_state :=
  set_state
    (set_ids hip_hadb_state_zero our peer (replicate 16 0) (Some [7; 7]) None
       HIP_V2)
    HIP_STATE_I2_SENT.

Definition msg_i2_of (sender receiver : hip_hit_t) : hip_common :=
  {| total_len := 480; ver_res := HIP_V2; checksum := 0; control := 0;
     hit_sender := sender; hit_receiver := receiver;
     params := params msg_i2_ok |}.

Definition ctx_collision (our peer : hip_hit_t) : hip_packet_context :=
  {| input_msg := msg_i2_of peer our;
     src_addr := replicate 16 1; dst_addr := replicate 16 2;
     hadb_entry := Some (entry_i2_sent our peer); error := 0 |}.

Definition ctx_r2_after_collision : hip_packet_context :=
  {| input_msg := msg_r2;
     src_addr := replicate 16 1; dst_addr := replicate 16 2;
     hadb_entry := Some (entry_i2_sent hit_B hit_A); error := 0 |}.



(* ===================================================================== *)
(** * Part II.  Properties                                                *)
(* ===================================================================== *)

(** ** Buffers *)

Lemma memcmp_refl (s : bytes) (n : nat) : memcmp s s n = 0.
Proof.
  revert s; induction n as [|n IH]; intros [|x s]; simpl; try reflexivity.
  rewrite Z.eqb_refl. apply IH.
Qed.

Lemma memcmp_antisym (s1 s2 : bytes) (n : nat) :
  memcmp s2 s1 n = - memcmp s1 s2 n.
Proof.
  revert s1 s2; induction n as [|n IH]; intros [|x s1] [|y s2]; simpl;
    try reflexivity.
  rewrite (Z.eqb_sym y x).
  destruct (x =? y) eqn:Hxy; [apply IH | lia].
Qed.

Lemma memcmp_eq (s1 s2 : bytes) (n : nat) :
  length s1 = n -> length s2 = n -> memcmp s1 s2 n = 0 -> s1 = s2.
Proof.
  revert s1 s2; induction n as [|n IH]; intros [|x s1] [|y s2] H1 H2 Hc;
    simpl in *; try discriminate; try reflexivity.
  destruct (x =? y) eqn:Hxy.
  - apply Z.eqb_eq in Hxy. subst y. f_equal. apply IH; congruence.
  - apply Z.eqb_neq in Hxy. lia.
Qed.

Lemma memcmp_take (s1 s2 : bytes) (n : nat) :
  memcmp s1 s2 n = 0 ->
  (n <= length s1)%nat -> (n <= length s2)%nat -> take n s1 = take n s2.
Proof.
  revert s1 s2; induction n as [|n IH]; intros [|x s1] [|y s2] Hc H1 H2;
    simpl in *; try reflexivity; try lia.
  destruct (x =? y) eqn:Hxy.
  - apply Z.eqb_eq in Hxy. subst y. f_equal. apply IH; [assumption | lia | lia].
  - apply Z.eqb_neq in Hxy. lia.
Qed.

(** ** The order on HITs *)

Lemma hip_hit_is_bigger_irrefl (h : hip_hit_t) : hip_hit_is_bigger h h = false.
Proof. unfold hip_hit_is_bigger. now rewrite memcmp_refl. Qed.

Lemma hip_hit_is_bigger_asym (h1 h2 : hip_hit_t) :
  hip_hit_is_bigger h1 h2 = true -> hip_hit_is_bigger h2 h1 = false.
Proof.
  unfold hip_hit_is_bigger. rewrite (memcmp_antisym h1 h2).
  intros H. apply Z.ltb_lt in H. apply Z.ltb_ge. lia.
Qed.

Lemma hip_hit_is_bigger_total (h1 h2 : hip_hit_t) :
  length h1 = HIT_LEN -> length h2 = HIT_LEN -> h1 <> h2 ->
  hip_hit_is_bigger h1 h2 = true \/ hip_hit_is_bigger h2 h1 = true.
Proof.
  intros L1 L2 Hne. unfold hip_hit_is_bigger.
  rewrite (memcmp_antisym h1 h2).
  destruct (Z.lt_trichotomy (memcmp h1 h2 HIT_LEN) 0) as [H | [H | H]].
  - right. apply Z.ltb_lt. lia.
  - exfalso. apply Hne. now apply (memcmp_eq h1 h2 HIT_LEN).
  - left. now apply Z.ltb_lt.
Qed.

(** ** C6: the I2/I2 collision rule *)

(** C6, the claim as stated fails: with HIT_A > HIT_B and both hosts in
    I2-SENT, the host with the bigger HIT (A) does not drop the I2 it
    receives, and the host with the smaller HIT (B) drops the one it
    receives. *)
Lemma i2_collision_bigger_hit_keeps_received_i2 :
  hip_hit_is_bigger hit_A hit_B = true /\
  i2_dropped_in_i2_sent (ctx_i2_sent hit_A hit_B) = false /\
  i2_dropped_in_i2_sent (ctx_i2_sent hit_B hit_A) = true.
Proof. repeat split; vm_compute; reflexivity. Qed.

(** ** C10: HMAC verification and the caller's message buffer *)

(** When the message carries the HMAC parameter: if validation fails,
    [hip_verify_packet_hmac_general] returns -1 and the message keeps the
    length truncated to the HMAC parameter's offset and the zeroed checksum
    (everything else is as it was); if validation succeeds it returns 0, the
    length is the original one and the checksum is the one saved in the
    function's [uint8_t] local. *)
Lemma hip_verify_packet_hmac_general_paths
  (hmac_fn : Z -> hip_crypto_key -> hip_common -> Z -> option bytes)
  (msg : hip_common) (crypto_key : hip_crypto_key) (ty : hip_tlv)
  (off : Z) (p : hip_param) :
  hip_get_param msg ty = Some (off, p) ->
  let truncated := hip_set_msg_total_len (hip_zero_msg_checksum msg) off in
  let v :=
    verify_hmac hmac_fn truncated off (hmac_data_of p) crypto_key
      HIP_DIGEST_SHA1_HMAC in
  (total_len truncated = off /\ checksum truncated = 0 /\
   params truncated = params msg) /\
  (v <> 0 ->
   hip_verify_packet_hmac_general hmac_fn msg crypto_key ty = (-1, truncated)) /\
  (v = 0 ->
   hip_verify_packet_hmac_general hmac_fn msg crypto_key ty
   = (0, hip_set_msg_checksum msg (wrap8 (checksum msg)))).
Proof.
  intros Hp. cbn zeta. unfold hip_verify_packet_hmac_general. rewrite Hp.
  unfold hip_get_msg_total_len, hip_get_msg_checksum.
  cbn [total_len hip_set_msg_total_len hip_zero_msg_checksum
       hip_set_msg_checksum checksum params].
  split; [repeat split |]. split; intros Hv.
  - apply Z.eqb_neq in Hv. rewrite Hv. reflexivity.
  - rewrite Hv. reflexivity.
Qed.

(** C10: at a message whose HMAC parameter verifies and whose checksum field
    holds 0x1234, [hip_verify_packet_hmac_general] returns 0 and restores
    the total length, but the checksum it writes back is 0x34: the value
    was saved in a [uint8_t] local, so the success path does not restore
    both fields.  At a message whose HMAC does not verify it returns -1 and
    leaves the length truncated to the offset of the HMAC parameter and the
    checksum zeroed. *)
Theorem hip_verify_packet_hmac_general_truncates_checksum :
  checksum msg_good_hmac = 4660 /\
  hip_verify_packet_hmac_general toy_write_hmac msg_good_hmac [1; 2; 3]
    HIP_PARAM_HMAC
  = (0, hip_set_msg_checksum msg_good_hmac 52) /\
  hip_verify_packet_hmac_general toy_write_hmac msg_bad_hmac [1; 2; 3]
    HIP_PARAM_HMAC
  = (-1, hip_set_msg_total_len (hip_zero_msg_checksum msg_bad_hmac) 56).
Proof.
  split; [reflexivity|].
  split.
  - apply (hip_verify_packet_hmac_general_paths toy_write_hmac msg_good_hmac
             [1; 2; 3] HIP_PARAM_HMAC 56 (P_HMAC (replicate 20 62)));
      [reflexivity | vm_compute; reflexivity].
  - apply (hip_verify_packet_hmac_general_paths toy_write_hmac msg_bad_hmac
             [1; 2; 3] HIP_PARAM_HMAC 56 (P_HMAC (replicate 20 9)));
      [reflexivity | vm_compute; discriminate].
Qed.

(** ** C2: Diffie-Hellman group downgrade *)

Lemma check_dh_downgrade_v2_inner_spec (g peer_group : Z) (l : list Z) :
  check_dh_downgrade_v2_inner g peer_group l =
  if existsb (Z.eqb g) l
  then Some (if g =? peer_group then 0 else -1)
  else None.
Proof.
  induction l as [|a l IH]; simpl; [reflexivity|].
  destruct (g =? a) eqn:Hga; simpl; [|exact IH].
  apply Z.eqb_eq in Hga. subst a. now destruct (g =? peer_group).
Qed.

Lemma check_dh_downgrade_v2_outer_spec (ours : list Z) (peer_group : Z)
  (l : list Z) :
  check_dh_downgrade_v2_outer ours peer_group l = 0 <->
  first_dh_match ours l = Some peer_group.
Proof.
  unfold first_dh_match.
  induction ours as [|g ours IH]; simpl.
  - split; intros H; discriminate H.
  - rewrite check_dh_downgrade_v2_inner_spec.
    destruct (existsb (Z.eqb g) l); [|exact IH].
    destruct (g =? peer_group) eqn:Hg.
    + apply Z.eqb_eq in Hg. subst g. split; reflexivity.
    + apply Z.eqb_neq in Hg. split; intros H; [discriminate H|].
      injection H as H. contradiction.
Qed.

Lemma check_dh_downgrade_v2_outer_result (ours : list Z) (peer_group : Z)
  (l : list Z) :
  check_dh_downgrade_v2_outer ours peer_group l = 0 \/
  check_dh_downgrade_v2_outer ours peer_group l = -1.
Proof.
  induction ours as [|g ours IH]; simpl; [now right|].
  rewrite check_dh_downgrade_v2_inner_spec.
  destruct (existsb (Z.eqb g) l); [|exact IH].
  destruct (g =? peer_group); [now left | now right].
Qed.

Lemma hip_check_i2_mid_dh (E : hipd_env) (ctx ctx' : hip_packet_context)
  (v : Z) (skip : bool) (tr tr' : list hipd_event) :
  hip_check_i2_mid E ctx v skip tr = Some (0, ctx', tr') ->
  exists off pv pv2,
    hip_get_param (input_msg ctx) HIP_PARAM_DIFFIE_HELLMAN
      = Some (off, P_DIFFIE_HELLMAN pv pv2) /\
    i2_dh_group_known (group_id pv) = true /\
    hip_get_dh_size E (group_id pv) = ntohs (pub_len pv).
Proof.
  unfold hip_check_i2_mid. intros H.
  destruct (hip_get_param (input_msg ctx) HIP_PARAM_SOLUTION)
    as [[o1 []]|]; try bad_ret H.
  destruct (hip_get_param (input_msg ctx) HIP_PARAM_DIFFIE_HELLMAN)
    as [[o2 []]|]; try bad_ret H.
  destruct (i2_dh_group_known (group_id pub_val)) eqn:Hk; cbn [negb] in H;
    [|bad_ret H].
  destruct (hip_get_dh_size E (group_id pub_val) =? ntohs (pub_len pub_val))
    eqn:Hs; cbn [negb] in H; [|bad_ret H].
  apply Z.eqb_eq in Hs. eauto 6.
Qed.

Lemma hip_check_i2_create_dh (E : hipd_env) (ctx ctx' : hip_packet_context)
  (v : Z) (tr tr' : list hipd_event) :
  hip_check_i2_create E ctx v tr = Some (0, ctx', tr') ->
  exists off pv pv2,
    hip_get_param (input_msg ctx) HIP_PARAM_DIFFIE_HELLMAN
      = Some (off, P_DIFFIE_HELLMAN pv pv2) /\
    i2_dh_group_known (group_id pv) = true /\
    hip_get_dh_size E (group_id pv) = ntohs (pub_len pv).
Proof.
  unfold hip_check_i2_create. intros H.
  destruct (hip_hadb_create_state E); [|bad_ret H].
  apply hip_check_i2_mid_dh in H. exact H.
Qed.

Lemma hip_check_i2_dh (E : hipd_env) (ctx ctx' : hip_packet_context)
  (tr : list hipd_event) :
  hip_check_i2 E ctx = Some (0, ctx', tr) ->
  exists off pv pv2,
    hip_get_param (input_msg ctx) HIP_PARAM_DIFFIE_HELLMAN
      = Some (off, P_DIFFIE_HELLMAN pv pv2) /\
    i2_dh_group_known (group_id pv) = true /\
    hip_get_dh_size E (group_id pv) = ntohs (pub_len pv).
Proof.
  unfold hip_check_i2. intros H.
  destruct (hip_hidb_hit_is_our E _); cbn [negb] in H; [|bad_ret H].
  destruct (hip_controls_sane E _ _); cbn [negb] in H; [|bad_ret H].
  destruct (match hadb_entry ctx with
            | Some _ => default false (i2_is_retransmission ctx)
            | None => false
            end).
  - now apply hip_check_i2_mid_dh in H.
  - destruct (hadb_entry ctx) as [old|].
    + destruct (hip_del_peer_info_entry E old =? 0); cbn [negb] in H;
        [|bad_ret H].
      now apply hip_check_i2_create_dh in H.
    + now apply hip_check_i2_create_dh in H.
Qed.

(** C2, the claim as stated fails: the responder's list is
    [HIP_DH_GROUP_LIST] (NIST P-384 first), the initiator supports NIST P-384
    and modp-1536, so the first match is NIST P-384; an I2 that uses
    modp-1536 is a downgrade in the sense of [check_dh_downgrade_v2], and
    [hip_check_i2] accepts it (return value 0, a host association with keys
    is set up). *)
Lemma i2_with_downgraded_dh_group_accepted :
  first_dh_match HIP_DH_GROUP_LIST [HIP_DH_NIST_P_384; HIP_DH_OAKLEY_5]
    = Some HIP_DH_NIST_P_384 /\
  check_dh_downgrade_v2 HIP_DH_OAKLEY_5 [HIP_DH_NIST_P_384; HIP_DH_OAKLEY_5]
    = -1 /\
  exists ctx' tr entry,
    hip_check_i2 toy_env
      (ctx_i2 (msg_i2 HIP_DH_OAKLEY_5 49152 (replicate 20 120)) None)
      = Some (0, ctx', tr) /\
    hadb_entry ctx' = Some entry /\ hip_version entry = HIP_V2 /\
    dh_shared_key entry = Some [5; 6; 7; 8].
Proof.
  split; [reflexivity|]. split; [reflexivity|].
  eexists _, _, _. split; [vm_compute; reflexivity|].
  split; [reflexivity|]. split; reflexivity.
Qed.

(** C2, as amended: the HIPv2 downgrade check [check_dh_downgrade_v2] (called
    when an R1 is checked) returns 0 exactly when the group of the
    DIFFIE_HELLMAN parameter is the first group of the local preference list
    [HIP_DH_GROUP_LIST] that the peer's DH_GROUP_LIST contains, and -1
    otherwise; an I2 that [hip_check_i2] accepts carries a DIFFIE_HELLMAN
    parameter whose group is one of [HIP_DH_GROUP_LIST] and whose public
    value has the length of that group, and nothing more is required of the
    group. *)
Theorem dh_downgrade_checked_on_r1_group_membership_on_i2
  (E : hipd_env) (ctx ctx' : hip_packet_context) (tr : list hipd_event)
  (peer_group : Z) (list : list Z) :
  (check_dh_downgrade_v2 peer_group list = 0 <->
   first_dh_match HIP_DH_GROUP_LIST list = Some peer_group) /\
  (check_dh_downgrade_v2 peer_group list <> 0 ->
   check_dh_downgrade_v2 peer_group list = -1) /\
  (hip_check_i2 E ctx = Some (0, ctx', tr) ->
   exists off pv pv2,
     hip_get_param (input_msg ctx) HIP_PARAM_DIFFIE_HELLMAN
       = Some (off, P_DIFFIE_HELLMAN pv pv2) /\
     In (group_id pv) HIP_DH_GROUP_LIST /\
     hip_get_dh_size E (group_id pv) = ntohs (pub_len pv)).
Proof.
  split; [apply check_dh_downgrade_v2_outer_spec|]. split.
  - unfold check_dh_downgrade_v2.
    destruct (check_dh_downgrade_v2_outer_result HIP_DH_GROUP_LIST peer_group
                list) as [H | H]; rewrite H; [congruence | reflexivity].
  - intros H. apply hip_check_i2_dh in H as (off & pv & pv2 & Hp & Hk & Hs).
    exists off, pv, pv2. repeat split; try assumption.
    unfold i2_dh_group_known in Hk. apply existsb_exists in Hk as (x & Hin & Hx).
    apply Z.eqb_eq in Hx. now subst x.
Qed.

Lemma dh_downgrade_checked_on_r1_group_membership_on_i2_witness :
  check_dh_downgrade_v2 HIP_DH_NIST_P_384 [HIP_DH_OAKLEY_5; HIP_DH_NIST_P_384]
    = 0 /\
  check_dh_downgrade_v2 HIP_DH_OAKLEY_5 [HIP_DH_OAKLEY_5; HIP_DH_NIST_P_384]
    = -1 /\
  exists off pv pv2,
    hip_get_param (msg_i2 HIP_DH_OAKLEY_5 49152 (replicate 20 120))
      HIP_PARAM_DIFFIE_HELLMAN = Some (off, P_DIFFIE_HELLMAN pv pv2) /\
    In (group_id pv) HIP_DH_GROUP_LIST /\
    hip_get_dh_size toy_env (group_id pv) = ntohs (pub_len pv).
Proof.
  pose proof (dh_downgrade_checked_on_r1_group_membership_on_i2 toy_env
                (ctx_i2 (msg_i2 HIP_DH_OAKLEY_5 49152 (replicate 20 120)) None)
                (match hip_check_i2 toy_env
                         (ctx_i2 (msg_i2 HIP_DH_OAKLEY_5 49152
                                    (replicate 20 120)) None) with
                 | Some (_, c, _) => c
                 | None => ctx_i2 (empty_msg hit_A hit_B) None
                 end)
                (match hip_check_i2 toy_env
                         (ctx_i2 (msg_i2 HIP_DH_OAKLEY_5 49152
                                    (replicate 20 120)) None) with
                 | Some (_, _, t) => t
                 | None => []
                 end)
                HIP_DH_NIST_P_384 [HIP_DH_OAKLEY_5; HIP_DH_NIST_P_384])
    as (H1 & _ & H3).
  pose proof (dh_downgrade_checked_on_r1_group_membership_on_i2 toy_env
                (ctx_i2 (empty_msg hit_A hit_B) None)
                (ctx_i2 (empty_msg hit_A hit_B) None) []
                HIP_DH_OAKLEY_5 [HIP_DH_OAKLEY_5; HIP_DH_NIST_P_384])
    as (_ & H2 & _).
  split; [apply H1; reflexivity|].
  split; [apply H2; vm_compute; discriminate|].
  apply H3. vm_compute. reflexivity.
Defined.

(** ** A retransmitted I2: what [hip_check_i2] leaves alone *)





(** The retransmitted I2 of the example passes all checks. *)
Example retransmitted_i2_passes :
  fst <$> (fst <$> hip_check_i2 toy_env (ctx_i2 msg_i2_ok (Some entry_after_i2)))
  = Some 0.
Proof. vm_compute. reflexivity. Qed.

(** ** C5: the keys of the base exchange *)

Lemma sort_hits_comm (h1 h2 : hip_hit_t) :
  length h1 = HIT_LEN -> length h2 = HIT_LEN ->
  sort_hits h1 h2 = sort_hits h2 h1.
Proof.
  intros L1 L2. unfold sort_hits.
  destruct (hip_hit_is_bigger h1 h2) eqn:H12.
  - now rewrite (hip_hit_is_bigger_asym _ _ H12).
  - destruct (hip_hit_is_bigger h2 h1) eqn:H21; [reflexivity|].
    destruct (decide (h1 = h2)) as [-> | Hne]; [reflexivity|].
    destruct (hip_hit_is_bigger_total h1 h2 L1 L2 Hne); congruence.
Qed.

Lemma keymat_blocks_ext (H1 H2 : bytes -> bytes) (seed : bytes) (n : Z)
  (count : nat) :
  (forall x, H1 x = H2 x) ->
  keymat_blocks H1 seed n count = keymat_blocks H2 seed n count.
Proof.
  intros Hext. revert n. induction count as [|c IH]; intros n; simpl;
    [reflexivity|]. now rewrite Hext, IH.
Qed.

Lemma length_keymat_blocks (H : bytes -> bytes) (seed : bytes) (n : Z)
  (count : nat) :
  (forall x, length (H x) = 20%nat) ->
  length (keymat_blocks H seed n count) = (20 * count)%nat.
Proof.
  intros HH. revert n. induction count as [|c IH]; intros n; simpl;
    [reflexivity|]. rewrite length_app, HH, IH. lia.
Qed.

Lemma length_hip_make_keymat (H : bytes -> bytes) (kij : bytes) (len : Z)
  (h1 h2 : hip_hit_t) (I J : bytes) :
  (forall x, length (H x) = 20%nat) ->
  length (hip_make_keymat H kij len h1 h2 I J) = Z.to_nat len.
Proof.
  intros HH. unfold hip_make_keymat.
  rewrite length_take, length_keymat_blocks by exact HH.
  destruct (Z.le_gt_cases len 0) as [Hle | Hgt].
  - replace (Z.to_nat len) with 0%nat by lia. reflexivity.
  - assert (len <= 20 * ((len + 19) / 20)).
    { pose proof (Z.mul_div_le (len + 19) 20).
      pose proof (Z.mod_pos_bound (len + 19) 20).
      pose proof (Z.div_mod (len + 19) 20). lia. }
    assert (0 <= (len + 19) / 20) by (apply Z.div_pos; lia).
    lia.
Qed.

Lemma hip_make_keymat_comm (H1 H2 : bytes -> bytes) (kij : bytes) (len : Z)
  (h1 h2 : hip_hit_t) (I J : bytes) :
  (forall x, H1 x = H2 x) ->
  length h1 = HIT_LEN -> length h2 = HIT_LEN ->
  hip_make_keymat H1 kij len h1 h2 I J = hip_make_keymat H2 kij len h2 h1 I J.
Proof.
  intros Hext L1 L2. unfold hip_make_keymat.
  rewrite (sort_hits_comm h1 h2 L1 L2).
  now rewrite (keymat_blocks_ext H1 H2).
Qed.

Lemma bex_keymat_len_ge (lens : Z * Z * Z * Z) :
  bex_keymat_len_min lens <= bex_keymat_len lens.
Proof.
  unfold bex_keymat_len. set (m := bex_keymat_len_min lens).
  destruct (negb (m mod Z.of_nat HIP_AH_SHA_LEN =? 0)); [|lia].
  pose proof (Z.mod_pos_bound m (Z.of_nat HIP_AH_SHA_LEN)).
  unfold HIP_AH_SHA_LEN in *. lia.
Qed.

Lemma km_slice_app (keymat : bytes) (off a b : nat) :
  km_slice keymat off a ++ km_slice keymat (off + a) b
  = km_slice keymat off (a + b).
Proof.
  unfold km_slice. rewrite <- (drop_drop keymat a off).
  apply take_take_drop.
Qed.

Lemma draw_slice (dst keymat : bytes) (off : nat) (len : Z) :
  (off + Z.to_nat len <= length keymat)%nat ->
  take (Z.to_nat len)
    (fst (hip_keymat_draw_and_copy dst
            {| km_offset := off; keymatdst := keymat |} len))
  = km_slice keymat off (Z.to_nat len).
Proof.
  intros Hlen. unfold hip_keymat_draw_and_copy, memcpy, km_slice.
  cbn [fst km_offset keymatdst].
  apply take_app_length'. rewrite length_take, length_drop. lia.
Qed.

Lemma draw_bex_keys_slices (entry : hip_hadb_state) (keymat : bytes)
  (g : bool) (hip_l hmac_l esp_l auth_l : Z) :
  lens_nonneg (hip_l, hmac_l, esp_l, auth_l) ->
  (Z.to_nat (bex_keymat_len_min (hip_l, hmac_l, esp_l, auth_l))
   <= length keymat)%nat ->
  truncate_keys
    (draw_bex_keys entry {| km_offset := 0; keymatdst := keymat |} g
       hip_l hmac_l esp_l auth_l) (hip_l, hmac_l, esp_l, auth_l)
  = if g then keys_of_keymat keymat (hip_l, hmac_l, esp_l, auth_l)
    else swap_direction (keys_of_keymat keymat (hip_l, hmac_l, esp_l, auth_l)).
Proof.
  intros (H1 & H2 & H3 & H4) Hlen. cbn [bex_keymat_len_min] in Hlen.
  unfold draw_bex_keys, truncate_keys, keys_of_keymat, swap_direction.
  destruct g; cbn -[take drop Z.to_nat km_slice];
    f_equal;
    match goal with
    | |- take (Z.to_nat ?n) (memcpy ?dst (drop ?off keymat) (Z.to_nat ?n)) = _ =>
        change (take (Z.to_nat n) (memcpy dst (drop off keymat) (Z.to_nat n)))
          with (take (Z.to_nat n)
                  (fst (hip_keymat_draw_and_copy dst
                          {| km_offset := off; keymatdst := keymat |} n)));
        rewrite draw_slice by lia; f_equal; lia
    end.
Qed.

Lemma bex_key_block_of_keymat (keymat : bytes) (lens : Z * Z * Z * Z) :
  lens_nonneg lens ->
  let k := keys_of_keymat keymat lens in
  k_hip_enc_out k ++ k_hip_hmac_out k ++ k_hip_enc_in k ++ k_hip_hmac_in k ++
  k_esp_out k ++ k_auth_out k ++ k_esp_in k ++ k_auth_in k
  = take (Z.to_nat (bex_keymat_len_min lens)) keymat.
Proof.
  destruct lens as [[[hip_l hmac_l] esp_l] auth_l].
  intros (H1 & H2 & H3 & H4). cbn [keys_of_keymat bex_keymat_len_min].
  cbn [k_hip_enc_out k_hip_hmac_out k_hip_enc_in k_hip_hmac_in k_esp_out
       k_auth_out k_esp_in k_auth_in].
  set (a := Z.to_nat hip_l). set (b := Z.to_nat hmac_l).
  set (c := Z.to_nat esp_l). set (d := Z.to_nat auth_l).
  replace (Z.to_nat (hip_l + hmac_l + hip_l + hmac_l + esp_l + auth_l
                     + esp_l + auth_l))
    with (a + (b + (a + (b + (c + (d + (c + d)))))))%nat by lia.
  rewrite !km_slice_app.
  unfold km_slice. rewrite drop_0. reflexivity.
Qed.

Lemma keys_of_set_keymat_state (e : hip_hadb_state) (k : ha_keys)
  (cur calc idx : Z) (K : bytes) (dh : option bytes) (dhlen : Z) :
  keys_of (set_keymat_state (set_keys e k) cur calc idx K dh dhlen) = k.
Proof. destruct k; reflexivity. Qed.

(** What a successful run of [produce_keying_material] has done. *)
Lemma produce_keying_material_success (E : hipd_env)
  (ctx ctx' : hip_packet_context) (I J : bytes) (ev : list hipd_event) :
  produce_keying_material E ctx I J = Some (0, ctx', ev) ->
  exists hip_l hmac_l esp_l auth_l kij entry entry',
    bex_key_lengths E (input_msg ctx) = Some (hip_l, hmac_l, esp_l, auth_l) /\
    hadb_entry ctx = Some entry /\ hadb_entry ctx' = Some entry' /\
    dh_shared_key entry' = Some kij /\
    keys_of entry' =
      draw_bex_keys entry
        {| km_offset := 0;
           keymatdst :=
             hip_make_keymat (sha1 E) kij
               (bex_keymat_len (hip_l, hmac_l, esp_l, auth_l))
               (hit_sender (input_msg ctx)) (hit_receiver (input_msg ctx))
               I J |}
        (hip_hit_is_bigger (hit_receiver (input_msg ctx))
           (hit_sender (input_msg ctx)))
        hip_l hmac_l esp_l auth_l.
Proof.
  unfold produce_keying_material, bex_key_lengths. intros H.
  destruct (hip_get_param (input_msg ctx) HIP_PARAM_HIP_TRANSFORM)
    as [[o1 []]|]; try bad_ret_pkm H.
  destruct (hip_select_hip_transform E suite_ids =? 0) eqn:Hh;
    [bad_ret_pkm H|].
  destruct (hip_get_param (input_msg ctx) HIP_PARAM_ESP_TRANSFORM)
    as [[o2 []]|]; try bad_ret_pkm H.
  destruct (hip_select_esp_transform E suite_ids0 =? 0) eqn:He;
    [bad_ret_pkm H|].
  cbn [orb].
  destruct (negb _) in H; [bad_ret_pkm H|].
  destruct (hip_get_param (input_msg ctx) HIP_PARAM_DIFFIE_HELLMAN)
    as [[o3 []]|]; try bad_ret_pkm H.
  destruct (hip_calculate_shared_secret E _ _ _ _) as [kij|];
    [|bad_ret_pkm H].
  destruct (Z.of_nat (length kij) <=? 0); [bad_ret_pkm H|].
  destruct (hadb_entry ctx) as [entry|]; [|discriminate H].
  injection H as H _. subst ctx'.
  eexists _, _, _, _, kij, entry, _.
  split; [reflexivity|]. split; [reflexivity|]. split; [reflexivity|].
  split; [reflexivity|]. cbn [hadb_entry set_hadb_entry].
  apply keys_of_set_keymat_state.
Qed.

(** C5: two parties run [produce_keying_material] successfully on messages
    that carry the same two HITs in opposite roles (the receiver HIT is the
    local one), with the same DH secret, digest, I, J and negotiated key
    lengths.  Then on each side the eight keys, read in the order HIP-enc-gL,
    HIP-HMAC-gL, HIP-enc-Lg, HIP-HMAC-Lg, ESP-enc-gL, ESP-auth-gL,
    ESP-enc-Lg, ESP-auth-Lg -- the gL keys being the local outbound keys
    exactly on the side whose HIT is greater -- are the leading octets of the
    keying material, contiguously; and the two sides hold the same keys, the
    outbound keys of one side being the inbound keys of the other. *)
Theorem bex_keys_drawn_in_order_and_symmetric
  (EA EB : hipd_env) (ctxA ctxB ctxA' ctxB' : hip_packet_context)
  (I J : bytes) (evA evB : list hipd_event) (eA eB : hip_hadb_state)
  (lens : Z * Z * Z * Z) (kij : bytes) :
  let mA := input_msg ctxA in
  let mB := input_msg ctxB in
  produce_keying_material EA ctxA I J = Some (0, ctxA', evA) ->
  produce_keying_material EB ctxB I J = Some (0, ctxB', evB) ->
  hadb_entry ctxA' = Some eA -> hadb_entry ctxB' = Some eB ->
  hit_receiver mA = hit_sender mB -> hit_sender mA = hit_receiver mB ->
  length (hit_receiver mA) = HIT_LEN -> length (hit_sender mA) = HIT_LEN ->
  hit_receiver mA <> hit_sender mA ->
  dh_shared_key eA = Some kij -> dh_shared_key eB = Some kij ->
  (forall x, sha1 EA x = sha1 EB x) ->
  (forall x, length (sha1 EA x) = 20%nat) ->
  bex_key_lengths EA mA = Some lens -> bex_key_lengths EB mB = Some lens ->
  lens_nonneg lens ->
  let keymat :=
    hip_make_keymat (sha1 EA) kij (bex_keymat_len lens)
      (hit_sender mA) (hit_receiver mA) I J in
  let a_is_g := hip_hit_is_bigger (hit_receiver mA) (hit_sender mA) in
  let b_is_g := hip_hit_is_bigger (hit_receiver mB) (hit_sender mB) in
  b_is_g = negb a_is_g /\
  bex_key_block (keys_of eA) a_is_g lens
    = take (Z.to_nat (bex_keymat_len_min lens)) keymat /\
  bex_key_block (keys_of eB) b_is_g lens
    = take (Z.to_nat (bex_keymat_len_min lens)) keymat /\
  truncate_keys (keys_of eA) lens
    = swap_direction (truncate_keys (keys_of eB) lens).
Proof.
  intros mA mB HrunA HrunB HeA HeB Hrs Hsr LA LB Hne HkA HkB Hext Hlen
    HlA HlB Hnn keymat a_is_g b_is_g.
  apply produce_keying_material_success in HrunA
    as (a1 & a2 & a3 & a4 & kA & entA & eA0 & HlA' & _ & HeA' & HkA' & HkeysA).
  apply produce_keying_material_success in HrunB
    as (b1 & b2 & b3 & b4 & kB & entB & eB0 & HlB' & _ & HeB' & HkB' & HkeysB).
  fold mA in HlA', HkeysA. fold mB in HlB', HkeysB.
  rewrite HeA in HeA'. injection HeA' as <-.
  rewrite HeB in HeB'. injection HeB' as <-.
  rewrite HkA in HkA'. injection HkA' as <-.
  rewrite HkB in HkB'. injection HkB' as <-.
  rewrite HlA in HlA'. rewrite HlB in HlB'.
  assert (Hl1 : lens = (a1, a2, a3, a4)) by congruence.
  assert (Hl2 : lens = (b1, b2, b3, b4)) by congruence.
  clear HlA' HlB'. subst lens. injection Hl2 as <- <- <- <-.
  assert (Hkm : hip_make_keymat (sha1 EB) kij
                  (bex_keymat_len (a1, a2, a3, a4))
                  (hit_sender mB) (hit_receiver mB) I J = keymat).
  { unfold keymat. rewrite <- Hrs, <- Hsr. symmetry.
    apply hip_make_keymat_comm; assumption. }
  rewrite Hkm in HkeysB. fold keymat a_is_g in HkeysA. fold b_is_g in HkeysB.
  assert (Hb : b_is_g = negb a_is_g).
  { unfold b_is_g, a_is_g. rewrite <- Hrs, <- Hsr.
    destruct (hip_hit_is_bigger_total _ _ LA LB Hne) as [Hg | Hg].
    - rewrite Hg, (hip_hit_is_bigger_asym _ _ Hg). reflexivity.
    - rewrite Hg, (hip_hit_is_bigger_asym _ _ Hg). reflexivity. }
  assert (Hfit : (Z.to_nat (bex_keymat_len_min (a1, a2, a3, a4))
                  <= length keymat)%nat).
  { unfold keymat. rewrite length_hip_make_keymat by exact Hlen.
    pose proof (bex_keymat_len_ge (a1, a2, a3, a4)). lia. }
  pose proof (draw_bex_keys_slices entA keymat a_is_g a1 a2 a3 a4 Hnn Hfit)
    as HsA.
  pose proof (draw_bex_keys_slices entB keymat b_is_g a1 a2 a3 a4 Hnn Hfit)
    as HsB.
  rewrite <- HkeysA in HsA. rewrite <- HkeysB in HsB.
  pose proof (bex_key_block_of_keymat keymat (a1, a2, a3, a4) Hnn) as Hblock.
  cbn zeta in Hblock.
  split; [exact Hb|].
  unfold bex_key_block. rewrite HsA, HsB, Hb.
  destruct a_is_g; cbn [negb]; repeat split; try exact Hblock.
Qed.

Lemma bex_keys_drawn_in_order_and_symmetric_witness :
  bex_key_block (keys_of (run_entry keymat_run_A)) true (16, 20, 16, 20)
    = take 144
        (hip_make_keymat toy_sha1 [5; 6; 7; 8] 160 hit_B hit_A puzzle_I
           puzzle_J) /\
  truncate_keys (keys_of (run_entry keymat_run_A)) (16, 20, 16, 20)
    = swap_direction
        (truncate_keys (keys_of (run_entry keymat_run_B)) (16, 20, 16, 20)).
Proof.
  pose proof (bex_keys_drawn_in_order_and_symmetric toy_env toy_env
                ctx_r1 ctx_i2_fresh
                (run_ctx keymat_run_A ctx_r1) (run_ctx keymat_run_B ctx_r1)
                puzzle_I puzzle_J
                (run_events keymat_run_A) (run_events keymat_run_B)
                (run_entry keymat_run_A) (run_entry keymat_run_B)
                (16, 20, 16, 20) [5; 6; 7; 8]) as H.
  cbn zeta in H.
  assert (Hsha : forall x, length (sha1 toy_env x) = 20%nat).
  { intros x. cbn [sha1 toy_env]. unfold toy_sha1. apply length_replicate. }
  assert (Hne : hit_receiver (input_msg ctx_r1)
                <> hit_sender (input_msg ctx_r1)).
  { vm_compute. discriminate. }
  assert (Hnn : lens_nonneg (16, 20, 16, 20)).
  { cbn. lia. }
  specialize (H eq_refl eq_refl eq_refl eq_refl eq_refl eq_refl eq_refl
                eq_refl Hne eq_refl eq_refl (fun x => eq_refl) Hsha
                eq_refl eq_refl Hnn).
  destruct H as (_ & H1 & _ & H2). split; [exact H1 | exact H2].
Defined.

(** ** C9: ESP padding *)

Lemma buf_write_Some (buf : bytes) (off : nat) (src buf' : bytes) :
  buf_write buf off src = Some buf' ->
  (off + length src <= length buf)%nat /\
  buf' = take off buf ++ src ++ drop (off + length src) buf.
Proof.
  unfold buf_write. destruct (off + length src <=? length buf)%nat eqn:H;
    [|discriminate].
  intros [= <-]. apply Nat.leb_le in H. now split.
Qed.

Lemma buf_write_length (buf : bytes) (off : nat) (src buf' : bytes) :
  buf_write buf off src = Some buf' -> length buf' = length buf.
Proof.
  intros H. apply buf_write_Some in H as [Hle ->].
  rewrite !length_app, length_take, length_drop. lia.
Qed.

Lemma buf_read_Some (buf : bytes) (off n : nat) (r : bytes) :
  buf_read buf off n = Some r ->
  (off + n <= length buf)%nat /\ r = take n (drop off buf).
Proof.
  unfold buf_read. destruct (off + n <=? length buf)%nat eqn:H; [|discriminate].
  intros [= <-]. apply Nat.leb_le in H. now split.
Qed.

Lemma esp_write_padding_Some (buf : bytes) (n i count : nat) (buf' : bytes) :
  esp_write_padding buf n i count = Some buf' ->
  (0 < count -> n + i + count <= length buf)%nat /\
  buf' = take (n + i) buf ++ pad_octets i count ++ drop (n + i + count) buf.
Proof.
  revert buf i. induction count as [|c IH]; intros buf i; simpl.
  - intros [= <-]. split; [lia|].
    unfold pad_octets. simpl. rewrite Nat.add_0_r. now rewrite take_drop.
  - destruct (buf_write buf (n + i) [wrap8 (Z.of_nat i + 1)]) as [b1|] eqn:Hw;
      [|discriminate].
    simpl. intros H. apply IH in H as [Hle ->].
    pose proof (buf_write_length _ _ _ _ Hw) as Hl.
    apply buf_write_Some in Hw as [Hle1 ->]. simpl in Hle1.
    split; [lia|].
    unfold pad_octets. simpl.
    rewrite take_app_ge by (rewrite length_take; lia).
    rewrite length_take. replace (n + S i - (n + i) `min` length buf)%nat
      with 1%nat by lia.
    simpl. rewrite <- !app_assoc. simpl. f_equal. f_equal. f_equal.
    rewrite drop_app_ge by (rewrite length_take; lia).
    rewrite length_take.
    replace (n + S i + c - (n + i) `min` length buf)%nat with (S c) by lia.
    simpl. rewrite drop_drop. f_equal. lia.
Qed.

Lemma esp_iv_len_values (entry : hip_sa_entry) (iv_len : Z) :
  esp_iv_len entry = inr iv_len -> iv_len = 0 \/ iv_len = 8 \/ iv_len = 16.
Proof.
  unfold esp_iv_len, AES_BLOCK_SIZE.
  destruct (ealg entry), (enc_key entry); intros [= <-]; auto.
Qed.

Lemma pad_aligns (m x : Z) :
  0 < m -> 1 <= m - x mod m <= m /\ (x + (m - x mod m)) mod m = 0.
Proof.
  intros Hm. pose proof (Z.mod_pos_bound x m Hm) as Hr. split; [lia|].
  replace (x + (m - x mod m)) with ((x / m + 1) * m)
    by (pose proof (Z.div_mod x m); lia).
  apply Z.mod_mul. lia.
Qed.

Lemma esp_pad_len_spec (iv_len elen : Z) :
  iv_len = 0 \/ iv_len = 8 \/ iv_len = 16 ->
  let align := if 0 <? iv_len then iv_len else 4 in
  1 <= esp_pad_len iv_len elen <= align /\
  (elen + esp_pad_len iv_len elen + sizeof_hip_esp_tail) mod align = 0.
Proof.
  intros Hiv. unfold esp_pad_len, sizeof_hip_esp_tail.
  assert (Hgen : forall m, 0 < m <= 16 ->
            1 <= wrap16 (m - (elen + 2) mod m) <= m /\
            (elen + wrap16 (m - (elen + 2) mod m) + 2) mod m = 0).
  { intros m Hm. destruct (pad_aligns m (elen + 2)) as [Hb He]; [lia|].
    unfold wrap16. rewrite Z.mod_small by lia. split; [exact Hb|].
    replace (elen + (m - (elen + 2) mod m) + 2)
      with (elen + 2 + (m - (elen + 2) mod m)) by lia. exact He. }
  destruct Hiv as [-> | [-> | ->]]; cbn [Z.ltb Z.compare]; apply Hgen; lia.
Qed.

Lemma pad_octets_small (count : nat) :
  (count <= 255)%nat -> pad_octets 0 count = Z.of_nat <$> seq 1 count.
Proof.
  intros Hc. unfold pad_octets.
  rewrite <- (fmap_S_seq 0 count) at 1. rewrite <- list_fmap_compose.
  apply list_fmap_ext. intros i x Hx. cbn.
  apply lookup_seq in Hx as [-> Hlt]. unfold wrap8.
  rewrite Z.mod_small by lia. lia.
Qed.

(** C9: whenever [payload_encrypt] gets past its key check (the transform is
    one of the supported ones), the pad length it chooses makes payload plus
    padding plus ESP tail a multiple of the IV length for the block ciphers
    (AES: 16; 3DES and Blowfish: 8) and a multiple of 4 for NULL encryption;
    the input buffer then holds, behind the payload, the pad octets
    1, 2, ..., pad_len in this order, followed by the tail (pad length, next
    header). *)
Theorem payload_encrypt_padding
  (data_offset : hip_sa_entry -> Z) (key_length : esp_ealg -> Z)
  (cbc : cbc_cipher -> bool -> hip_crypto_key -> bytes -> bytes -> bytes)
  (hmac : EVP_MD -> hip_crypto_key -> Z -> bytes -> bytes)
  (in_ : bytes) (in_type in_len : Z) (out : bytes) (out_len : Z)
  (entry : hip_sa_entry) (rnd : bytes)
  (iv_len r : Z) (in' out' : bytes) (out_len' : Z) :
  0 <= in_len ->
  esp_iv_len entry = inr iv_len ->
  payload_encrypt data_offset key_length cbc hmac in_ in_type in_len out
    out_len entry rnd = Some (r, in', out', out_len') ->
  let pad_len := esp_pad_len iv_len in_len in
  let align := if 0 <? iv_len then iv_len else 4 in
  (align = 4 <-> esp_cipher (ealg entry) = None) /\
  1 <= pad_len <= align /\
  (in_len + pad_len + sizeof_hip_esp_tail) mod align = 0 /\
  take (Z.to_nat (in_len + pad_len + sizeof_hip_esp_tail)) in'
  = take (Z.to_nat in_len) in_
    ++ (Z.of_nat <$> seq 1 (Z.to_nat pad_len))
    ++ [pad_len; in_type].
Proof.
  intros Hlen Hiv Hrun pad_len align.
  pose proof (esp_iv_len_values entry iv_len Hiv) as Hvals.
  destruct (esp_pad_len_spec iv_len in_len Hvals) as [Hpad Hmod].
  fold pad_len align in Hpad, Hmod.
  assert (Halign : align <= 16).
  { unfold align. destruct Hvals as [-> | [-> | ->]]; cbn; lia. }
  split.
  { unfold align. revert Hiv. unfold esp_iv_len, esp_cipher, AES_BLOCK_SIZE.
    destruct (ealg entry), (enc_key entry); intros [= <-]; cbn;
      split; intros; congruence || lia. }
  split; [exact Hpad|]. split; [exact Hmod|].
  unfold payload_encrypt in Hrun. rewrite Hiv in Hrun. fold pad_len in Hrun.
  destruct (if 0 <? iv_len then _ else _) as [out1|]; [|discriminate Hrun].
  cbn [mbind option_bind] in Hrun.
  destruct (esp_write_padding in_ (Z.to_nat in_len) 0 (Z.to_nat pad_len))
    as [in1|] eqn:Hp; [|discriminate Hrun].
  cbn [mbind option_bind] in Hrun.
  destruct (buf_write in1 (Z.to_nat (in_len + pad_len)) [wrap8 pad_len; in_type])
    as [in2|] eqn:Ht; [|discriminate Hrun].
  cbn [mbind option_bind] in Hrun.
  assert (Hin' : in' = in2).
  { destruct (buf_read in2 0 _) as [plain|]; [|discriminate Hrun].
    cbn [mbind option_bind] in Hrun.
    destruct (match esp_cipher (ealg entry) with Some _ => _ | None => _ end)
      as [out2|]; [|discriminate Hrun].
    cbn [mbind option_bind] in Hrun.
    destruct (esp_auth_md (ealg entry)); [|congruence].
    destruct (auth_key entry); [|congruence].
    destruct (buf_read out2 0 _) as [authed|]; [|discriminate Hrun].
    cbn [mbind option_bind] in Hrun.
    destruct (buf_write out2 _ _) as [out3|]; [|discriminate Hrun].
    cbn [mbind option_bind] in Hrun. congruence. }
  subst in'. clear Hrun.
  assert (Hnp : Z.to_nat (in_len + pad_len)
                = (Z.to_nat in_len + Z.to_nat pad_len)%nat) by lia.
  assert (Hnp2 : Z.to_nat (in_len + pad_len + sizeof_hip_esp_tail)
                 = (Z.to_nat in_len + Z.to_nat pad_len + 2)%nat)
    by (unfold sizeof_hip_esp_tail; lia).
  assert (Hp8 : wrap8 pad_len = pad_len)
    by (unfold wrap8; apply Z.mod_small; lia).
  assert (Hp255 : (Z.to_nat pad_len <= 255)%nat) by lia.
  assert (Hp0 : (0 < Z.to_nat pad_len)%nat) by lia.
  rewrite Hnp in Ht. rewrite Hnp2, Hp8 in *.
  set (n := Z.to_nat in_len) in *. set (p := Z.to_nat pad_len) in *.
  clearbody n p.
  apply esp_write_padding_Some in Hp as [Hple ->].
  rewrite Nat.add_0_r in *. specialize (Hple Hp0).
  apply buf_write_Some in Ht as [Htle ->]. clear Htle.
  assert (Hpl : length (pad_octets 0 p) = p).
  { unfold pad_octets. now rewrite length_fmap, length_seq. }
  rewrite (pad_octets_small p Hp255) in *.
  set (pads := Z.of_nat <$> seq 1 p) in *.
  assert (Hbody : take (n + p) (take n in_ ++ pads ++ drop (n + p) in_)
                  = take n in_ ++ pads).
  { rewrite app_assoc. apply take_app_length'.
    rewrite length_app, length_take, Hpl. lia. }
  rewrite Hbody.
  rewrite (app_assoc (take n in_ ++ pads)).
  rewrite take_app_length' by
    (rewrite !length_app, length_take, Hpl; cbn [length]; lia).
  now rewrite <- app_assoc.
Qed.

Lemma payload_encrypt_padding_witness :
  (5 + 9 + sizeof_hip_esp_tail) mod 16 = 0 /\
  take 16 (enc_in (toy_encrypt HIP_ESP_AES_SHA1))
  = [10; 20; 30; 40; 50] ++ [1; 2; 3; 4; 5; 6; 7; 8; 9] ++ [9; 6].
Proof.
  pose proof (payload_encrypt_padding toy_data_offset toy_auth_key_length
                toy_cbc toy_hmac esp_payload_buf 6 5 esp_out_buf 0
                (toy_sa HIP_ESP_AES_SHA1) toy_rnd 16
                (enc_ret (toy_encrypt HIP_ESP_AES_SHA1))
                (enc_in (toy_encrypt HIP_ESP_AES_SHA1))
                (enc_out (toy_encrypt HIP_ESP_AES_SHA1))
                (enc_out_len (toy_encrypt HIP_ESP_AES_SHA1))) as H.
  cbn zeta in H.
  assert (H0 : 0 <= 5) by lia.
  specialize (H H0 eq_refl eq_refl).
  destruct H as (_ & _ & Hmod & Hpad). split; [exact Hmod | exact Hpad].
Defined.

(** ** C8: the ICV of userspace ESP *)

(** What a successful run of [payload_encrypt] has written to [out]. *)
Lemma payload_encrypt_success
  (data_offset : hip_sa_entry -> Z) (key_length : esp_ealg -> Z)
  (cbc : cbc_cipher -> bool -> hip_crypto_key -> bytes -> bytes -> bytes)
  (hmac : EVP_MD -> hip_crypto_key -> Z -> bytes -> bytes)
  (in_ : bytes) (in_type in_len : Z) (out : bytes) (out_len : Z)
  (entry : hip_sa_entry) (rnd : bytes)
  (in' out' : bytes) (out_len' : Z) :
  payload_encrypt data_offset key_length cbc hmac in_ in_type in_len out
    out_len entry rnd = Some (0, in', out', out_len') ->
  exists iv_len md key out2,
    esp_iv_len entry = inr iv_len /\
    esp_auth_md (ealg entry) = Some md /\ auth_key entry = Some key /\
    let a := Z.to_nat (esp_auth_len (data_offset entry) iv_len in_len) in
    let digest := hmac md key (key_length (ealg entry)) (take a out2) in
    (a + length digest <= length out2)%nat /\
    out' = take a out2 ++ digest ++ drop (a + length digest) out2 /\
    out_len' =
      wrap16
        (wrap16
           (out_len
            + wrap16
                (wrap16 (in_len + (esp_pad_len iv_len in_len
                                   + sizeof_hip_esp_tail)) + iv_len))
         + ICV_LENGTH).
Proof.
  unfold payload_encrypt, esp_auth_len. intros Hrun.
  destruct (esp_iv_len entry) as [err | iv_len] eqn:Hiv.
  { exfalso. revert Hiv Hrun. unfold esp_iv_len.
    destruct (ealg entry), (enc_key entry); intros [= <-] [= ]. }
  destruct (if 0 <? iv_len then _ else _) as [out1|]; [|discriminate Hrun].
  cbn [mbind option_bind] in Hrun.
  destruct (esp_write_padding _ _ _ _) as [in1|]; [|discriminate Hrun].
  cbn [mbind option_bind] in Hrun.
  destruct (buf_write in1 _ _) as [in2|]; [|discriminate Hrun].
  cbn [mbind option_bind] in Hrun.
  destruct (buf_read in2 0 _) as [plain|]; [|discriminate Hrun].
  cbn [mbind option_bind] in Hrun.
  destruct (match esp_cipher (ealg entry) with Some _ => _ | None => _ end)
    as [out2|]; [|discriminate Hrun].
  cbn [mbind option_bind] in Hrun.
  destruct (esp_auth_md (ealg entry)) as [md|]; [|discriminate Hrun].
  destruct (auth_key entry) as [key|]; [|discriminate Hrun].
  destruct (buf_read out2 0 _) as [authed|] eqn:Hr; [|discriminate Hrun].
  cbn [mbind option_bind] in Hrun.
  destruct (buf_write out2 _ _) as [out3|] eqn:Hw; [|discriminate Hrun].
  cbn [mbind option_bind] in Hrun.
  injection Hrun as <- <- <-.
  apply buf_read_Some in Hr as [_ ->]. rewrite drop_0 in Hw.
  apply buf_write_Some in Hw as [Hle ->].
  exists iv_len, md, key, out2. repeat split; try reflexivity. exact Hle.
Qed.

Lemma esp_auth_md_suites (a : esp_ealg) (md : EVP_MD) :
  esp_auth_md a = Some md ->
  (md = EVP_sha1 <-> is_sha1_suite a = true) /\
  (md = EVP_md5 <-> is_md5_suite a = true).
Proof.
  destruct a; cbn; intros [= <-]; split; split; congruence.
Qed.

(** C8, the claim as stated fails: for the suite 3DES-CBC with HMAC-MD5 the
    ICV of the packet that [payload_encrypt] produces is the truncated
    HMAC-MD5 of ESP header, IV and ciphertext, which is not the truncated
    HMAC-SHA1 of these octets. *)
Lemma esp_icv_of_md5_suite_is_hmac_md5 :
  let r := toy_encrypt HIP_ESP_3DES_MD5 in
  let len := toy_data_offset (toy_sa HIP_ESP_3DES_MD5) + enc_out_len r in
  let authed := take (Z.to_nat (len - ICV_LENGTH)) (enc_out r) in
  enc_ret r = 0 /\
  esp_icv (enc_out r) len
    = take 12 (toy_hmac EVP_md5 (replicate 20 3) 20 authed) /\
  esp_icv (enc_out r) len
    <> take 12 (toy_hmac EVP_sha1 (replicate 20 3) 20 authed).
Proof.
  cbn zeta. split; [reflexivity|]. split; [vm_compute; reflexivity|].
  vm_compute. discriminate.
Qed.

(** The ICV written by [payload_encrypt]. *)
Lemma payload_encrypt_icv
  (data_offset : hip_sa_entry -> Z) (key_length : esp_ealg -> Z)
  (cbc : cbc_cipher -> bool -> hip_crypto_key -> bytes -> bytes -> bytes)
  (hmac : EVP_MD -> hip_crypto_key -> Z -> bytes -> bytes)
  (in_ : bytes) (in_type in_len : Z) (out : bytes) (out_len : Z)
  (entry : hip_sa_entry) (rnd : bytes)
  (in' out' : bytes) (out_len' : Z) :
  payload_encrypt data_offset key_length cbc hmac in_ in_type in_len out
    out_len entry rnd = Some (0, in', out', out_len') ->
  exists iv_len md key,
    esp_iv_len entry = inr iv_len /\
    esp_auth_md (ealg entry) = Some md /\ auth_key entry = Some key /\
    (md = EVP_sha1 <-> is_sha1_suite (ealg entry) = true) /\
    (md = EVP_md5 <-> is_md5_suite (ealg entry) = true) /\
    let a := Z.to_nat (esp_auth_len (data_offset entry) iv_len in_len) in
    let digest := hmac md key (key_length (ealg entry)) (take a out') in
    take (length digest) (drop a out') = digest /\
    ((12 <= length digest)%nat ->
     esp_icv out' (Z.of_nat a + ICV_LENGTH) = take 12 digest) /\
    out_len' =
      wrap16
        (wrap16
           (out_len
            + wrap16
                (wrap16 (in_len + (esp_pad_len iv_len in_len
                                   + sizeof_hip_esp_tail)) + iv_len))
         + ICV_LENGTH).
Proof.
  intros Hrun.
  apply payload_encrypt_success in Hrun
    as (iv_len & md & key & out2 & Hiv & Hmd & Hkey & Hle & Hout & Hlen).
  exists iv_len, md, key.
  destruct (esp_auth_md_suites _ _ Hmd) as [Hs Hm].
  split; [exact Hiv|]. split; [exact Hmd|]. split; [exact Hkey|].
  split; [exact Hs|]. split; [exact Hm|].
  cbn zeta in *.
  set (a := Z.to_nat (esp_auth_len (data_offset entry) iv_len in_len)) in *.
  assert (Ha : length (take a out2) = a) by (rewrite length_take; lia).
  assert (Htake : take a out' = take a out2).
  { rewrite Hout. now apply take_app_length'. }
  rewrite Htake.
  set (digest := hmac md key (key_length (ealg entry)) (take a out2)) in *.
  assert (Hdrop : drop a out' = digest ++ drop (a + length digest) out2).
  { rewrite Hout. now apply drop_app_length'. }
  assert (Hd : take (length digest) (drop a out') = digest).
  { rewrite Hdrop. apply take_app_length. }
  split; [exact Hd|]. split; [|exact Hlen].
  intros H12. unfold esp_icv, ICV_LENGTH.
  replace (Z.to_nat (Z.of_nat a + 12 - 12)) with a by lia.
  change (Z.to_nat 12) with 12%nat.
  rewrite Hdrop. now apply take_app_le.
Qed.

(** The octets that [payload_encrypt] authenticates for a suite with a block
    cipher: the first [esp_data_offset] octets of [out] as the caller left
    them (ESP header and token), the IV and the ciphertext. *)
Lemma payload_encrypt_block_layout
  (data_offset : hip_sa_entry -> Z) (key_length : esp_ealg -> Z)
  (cbc : cbc_cipher -> bool -> hip_crypto_key -> bytes -> bytes -> bytes)
  (hmac : EVP_MD -> hip_crypto_key -> Z -> bytes -> bytes)
  (in_ : bytes) (in_type in_len : Z) (out : bytes) (out_len : Z)
  (entry : hip_sa_entry) (rnd : bytes)
  (in' out' : bytes) (out_len' : Z)
  (iv_len : Z) (c : cbc_cipher) (ekey : hip_crypto_key) :
  esp_iv_len entry = inr iv_len ->
  esp_cipher (ealg entry) = Some c -> enc_key entry = Some ekey ->
  (forall c k iv x, length (cbc c true k iv x) = length x) ->
  0 <= data_offset entry -> 0 <= in_len ->
  data_offset entry + in_len + 48 < 2 ^ 16 ->
  (Z.to_nat iv_len <= length rnd)%nat ->
  payload_encrypt data_offset key_length cbc hmac in_ in_type in_len out
    out_len entry rnd = Some (0, in', out', out_len') ->
  let iv := take (Z.to_nat iv_len) rnd in
  take (Z.to_nat (esp_auth_len (data_offset entry) iv_len in_len)) out'
  = take (Z.to_nat (data_offset entry)) out ++ iv
    ++ cbc c true ekey iv (esp_plaintext in_ in_type in_len iv_len).
Proof.
  intros Hiv Hc Hek Hclen Hd0 Hl0 Hsmall Hrnd Hrun iv.
  assert (Hivv : iv_len = 8 \/ iv_len = 16).
  { revert Hiv Hc. unfold esp_iv_len, esp_cipher, AES_BLOCK_SIZE.
    rewrite Hek. destruct (ealg entry); intros [= <-] [=]; auto. }
  pose proof (esp_iv_len_values entry iv_len Hiv) as Hvals.
  destruct (esp_pad_len_spec iv_len in_len Hvals) as [Hpad _].
  assert (Hpos : (0 <? iv_len) = true) by (apply Z.ltb_lt; lia).
  rewrite Hpos in Hpad.
  unfold esp_plaintext, esp_auth_len.
  unfold payload_encrypt in Hrun. rewrite Hiv, Hc, Hek, Hpos in Hrun.
  cbn [default] in Hrun.
  set (pad_len := esp_pad_len iv_len in_len) in *.
  set (d := data_offset entry) in *.
  assert (Hwd : wrap16 d = d) by (unfold wrap16; apply Z.mod_small; lia).
  rewrite Hwd in *.
  assert (He1 : wrap16 (in_len + (pad_len + sizeof_hip_esp_tail))
                = in_len + pad_len + 2).
  { unfold wrap16, sizeof_hip_esp_tail. rewrite Z.mod_small; lia. }
  rewrite He1 in *.
  assert (He2 : wrap16 (in_len + pad_len + 2 + iv_len)
                = in_len + pad_len + 2 + iv_len).
  { unfold wrap16. rewrite Z.mod_small; lia. }
  rewrite He2 in *.
  assert (He4 : wrap16 (in_len + pad_len + 2 + iv_len + d)
                = d + iv_len + in_len + pad_len + 2).
  { unfold wrap16. rewrite Z.mod_small; lia. }
  rewrite He4 in *.
  change (id ekey) with ekey in Hrun.
  fold iv in Hrun.
  assert (Hciv : length iv = Z.to_nat iv_len).
  { unfold iv. rewrite length_take. lia. }
  destruct (buf_write out (Z.to_nat d) iv) as [out1|] eqn:W1;
    [|discriminate Hrun].
  cbn [mbind option_bind] in Hrun.
  destruct (esp_write_padding in_ _ 0 _) as [in1|] eqn:Wp;
    [|discriminate Hrun].
  cbn [mbind option_bind] in Hrun.
  destruct (buf_write in1 _ _) as [in2|] eqn:Wt; [|discriminate Hrun].
  cbn [mbind option_bind] in Hrun.
  destruct (buf_read in2 0 _) as [plain|] eqn:Rp; [|discriminate Hrun].
  cbn [mbind option_bind] in Hrun.
  destruct (buf_write out1 _ _) as [out2|] eqn:W2; [|discriminate Hrun].
  cbn [mbind option_bind] in Hrun.
  destruct (esp_auth_md (ealg entry)) as [md|]; [|discriminate Hrun].
  destruct (auth_key entry) as [key|]; [|discriminate Hrun].
  destruct (buf_read out2 0 _) as [authed|] eqn:Ra; [|discriminate Hrun].
  cbn [mbind option_bind] in Hrun.
  destruct (buf_write out2 _ _) as [out3|] eqn:W3; [|discriminate Hrun].
  cbn [mbind option_bind] in Hrun.
  injection Hrun as <- <- <-.
  set (D := Z.to_nat d) in *.
  set (V := Z.to_nat iv_len) in *.
  set (L := Z.to_nat in_len) in *.
  set (P := Z.to_nat pad_len) in *.
  replace (Z.to_nat (in_len + pad_len)) with (L + P)%nat in Wt by lia.
  replace (Z.to_nat (in_len + pad_len + 2)) with (L + P + 2)%nat in Rp by lia.
  replace (Z.to_nat (d + iv_len)) with (D + V)%nat in W2 by lia.
  replace (Z.to_nat (d + iv_len + in_len + pad_len + 2))
    with (D + V + (L + P + 2))%nat in * by lia.
  assert (HP : (1 <= P <= 16)%nat) by lia.
  apply esp_write_padding_Some in Wp as [Hple ->].
  rewrite Nat.add_0_r in *. specialize (Hple ltac:(lia)).
  assert (Hpadl : length (pad_octets 0 P) = P).
  { unfold pad_octets. now rewrite length_fmap, length_seq. }
  apply buf_write_Some in Wt as [_ ->].
  apply buf_read_Some in Rp as [_ ->]. rewrite drop_0 in W2.
  assert (Hplain :
    take (L + P + 2)
      (take (L + P) (take L in_ ++ pad_octets 0 P ++ drop (L + P) in_)
       ++ [wrap8 pad_len; in_type]
       ++ drop (L + P + length [wrap8 pad_len; in_type])
            (take L in_ ++ pad_octets 0 P ++ drop (L + P) in_))
    = take L in_ ++ pad_octets 0 P ++ [wrap8 pad_len; in_type]).
  { assert (Hbody :
      take (L + P) (take L in_ ++ pad_octets 0 P ++ drop (L + P) in_)
      = take L in_ ++ pad_octets 0 P).
    { rewrite app_assoc. apply take_app_length'.
      rewrite length_app, length_take, Hpadl. lia. }
    rewrite Hbody.
    rewrite (app_assoc (take L in_ ++ pad_octets 0 P)).
    rewrite take_app_length' by
      (rewrite !length_app, length_take, Hpadl; cbn [length]; lia).
    now rewrite <- app_assoc. }
  rewrite Hplain in W2.
  set (plain := take L in_ ++ pad_octets 0 P ++ [wrap8 pad_len; in_type]) in *.
  assert (Hplen : length plain = (L + P + 2)%nat).
  { unfold plain. rewrite !length_app, length_take, Hpadl. cbn [length]. lia. }
  set (C := cbc c true ekey iv plain) in *.
  assert (HC : length C = (L + P + 2)%nat).
  { unfold C. rewrite Hclen. exact Hplen. }
  apply buf_write_Some in W1 as [Hb1 ->]. rewrite Hciv in Hb1.
  set (H := take D out) in *.
  assert (HH : length H = D) by (unfold H; rewrite length_take; lia).
  apply buf_write_Some in W2 as [Hb2 ->]. rewrite HC in Hb2.
  assert (Hhead : take (D + V) (H ++ iv ++ drop (D + length iv) out)
                  = H ++ iv).
  { rewrite app_assoc. apply take_app_length'. rewrite length_app. lia. }
  rewrite Hhead in *.
  apply buf_read_Some in Ra as [_ ->]. rewrite drop_0 in W3.
  assert (Hauth : forall R, take (D + V + (L + P + 2)) ((H ++ iv) ++ C ++ R)
                            = (H ++ iv) ++ C).
  { intros R. rewrite app_assoc. apply take_app_length'.
    rewrite !length_app. lia. }
  rewrite Hauth in W3.
  apply buf_write_Some in W3 as [Hb3 ->].
  rewrite Hauth. rewrite take_app_length' by (rewrite !length_app; lia).
  now rewrite <- app_assoc.
Qed.

Lemma memcmp_of_take (s1 s2 : bytes) (n : nat) :
  take n s1 = take n s2 -> memcmp s1 s2 n = 0.
Proof.
  revert s1 s2; induction n as [|n IH]; intros [|x s1] [|y s2] H;
    simpl in *; try reflexivity; try discriminate.
  injection H as -> H. rewrite Z.eqb_refl. now apply IH.
Qed.

Lemma esp_iv_len_err (entry : hip_sa_entry) (err : Z) :
  esp_iv_len entry = inl err -> err = -1.
Proof.
  unfold esp_iv_len. destruct (ealg entry), (enc_key entry); congruence.
Qed.

(** The ICV test of [payload_decrypt] for the SHA-1 suites. *)
Lemma payload_decrypt_icv_sha1
  (data_offset : hip_sa_entry -> Z) (key_length : esp_ealg -> Z)
  (cbc : cbc_cipher -> bool -> hip_crypto_key -> bytes -> bytes -> bytes)
  (hmac : EVP_MD -> hip_crypto_key -> Z -> bytes -> bytes)
  (in_ : bytes) (in_len : Z) (out : bytes) (out_type out_len : Z)
  (entry : hip_sa_entry) (key : hip_crypto_key)
  (r : Z) (out' : bytes) (out_type' out_len' : Z) :
  is_sha1_suite (ealg entry) = true -> auth_key entry = Some key ->
  ICV_LENGTH <= in_len < 2 ^ 16 ->
  let digest :=
    hmac EVP_sha1 key (key_length (ealg entry))
      (take (Z.to_nat (in_len - ICV_LENGTH)) in_) in
  (12 <= length digest)%nat ->
  payload_decrypt data_offset key_length cbc hmac in_ in_len out out_type
    out_len entry = Some (r, out', out_type', out_len') ->
  (r = 1 <-> esp_icv in_ in_len <> take 12 digest).
Proof.
  intros Hsha Hkey Hlen digest Hd Hrun.
  assert (Hmd : esp_auth_md (ealg entry) = Some EVP_sha1).
  { revert Hsha. destruct (ealg entry); cbn; congruence. }
  unfold payload_decrypt in Hrun. rewrite Hmd, Hkey in Hrun.
  assert (He : wrap16 (in_len - ICV_LENGTH) = in_len - ICV_LENGTH).
  { unfold wrap16. apply Z.mod_small. unfold ICV_LENGTH in *. lia. }
  rewrite He in Hrun.
  destruct (buf_read in_ 0 _) as [authed|] eqn:Hr1; [|discriminate Hrun].
  cbn [mbind option_bind] in Hrun.
  apply buf_read_Some in Hr1 as [_ ->]. rewrite drop_0 in Hrun.
  fold digest in Hrun.
  destruct (buf_read in_ _ (Z.to_nat ICV_LENGTH)) as [icv|] eqn:Hr2;
    [|discriminate Hrun].
  cbn [mbind option_bind] in Hrun.
  apply buf_read_Some in Hr2 as [Hb ->].
  change (take (Z.to_nat ICV_LENGTH)
            (drop (Z.to_nat (in_len - ICV_LENGTH)) in_))
    with (esp_icv in_ in_len) in Hrun.
  assert (Hicv : length (esp_icv in_ in_len) = 12%nat).
  { unfold esp_icv. rewrite length_take, length_drop.
    unfold ICV_LENGTH in *. lia. }
  change (Z.to_nat ICV_LENGTH) with 12%nat in Hrun.
  destruct (memcmp (esp_icv in_ in_len) digest 12 =? 0) eqn:Hc;
    cbn [negb] in Hrun.
  - apply Z.eqb_eq in Hc. apply memcmp_take in Hc; [|lia|lia].
    rewrite take_ge in Hc by lia.
    split; [|intros Hne; contradiction].
    intros ->. exfalso.
    destruct (esp_iv_len entry) as [err|iv_len] eqn:Hiv.
    { apply esp_iv_len_err in Hiv. congruence. }
    destruct (buf_read in_ _ (Z.to_nat iv_len)); [|discriminate Hrun].
    cbn [mbind option_bind] in Hrun.
    destruct (buf_read in_ _ _); [|discriminate Hrun].
    cbn [mbind option_bind] in Hrun.
    destruct (match esp_cipher (ealg entry) with Some _ => _ | None => _ end)
      as [out1|]; [|discriminate Hrun].
    cbn [mbind option_bind] in Hrun.
    match type of Hrun with
    | (if ?b then None else _) = _ => destruct b; [discriminate Hrun|]
    end.
    do 2 (match type of Hrun with
          | (?x ≫= _) = _ => destruct x; [|discriminate Hrun]
          end; cbn [mbind option_bind] in Hrun).
    discriminate Hrun.
  - apply Z.eqb_neq in Hc. injection Hrun as <- _ _ _.
    split; [|reflexivity]. intros _ Heq. apply Hc.
    apply memcmp_of_take. rewrite take_ge by lia. exact Heq.
Qed.

(** C8, as amended: every ESP packet that [payload_encrypt] produces
    (return value 0) carries, behind the octets it authenticates, the HMAC
    of exactly these octets, of which [ICV_LENGTH] = 12 octets are counted
    in the packet length; the HMAC is HMAC-SHA1 for the suites 3DES-SHA1,
    NULL-SHA1 and AES-SHA1 and HMAC-MD5 for the suites 3DES-MD5 and
    NULL-MD5, and no other suite gets a packet.  For the suites with a
    block cipher (3DES, AES) the authenticated octets are the ESP header
    with its token as the caller left it in [out], the IV and the CBC
    ciphertext of payload, padding and ESP tail, as long as the lengths
    stay within 16 bits, [rnd] holds the octets of the IV that RAND_bytes
    delivers and the cipher keeps the length of its input.  For the SHA-1
    suites [payload_decrypt], given a packet of at least 12 octets and an
    association with an authentication key, reports an authentication
    failure (return value 1) exactly when the last 12 octets of the packet
    differ from the first 12 octets of the HMAC-SHA1 of the octets before
    them. *)
Theorem esp_icv_is_truncated_hmac_of_the_suite
  (data_offset : hip_sa_entry -> Z) (key_length : esp_ealg -> Z)
  (cbc : cbc_cipher -> bool -> hip_crypto_key -> bytes -> bytes -> bytes)
  (hmac : EVP_MD -> hip_crypto_key -> Z -> bytes -> bytes)
  (entry : hip_sa_entry)
  (in_ : bytes) (in_type in_len : Z) (out : bytes) (out_len : Z) (rnd : bytes)
  (in' out' : bytes) (out_len' : Z)
  (pkt : bytes) (pkt_len : Z) (dout : bytes) (dtype dlen : Z)
  (key : hip_crypto_key) (r : Z) (dout' : bytes) (dtype' dlen' : Z) :
  (payload_encrypt data_offset key_length cbc hmac in_ in_type in_len out
     out_len entry rnd = Some (0, in', out', out_len') ->
   exists iv_len md k,
     esp_iv_len entry = inr iv_len /\
     esp_auth_md (ealg entry) = Some md /\ auth_key entry = Some k /\
     (md = EVP_sha1 <-> is_sha1_suite (ealg entry) = true) /\
     (md = EVP_md5 <-> is_md5_suite (ealg entry) = true) /\
     let a := Z.to_nat (esp_auth_len (data_offset entry) iv_len in_len) in
     let digest := hmac md k (key_length (ealg entry)) (take a out') in
     take (length digest) (drop a out') = digest /\
     ((12 <= length digest)%nat ->
      esp_icv out' (Z.of_nat a + ICV_LENGTH) = take 12 digest) /\
     out_len' =
       wrap16
         (wrap16
            (out_len
             + wrap16
                 (wrap16 (in_len + (esp_pad_len iv_len in_len
                                    + sizeof_hip_esp_tail)) + iv_len))
          + ICV_LENGTH) /\
     (forall c ekey,
        esp_cipher (ealg entry) = Some c -> enc_key entry = Some ekey ->
        (forall c k iv x, length (cbc c true k iv x) = length x) ->
        0 <= data_offset entry -> 0 <= in_len ->
        data_offset entry + in_len + 48 < 2 ^ 16 ->
        (Z.to_nat iv_len <= length rnd)%nat ->
        let iv := take (Z.to_nat iv_len) rnd in
        take a out'
        = take (Z.to_nat (data_offset entry)) out ++ iv
          ++ cbc c true ekey iv (esp_plaintext in_ in_type in_len iv_len))) /\
  (is_sha1_suite (ealg entry) = true -> auth_key entry = Some key ->
   ICV_LENGTH <= pkt_len < 2 ^ 16 ->
   let digest :=
     hmac EVP_sha1 key (key_length (ealg entry))
       (take (Z.to_nat (pkt_len - ICV_LENGTH)) pkt) in
   (12 <= length digest)%nat ->
   payload_decrypt data_offset key_length cbc hmac pkt pkt_len dout dtype
     dlen entry = Some (r, dout', dtype', dlen') ->
   (r = 1 <-> esp_icv pkt pkt_len <> take 12 digest)).
Proof.
  split.
  - intros Hrun.
    destruct (payload_encrypt_icv _ _ _ _ _ _ _ _ _ _ _ _ _ _ Hrun)
      as (iv_len & md & k & Hiv & Hmd & Hk & Hs & Hm & Hicv).
    exists iv_len, md, k.
    split; [exact Hiv|]. split; [exact Hmd|]. split; [exact Hk|].
    split; [exact Hs|]. split; [exact Hm|].
    cbv zeta in Hicv |- *. destruct Hicv as (H1 & H2 & H3).
    split; [exact H1|]. split; [exact H2|]. split; [exact H3|].
    intros c ekey Hc Hek Hclen Hd0 Hl0 Hsmall Hrnd.
    exact (payload_encrypt_block_layout _ _ _ _ _ _ _ _ _ _ _ _ _ _ _ _ _
             Hiv Hc Hek Hclen Hd0 Hl0 Hsmall Hrnd Hrun).
  - apply payload_decrypt_icv_sha1.
Qed.

Lemma esp_icv_is_truncated_hmac_of_the_suite_witness :
  (esp_icv (enc_out (toy_encrypt HIP_ESP_AES_SHA1)) 52
   = take 12
       (toy_hmac EVP_sha1 (replicate 20 3) 20
          (take 40 (enc_out (toy_encrypt HIP_ESP_AES_SHA1))))) /\
  (take 40 (enc_out (toy_encrypt HIP_ESP_AES_SHA1))
   = take 8 esp_out_buf ++ take 16 toy_rnd
     ++ toy_cbc AES_CBC true (replicate 16 4) (take 16 toy_rnd)
          (esp_plaintext esp_payload_buf 6 5 16)) /\
  (dec_ret (toy_decrypt tampered_packet) = 1 <->
   esp_icv tampered_packet 52
   <> take 12
        (toy_hmac EVP_sha1 (replicate 20 3) 20 (take 40 tampered_packet))).
Proof.
  pose proof (esp_icv_is_truncated_hmac_of_the_suite toy_data_offset
                toy_auth_key_length toy_cbc toy_hmac (toy_sa HIP_ESP_AES_SHA1)
                esp_payload_buf 6 5 esp_out_buf 0 toy_rnd
                (enc_in (toy_encrypt HIP_ESP_AES_SHA1))
                (enc_out (toy_encrypt HIP_ESP_AES_SHA1))
                (enc_out_len (toy_encrypt HIP_ESP_AES_SHA1))
                tampered_packet 52 (replicate 64 0) 0 0 (replicate 20 3)
                (dec_ret (toy_decrypt tampered_packet))
                (dec_out (toy_decrypt tampered_packet))
                (dec_type (toy_decrypt tampered_packet))
                (dec_len (toy_decrypt tampered_packet))) as [Henc Hdec].
  destruct (Henc eq_refl)
    as (iv_len & md & k & Hiv & Hmd & Hk & _ & _ & _ & Hicv & _ & Hlay).
  cbv in Hiv, Hmd, Hk.
  assert (Hi : iv_len = 16) by congruence.
  assert (Hm : md = EVP_sha1) by congruence.
  assert (Hk' : k = replicate 20 3) by (cbv; congruence).
  subst iv_len md k.
  split; [|split].
  - apply Hicv. vm_compute. lia.
  - apply (Hlay AES_CBC (replicate 16 4)); try reflexivity;
      try (unfold toy_data_offset; lia); try (vm_compute; lia).
    intros c k iv x. unfold toy_cbc. apply length_fmap.
  - apply Hdec; try reflexivity.
    + unfold ICV_LENGTH. lia.
    + vm_compute. lia.
Defined.

(** The packet of the example verifies and decrypts to the payload; the
    tampered one is rejected. *)
Example toy_packet_round_trip :
  dec_ret (toy_decrypt toy_packet) = 0 /\
  take 5 (dec_out (toy_decrypt toy_packet)) = [10; 20; 30; 40; 50] /\
  dec_type (toy_decrypt toy_packet) = 6 /\
  dec_len (toy_decrypt toy_packet) = 5 /\
  dec_ret (toy_decrypt tampered_packet) = 1.
Proof. vm_compute. repeat split. Qed.

(** ** Connections and their ESP tuples *)

Lemma tuple_of_set_tuple_eq (c : connection) (d : direction) (t : tuple) :
  tuple_of (set_tuple c d t) d = t.
Proof. destruct d; reflexivity. Qed.

Lemma tuple_of_set_tuple_other (c : connection) (d : direction) (t : tuple) :
  tuple_of (set_tuple c d t) (other_dir d) = tuple_of c (other_dir d).
Proof. destruct d; reflexivity. Qed.

Lemma other_dir_involutive (d : direction) : other_dir (other_dir d) = d.
Proof. destruct d; reflexivity. Qed.

Lemma update_esp_tuple_lookup (c : connection) (d : direction) (k : nat)
  (et et' : esp_tuple) :
  esp_tuples (tuple_of c d) !! k = Some et ->
  esp_tuples (tuple_of (update_esp_tuple c d k et') d) !! k = Some et'.
Proof.
  intros H. unfold update_esp_tuple. rewrite tuple_of_set_tuple_eq. cbn.
  apply list_lookup_insert_eq. now apply lookup_lt_Some in H.
Qed.

Lemma update_esp_tuple_lookup_ne (c : connection) (d : direction) (k j : nat)
  (et' : esp_tuple) :
  j <> k ->
  esp_tuples (tuple_of (update_esp_tuple c d k et') d) !! j
  = esp_tuples (tuple_of c d) !! j.
Proof.
  intros H. unfold update_esp_tuple. rewrite tuple_of_set_tuple_eq. cbn.
  apply list_lookup_insert_ne. congruence.
Qed.

Lemma update_esp_tuple_other (c : connection) (d : direction) (k : nat)
  (et' : esp_tuple) :
  tuple_of (update_esp_tuple c d k et') (other_dir d) = tuple_of c (other_dir d).
Proof. unfold update_esp_tuple. apply tuple_of_set_tuple_other. Qed.

Lemma update_esp_tuple_lupdate_seq (c : connection) (d : direction) (k : nat)
  (et' : esp_tuple) :
  lupdate_seq (tuple_of (update_esp_tuple c d k et') d)
  = lupdate_seq (tuple_of c d).
Proof. unfold update_esp_tuple. now rewrite tuple_of_set_tuple_eq. Qed.

(** ** C1: the acknowledgement of an anchor update *)

(** What the loop over the hash chains changes: for every chain in its range
    whose first active anchor equals the cached active anchor, the next
    anchor (and, if cached, the next root); nothing else. *)
Lemma update_anchor_loop_spec (hl : Z) (item : esp_anchor_item)
  (count i : nat) (et et' : esp_tuple) :
  update_anchor_loop hl item i count et = Some et' ->
  active_anchors et' = active_anchors et /\
  first_active_anchors et' = first_active_anchors et /\
  anchor_cache et' = anchor_cache et /\
  hash_item_length et' = hash_item_length et /\
  spi et' = spi et /\ seq_no et' = seq_no et /\
  esp_prot_tfm et' = esp_prot_tfm et /\ num_hchains et' = num_hchains et /\
  (forall j, (j < i \/ i + count <= j)%nat ->
             next_anchors et' !! j = next_anchors et !! j) /\
  (forall j, (i <= j < i + count)%nat ->
     exists first cached,
       first_active_anchors et !! j = Some first /\
       item_active_anchors item !! j = Some (Some cached) /\
       (memcmp first cached (Z.to_nat hl) <> 0 ->
        next_anchors et' !! j = next_anchors et !! j) /\
       (memcmp first cached (Z.to_nat hl) = 0 ->
        exists src dst,
          item_next_anchors item !! j = Some (Some src) /\
          next_anchors et !! j = Some dst /\
          next_anchors et' !! j = Some (memcpy dst src (Z.to_nat hl)))).
Proof.
  revert i et. induction count as [|c IH]; intros i et H.
  - cbn in H. injection H as <-. repeat split; try reflexivity. intros j Hj. lia.
  - cbn [update_anchor_loop] in H.
    destruct (first_active_anchors et !! i) as [first|] eqn:Hf;
      [|discriminate H].
    cbn [mbind option_bind] in H.
    destruct (mjoin (item_active_anchors item !! i)) as [cached|] eqn:Hc;
      [|discriminate H].
    cbn [mbind option_bind] in H.
    assert (Hc' : item_active_anchors item !! i = Some (Some cached)).
    { destruct (item_active_anchors item !! i) as [[x|]|]; cbn in Hc;
        congruence. }
    destruct (memcmp first cached (Z.to_nat hl) =? 0) eqn:Hm.
    + apply Z.eqb_eq in Hm.
      destruct (mjoin (item_next_anchors item !! i)) as [src|] eqn:Hs;
        [|discriminate H].
      cbn [mbind option_bind] in H.
      assert (Hs' : item_next_anchors item !! i = Some (Some src)).
      { destruct (item_next_anchors item !! i) as [[x|]|]; cbn in Hs;
          congruence. }
      destruct (next_anchors et !! i) as [dst|] eqn:Hd; [|discriminate H].
      cbn [mbind option_bind] in H.
      destruct (next_root_length et !! i); [|discriminate H].
      cbn [mbind option_bind] in H.
      destruct (next_roots et !! i); [|discriminate H].
      cbn [mbind option_bind] in H.
      apply IH in H
        as (Ha & Hfa & Hac & Hh & Hsp & Hsq & Htf & Hn & Hout & Hin).
      assert (Hlt : (i < length (next_anchors et))%nat)
        by (now apply lookup_lt_Some in Hd).
      assert (Hfront :
        forall (e1 : esp_tuple),
          e1 = match mjoin (item_roots item !! i) with
               | Some r =>
                   set_next_item et (hash_item_length et)
                     (<[i:=memcpy dst src (Z.to_nat hl)]> (next_anchors et))
                     (<[i:=item_root_length item]> (next_root_length et))
                     (<[i:=Some r]> (next_roots et))
               | None =>
                   set_next_item et (hash_item_length et)
                     (<[i:=memcpy dst src (Z.to_nat hl)]> (next_anchors et))
                     (next_root_length et) (next_roots et)
               end ->
          active_anchors e1 = active_anchors et /\
          first_active_anchors e1 = first_active_anchors et /\
          anchor_cache e1 = anchor_cache et /\
          hash_item_length e1 = hash_item_length et /\
          spi e1 = spi et /\ seq_no e1 = seq_no et /\
          esp_prot_tfm e1 = esp_prot_tfm et /\
          num_hchains e1 = num_hchains et /\
          next_anchors e1
          = <[i:=memcpy dst src (Z.to_nat hl)]> (next_anchors et)).
      { intros e1 ->. destruct (mjoin (item_roots item !! i));
          repeat split. }
      destruct (Hfront _ eq_refl)
        as (Ea & Efa & Eac & Eh & Esp & Esq & Etf & En & Enx).
      rewrite Ea in Ha. rewrite Efa in Hfa, Hin. rewrite Eac in Hac.
      rewrite Eh in Hh. rewrite Esp in Hsp. rewrite Esq in Hsq.
      rewrite Etf in Htf. rewrite En in Hn. rewrite Enx in Hout, Hin.
      repeat split; try assumption.
      * intros j Hj. rewrite Hout by lia.
        apply list_lookup_insert_ne. lia.
      * intros j Hj. destruct (decide (j = i)) as [-> | Hne].
        -- exists first, cached. repeat split; try assumption; [congruence|].
           intros _. exists src, dst. repeat split; try assumption.
           rewrite Hout by lia. now apply list_lookup_insert_eq.
        -- destruct (Hin j ltac:(lia))
             as (f & cch & Hf1 & Hc1 & Hne1 & Heq1).
           exists f, cch. repeat split; try assumption.
           ++ intros Hx. rewrite (Hne1 Hx).
              apply list_lookup_insert_ne. lia.
           ++ intros Hx. destruct (Heq1 Hx) as (s & dd & Hs1 & Hd1 & Hr1).
              exists s, dd. repeat split; try assumption.
              rewrite <- Hd1. symmetry. apply list_lookup_insert_ne. lia.
    + apply Z.eqb_neq in Hm.
      apply IH in H
        as (Ha & Hfa & Hac & Hh & Hsp & Hsq & Htf & Hn & Hout & Hin).
      repeat split; try assumption.
      * intros j Hj. apply Hout. lia.
      * intros j Hj. destruct (decide (j = i)) as [-> | Hne].
        -- exists first, cached. repeat split; try assumption.
           ++ intros _. apply Hout. lia.
           ++ intros Hx. contradiction.
        -- apply Hin. lia.
Qed.

(** C1, the claim as stated fails: when the ACK that matches the cached item
    arrives, the cached item is deleted, and the new anchor is written to the
    ESP tuple's next anchor; the active anchor is not overwritten. *)
Lemma ack_leaves_active_anchor :
  anchor_cache (ct_tuple conn_cached ORIGINAL_DIR 0)
  = [ {| item_seq := 5; item_transform := ESP_PROT_TFM_PLAIN;
         item_hash_item_length := 200;
         item_active_anchors := [Some anchor_old];
         item_next_anchors := [Some anchor_new];
         item_root_length := 0; item_roots := [None] |} ] /\
  esp_prot_conntrack_update_anchor toy_fw conn_cached REPLY_DIR 5
    (Some 16777216) = Some (0, conn_acked) /\
  anchor_cache (ct_tuple conn_acked ORIGINAL_DIR 0) = [] /\
  next_anchors (ct_tuple conn_acked ORIGINAL_DIR 0) = [anchor_new] /\
  active_anchors (ct_tuple conn_acked ORIGINAL_DIR 0) = [token_seen] /\
  active_anchors (ct_tuple conn_acked ORIGINAL_DIR 0) <> [anchor_new].
Proof.
  repeat split; try (vm_compute; reflexivity). vm_compute. discriminate.
Qed.

(** C1, as amended: when the connection tracker receives the UPDATE ACK that
    matches a cached anchor-update item (the cached seq equals the ACK's
    peer update id) for the ESP tuple of the other direction with the
    ESP_INFO's SPI, then for every hash chain whose first active anchor
    equals the cached active anchor the tuple's next anchor is overwritten
    with the cached next anchor; the tuple takes the cached hash-item
    length; the active anchors are left as they are; and the first matching
    item, and only this item, is deleted from the cache.  The function then
    returns 0. *)
Theorem update_anchor_sets_next_anchor_and_deletes_item
  (G : fw_config) (c c' : connection) (d : direction)
  (peer_update_id old_spi r : Z)
  (k idx : nat) (et : esp_tuple) (item : esp_anchor_item)
  (tfm : esp_prot_conntrack_tfm) :
  find_esp_tuple (esp_tuples (tuple_of c (other_dir d))) (ntohl old_spi)
    = Some (k, et) ->
  list_find (fun it => item_seq it = peer_update_id) (anchor_cache et)
    = Some (idx, item) ->
  esp_prot_conntrack_resolve_transform G (esp_prot_tfm et) = Some tfm ->
  esp_prot_conntrack_update_anchor G c d peer_update_id (Some old_spi)
    = Some (r, c') ->
  r = 0 /\ tuple_of c' d = tuple_of c d /\
  (forall j, j <> k ->
     esp_tuples (tuple_of c' (other_dir d)) !! j
     = esp_tuples (tuple_of c (other_dir d)) !! j) /\
  exists et',
    esp_tuples (tuple_of c' (other_dir d)) !! k = Some et' /\
    active_anchors et' = active_anchors et /\
    first_active_anchors et' = first_active_anchors et /\
    hash_item_length et' = item_hash_item_length item /\
    anchor_cache et' = delete idx (anchor_cache et) /\
    item_seq item = peer_update_id /\
    anchor_cache et !! idx = Some item /\
    (forall j, (j < Z.to_nat (num_hchains et))%nat ->
       exists first cached,
         first_active_anchors et !! j = Some first /\
         item_active_anchors item !! j = Some (Some cached) /\
         (memcmp first cached (Z.to_nat (hash_length tfm)) <> 0 ->
          next_anchors et' !! j = next_anchors et !! j) /\
         (memcmp first cached (Z.to_nat (hash_length tfm)) = 0 ->
          exists src dst,
            item_next_anchors item !! j = Some (Some src) /\
            next_anchors et !! j = Some dst /\
            next_anchors et' !! j
            = Some (memcpy dst src (Z.to_nat (hash_length tfm))))).
Proof.
  intros Hfind Hitem Htfm Hrun.
  unfold esp_prot_conntrack_update_anchor in Hrun.
  cbn [mbind option_bind] in Hrun. rewrite Hfind, Hitem, Htfm in Hrun.
  cbn [mbind option_bind] in Hrun.
  destruct (update_anchor_loop _ _ _ _ _) as [et2|] eqn:Hloop;
    [|discriminate Hrun].
  cbn [mbind option_bind] in Hrun. injection Hrun as <- <-.
  apply update_anchor_loop_spec in Hloop
    as (Ha & Hfa & Hac & Hh & _ & _ & _ & _ & _ & Hin).
  cbn [active_anchors first_active_anchors anchor_cache hash_item_length
       set_next_item num_hchains next_anchors] in Ha, Hfa, Hac, Hh, Hin.
  apply list_find_Some in Hitem as (Hidx & Hseq & _).
  apply list_find_Some in Hfind as (Hk & _ & _).
  split; [reflexivity|]. split.
  { destruct d; reflexivity. }
  split.
  { intros j Hj. now apply update_esp_tuple_lookup_ne. }
  eexists. split; [eapply update_esp_tuple_lookup; exact Hk|].
  cbn [active_anchors first_active_anchors anchor_cache hash_item_length
       set_anchor_cache next_anchors].
  rewrite Hac. repeat split; try assumption.
  intros j Hj. apply Hin. lia.
Qed.

Lemma update_anchor_sets_next_anchor_and_deletes_item_witness :
  tuple_of conn_acked REPLY_DIR = tuple_of conn_cached REPLY_DIR /\
  exists et',
    esp_tuples (tuple_of conn_acked ORIGINAL_DIR) !! 0%nat = Some et' /\
    active_anchors et' = active_anchors (ct_tuple conn_cached ORIGINAL_DIR 0) /\
    anchor_cache et'
    = delete 0%nat (anchor_cache (ct_tuple conn_cached ORIGINAL_DIR 0)) /\
    next_anchors et' !! 0%nat = Some anchor_new.
Proof.
  destruct (update_anchor_sets_next_anchor_and_deletes_item toy_fw
              conn_cached conn_acked REPLY_DIR 5 16777216 0 0%nat 0%nat
              (ct_tuple conn_cached ORIGINAL_DIR 0)
              {| item_seq := 5; item_transform := ESP_PROT_TFM_PLAIN;
                 item_hash_item_length := 200;
                 item_active_anchors := [Some anchor_old];
                 item_next_anchors := [Some anchor_new];
                 item_root_length := 0; item_roots := [None] |}
              toy_tfm eq_refl eq_refl eq_refl eq_refl)
    as (_ & Ht & _ & et' & H1 & H2 & _ & _ & H3 & _ & _ & H4).
  split; [exact Ht|]. exists et'.
  split; [exact H1|]. split; [exact H2|]. split; [exact H3|].
  destruct (H4 0%nat) as (first & cached & Hf & Hc & _ & Heq).
  { vm_compute. lia. }
  assert (Hf' : first = anchor_old) by (cbv in Hf |- *; congruence).
  assert (Hc' : cached = anchor_old) by (cbv in Hc |- *; congruence).
  subst first cached.
  destruct (Heq eq_refl) as (src & dst & Hs & Hd & Hn).
  assert (Hs' : src = anchor_new) by (cbv in Hs |- *; congruence).
  assert (Hd' : dst = [0; 0; 0; 0]) by (cbv in Hd |- *; congruence).
  subst src dst. exact Hn.
Defined.

(** ** C7: caching of anchor updates *)

Lemma cache_anchor_loop_seq (hl : Z) (esp_anchors : list esp_prot_anchor)
  (esp_roots : list (option esp_prot_root)) (count i : nat)
  (item item' : esp_anchor_item) :
  cache_anchor_loop hl esp_anchors esp_roots i count item = Some item' ->
  item_seq item' = item_seq item.
Proof.
  revert i item. induction count as [|n IH]; intros i item H.
  - cbn in H. now injection H as <-.
  - cbn [cache_anchor_loop] in H.
    destruct (esp_anchors !! i) as [a|]; [|discriminate H].
    cbn [mbind option_bind] in H.
    destruct (cache_anchor_entry hl a (mjoin (esp_roots !! i)))
      as [[act nxt] rt].
    apply IH in H. exact H.
Qed.

(** What a successful call of [esp_prot_conntrack_cache_anchor] does: one new
    item, with the UPDATE's seq, at the head of the cache of the matching ESP
    tuple. *)
Lemma cache_anchor_success (G : fw_config) (c c' : connection)
  (d : direction) (update_id : Z) (esp_anchors : list esp_prot_anchor)
  (esp_roots : list (option esp_prot_root)) :
  esp_prot_conntrack_cache_anchor G c d update_id esp_anchors esp_roots
    = Some (0, c') ->
  exists k et item,
    esp_tuples (tuple_of c d) !! k = Some et /\
    item_seq item = update_id /\
    c' = update_esp_tuple c d k
           (set_anchor_cache et (item :: anchor_cache et)).
Proof.
  unfold esp_prot_conntrack_cache_anchor. intros H.
  destruct (esp_anchors !! 0%nat) as [a0|]; [|discriminate H].
  cbn [mbind option_bind] in H.
  destruct (esp_prot_conntrack_resolve_transform G (transform a0)) as [tfm|];
    [|discriminate H].
  cbn [mbind option_bind] in H.
  destruct (esp_prot_conntrack_find_esp_tuple _ _ _) as [[k et]|] eqn:Hf;
    [|discriminate H].
  destruct (cache_anchor_loop _ _ _ _ _ _) as [item|] eqn:Hl;
    [|discriminate H].
  cbn [mbind option_bind] in H. injection H as <-.
  apply cache_anchor_loop_seq in Hl. cbn in Hl.
  apply list_find_Some in Hf as (Hk & _ & _).
  exists k, et, item. repeat split; assumption.
Qed.

(** C7, the claim as stated fails: a second light UPDATE with the same seq
    as the cached one is accepted (return value 0) and cached again; the
    cache of the ESP tuple then holds two items with seq 5. *)
Lemma duplicate_update_is_cached_again :
  esp_prot_conntrack_lupdate toy_htree_verify_branch toy_fw conn0
    ORIGINAL_DIR light_update = Some (0, conn_lu1) /\
  item_seq <$> anchor_cache (ct_tuple conn_lu1 ORIGINAL_DIR 0) = [5] /\
  esp_prot_conntrack_lupdate toy_htree_verify_branch toy_fw conn_lu1
    ORIGINAL_DIR light_update = Some (0, conn_lu2) /\
  item_seq <$> anchor_cache (ct_tuple conn_lu2 ORIGINAL_DIR 0) = [5; 5] /\
  conn_lu2 <> conn_lu1.
Proof.
  repeat split; try (vm_compute; reflexivity). vm_compute. discriminate.
Qed.

(** C7, as amended: a light UPDATE with a SEQ parameter whose update id is
    lower than the one tracked for its direction is rejected and leaves the
    connection unchanged; every such UPDATE that the tracker accepts -- its
    update id is then at least the tracked one, which it replaces -- adds
    exactly one item with its seq at the head of the anchor cache of the
    matching ESP tuple, whatever the cache already holds, and changes no
    other ESP tuple. *)
Theorem lupdate_caches_every_accepted_update
  (htree : option bytes -> Z -> bytes -> Z -> bytes -> Z -> Z -> bytes -> Z -> Z)
  (G : fw_config) (c : connection) (d : direction) (common : lupdate_params)
  (update_id : Z) :
  hip_esp_protection G <> 0 -> lu_seq common = Some update_id ->
  (ntohl update_id < lupdate_seq (tuple_of c d) ->
   esp_prot_conntrack_lupdate htree G c d common = Some (-1, c)) /\
  (forall c',
     esp_prot_conntrack_lupdate htree G c d common = Some (0, c') ->
     lupdate_seq (tuple_of c d) <= ntohl update_id /\
     lupdate_seq (tuple_of c' d) = ntohl update_id /\
     tuple_of c' (other_dir d) = tuple_of c (other_dir d) /\
     exists k et item,
       esp_tuples (tuple_of c d) !! k = Some et /\
       item_seq item = update_id /\
       esp_tuples (tuple_of c' d) !! k
       = Some (set_anchor_cache et (item :: anchor_cache et)) /\
       (forall j, j <> k ->
          esp_tuples (tuple_of c' d) !! j = esp_tuples (tuple_of c d) !! j)).
Proof.
  intros Hon Hseq. unfold esp_prot_conntrack_lupdate.
  apply Z.eqb_neq in Hon. rewrite Hon, Hseq. cbn [negb]. split.
  - intros Hlt. apply Z.ltb_lt in Hlt. now rewrite Hlt.
  - intros c' H.
    destruct (ntohl update_id <? lupdate_seq (tuple_of c d)) eqn:Hlt;
      [discriminate H|].
    apply Z.ltb_ge in Hlt.
    set (c1 := set_lupdate_seq c d (ntohl update_id)) in *.
    destruct (esp_prot_conntrack_verify_branch htree G _ _ _ _) as [vres|];
      [|discriminate H].
    cbn [mbind option_bind] in H.
    destruct (negb (vres =? 0)); [discriminate H|].
    destruct (esp_prot_conntrack_cache_anchor G c1 d update_id _ _)
      as [[cres c2]|] eqn:Hc; [|discriminate H].
    cbn [mbind option_bind] in H.
    destruct (cres =? 0) eqn:Hr; cbn [negb] in H; [|discriminate H].
    injection H as <-. apply Z.eqb_eq in Hr. subst cres.
    apply cache_anchor_success in Hc as (k & et & item & Hk & Hs & ->).
    assert (Ht : esp_tuples (tuple_of c1 d) = esp_tuples (tuple_of c d)).
    { unfold c1, set_lupdate_seq. now rewrite tuple_of_set_tuple_eq. }
    split; [exact Hlt|]. split.
    { rewrite update_esp_tuple_lupdate_seq. unfold c1, set_lupdate_seq.
      now rewrite tuple_of_set_tuple_eq. }
    split.
    { rewrite update_esp_tuple_other. unfold c1, set_lupdate_seq.
      apply tuple_of_set_tuple_other. }
    exists k, et, item. rewrite <- Ht.
    split; [exact Hk|]. split; [exact Hs|]. split.
    + now apply (update_esp_tuple_lookup c1 d k et).
    + intros j Hj. now apply update_esp_tuple_lookup_ne.
Qed.

Lemma lupdate_caches_every_accepted_update_witness :
  lupdate_seq (tuple_of conn_lu1 ORIGINAL_DIR) <= ntohl 5 /\
  exists k et item,
    esp_tuples (tuple_of conn_lu1 ORIGINAL_DIR) !! k = Some et /\
    item_seq item = 5 /\
    esp_tuples (tuple_of conn_lu2 ORIGINAL_DIR) !! k
    = Some (set_anchor_cache et (item :: anchor_cache et)).
Proof.
  assert (Hon : hip_esp_protection toy_fw <> 0) by (vm_compute; discriminate).
  destruct (lupdate_caches_every_accepted_update toy_htree_verify_branch
              toy_fw conn_lu1 ORIGINAL_DIR light_update 5 Hon eq_refl)
    as [_ H].
  destruct (H conn_lu2 eq_refl)
    as (Hle & _ & _ & k & et & item & Hk & Hs & Hk' & _).
  split; [exact Hle|]. exists k, et, item. auto.
Defined.

(** ** C3: the verification window *)

Lemma chain_state_Some (et : esp_tuple) (h : nat) (act nxt : bytes)
  (aroot nroot : option bytes) (nlen : Z) :
  chain_state et h = Some (act, nxt, aroot, nroot, nlen) ->
  active_anchors et !! h = Some act /\ next_anchors et !! h = Some nxt /\
  active_roots et !! h = Some aroot /\ next_roots et !! h = Some nroot /\
  next_root_length et !! h = Some nlen.
Proof.
  unfold chain_state. intros H.
  destruct (active_anchors et !! h); [|discriminate H].
  destruct (next_anchors et !! h); [|discriminate H].
  destruct (active_roots et !! h); [|discriminate H].
  destruct (next_roots et !! h); [|discriminate H].
  destruct (next_root_length et !! h); [|discriminate H].
  cbn in H. injection H as <- <- <- <- <-. auto.
Qed.

Lemma anchor_change_defined (et : esp_tuple) (h : nat) (trees : bool)
  (hl : Z) (token : bytes) :
  is_Some (active_anchors et !! h) ->
  is_Some (first_active_anchors et !! h) ->
  is_Some (next_anchors et !! h) -> is_Some (next_roots et !! h) ->
  is_Some (next_root_length et !! h) -> is_Some (active_roots et !! h) ->
  is_Some (anchor_change et h trees hl token).
Proof.
  intros [? H1] [? H2] [? H3] [? H4] [? H5] [? H6]. unfold anchor_change.
  rewrite H1, H2, H3, H4, H5, H6. cbn. eauto.
Qed.

Lemma in_verify_window_spec (G : fw_config) (current_seq stored : Z) :
  in_verify_window G current_seq stored = true <->
  0 < seq_diff current_seq stored <= wrap32 (window_size G).
Proof.
  unfold in_verify_window.
  rewrite andb_true_iff, Z.ltb_lt, Z.leb_le. reflexivity.
Qed.

(** C3, the claim as stated fails: in cumulative authentication mode a
    packet whose sequence number lies behind the stored one (W = 2^32 - 4,
    the window is 64) is accepted when the ring buffer holds its hash; no
    token is verified on that path. *)
Lemma packet_outside_window_accepted_by_cumulative_authentication :
  seq_no et_cumulative = 7 /\
  ntohl (esp_seq (esp ctx_reordered)) = 3 /\
  seq_diff (ntohl (esp_seq (esp ctx_reordered))) (seq_no et_cumulative)
  = 4294967292 /\
  window_size toy_fw = 64 /\
  in_verify_window toy_fw (ntohl (esp_seq (esp ctx_reordered)))
    (seq_no et_cumulative) = false /\
  verify_ret (esp_prot_conntrack_verify toy_verify_hchain_element
                toy_verify_htree_element toy_fw ctx_reordered et_cumulative)
  = 0.
Proof. repeat split; vm_compute; reflexivity. Qed.

(** C3, as amended: for the hash chain transforms without cumulative
    authentication (neither TREE nor CUMULATIVE nor PARA_CUMUL), with
    W = received seq - stored seq on 32 bits: the verifier returns 0 only if
    0 < W <= window_size; outside the window it returns -1 and leaves the ESP
    tuple, hence the active anchor, unchanged; inside the window the result
    is that of the hash chain verification of the token with tolerance W:
    -1 if that is negative, 0 otherwise. *)
Theorem hchain_token_accepted_only_inside_window
  (hchain : (bytes -> bytes) -> Z -> bytes -> bytes -> bytes -> Z ->
            option bytes -> Z -> option bytes -> Z -> Z * bytes)
  (htree : (bytes -> bytes) -> Z -> Z -> bytes -> bytes -> option bytes ->
           Z -> option bytes -> Z -> bytes -> Z)
  (G : fw_config) (ctx : hip_fw_context) (et : esp_tuple) :
  hip_esp_protection G <> 0 ->
  ESP_PROT_TFM_UNUSED < esp_prot_tfm et ->
  esp_prot_tfm et <> ESP_PROT_TFM_TREE ->
  is_cumulative (esp_prot_tfm et) = false ->
  let current_seq := ntohl (esp_seq (esp ctx)) in
  let W := seq_diff current_seq (seq_no et) in
  let h := Z.to_nat (Z.rem (wrap32 (current_seq - 1)) (num_hchains et)) in
  let tfm := esp_prot_conntrack_tfms G (esp_prot_tfm et) in
  (forall et',
     esp_prot_conntrack_verify hchain htree G ctx et = Some (0, et') ->
     0 < W <= wrap32 (window_size G)) /\
  (num_hchains et <> 0 -> ~ 0 < W <= wrap32 (window_size G) ->
   esp_prot_conntrack_verify hchain htree G ctx et = Some (-1, et)) /\
  (num_hchains et <> 0 -> 0 < W <= wrap32 (window_size G) ->
   forall act nxt aroot nroot nlen,
     chain_state et h = Some (act, nxt, aroot, nroot, nlen) ->
     is_Some (first_active_anchors et !! h) ->
     exists et',
       esp_prot_conntrack_verify hchain htree G ctx et
       = Some (if fst (hchain (hash_function tfm) (hash_length tfm) act nxt
                         (esp_token (esp ctx)) W aroot
                         (active_root_length et) nroot nlen) <? 0
               then -1 else 0, et')).
Proof.
  intros Hon Hused Htree Hcum current_seq W h tfm.
  unfold esp_prot_conntrack_verify.
  apply Z.eqb_neq in Hon. rewrite Hon. cbn [negb].
  unfold esp_prot_conntrack_resolve_transform.
  apply Z.ltb_lt in Hused. rewrite Hused. cbn [mbind option_bind].
  apply Z.eqb_neq in Htree. rewrite Htree.
  fold current_seq. fold tfm. rewrite Hcum. cbn [andb].
  unfold c_rem.
  destruct (num_hchains et =? 0) eqn:Hn.
  { apply Z.eqb_eq in Hn. cbn [mbind option_bind].
    split; [discriminate|]. split; intros; congruence. }
  cbn [mbind option_bind]. fold h.
  destruct (in_verify_window G current_seq (seq_no et)) eqn:Hw.
  - apply in_verify_window_spec in Hw. fold W in Hw.
    split; [intros; exact Hw|]. split; [intros _ Hout; contradiction|].
    intros _ _ act nxt aroot nroot nlen Hcs [fa Hfa]. rewrite Hcs.
    cbn [mbind option_bind]. fold W.
    destruct (hchain _ _ _ _ _ _ _ _ _ _) as [err act'].
    cbn [fst mbind option_bind].
    destruct (err <? 0) eqn:Hneg; [eauto|].
    cbn [esp_prot_tfm set_active_item]. rewrite Hcum.
    cbn [mbind option_bind].
    destruct (0 <? err) eqn:Hpos;
      [|assert (err = 0) as -> by lia; eauto].
    apply chain_state_Some in Hcs as (Ha & Hnx & Har & Hnr & Hnl).
    destruct (anchor_change_defined
                (set_active_item et (<[h:=act']> (active_anchors et))
                   (first_active_anchors et) (active_root_length et)
                   (active_roots et)) h false (hash_length tfm)
                (esp_token (esp ctx))) as [et3 He]; cbn; eauto.
    { rewrite list_lookup_insert_eq; eauto using lookup_lt_Some. }
    rewrite He. cbn. eauto.
  - assert (Hout : ~ 0 < W <= wrap32 (window_size G)).
    { intros Hin. apply in_verify_window_spec in Hin.
      fold current_seq in Hw. unfold W in Hin. congruence. }
    cbn [mbind option_bind]. cbn.
    split; [discriminate|]. split; [reflexivity|]. intros _ Hin. contradiction.
Qed.

Lemma hchain_token_accepted_only_inside_window_witness :
  0 < seq_diff (ntohl (esp_seq (esp ctx_next))) (seq_no et_plain)
    <= wrap32 (window_size toy_fw) /\
  exists et',
    esp_prot_conntrack_verify toy_verify_hchain_element
      toy_verify_htree_element toy_fw ctx_next et_plain = Some (0, et').
Proof.
  assert (Hon : hip_esp_protection toy_fw <> 0) by (vm_compute; discriminate).
  assert (Hused : ESP_PROT_TFM_UNUSED < esp_prot_tfm et_plain)
    by (vm_compute; reflexivity).
  assert (Htree : esp_prot_tfm et_plain <> ESP_PROT_TFM_TREE)
    by (vm_compute; discriminate).
  assert (Hn : num_hchains et_plain <> 0) by (vm_compute; discriminate).
  assert (Hin : 0 < seq_diff (ntohl (esp_seq (esp ctx_next)))
                      (seq_no et_plain) <= wrap32 (window_size toy_fw))
    by (vm_compute; split; [reflexivity | discriminate]).
  destruct (hchain_token_accepted_only_inside_window
              toy_verify_hchain_element toy_verify_htree_element toy_fw
              ctx_next et_plain Hon Hused Htree eq_refl) as (_ & _ & H).
  split; [exact Hin|].
  exact (H Hn Hin token_seen [0; 0; 0; 0] None None 0 eq_refl
           (ex_intro _ anchor_old eq_refl)).
Defined.

(** ** Anchor updates: first UPDATE, then acknowledgement *)

Lemma memcmp_take_r (s1 s2 : bytes) (n : nat) :
  memcmp s1 (take n s2) n = memcmp s1 s2 n.
Proof.
  revert s1 s2; induction n as [|n IH]; intros [|x s1] [|y s2]; simpl;
    try reflexivity.
  destruct (x =? y); [apply IH | reflexivity].
Qed.

Lemma list_find_insert_same {A} (P : A -> Prop) `{!forall x, Decision (P x)}
  (l : list A) (k : nat) (x y : A) :
  list_find P l = Some (k, x) -> P y ->
  list_find P (<[k := y]> l) = Some (k, y).
Proof.
  intros (Hk & _ & Hlt)%list_find_Some Hy. apply list_find_Some.
  split; [apply list_lookup_insert_eq; eauto using lookup_lt_Some|].
  split; [exact Hy|]. intros j z Hj Hjk.
  rewrite list_lookup_insert_ne in Hj by lia. eauto.
Qed.

(** What the caching loop collects: for each chain the active anchor and the
    announced anchor of its parameter, in chain order. *)
Lemma cache_anchor_loop_lists (hl : Z) (A : list esp_prot_anchor)
  (R : list (option esp_prot_root)) (count i : nat)
  (item item' : esp_anchor_item) :
  cache_anchor_loop hl A R i count item = Some item' ->
  (i + count <= length A \/ count = 0)%nat /\
  item_active_anchors item'
  = item_active_anchors item
    ++ ((fun a => Some (take (Z.to_nat hl) (anchors a)))
          <$> take count (drop i A)) /\
  item_next_anchors item'
  = item_next_anchors item ++ (announced_anchor hl <$> take count (drop i A)) /\
  item_seq item' = item_seq item /\
  item_hash_item_length item' = item_hash_item_length item.
Proof.
  revert i item. induction count as [|n IH]; intros i item H.
  - cbn in H. injection H as <-. rewrite !app_nil_r. auto.
  - cbn [cache_anchor_loop] in H.
    destruct (A !! i) as [a|] eqn:Ha; [|discriminate H].
    cbn [mbind option_bind] in H.
    destruct (cache_anchor_entry hl a (mjoin (R !! i)))
      as [[act nxt] rt] eqn:He.
    apply IH in H as (Hlen & Hact & Hnxt & Hseq & Hhil). cbn in *.
    rewrite (drop_S _ _ _ Ha). cbn [take fmap list_fmap].
    unfold cache_anchor_entry in He. injection He as <- <- <-.
    rewrite Hact, Hnxt, <- !app_assoc. cbn.
    pose proof (lookup_lt_Some _ _ _ Ha).
    split; [left; destruct Hlen; lia|]. auto.
Qed.

Lemma update_anchor_loop_defined (hl : Z) (item : esp_anchor_item)
  (count i : nat) (et : esp_tuple) :
  (i + count <= length (first_active_anchors et))%nat ->
  (i + count <= length (next_anchors et))%nat ->
  (i + count <= length (next_root_length et))%nat ->
  (i + count <= length (next_roots et))%nat ->
  (forall j, (i <= j < i + count)%nat ->
     exists cached src,
       item_active_anchors item !! j = Some (Some cached) /\
       item_next_anchors item !! j = Some (Some src)) ->
  is_Some (update_anchor_loop hl item i count et).
Proof.
  revert i et. induction count as [|n IH]; intros i et H1 H2 H3 H4 Hit.
  - cbn. eauto.
  - cbn [update_anchor_loop].
    destruct (lookup_lt_is_Some_2 (first_active_anchors et) i) as [x1 E1];
      [lia|].
    destruct (lookup_lt_is_Some_2 (next_anchors et) i) as [x2 E2]; [lia|].
    destruct (lookup_lt_is_Some_2 (next_root_length et) i) as [x3 E3]; [lia|].
    destruct (lookup_lt_is_Some_2 (next_roots et) i) as [x4 E4]; [lia|].
    destruct (Hit i) as (cached & src & Ec & Es); [lia|].
    rewrite E1, Ec. cbn [mbind option_bind mjoin option_join].
    destruct (memcmp x1 cached (Z.to_nat hl) =? 0).
    + rewrite Es, E2, E3, E4. cbn [mbind option_bind mjoin option_join].
      destruct (mjoin (item_roots item !! i));
        (apply IH; cbn; rewrite ?length_insert; [lia..|];
         intros j Hj; apply Hit; lia).
    + apply IH; [lia..|]. intros j Hj; apply Hit; lia.
Qed.

(** X1: a light UPDATE with SEQ that the tracker accepts in one direction,
    followed in the other direction by the light UPDATE that acknowledges
    its update id and names the SPI of the same ESP tuple, is accepted too:
    it installs the announced anchor as the next anchor of chain 0, takes
    the announced hash-item length, leaves the active anchors alone and
    returns the anchor cache to what it was before the first UPDATE. *)
Theorem light_update_then_ack_installs_next_anchor
  (htree : option bytes -> Z -> bytes -> Z -> bytes -> Z -> Z -> bytes -> Z -> Z)
  (G : fw_config) (c c1 : connection) (d : direction)
  (seqmsg ackmsg : lupdate_params) (s spi_w : Z) (a0 : esp_prot_anchor)
  (k : nat) (et : esp_tuple) :
  let hl := hash_length (esp_prot_conntrack_tfms G (transform a0)) in
  hip_esp_protection G <> 0 ->
  lu_seq seqmsg = Some s ->
  esp_prot_conntrack_lupdate htree G c d seqmsg = Some (0, c1) ->
  lu_anchors seqmsg !! 0%nat = Some a0 ->
  esp_prot_conntrack_find_esp_tuple (tuple_of c d) (anchors a0) hl
    = Some (k, et) ->
  find_esp_tuple (esp_tuples (tuple_of c d)) (ntohl spi_w) = Some (k, et) ->
  esp_prot_tfm et = transform a0 ->
  0 < num_hchains et -> chains_allocated et ->
  (forall i a, (i < Z.to_nat (num_hchains et))%nat ->
     lu_anchors seqmsg !! i = Some a -> announced_anchor hl a <> None) ->
  lu_seq ackmsg = None -> lu_ack ackmsg = Some s ->
  lu_esp_info ackmsg = Some spi_w ->
  exists c2 et2 dst new,
    esp_prot_conntrack_lupdate htree G c1 (other_dir d) ackmsg = Some (0, c2) /\
    esp_tuples (tuple_of c2 d) !! k = Some et2 /\
    anchor_cache et2 = anchor_cache et /\
    active_anchors et2 = active_anchors et /\
    first_active_anchors et2 = first_active_anchors et /\
    hash_item_length et2 = anchor_hash_item_length a0 /\
    next_anchors et !! 0%nat = Some dst /\
    announced_anchor hl a0 = Some new /\
    next_anchors et2 !! 0%nat = Some (memcpy dst new (Z.to_nat hl)).
Proof.
  intros hl Hon Hs H1 Ha0 Hfind Hspi Htfm Hn Hwf Hnz Hq Hack Hinfo.
  (* the first UPDATE *)
  unfold esp_prot_conntrack_lupdate in H1.
  apply Z.eqb_neq in Hon. rewrite Hon, Hs in H1. cbn [negb] in H1.
  destruct (ntohl s <? lupdate_seq (tuple_of c d)); [discriminate H1|].
  set (c0 := set_lupdate_seq c d (ntohl s)) in *.
  destruct (esp_prot_conntrack_verify_branch htree G _ _ _ _) as [vres|];
    [|discriminate H1].
  cbn [mbind option_bind] in H1.
  destruct (negb (vres =? 0)); [discriminate H1|].
  destruct (esp_prot_conntrack_cache_anchor G c0 d s _ _)
    as [[cres c1']|] eqn:Hc; [|discriminate H1].
  cbn [mbind option_bind] in H1.
  destruct (cres =? 0) eqn:Hr; cbn [negb] in H1; [|discriminate H1].
  injection H1 as ->. apply Z.eqb_eq in Hr. subst cres.
  assert (Ht0 : esp_tuples (tuple_of c0 d) = esp_tuples (tuple_of c d)).
  { unfold c0, set_lupdate_seq. now rewrite tuple_of_set_tuple_eq. }
  unfold esp_prot_conntrack_cache_anchor in Hc. rewrite Ha0 in Hc.
  cbn [mbind option_bind] in Hc.
  unfold esp_prot_conntrack_resolve_transform in Hc.
  destruct (ESP_PROT_TFM_UNUSED <? transform a0) eqn:Hu; [|discriminate Hc].
  cbn [mbind option_bind] in Hc. fold hl in Hc.
  unfold esp_prot_conntrack_find_esp_tuple in Hc, Hfind.
  rewrite Ht0, Hfind in Hc.
  destruct (cache_anchor_loop hl _ _ 0 _ _) as [item|] eqn:Hl;
    [|discriminate Hc].
  cbn [mbind option_bind] in Hc. injection Hc as <-.
  apply cache_anchor_loop_lists in Hl as (Hlen & Hact & Hnxt & Hseq & Hhil).
  cbn in Hact, Hnxt, Hseq, Hhil. rewrite drop_0 in Hact, Hnxt.
  set (n := Z.to_nat (num_hchains et)) in *.
  assert (Hlen' : (n <= length (lu_anchors seqmsg))%nat) by (destruct Hlen; lia).
  clear Hlen.
  set (et_c := set_anchor_cache et (hip_ll_add_first (anchor_cache et) item)).
  (* the acknowledgement *)
  apply list_find_Some in Hfind as Hfind'. destruct Hfind' as (Hk & Hm & _).
  unfold esp_prot_conntrack_lupdate. rewrite Hon, Hq, Hack, Hinfo.
  cbn [negb]. unfold esp_prot_conntrack_update_anchor.
  cbn [mbind option_bind]. rewrite other_dir_involutive.
  assert (Hk0 : esp_tuples (tuple_of c0 d) !! k = Some et) by now rewrite Ht0.
  unfold find_esp_tuple in *.
  assert (Hspi' : list_find (fun t => spi t = ntohl spi_w)
                    (esp_tuples (tuple_of (update_esp_tuple c0 d k et_c) d))
                  = Some (k, et_c)).
  { unfold update_esp_tuple. rewrite tuple_of_set_tuple_eq. cbn. rewrite Ht0.
    eapply list_find_insert_same; [exact Hspi|].
    apply list_find_Some in Hspi as (_ & Hp & _). exact Hp. }
  rewrite Hspi'. cbn [anchor_cache et_c set_anchor_cache hip_ll_add_first].
  unfold hip_ll_add_first at 1. cbn [list_find].
  rewrite decide_True by exact Hseq.
  cbn [esp_prot_tfm et_c set_anchor_cache].
  unfold esp_prot_conntrack_resolve_transform. rewrite Htfm, Hu.
  cbn [mbind option_bind]. fold hl.
  destruct Hwf as (W1 & W2 & W3 & W4). fold n in W1, W2, W3, W4.
  set (et1 := set_next_item et_c (item_hash_item_length item)
                (next_anchors et_c) (next_root_length et_c) (next_roots et_c)).
  cbn [num_hchains set_next_item et_c set_anchor_cache]. fold n.
  assert (Hitems : forall j, (0 <= j < 0 + n)%nat ->
            exists cached src,
              item_active_anchors item !! j = Some (Some cached) /\
              item_next_anchors item !! j = Some (Some src)).
  { intros j Hj. rewrite Hact, Hnxt, !list_lookup_fmap, lookup_take_lt by lia.
    destruct (lookup_lt_is_Some_2 (lu_anchors seqmsg) j) as [a Ea]; [lia|].
    rewrite Ea. cbn [fmap option_fmap option_map].
    destruct (announced_anchor hl a) as [src|] eqn:Es;
      [eauto | exfalso; eapply (Hnz j a); [lia | exact Ea | exact Es]]. }
  destruct (update_anchor_loop_defined hl item n 0 et1) as [et2 Hloop];
    [cbn; lia..|exact Hitems|].
  fold et1. change (Z.to_nat (num_hchains et1)) with n.
  rewrite Hloop. cbn [mbind option_bind negb Z.eqb].
  apply update_anchor_loop_spec in Hloop
    as (L1 & L2 & L3 & L4 & _ & _ & _ & _ & _ & Lch).
  destruct (Lch 0%nat) as (first & cached & Ef & Ec & _ & Lm); [lia|].
  cbn in Ef. rewrite Hact, list_lookup_fmap, lookup_take_lt, Ha0 in Ec by lia.
  cbn in Ec. injection Ec as <-.
  rewrite Ef in Hm. cbn in Hm.
  destruct Lm as (src & dst & Esrc & Edst & Enew).
  { rewrite memcmp_take_r. exact Hm. }
  rewrite Hnxt, list_lookup_fmap, lookup_take_lt, Ha0 in Esrc by lia.
  cbn in Esrc. cbn in Edst.
  eexists _, _, dst, src. split; [reflexivity|].
  split. { eapply update_esp_tuple_lookup, update_esp_tuple_lookup, Hk0. }
  cbn. rewrite L1, L2, L4. cbn. rewrite Hhil.
  repeat split; try reflexivity; try assumption.
  - rewrite L3. reflexivity.
  - congruence.
Qed.

Lemma light_update_then_ack_installs_next_anchor_witness :
  exists c2 et2,
    esp_prot_conntrack_lupdate toy_htree_verify_branch toy_fw conn_lu1
      REPLY_DIR light_ack = Some (0, c2) /\
    esp_tuples (tuple_of c2 ORIGINAL_DIR) !! 0%nat = Some et2 /\
    anchor_cache et2 = [] /\
    next_anchors et2 !! 0%nat = Some anchor_new.
Proof.
  assert (Hon : hip_esp_protection toy_fw <> 0) by (vm_compute; discriminate).
  assert (Hn : 0 < num_hchains et_plain) by (vm_compute; reflexivity).
  assert (Hwf : chains_allocated et_plain) by (vm_compute; lia).
  assert (Hnz : forall i a, (i < Z.to_nat (num_hchains et_plain))%nat ->
            lu_anchors light_update !! i = Some a ->
            announced_anchor
              (hash_length
                 (esp_prot_conntrack_tfms toy_fw
                    (transform update_anchor_param))) a <> None).
  { intros [|i] a Hi Ha; [|vm_compute in Hi; lia].
    vm_compute in Ha. injection Ha as <-. vm_compute. discriminate. }
  destruct (light_update_then_ack_installs_next_anchor
              toy_htree_verify_branch toy_fw conn0 conn_lu1 ORIGINAL_DIR
              light_update light_ack 5 16777216 update_anchor_param 0%nat
              et_plain Hon eq_refl eq_refl eq_refl eq_refl eq_refl eq_refl
              Hn Hwf Hnz eq_refl eq_refl eq_refl)
    as (c2 & et2 & dst & new & H1 & H2 & H3 & _ & _ & _ & H7 & H8 & H9).
  exists c2, et2. split; [exact H1|]. split; [exact H2|].
  split; [exact H3|].
  assert (dst = [0; 0; 0; 0]) as -> by (cbv in H7; congruence).
  assert (new = anchor_new) as -> by (cbv in H8 |- *; congruence).
  exact H9.
Defined.

(** ** The tracked update id of light UPDATEs *)

Lemma cache_anchor_frame (G : fw_config) (c c' : connection) (d : direction)
  (update_id r : Z) (esp_anchors : list esp_prot_anchor)
  (esp_roots : list (option esp_prot_root)) :
  esp_prot_conntrack_cache_anchor G c d update_id esp_anchors esp_roots
    = Some (r, c') ->
  (r = 0 \/ r = -1) /\
  lupdate_seq (tuple_of c' d) = lupdate_seq (tuple_of c d) /\
  tuple_of c' (other_dir d) = tuple_of c (other_dir d).
Proof.
  unfold esp_prot_conntrack_cache_anchor. intros H.
  destruct (esp_anchors !! 0%nat) as [a0|]; [|discriminate H].
  cbn [mbind option_bind] in H.
  destruct (esp_prot_conntrack_resolve_transform G (transform a0)) as [tfm|];
    [|discriminate H].
  cbn [mbind option_bind] in H.
  destruct (esp_prot_conntrack_find_esp_tuple _ _ _) as [[k et]|].
  - destruct (cache_anchor_loop _ _ _ _ _ _) as [item|]; [|discriminate H].
    cbn [mbind option_bind] in H. injection H as <- <-.
    rewrite update_esp_tuple_lupdate_seq, update_esp_tuple_other. auto.
  - injection H as <- <-. auto.
Qed.

Lemma update_anchor_frame (G : fw_config) (c c' : connection) (d : direction)
  (peer_update_id r : Z) (esp_info : option Z) :
  esp_prot_conntrack_update_anchor G c d peer_update_id esp_info
    = Some (r, c') ->
  (r = 0 \/ r = -1) /\
  lupdate_seq (tuple_of c' (other_dir d))
  = lupdate_seq (tuple_of c (other_dir d)) /\
  tuple_of c' d = tuple_of c d.
Proof.
  unfold esp_prot_conntrack_update_anchor. intros H.
  destruct esp_info as [old_spi|]; [|discriminate H].
  cbn [mbind option_bind] in H.
  destruct (find_esp_tuple _ _) as [[k et]|]; [|injection H as <- <-; auto].
  destruct (list_find _ (anchor_cache et)) as [[idx item]|];
    [|injection H as <- <-; auto].
  destruct (esp_prot_conntrack_resolve_transform G _) as [tfm|];
    [|discriminate H].
  cbn [mbind option_bind] in H.
  destruct (update_anchor_loop _ _ _ _ _) as [et2|]; [|discriminate H].
  cbn [mbind option_bind] in H. injection H as <- <-.
  rewrite update_esp_tuple_lupdate_seq.
  split; [auto|]. split; [reflexivity|].
  destruct d; reflexivity.
Qed.

(** X2: [esp_prot_conntrack_lupdate] returns 0 or -1; the update id it
    tracks for the direction of the message never decreases and the one of
    the other direction is not touched.  A SEQ whose update id is not below
    the tracked one becomes the tracked id before the branch is verified:
    it stays the tracked id also when the UPDATE is then rejected. *)
Theorem lupdate_tracked_id_never_decreases
  (htree : option bytes -> Z -> bytes -> Z -> bytes -> Z -> Z -> bytes -> Z -> Z)
  (G : fw_config) (c c' : connection) (d : direction)
  (common : lupdate_params) (r : Z) :
  esp_prot_conntrack_lupdate htree G c d common = Some (r, c') ->
  (r = 0 \/ r = -1) /\
  lupdate_seq (tuple_of c d) <= lupdate_seq (tuple_of c' d) /\
  lupdate_seq (tuple_of c' (other_dir d))
  = lupdate_seq (tuple_of c (other_dir d)) /\
  (forall s, hip_esp_protection G <> 0 -> lu_seq common = Some s ->
     lupdate_seq (tuple_of c d) <= ntohl s ->
     lupdate_seq (tuple_of c' d) = ntohl s).
Proof.
  unfold esp_prot_conntrack_lupdate. intros H.
  destruct (hip_esp_protection G =? 0) eqn:Hon; cbn [negb] in H.
  { injection H as <- <-. apply Z.eqb_eq in Hon.
    repeat split; try lia; auto; try (intros; congruence). }
  destruct (lu_seq common) as [s|] eqn:Hs.
  - destruct (ntohl s <? lupdate_seq (tuple_of c d)) eqn:Hlt.
    { injection H as <- <-. apply Z.ltb_lt in Hlt.
      repeat split; try lia; auto; try (intros s' _ [= <-] Hle; lia). }
    apply Z.ltb_ge in Hlt.
    set (c1 := set_lupdate_seq c d (ntohl s)) in *.
    assert (E1 : lupdate_seq (tuple_of c1 d) = ntohl s).
    { unfold c1, set_lupdate_seq. now rewrite tuple_of_set_tuple_eq. }
    assert (E2 : tuple_of c1 (other_dir d) = tuple_of c (other_dir d)).
    { unfold c1, set_lupdate_seq. apply tuple_of_set_tuple_other. }
    assert (Hfin : forall c2, lupdate_seq (tuple_of c2 d) = ntohl s ->
              tuple_of c2 (other_dir d) = tuple_of c (other_dir d) ->
              lupdate_seq (tuple_of c d) <= lupdate_seq (tuple_of c2 d) /\
              lupdate_seq (tuple_of c2 (other_dir d))
              = lupdate_seq (tuple_of c (other_dir d)) /\
              (forall s0, hip_esp_protection G <> 0 -> Some s = Some s0 ->
                 lupdate_seq (tuple_of c d) <= ntohl s0 ->
                 lupdate_seq (tuple_of c2 d) = ntohl s0)).
    { intros c2 F1 F2. rewrite F1, F2. repeat split; try lia.
      intros s0 _ [= <-] _. reflexivity. }
    destruct (esp_prot_conntrack_verify_branch htree G _ _ _ _) as [vres|];
      [|discriminate H].
    cbn [mbind option_bind] in H.
    destruct (negb (vres =? 0)).
    { injection H as <- <-. split; [auto|]. now apply Hfin. }
    destruct (esp_prot_conntrack_cache_anchor G c1 d s _ _)
      as [[cres c2]|] eqn:Hc; [|discriminate H].
    cbn [mbind option_bind] in H.
    apply cache_anchor_frame in Hc as (_ & F1 & F2).
    assert (r = 0 \/ r = -1) as Hr
      by (destruct (negb (cres =? 0)); injection H as <- _; auto).
    assert (c' = c2) as -> by (destruct (negb (cres =? 0)); congruence).
    split; [exact Hr|]. apply Hfin; congruence.
  - destruct (lu_ack common) as [ack|].
    + destruct (esp_prot_conntrack_update_anchor G c d ack _)
        as [[ures c1]|] eqn:Hu; [|discriminate H].
      cbn [mbind option_bind] in H.
      apply update_anchor_frame in Hu as (_ & F1 & F2).
      assert (r = 0 \/ r = -1) as Hr
        by (destruct (negb (ures =? 0)); injection H as <- _; auto).
      assert (c' = c1) as -> by (destruct (negb (ures =? 0)); congruence).
      rewrite F1, F2. repeat split; try lia; auto; try (intros; congruence).
    + injection H as <- <-. repeat split; try lia; auto; try (intros; congruence).
Qed.

Lemma lupdate_tracked_id_never_decreases_witness :
  lupdate_seq (tuple_of conn0 ORIGINAL_DIR)
  <= lupdate_seq (tuple_of conn_lu1 ORIGINAL_DIR) /\
  lupdate_seq (tuple_of conn_lu1 ORIGINAL_DIR) = ntohl 5.
Proof.
  destruct (lupdate_tracked_id_never_decreases toy_htree_verify_branch toy_fw
              conn0 conn_lu1 ORIGINAL_DIR light_update 0 eq_refl)
    as (_ & H1 & _ & H2).
  split; [exact H1|]. apply H2; [vm_compute; discriminate | reflexivity |].
  vm_compute. discriminate.
Defined.

(** ** What the token verification changes *)

Lemma anchor_change_frame (et et' : esp_tuple) (h : nat) (trees : bool)
  (hl : Z) (token : bytes) :
  anchor_change et h trees hl token = Some et' ->
  spi et' = spi et /\ seq_no et' = seq_no et /\
  esp_prot_tfm et' = esp_prot_tfm et /\
  hash_item_length et' = hash_item_length et /\
  hash_tree_depth et' = hash_tree_depth et /\
  num_hchains et' = num_hchains et /\
  next_anchors et' = next_anchors et /\
  anchor_cache et' = anchor_cache et /\
  hash_buffer et' = hash_buffer et.
Proof.
  unfold anchor_change. intros H.
  repeat (match type of H with
          | (?x ≫= _) = _ => destruct x; [|discriminate H]
          end; cbn [mbind option_bind] in H).
  injection H as <-. cbn. repeat split.
Qed.

Lemma track_cumulative_length (G : fw_config)
  (items : list esp_cumulative_item) (count i : nat)
  (buf buf' : list esp_cumulative_item) :
  track_cumulative G items i count buf = Some buf' ->
  length buf' = length buf.
Proof.
  revert i buf. induction count as [|n IH]; intros i buf H.
  - cbn in H. congruence.
  - cbn [track_cumulative] in H.
    repeat (match type of H with
            | (?x ≫= _) = _ => destruct x; [|discriminate H]
            end; cbn [mbind option_bind] in H).
    match type of H with (if ?b then _ else _) = _ => destruct b end;
      [discriminate H|].
    apply IH in H. rewrite H.
    match goal with |- context [if ?b then _ else _] => destruct b end;
      [apply length_insert | reflexivity].
Qed.

(** X3: [esp_prot_conntrack_verify] returns 0 or -1, as its comment says,
    on every path; it never changes the SPI, the stored sequence number,
    the transform, the hash-item length, the tree depth, the number of hash
    chains, the next anchors or the anchor cache of the ESP tuple, and it
    changes the ring buffer of packet hashes only under a cumulative
    transform, keeping its size. *)
Theorem verify_returns_0_or_minus_1_and_keeps_the_update_state
  (hchain : (bytes -> bytes) -> Z -> bytes -> bytes -> bytes -> Z ->
            option bytes -> Z -> option bytes -> Z -> Z * bytes)
  (htree : (bytes -> bytes) -> Z -> Z -> bytes -> bytes -> option bytes ->
           Z -> option bytes -> Z -> bytes -> Z)
  (G : fw_config) (ctx : hip_fw_context) (et et' : esp_tuple) (r : Z) :
  esp_prot_conntrack_verify hchain htree G ctx et = Some (r, et') ->
  (r = 0 \/ r = -1) /\
  spi et' = spi et /\ seq_no et' = seq_no et /\
  esp_prot_tfm et' = esp_prot_tfm et /\
  hash_item_length et' = hash_item_length et /\
  hash_tree_depth et' = hash_tree_depth et /\
  num_hchains et' = num_hchains et /\
  next_anchors et' = next_anchors et /\
  anchor_cache et' = anchor_cache et /\
  length (hash_buffer et') = length (hash_buffer et) /\
  (is_cumulative (esp_prot_tfm et) = false ->
   hash_buffer et' = hash_buffer et).
Proof.
  unfold esp_prot_conntrack_verify. intros H.
  assert (Hid : (0 = 0 \/ 0 = -1) /\
    spi et = spi et /\ seq_no et = seq_no et /\
    esp_prot_tfm et = esp_prot_tfm et /\
    hash_item_length et = hash_item_length et /\
    hash_tree_depth et = hash_tree_depth et /\
    num_hchains et = num_hchains et /\
    next_anchors et = next_anchors et /\ anchor_cache et = anchor_cache et /\
    length (hash_buffer et) = length (hash_buffer et) /\
    (is_cumulative (esp_prot_tfm et) = false ->
     hash_buffer et = hash_buffer et)) by (repeat split; auto).
  destruct (negb (hip_esp_protection G =? 0));
    [|injection H as <- <-; exact Hid].
  destruct (ESP_PROT_TFM_UNUSED <? esp_prot_tfm et);
    [|injection H as <- <-; exact Hid].
  destruct (esp_prot_conntrack_resolve_transform G _) as [tfm|];
    [|discriminate H].
  cbn [mbind option_bind] in H.
  match type of H with
  | (?x ≫= _) = _ => destruct x as [h|]; [|discriminate H]
  end.
  cbn [mbind option_bind] in H.
  destruct (esp_prot_tfm et =? ESP_PROT_TFM_TREE).
  - destruct (chain_state et _) as [[[[[act nxt] aroot] nroot] nlen]|];
      [|discriminate H].
    cbn [mbind option_bind] in H.
    set (err := htree _ _ _ _ _ _ _ _ _ _) in H.
    destruct (err <? 0) eqn:Hneg.
    { injection H as <- <-. destruct Hid as (_ & Hid).
      split; [auto | exact Hid]. }
    destruct (0 <? err) eqn:Hpos.
    + destruct (anchor_change et _ _ _ _) as [et3|] eqn:Hac;
        [|discriminate H].
      cbn [mbind option_bind] in H. injection H as <- <-.
      apply anchor_change_frame in Hac
        as (F1 & F2 & F3 & F4 & F5 & F6 & F7 & F8 & F9).
      rewrite F1, F2, F3, F4, F5, F6, F7, F8, F9. repeat split; auto.
    + injection H as <- <-. assert (err = 0) as -> by lia. exact Hid.
  - set (cum := is_cumulative (esp_prot_tfm et)) in *.
    match type of H with
    | (?x ≫= _) = _ => destruct x as [[err et1]|] eqn:Hfirst;
                         [|discriminate H]
    end.
    cbn [mbind option_bind] in H.
    assert (F : spi et1 = spi et /\ seq_no et1 = seq_no et /\
      esp_prot_tfm et1 = esp_prot_tfm et /\
      hash_item_length et1 = hash_item_length et /\
      hash_tree_depth et1 = hash_tree_depth et /\
      num_hchains et1 = num_hchains et /\
      next_anchors et1 = next_anchors et /\
      anchor_cache et1 = anchor_cache et /\
      hash_buffer et1 = hash_buffer et).
    { destruct (in_verify_window G _ _).
      - destruct (chain_state et _) as [[[[[act nxt] aroot] nroot] nlen]|];
          [|discriminate Hfirst].
        cbn [mbind option_bind] in Hfirst.
        destruct (hchain _ _ _ _ _ _ _ _ _ _) as [e a'].
        injection Hfirst as <- <-. cbn. repeat split; auto.
      - destruct (cum && _).
        + destruct (c_rem _ _) as [idx|]; [|discriminate Hfirst].
          cbn [mbind option_bind] in Hfirst.
          destruct (idx <? 0); [discriminate Hfirst|].
          destruct (hash_buffer et !! _) as [ce|]; [|discriminate Hfirst].
          cbn [mbind option_bind] in Hfirst.
          destruct (cumulative_seq ce =? _);
            [destruct (negb _)|]; injection Hfirst as <- <-;
            repeat split; auto.
        + injection Hfirst as <- <-. repeat split; auto. }
    destruct F as (F1 & F2 & F3 & F4 & F5 & F6 & F7 & F8 & F9).
    destruct (err <? 0) eqn:Hneg.
    { injection H as <- <-. rewrite F1, F2, F3, F4, F5, F6, F7, F8, F9.
      repeat split; auto. }
    rewrite F3 in H. fold cum in H.
    match type of H with
    | (?x ≫= _) = _ => destruct x as [et2|] eqn:Hsecond; [|discriminate H]
    end.
    cbn [mbind option_bind] in H.
    assert (F' : spi et2 = spi et /\ seq_no et2 = seq_no et /\
      esp_prot_tfm et2 = esp_prot_tfm et /\
      hash_item_length et2 = hash_item_length et /\
      hash_tree_depth et2 = hash_tree_depth et /\
      num_hchains et2 = num_hchains et /\
      next_anchors et2 = next_anchors et /\
      anchor_cache et2 = anchor_cache et /\
      length (hash_buffer et2) = length (hash_buffer et) /\
      (cum = false -> hash_buffer et2 = hash_buffer et)).
    { destruct cum.
      - destruct (track_cumulative _ _ _ _ _) as [buf|] eqn:Htc;
          [|discriminate Hsecond].
        cbn [mbind option_bind] in Hsecond. injection Hsecond as <-.
        apply track_cumulative_length in Htc. cbn.
        rewrite Htc, F9. repeat split; auto. discriminate.
      - injection Hsecond as <-. rewrite F9. repeat split; auto. }
    destruct F' as (E1 & E2 & E3 & E4 & E5 & E6 & E7 & E8 & E9 & E10).
    destruct (0 <? err) eqn:Hpos.
    + destruct (anchor_change et2 _ _ _ _) as [et3|] eqn:Hac;
        [|discriminate H].
      cbn [mbind option_bind] in H. injection H as <- <-.
      apply anchor_change_frame in Hac
        as (A1 & A2 & A3 & A4 & A5 & A6 & A7 & A8 & A9).
      rewrite A1, A2, A3, A4, A5, A6, A7, A8, A9.
      repeat split; auto.
    + injection H as <- <-. assert (err = 0) as -> by lia.
      repeat split; auto.
Qed.

Lemma verify_returns_0_or_minus_1_and_keeps_the_update_state_witness :
  verify_ret (esp_prot_conntrack_verify toy_verify_hchain_element
                toy_verify_htree_element toy_fw ctx_next et_plain) = 0 /\
  seq_no (verify_tuple
            (esp_prot_conntrack_verify toy_verify_hchain_element
               toy_verify_htree_element toy_fw ctx_next et_plain)) = 7.
Proof.
  destruct (verify_returns_0_or_minus_1_and_keeps_the_update_state
              toy_verify_hchain_element toy_verify_htree_element toy_fw
              ctx_next et_plain
              (verify_tuple
                 (esp_prot_conntrack_verify toy_verify_hchain_element
                    toy_verify_htree_element toy_fw ctx_next et_plain))
              (verify_ret
                 (esp_prot_conntrack_verify toy_verify_hchain_element
                    toy_verify_htree_element toy_fw ctx_next et_plain))
              eq_refl) as (_ & _ & H & _).
  split; [reflexivity | exact H].
Defined.

(** X4: under a hash chain transform without cumulative authentication, a
    packet inside the verification window whose token verification reports
    an anchor change (a positive result) is accepted, and the ESP tuple
    rotates for the packet's hash chain: the verified token becomes the
    active anchor, the next anchor the first active anchor, the next root
    the active root, and the next root is cleared.  The other chains keep
    their anchors. *)
Theorem verify_anchor_change_rotates_the_next_anchor
  (hchain : (bytes -> bytes) -> Z -> bytes -> bytes -> bytes -> Z ->
            option bytes -> Z -> option bytes -> Z -> Z * bytes)
  (htree : (bytes -> bytes) -> Z -> Z -> bytes -> bytes -> option bytes ->
           Z -> option bytes -> Z -> bytes -> Z)
  (G : fw_config) (ctx : hip_fw_context) (et : esp_tuple)
  (act nxt fa act' : bytes) (aroot nroot : option bytes) (nlen err : Z) :
  let current_seq := ntohl (esp_seq (esp ctx)) in
  let W := seq_diff current_seq (seq_no et) in
  let h := Z.to_nat (Z.rem (wrap32 (current_seq - 1)) (num_hchains et)) in
  let tfm := esp_prot_conntrack_tfms G (esp_prot_tfm et) in
  let hl := Z.to_nat (hash_length tfm) in
  let token := esp_token (esp ctx) in
  hip_esp_protection G <> 0 ->
  ESP_PROT_TFM_UNUSED < esp_prot_tfm et ->
  esp_prot_tfm et <> ESP_PROT_TFM_TREE ->
  is_cumulative (esp_prot_tfm et) = false ->
  num_hchains et <> 0 ->
  0 < W <= wrap32 (window_size G) ->
  chain_state et h = Some (act, nxt, aroot, nroot, nlen) ->
  first_active_anchors et !! h = Some fa ->
  hchain (hash_function tfm) (hash_length tfm) act nxt token W aroot
    (active_root_length et) nroot nlen = (err, act') ->
  0 < err ->
  exists et',
    esp_prot_conntrack_verify hchain htree G ctx et = Some (0, et') /\
    active_anchors et' !! h = Some (memcpy act' token hl) /\
    first_active_anchors et' !! h = Some (memcpy fa nxt hl) /\
    active_roots et' !! h = Some nroot /\ active_root_length et' = nlen /\
    next_roots et' !! h = Some None /\ next_root_length et' !! h = Some 0 /\
    (forall j, j <> h ->
       active_anchors et' !! j = active_anchors et !! j /\
       first_active_anchors et' !! j = first_active_anchors et !! j).
Proof.
  intros current_seq W h tfm hl token Hon Hused Htree Hcum Hn Hw Hcs Hfa Ho Hpos.
  unfold esp_prot_conntrack_verify.
  apply Z.eqb_neq in Hon. rewrite Hon. cbn [negb].
  unfold esp_prot_conntrack_resolve_transform.
  apply Z.ltb_lt in Hused. rewrite Hused. cbn [mbind option_bind].
  apply Z.eqb_neq in Htree. rewrite Htree.
  fold current_seq. fold tfm. rewrite Hcum. cbn [andb].
  unfold c_rem. apply Z.eqb_neq in Hn. rewrite Hn.
  cbn [mbind option_bind]. fold h.
  apply in_verify_window_spec in Hw. fold W. unfold W in Hw. rewrite Hw.
  rewrite Hcs. cbn [mbind option_bind]. fold W. fold token. rewrite Ho.
  cbn [mbind option_bind].
  assert ((err <? 0) = false) as -> by lia.
  cbn [esp_prot_tfm set_active_item]. rewrite Hcum.
  cbn [mbind option_bind].
  assert ((0 <? err) = true) as -> by lia.
  apply chain_state_Some in Hcs as (Ha & Hnx & Har & Hnr & Hnl).
  pose proof (lookup_lt_Some _ _ _ Ha) as La.
  pose proof (lookup_lt_Some _ _ _ Hfa) as Lf.
  pose proof (lookup_lt_Some _ _ _ Har) as Lr.
  pose proof (lookup_lt_Some _ _ _ Hnr) as Lnr.
  pose proof (lookup_lt_Some _ _ _ Hnl) as Lnl.
  unfold anchor_change. cbn [active_anchors first_active_anchors next_anchors
    next_roots next_root_length active_roots set_active_item].
  rewrite list_lookup_insert_eq by exact La.
  rewrite Hfa, Hnx, Hnr, Hnl, Har. cbn [mbind option_bind].
  eexists. split; [reflexivity|]. cbn. fold hl.
  rewrite !list_lookup_insert_eq by (rewrite ?length_insert; assumption).
  repeat split; try reflexivity.
  - rewrite !list_lookup_insert_ne by congruence. reflexivity.
  - rewrite !list_lookup_insert_ne by congruence. reflexivity.
Qed.

Lemma verify_anchor_change_rotates_the_next_anchor_witness :
  exists et',
    esp_prot_conntrack_verify toy_verify_hchain_next toy_verify_htree_element
      toy_fw ctx_new_chain et_acked = Some (0, et') /\
    active_anchors et' !! 0%nat = Some [183; 0; 0; 0] /\
    first_active_anchors et' !! 0%nat = Some anchor_new.
Proof.
  assert (Hon : hip_esp_protection toy_fw <> 0) by (vm_compute; discriminate).
  assert (Hused : ESP_PROT_TFM_UNUSED < esp_prot_tfm et_acked)
    by (vm_compute; reflexivity).
  assert (Htree : esp_prot_tfm et_acked <> ESP_PROT_TFM_TREE)
    by (vm_compute; discriminate).
  assert (Hn : num_hchains et_acked <> 0) by (vm_compute; discriminate).
  assert (Hin : 0 < seq_diff (ntohl (esp_seq (esp ctx_new_chain)))
                      (seq_no et_acked) <= wrap32 (window_size toy_fw))
    by (vm_compute; split; [reflexivity | discriminate]).
  destruct (verify_anchor_change_rotates_the_next_anchor
              toy_verify_hchain_next toy_verify_htree_element toy_fw
              ctx_new_chain et_acked token_seen anchor_new anchor_old
              token_seen None None 0 1 Hon Hused Htree eq_refl Hn Hin
              eq_refl eq_refl eq_refl eq_refl)
    as (et' & H1 & H2 & H3 & _).
  exists et'. split; [exact H1|]. split; [exact H2 | exact H3].
Defined.

(** X5: under a cumulative transform, a packet outside the verification
    window is accepted exactly when its sequence number differs from the
    stored one and the ring buffer slot [seq mod ring_buffer_size] holds this
    sequence number together with the hash of the packet; on this path no
    token is verified and no anchor of the ESP tuple changes. *)
Theorem cumulative_authentication_accepts_only_cached_packets
  (hchain : (bytes -> bytes) -> Z -> bytes -> bytes -> bytes -> Z ->
            option bytes -> Z -> option bytes -> Z -> Z * bytes)
  (htree : (bytes -> bytes) -> Z -> Z -> bytes -> bytes -> option bytes ->
           Z -> option bytes -> Z -> bytes -> Z)
  (G : fw_config) (ctx : hip_fw_context) (et et' : esp_tuple) (r : Z) :
  let current_seq := ntohl (esp_seq (esp ctx)) in
  let tfm := esp_prot_conntrack_tfms G (esp_prot_tfm et) in
  let esp_len :=
    (if udp_encap_hdr ctx then data_len ctx - ip_hdr_len ctx - sizeof_udphdr
     else data_len ctx - ip_hdr_len ctx) in
  hip_esp_protection G <> 0 ->
  is_cumulative (esp_prot_tfm et) = true ->
  in_verify_window G current_seq (seq_no et) = false ->
  esp_prot_conntrack_verify hchain htree G ctx et = Some (r, et') ->
  (r = 0 <->
   0 < wrap32 (seq_no et - current_seq) /\
   exists slot,
     hash_buffer et !! Z.to_nat (Z.rem current_seq (ring_buffer_size G))
       = Some slot /\
     cumulative_seq slot = current_seq /\
     memcmp (packet_hash slot)
       (hash_function tfm (take (Z.to_nat esp_len) (esp_octets (esp ctx))))
       (Z.to_nat (hash_length tfm)) = 0) /\
  active_anchors et' = active_anchors et /\
  first_active_anchors et' = first_active_anchors et /\
  active_roots et' = active_roots et /\
  active_root_length et' = active_root_length et.
Proof.
  intros current_seq tfm esp_len Hon Hcum Hw H.
  assert (Htfm : esp_prot_tfm et = ESP_PROT_TFM_CUMULATIVE \/
                 esp_prot_tfm et = ESP_PROT_TFM_PARA_CUMUL).
  { unfold is_cumulative in Hcum. apply orb_true_iff in Hcum.
    destruct Hcum as [E|E]; apply Z.eqb_eq in E; auto. }
  unfold esp_prot_conntrack_verify in H.
  apply Z.eqb_neq in Hon. rewrite Hon in H. cbn [negb] in H.
  unfold esp_prot_conntrack_resolve_transform in H.
  assert ((ESP_PROT_TFM_UNUSED <? esp_prot_tfm et) = true) as Hu
    by (destruct Htfm as [-> | ->]; reflexivity).
  assert ((esp_prot_tfm et =? ESP_PROT_TFM_TREE) = false) as Ht
    by (destruct Htfm as [-> | ->]; reflexivity).
  rewrite Hu in H. cbn [mbind option_bind] in H.
  match type of H with
  | (?x ≫= _) = _ => destruct x as [h|]; [|discriminate H]
  end.
  cbn [mbind option_bind] in H. rewrite Ht in H.
  fold current_seq tfm in H. rewrite Hw, Hcum in H. cbn [andb] in H.
  fold esp_len in H.
  assert (Hfin : forall e et1,
    (if e <? 0 then Some (-1, et1)
     else
       (if is_cumulative (esp_prot_tfm et1)
        then track_cumulative G (esp_cumulative (esp ctx)) 0
               (Z.to_nat (num_linear_elements G + num_random_elements G))
               (hash_buffer et1) ≫= (fun buf => Some (set_hash_buffer et1 buf))
        else Some et1) ≫=
       (fun et2 =>
          if 0 <? e
          then anchor_change et2 (Z.to_nat h) false (hash_length tfm)
                 (esp_token (esp ctx)) ≫= (fun et3 => Some (0, et3))
          else Some (e, et2))) = Some (r, et') ->
    et1 = et -> (e = 0 \/ e = -1) ->
    r = e /\ active_anchors et' = active_anchors et /\
    first_active_anchors et' = first_active_anchors et /\
    active_roots et' = active_roots et /\
    active_root_length et' = active_root_length et).
  { intros e et1 Hr -> [-> | ->]; cbn in Hr.
    - rewrite Hcum in Hr.
      destruct (track_cumulative _ _ _ _ _) as [buf|]; [|discriminate Hr].
      cbn in Hr. injection Hr as <- <-. cbn. auto.
    - injection Hr as <- <-. auto. }
  destruct (0 <? wrap32 (seq_no et - current_seq)) eqn:Hd.
  - apply Z.ltb_lt in Hd.
    unfold c_rem in H.
    destruct (ring_buffer_size G =? 0); [discriminate H|].
    cbn [mbind option_bind] in H.
    set (idx := Z.rem current_seq (ring_buffer_size G)) in *.
    destruct (idx <? 0); [discriminate H|].
    destruct (hash_buffer et !! Z.to_nat idx) as [slot|] eqn:Hslot;
      [|discriminate H].
    cbn [mbind option_bind] in H.
    destruct (cumulative_seq slot =? current_seq) eqn:Hseq.
    + apply Z.eqb_eq in Hseq.
      destruct (memcmp (packet_hash slot) _ _ =? 0) eqn:Hm; cbn [negb] in H.
      * apply Z.eqb_eq in Hm.
        apply Hfin in H as (-> & F); auto.
        split; [|exact F]. split; [|reflexivity].
        intros _. split; [exact Hd|]. exists slot. auto.
      * apply Z.eqb_neq in Hm.
        apply Hfin in H as (-> & F); auto.
        split; [|exact F]. split; [discriminate|].
        intros (_ & slot' & E & _ & Hm'). congruence.
    + apply Z.eqb_neq in Hseq.
      apply Hfin in H as (-> & F); auto.
      split; [|exact F]. split; [discriminate|].
      intros (_ & slot' & E & Hs' & _). congruence.
  - apply Z.ltb_ge in Hd.
    apply Hfin in H as (-> & F); auto.
    split; [|exact F]. split; [discriminate|]. intros (Hd' & _). lia.
Qed.

Lemma cumulative_authentication_accepts_only_cached_packets_witness :
  exists slot,
    hash_buffer et_cumulative !! 3%nat = Some slot /\
    cumulative_seq slot = 3 /\
    active_anchors
      (verify_tuple
         (esp_prot_conntrack_verify toy_verify_hchain_element
            toy_verify_htree_element toy_fw ctx_reordered et_cumulative))
    = [token_seen].
Proof.
  assert (Hon : hip_esp_protection toy_fw <> 0) by (vm_compute; discriminate).
  destruct (cumulative_authentication_accepts_only_cached_packets
              toy_verify_hchain_element toy_verify_htree_element toy_fw
              ctx_reordered et_cumulative
              (verify_tuple
                 (esp_prot_conntrack_verify toy_verify_hchain_element
                    toy_verify_htree_element toy_fw ctx_reordered
                    et_cumulative))
              0 Hon eq_refl eq_refl eq_refl)
    as ([H _] & Ha & _).
  destruct (H eq_refl) as (_ & slot & Hs & Hq & _).
  exists slot. split; [exact Hs|]. split; [exact Hq | exact Ha].
Defined.

(** ** Sample statistics *)

Lemma wrap64_small (x : Z) : 0 <= x < 2 ^ 64 -> wrap64 x = x.
Proof. intros H. unfold wrap64. apply Z.mod_small. exact H. Qed.

Lemma wrap32_small (x : Z) : 0 <= x < 2 ^ 32 -> wrap32 x = x.
Proof. intros H. unfold wrap32. apply Z.mod_small. exact H. Qed.

Lemma wrap64_range (x : Z) : 0 <= wrap64 x < 2 ^ 64.
Proof. unfold wrap64. apply Z.mod_pos_bound. lia. Qed.

Lemma wrap64_add_lt (a b : Z) :
  0 <= a < 2 ^ 64 -> 0 <= b < 2 ^ 64 ->
  (a < wrap64 (a + b) <-> 0 < b /\ a + b < 2 ^ 64).
Proof.
  intros Ha Hb. unfold wrap64.
  destruct (Z_lt_ge_dec (a + b) (2 ^ 64)) as [Hlt|Hge].
  - rewrite Z.mod_small by lia. lia.
  - replace (a + b) with ((a + b - 2 ^ 64) + 1 * 2 ^ 64) by lia.
    rewrite Z.mod_add by lia. rewrite Z.mod_small by lia. lia.
Qed.

(** X6: for a data set and a sample in the range of their C types,
    [add_statistics_item] succeeds exactly when none of its three range
    checks trips: fewer than 2^32 - 1 items, a sample that is not 0 and
    whose square is not 0 modulo 2^64, and sums that stay below 2^64.  In
    every other case -- a sample of 0 among them -- it returns -1 and resets
    the item count and both sums, keeping minimum and maximum. *)
Theorem add_statistics_item_succeeds_iff_no_check_trips
  (sd : statistics_data) (v : Z) :
  statistics_in_range sd -> 0 <= v < 2 ^ 64 ->
  let ok :=
    num_items sd < 2 ^ 32 - 1 /\ 0 < v /\ added_values sd + v < 2 ^ 64 /\
    0 < wrap64 (v * v) /\
    added_squared_values sd + wrap64 (v * v) < 2 ^ 64 in
  (ok -> exists sd',
     add_statistics_item sd v = (0, sd') /\
     num_items sd' = num_items sd + 1 /\
     added_values sd' = added_values sd + v /\
     added_squared_values sd' = added_squared_values sd + wrap64 (v * v)) /\
  (~ ok -> add_statistics_item sd v = (-1, statistics_reset sd)).
Proof.
  intros (Hn & Ha & Hs & _ & _) Hv ok. unfold add_statistics_item.
  pose proof (wrap64_range (v * v)) as Hsq.
  pose proof (wrap64_add_lt (added_values sd) v Ha Hv) as C2.
  pose proof (wrap64_add_lt (added_squared_values sd) (wrap64 (v * v)) Hs Hsq)
    as C3.
  assert (C1 : num_items sd < wrap32 (num_items sd + 1)
               <-> num_items sd < 2 ^ 32 - 1).
  { unfold wrap32.
    destruct (Z.eq_dec (num_items sd) (2 ^ 32 - 1)) as [E|E].
    - rewrite E. replace (2 ^ 32 - 1 + 1) with (2 ^ 32) by lia.
      rewrite Z.mod_same by lia. lia.
    - rewrite Z.mod_small by lia. lia. }
  split.
  - intros (O1 & O2 & O3 & O4 & O5).
    assert ((num_items sd <? wrap32 (num_items sd + 1)) = true) as ->
      by (apply Z.ltb_lt, C1; exact O1).
    assert ((added_values sd <? wrap64 (added_values sd + v)) = true) as ->
      by (apply Z.ltb_lt, C2; auto).
    assert ((added_squared_values sd
             <? wrap64 (added_squared_values sd + wrap64 (v * v))) = true)
      as -> by (apply Z.ltb_lt, C3; auto).
    cbn [negb]. eexists. split; [reflexivity|]. cbn.
    rewrite wrap32_small, !wrap64_small by lia. auto.
  - intros Hnot.
    destruct (num_items sd <? wrap32 (num_items sd + 1)) eqn:E1;
      cbn [negb]; [|reflexivity].
    destruct (added_values sd <? wrap64 (added_values sd + v)) eqn:E2;
      cbn [negb]; [|reflexivity].
    destruct (added_squared_values sd
              <? wrap64 (added_squared_values sd + wrap64 (v * v))) eqn:E3;
      cbn [negb]; [|reflexivity].
    exfalso. apply Hnot. apply Z.ltb_lt in E1, E2, E3.
    apply C1 in E1. apply C2 in E2. apply C3 in E3. unfold ok. lia.
Qed.

Lemma add_statistics_item_succeeds_iff_no_check_trips_witness :
  add_statistics_item statistics_zero 0 = (-1, statistics_zero) /\
  exists sd', add_statistics_item statistics_zero 7 = (0, sd') /\
              added_squared_values sd' = 49.
Proof.
  assert (R : statistics_in_range statistics_zero) by (vm_compute; intuition discriminate).
  split.
  - apply (add_statistics_item_succeeds_iff_no_check_trips statistics_zero 0 R);
      [lia|]. lia.
  - destruct (add_statistics_item_succeeds_iff_no_check_trips
                statistics_zero 7 R) as [H _]; [lia|].
    destruct H as (sd' & H1 & _ & _ & H4); [vm_compute; intuition congruence|].
    exists sd'. split; [exact H1 | exact H4].
Defined.

Lemma sum_squares_cons (v : Z) (l : list Z) :
  sum_squares (v :: l) = v * v + sum_squares l.
Proof. reflexivity. Qed.

Lemma sum_list_cons (v : Z) (l : list Z) :
  sum_list (v :: l) = v + sum_list l.
Proof. reflexivity. Qed.

Lemma sum_squares_nonneg (l : list Z) : 0 <= sum_squares l.
Proof.
  induction l as [|v l IH]; [cbn; lia|]. rewrite sum_squares_cons. nia.
Qed.

Lemma sum_list_le_squares (l : list Z) :
  Forall (fun v => 0 < v) l -> 0 <= sum_list l <= sum_squares l.
Proof.
  induction 1 as [|v l Hv _ IH]; [cbn; lia|].
  rewrite sum_squares_cons, sum_list_cons. nia.
Qed.

Lemma add_statistics_item_ok (sd : statistics_data) (v : Z) :
  statistics_in_range sd -> 0 < v ->
  num_items sd + 1 < 2 ^ 32 -> added_values sd + v < 2 ^ 64 ->
  added_squared_values sd + v * v < 2 ^ 64 ->
  add_statistics_item sd v
  = (0, {| num_items := num_items sd + 1;
           added_values := added_values sd + v;
           added_squared_values := added_squared_values sd + v * v;
           min_value := if (v <? min_value sd) || (min_value sd =? 0)
                        then v else min_value sd;
           max_value := if max_value sd <? v then v else max_value sd |}).
Proof.
  intros (Hn & Ha & Hs & _ & _) Hv B1 B2 B3. unfold add_statistics_item.
  assert (Hvv : 0 < v * v) by nia.
  rewrite (wrap32_small (num_items sd + 1)) by lia.
  rewrite (wrap64_small (v * v)) by lia.
  rewrite (wrap64_small (added_values sd + v)) by lia.
  rewrite (wrap64_small (added_squared_values sd + v * v)) by lia.
  assert ((num_items sd <? num_items sd + 1) = true) as -> by lia.
  assert ((added_values sd <? added_values sd + v) = true) as -> by lia.
  assert ((added_squared_values sd <? added_squared_values sd + v * v) = true)
    as -> by lia.
  reflexivity.
Qed.

Lemma add_statistics_items_ok (l : list Z) (sd : statistics_data) (e : nat) :
  statistics_in_range sd -> Forall (fun v => 0 < v) l ->
  num_items sd + Z.of_nat (length l) < 2 ^ 32 ->
  added_values sd + sum_list l < 2 ^ 64 ->
  added_squared_values sd + sum_squares l < 2 ^ 64 ->
  foldl (fun acc v =>
           let '(r, sd') := add_statistics_item (snd acc) v in
           ((if r =? 0 then fst acc else S (fst acc)), sd'))
        (e, sd) l
  = (e, {| num_items := num_items sd + Z.of_nat (length l);
           added_values := added_values sd + sum_list l;
           added_squared_values := added_squared_values sd + sum_squares l;
           min_value :=
             foldl (fun m v => if (v <? m) || (m =? 0) then v else m)
               (min_value sd) l;
           max_value :=
             foldl (fun m v => if m <? v then v else m) (max_value sd) l |}).
Proof.
  intros Hr Hpos. revert sd Hr.
  induction Hpos as [|v l Hv Hpos IH]; intros sd Hr B1 B2 B3.
  - cbn. rewrite !Z.add_0_r. now destruct sd.
  - rewrite sum_squares_cons in B3. rewrite sum_list_cons in B2.
    rewrite sum_squares_cons, sum_list_cons.
    cbn [foldl length snd fst] in *.
    pose proof (sum_squares_nonneg l) as Hq.
    pose proof (sum_list_le_squares l Hpos) as Hsl.
    assert (Hvv : 0 < v * v) by nia.
    destruct Hr as (Hn & Ha & Hs & Hmin & Hmax).
    rewrite add_statistics_item_ok; [|repeat split; lia|lia..].
    cbn [Z.eqb]. rewrite IH.
    + cbn. f_equal. f_equal; lia.
    + unfold statistics_in_range. cbn.
      destruct ((v <? min_value sd) || (min_value sd =? 0));
        destruct (max_value sd <? v); repeat split; first [lia | nia].
    + cbn. lia.
    + cbn. lia.
    + cbn. lia.
Qed.

Lemma foldl_min_step (l : list Z) (m : Z) :
  0 < m -> Forall (fun v => 0 < v) l ->
  foldl (fun m v => if (v <? m) || (m =? 0) then v else m) m l
  = foldl Z.min m l.
Proof.
  intros Hm Hpos. revert m Hm.
  induction Hpos as [|v l Hv _ IH]; intros m Hm; [reflexivity|].
  cbn [foldl].
  assert ((if (v <? m) || (m =? 0) then v else m) = Z.min m v) as ->.
  { destruct (v <? m) eqn:E1; cbn [orb].
    - lia.
    - assert ((m =? 0) = false) as -> by lia. lia. }
  apply IH. lia.
Qed.

Lemma foldl_max_step (l : list Z) (m : Z) :
  foldl (fun m v => if m <? v then v else m) m l = foldl Z.max m l.
Proof.
  revert m. induction l as [|v l IH]; intros m; [reflexivity|].
  cbn [foldl].
  assert ((if m <? v then v else m) = Z.max m v) as ->
    by (destruct (m <? v) eqn:E; lia).
  apply IH.
Qed.

(** X7: fed with samples that are all positive, fewer than 2^32 of them and
    with a sum of squares below 2^64, a zeroed data set never makes
    [add_statistics_item] fail and ends up holding the number of samples,
    their sum, the sum of their squares, their minimum and their maximum. *)
Theorem statistics_of_positive_samples (l : list Z) :
  Forall (fun v => 0 < v) l ->
  Z.of_nat (length l) < 2 ^ 32 -> sum_squares l < 2 ^ 64 ->
  add_statistics_items statistics_zero l
  = (O, {| num_items := Z.of_nat (length l);
           added_values := sum_list l;
           added_squared_values := sum_squares l;
           min_value := min_list l;
           max_value := max_list l |}).
Proof.
  intros Hpos Hlen Hsq. unfold add_statistics_items.
  pose proof (sum_list_le_squares l Hpos) as Hsl.
  rewrite add_statistics_items_ok; [|vm_compute; intuition discriminate|
                                     exact Hpos|cbn; lia..].
  cbn [num_items added_values added_squared_values min_value max_value
       statistics_zero].
  rewrite foldl_max_step. unfold max_list, min_list.
  f_equal. f_equal.
  destruct Hpos as [|v l Hv Hpos]; [reflexivity|].
  cbn [foldl].
  assert ((v <? 0) || (0 =? 0) = true) as -> by (apply orb_true_r).
  now apply foldl_min_step.
Qed.

Lemma statistics_of_positive_samples_witness :
  add_statistics_items statistics_zero [3; 1; 2]
  = (O, {| num_items := 3; added_values := 6; added_squared_values := 14;
           min_value := 1; max_value := 3 |}).
Proof.
  apply (statistics_of_positive_samples [3; 1; 2]).
  - repeat (apply List.Forall_cons; [lia|]). apply List.Forall_nil.
  - vm_compute. reflexivity.
  - vm_compute. reflexivity.
Defined.

(** X8: for points in time whose microsecond parts are normalised
    (0 <= tv_usec < 1000000) and whose seconds are below 2^40 in magnitude,
    [calc_timeval_diff] returns the difference end - start in microseconds
    when the end is later than the start, and 0 otherwise. *)
Theorem calc_timeval_diff_is_the_clamped_difference (s e : timeval) :
  0 <= tv_usec s < 1000000 -> 0 <= tv_usec e < 1000000 ->
  - 2 ^ 40 < tv_sec s < 2 ^ 40 -> - 2 ^ 40 < tv_sec e < 2 ^ 40 ->
  calc_timeval_diff s e = Some (Z.max 0 (usecs e - usecs s)).
Proof.
  intros Us Ue Ss Se. unfold calc_timeval_diff, usecs.
  destruct ((tv_sec s <? tv_sec e)
            || (tv_sec e =? tv_sec s) && (tv_usec s <? tv_usec e)) eqn:Hlater.
  - assert (Hgt : usecs s < usecs e).
    { unfold usecs. apply orb_true_iff in Hlater as [H|H]; [lia|].
      apply andb_true_iff in H as [H1 H2]. lia. }
    unfold usecs in Hgt. unfold timersub.
    assert (in_int64 (tv_sec e - tv_sec s) && in_int64 (tv_usec e - tv_usec s)
            = true) as ->.
    { unfold in_int64. lia. }
    destruct (tv_usec e - tv_usec s <? 0) eqn:Hneg.
    + assert (in_int64 (tv_sec e - tv_sec s - 1) = true) as ->
        by (unfold in_int64; lia).
      cbn [mbind option_bind]. unfold timeval_to_uint64, STATS_IN_USECS.
      cbn [tv_sec tv_usec].
      assert (in_int64 ((tv_sec e - tv_sec s - 1) * 1000000) &&
              in_int64 ((tv_sec e - tv_sec s - 1) * 1000000
                        + (tv_usec e - tv_usec s + 1000000)) = true) as ->
        by (unfold in_int64; lia).
      rewrite wrap64_small by lia. f_equal. lia.
    + cbn [mbind option_bind]. unfold timeval_to_uint64, STATS_IN_USECS.
      cbn [tv_sec tv_usec].
      assert (in_int64 ((tv_sec e - tv_sec s) * 1000000) &&
              in_int64 ((tv_sec e - tv_sec s) * 1000000
                        + (tv_usec e - tv_usec s)) = true) as ->
        by (unfold in_int64; lia).
      rewrite wrap64_small by lia. f_equal. lia.
  - cbn [mbind option_bind].
    assert (Hz : timeval_to_uint64 {| tv_sec := 0; tv_usec := 0 |} = Some 0)
      by reflexivity.
    rewrite Hz. f_equal.
    apply orb_false_iff in Hlater as [H1 H2].
    apply Z.ltb_ge in H1.
    apply andb_false_iff in H2 as [H2|H2];
      [apply Z.eqb_neq in H2 | apply Z.ltb_ge in H2]; lia.
Qed.

Lemma calc_timeval_diff_is_the_clamped_difference_witness :
  calc_timeval_diff {| tv_sec := 10; tv_usec := 900000 |}
    {| tv_sec := 12; tv_usec := 100000 |} = Some 1200000.
Proof.
  apply (calc_timeval_diff_is_the_clamped_difference
           {| tv_sec := 10; tv_usec := 900000 |}
           {| tv_sec := 12; tv_usec := 100000 |}); cbn; lia.
Defined.

(** ** Diffie-Hellman group sizes *)

(** X9: for a table of at least 11 entries, [hip_get_dh_size] returns a
    size for every 8-bit group id other than the table's length: a positive
    size exactly for the nine supported groups 1 to 9 (every group of
    [HIP_DH_GROUP_LIST] among them), and 0 for the reserved id 0, for
    SECP 160R1 and for every id beyond the table.  For the id that equals
    the table's length the bounds check passes and the table is read one
    entry behind its end. *)
Theorem hip_get_dh_size_by_group (N : nat) (g : Z) :
  (11 <= N)%nat -> 0 <= g < 256 ->
  (g <> Z.of_nat N ->
   exists sz, Crypto.hip_get_dh_size N g = Some sz /\
              (0 < sz <-> 1 <= g <= 9) /\ (sz = 0 <-> ~ 1 <= g <= 9) /\
              (In g HIP_DH_GROUP_LIST -> 96 <= sz)) /\
  (g = Z.of_nat N -> Crypto.hip_get_dh_size N g = None).
Proof.
  intros HN Hg. unfold Crypto.hip_get_dh_size, Crypto.dhprime_len. split.
  - intros Hne.
    destruct (g =? 0) eqn:E0.
    { apply Z.eqb_eq in E0. subst g. exists 0. split; [reflexivity|].
      split; [lia|]. split; [intuition lia|]. cbv. intuition discriminate. }
    apply Z.eqb_neq in E0.
    destruct (Z.of_nat N <? g) eqn:E1.
    { apply Z.ltb_lt in E1. exists 0. split; [reflexivity|].
      split; [lia|]. split; [intuition lia|]. cbv. intuition lia. }
    apply Z.ltb_ge in E1.
    destruct (Z_lt_ge_dec g 11) as [Hs|Hl].
    + assert (Hcases : g = 1 \/ g = 2 \/ g = 3 \/ g = 4 \/ g = 5 \/ g = 6 \/
                       g = 7 \/ g = 8 \/ g = 9 \/ g = 10) by lia.
      rewrite lookup_take_lt by lia.
      rewrite lookup_app_l by (cbn; lia).
      destruct Hcases as [-> | [-> | [-> | [-> | [-> | [-> | [-> | [-> |
                          [-> | ->]]]]]]]]]; cbn;
        (eexists; split; [reflexivity|]);
        (split; [cbv; intuition (discriminate || lia)|]);
        (split; [cbv; intuition (discriminate || lia)|]);
        cbv; intuition (discriminate || lia).
    + rewrite lookup_take_lt by lia.
      rewrite lookup_app_r by (cbn; lia).
      rewrite lookup_replicate_2 by (cbn; lia). cbn.
      exists 0. split; [reflexivity|]. split; [lia|]. split; [intuition lia|].
      cbv. intuition lia.
  - intros ->.
    assert ((Z.of_nat N =? 0) = false) as -> by lia.
    assert ((Z.of_nat N <? Z.of_nat N) = false) as -> by lia.
    rewrite Nat2Z.id, lookup_take_ge by lia. reflexivity.
Qed.

Lemma hip_get_dh_size_by_group_witness :
  exists sz, Crypto.hip_get_dh_size 11 HIP_DH_OAKLEY_5 = Some sz /\ 96 <= sz.
Proof.
  destruct (hip_get_dh_size_by_group 11 HIP_DH_OAKLEY_5) as [H _];
    [lia | vm_compute; intuition discriminate |].
  destruct H as (sz & H1 & _ & _ & H2); [vm_compute; discriminate|].
  exists sz. split; [exact H1|]. apply H2. vm_compute. auto.
Defined.

(** ** Dropping control packets by state *)

(** X10: [packet_to_drop] returns 0 or 1, and 1 only for an R1 or R2 that
    is addressed to a HIT of this host: in the states R2-SENT and
    ESTABLISHED for every such packet, in I2-SENT only for an R1 when the
    shotgun mode is on and more than one address is in play, in no other
    state.  I1, I2, UPDATE, NOTIFY and CLOSE packets are never dropped
    here. *)
Theorem packet_to_drop_only_r1_r2 (E : hipd_env) (shotgun_on : bool)
  (addresses_num_items : Z) (peer_list : option Z)
  (entry : hip_hadb_state) (type : hip_hdr) (hitr : hip_hit_t) :
  let r := packet_to_drop E shotgun_on addresses_num_items peer_list entry
             type hitr in
  (r = 0 \/ r = 1) /\
  (r = 1 ->
   hip_hidb_hit_is_our E hitr = true /\ (type = HIP_R1 \/ type = HIP_R2) /\
   (state entry = HIP_STATE_R2_SENT \/ state entry = HIP_STATE_ESTABLISHED \/
    (state entry = HIP_STATE_I2_SENT /\ type = HIP_R1 /\ shotgun_on = true /\
     exists n, peer_list = Some n /\ (1 < n \/ 1 < addresses_num_items)))) /\
  (hip_hidb_hit_is_our E hitr = true ->
   state entry = HIP_STATE_R2_SENT \/ state entry = HIP_STATE_ESTABLISHED ->
   type = HIP_R1 \/ type = HIP_R2 -> r = 1).
Proof.
  unfold packet_to_drop.
  destruct (hip_hidb_hit_is_our E hitr); cbn [negb].
  2: { split; [auto|]. split; [discriminate|]. discriminate. }
  destruct (state entry) eqn:Hst.
  all: try (split; [auto|]; split; [discriminate|];
            intros _ [|]; discriminate).
  - (* I2-SENT *)
    destruct shotgun_on; cbn [andb].
    2: { split; [auto|]. split; [discriminate|]. intros _ [|]; discriminate. }
    destruct type; cbn [andb].
    all: try (split; [auto|]; split; [discriminate|];
              intros _ [|]; discriminate).
    destruct peer_list as [n|].
    2: { split; [auto|]. split; [discriminate|]. intros _ [|]; discriminate. }
    destruct ((1 <? n) || (1 <? addresses_num_items)) eqn:Hn.
    + split; [auto|]. split; [|intros _ [|]; discriminate].
      intros _. split; [reflexivity|]. split; [auto|]. right. right.
      repeat split. exists n. split; [reflexivity|].
      apply orb_true_iff in Hn. lia.
    + split; [auto|]. split; [discriminate|]. intros _ [|]; discriminate.
  - (* R2-SENT *)
    destruct type; cbn; (split; [auto|]); (split; [|]);
      try discriminate; try (intros _ _ [|]; discriminate); auto 6.
  - (* ESTABLISHED *)
    destruct type; cbn; (split; [auto|]); (split; [|]);
      try discriminate; try (intros _ _ [|]; discriminate); auto 6.
Qed.

Lemma packet_to_drop_only_r1_r2_witness :
  packet_to_drop toy_env false 0 None entry_established HIP_R1 hit_B = 1.
Proof.
  apply (packet_to_drop_only_r1_r2 toy_env false 0 None entry_established
           HIP_R1 hit_B);
    [reflexivity | right; reflexivity | left; reflexivity].
Defined.

(** ** Receiving an I1 *)

Lemma unicast_destination_checked
  (sel : bytes -> bytes -> Z * bytes) (E : hipd_env) (ctx : hip_packet_context) :
  unicast_destination (dst_addr ctx) = true ->
  hip_handle_i1 sel E ctx =
    match hadb_entry ctx with
    | Some entry =>
        if (match state entry with HIP_STATE_I1_SENT => true | _ => false end)
           && hip_hit_is_bigger (hit_peer entry) (hit_our entry)
        then (0, set_error ctx 1) else (0, ctx)
    | None => (0, ctx)
    end.
Proof.
  unfold unicast_destination, hip_handle_i1. intros U.
  destruct (IN6_IS_ADDR_V4MAPPED (dst_addr ctx)).
  - destruct (is_ipv4_broadcast (dst_addr ctx)); [discriminate U|reflexivity].
  - destruct (IN6_IS_ADDR_MULTICAST (dst_addr ctx)); [discriminate U|reflexivity].
Qed.

(** X11: [hip_handle_i1] returns 0 or -1.  It returns -1 only for an I1 sent
    to a broadcast or multicast address, when the sender HIT is a local one
    or no source address could be selected, and the context is then marked
    with error 1.  An I1 sent to a unicast address always gives 0 and leaves
    message, addresses and host association as they were; it marks a so far
    unmarked context exactly when the association is in state I1-SENT and
    the peer HIT is bigger than the local one. *)
Theorem hip_handle_i1_drops_by_hit_order
  (sel : bytes -> bytes -> Z * bytes) (E : hipd_env) (ctx : hip_packet_context) :
  let r := hip_handle_i1 sel E ctx in
  (r.1 = 0 \/ r.1 = -1) /\
  (r.1 = -1 ->
     error r.2 = 1 /\ unicast_destination (dst_addr ctx) = false /\
     (hip_hidb_hit_is_our E (hit_sender (input_msg ctx)) = true \/
      (sel (dst_addr ctx) (src_addr ctx)).1 <> 0)) /\
  (unicast_destination (dst_addr ctx) = true ->
     r.1 = 0 /\ input_msg r.2 = input_msg ctx /\ src_addr r.2 = src_addr ctx /\
     dst_addr r.2 = dst_addr ctx /\ hadb_entry r.2 = hadb_entry ctx /\
     (error ctx = 0 ->
        (error r.2 = 1 <->
         exists entry, hadb_entry ctx = Some entry /\
           state entry = HIP_STATE_I1_SENT /\
           hip_hit_is_bigger (hit_peer entry) (hit_our entry) = true) /\
        (error r.2 = 0 \/ error r.2 = 1))).
Proof.
  cbv zeta. split; [|split].
  - unfold hip_handle_i1, i1_broadcast_checks.
    repeat match goal with
           | |- context [if ?b then _ else _] => destruct b
           | |- context [let '(_, _) := ?p in _] => destruct p
           | |- context [match hadb_entry ?c with _ => _ end] =>
               destruct (hadb_entry c)
           end; cbn; auto.
  - destruct (unicast_destination (dst_addr ctx)) eqn:U.
    { rewrite (unicast_destination_checked sel E ctx U).
      destruct (hadb_entry ctx) as [entry|]; [|cbn; discriminate].
      destruct (_ && _); cbn; discriminate. }
    unfold hip_handle_i1, i1_broadcast_checks.
    unfold unicast_destination in U.
    destruct (sel (dst_addr ctx) (src_addr ctx)) as [r a] eqn:S.
    assert (B : forall c : hip_packet_context,
      (match hadb_entry c with
       | Some entry =>
           if (match state entry with HIP_STATE_I1_SENT => true | _ => false end)
              && hip_hit_is_bigger (hit_peer entry) (hit_our entry)
           then (0, set_error c 1) else (0, c)
       | None => (0, c)
       end).1 = -1 -> False).
    { intros c. destruct (hadb_entry c); [destruct (_ && _)|]; cbn; discriminate. }
    destruct (IN6_IS_ADDR_V4MAPPED (dst_addr ctx)).
    + destruct (is_ipv4_broadcast (dst_addr ctx)); [|discriminate U].
      destruct (hip_hidb_hit_is_our E (hit_sender (input_msg ctx))); cbn.
      { intros _. auto. }
      destruct (r =? 0) eqn:R; cbn.
      * intros H. destruct (B _ H).
      * intros _. apply Z.eqb_neq in R. auto.
    + destruct (IN6_IS_ADDR_MULTICAST (dst_addr ctx)); [|discriminate U].
      destruct (hip_hidb_hit_is_our E (hit_sender (input_msg ctx))); cbn.
      { intros _. auto. }
      destruct (r =? 0) eqn:R; cbn.
      * intros H. destruct (B _ H).
      * intros _. apply Z.eqb_neq in R. auto.
  - intros U. rewrite (unicast_destination_checked sel E ctx U).
    destruct (hadb_entry ctx) as [entry|] eqn:He.
    + destruct (_ && _) eqn:C; cbn; rewrite ?He; repeat split; auto.
      * intros _. exists entry. apply andb_true_iff in C as [C1 C2].
        repeat split; auto. destruct (state entry); try discriminate C1; auto.
      * intros Herr. rewrite H in Herr. discriminate Herr.
      * intros (e & [= <-] & S & Hb). rewrite S, Hb in C. discriminate C.
    + cbn. rewrite He. repeat split; auto.
      * intros Herr. rewrite H in Herr. discriminate Herr.
      * intros (e & [=] & _).
Qed.

(** X12: when two hosts have sent an I1 to each other (both associations in
    state I1-SENT, each with the other's HIT as peer HIT, the two HITs of
    sixteen octets and different) and each receives the other's I1 at a
    unicast address, exactly one of them marks the received I1 with error 1:
    the host whose own HIT is the smaller one.  Both calls return 0. *)
Theorem i1_collision_exactly_one_host_drops
  (selA selB : bytes -> bytes -> Z * bytes) (EA EB : hipd_env)
  (ctxA ctxB : hip_packet_context) (eA eB : hip_hadb_state) :
  unicast_destination (dst_addr ctxA) = true ->
  unicast_destination (dst_addr ctxB) = true ->
  hadb_entry ctxA = Some eA -> hadb_entry ctxB = Some eB ->
  state eA = HIP_STATE_I1_SENT -> state eB = HIP_STATE_I1_SENT ->
  hit_peer eA = hit_our eB -> hit_peer eB = hit_our eA ->
  length (hit_our eA) = HIT_LEN -> length (hit_our eB) = HIT_LEN ->
  hit_our eA <> hit_our eB ->
  error ctxA = 0 -> error ctxB = 0 ->
  let rA := hip_handle_i1 selA EA ctxA in
  let rB := hip_handle_i1 selB EB ctxB in
  rA.1 = 0 /\ rB.1 = 0 /\
  (hip_hit_is_bigger (hit_our eB) (hit_our eA) = true ->
   error rA.2 = 1 /\ error rB.2 = 0) /\
  (hip_hit_is_bigger (hit_our eA) (hit_our eB) = true ->
   error rA.2 = 0 /\ error rB.2 = 1) /\
  (error rA.2 = 1 /\ error rB.2 = 0 \/ error rA.2 = 0 /\ error rB.2 = 1).
Proof.
  intros UA UB HA HB SA SB PA PB LA LB Hne ErrA ErrB. cbv zeta.
  rewrite (unicast_destination_checked selA EA ctxA UA).
  rewrite (unicast_destination_checked selB EB ctxB UB).
  rewrite HA, HB, SA, SB, PA, PB. cbn [andb].
  destruct (hip_hit_is_bigger_total _ _ LA LB Hne) as [H|H];
    rewrite H; rewrite (hip_hit_is_bigger_asym _ _ H); cbn;
    rewrite ?ErrA, ?ErrB; repeat split; auto; try discriminate.
Qed.

Lemma i1_collision_exactly_one_host_drops_witness :
  let ctxA := ctx_i1 hit_A hit_B (replicate 16 1) (replicate 16 2) in
  let ctxB := ctx_i1 hit_B hit_A (replicate 16 2) (replicate 16 1) in
  error (hip_handle_i1 toy_select_source_address toy_env ctxA).2 = 0 /\
  error (hip_handle_i1 toy_select_source_address toy_env ctxB).2 = 1.
Proof.
  cbv zeta.
  assert (Hne : hit_A <> hit_B) by (vm_compute; congruence).
  pose proof (i1_collision_exactly_one_host_drops
            toy_select_source_address toy_select_source_address
            toy_env toy_env
            (ctx_i1 hit_A hit_B (replicate 16 1) (replicate 16 2))
            (ctx_i1 hit_B hit_A (replicate 16 2) (replicate 16 1))
            _ _ eq_refl eq_refl eq_refl eq_refl eq_refl eq_refl eq_refl
            eq_refl eq_refl eq_refl Hne eq_refl eq_refl) as H.
  apply H. reflexivity.
Defined.

(** ** Buffered retransmissions *)

Section RetransmissionFacts.

Variable hip_get_msg_type : hip_common -> hip_hdr.
Variable hip_classify_update_type : hip_common -> update_packet_type.
Variable buf_msg_type : bytes -> hip_hdr.
Variable buf_msg_total_len : bytes -> Z.
Variable buf_classify_update_type : bytes -> update_packet_type.

Lemma hip_clear_retransmission_buffered (r : hip_msg_retrans) :
  buffered buf_msg_total_len r -> retrans_count r <> 0 ->
  exists r', hip_clear_retransmission buf_msg_total_len r = Some r' /\
             retrans_count r' = 0.
Proof.
  intros [H0|(b & Hb & Hlen)] Hne; [contradiction|].
  unfold hip_clear_retransmission. rewrite Hb.
  apply Nat.leb_le in Hlen. rewrite Hlen. eauto.
Qed.

Lemma update_retransmission_slot_spec (ctx : hip_packet_context)
  (entry : hip_hadb_state) (r : hip_msg_retrans) :
  buffered buf_msg_total_len r ->
  exists r',
    update_retransmission_slot hip_get_msg_type hip_classify_update_type
      buf_msg_type buf_msg_total_len buf_classify_update_type ctx entry r
      = Some r' /\
    (r' = r \/ (retrans_count r <> 0 /\ retrans_count r' = 0)) /\
    (clears_all_retransmissions (hip_get_msg_type (input_msg ctx)) = true ->
     retrans_count r' = 0) /\
    (hip_get_msg_type (input_msg ctx) = HIP_I1 ->
     hip_hit_is_bigger (hit_our entry) (hit_peer entry) = false -> r' = r) /\
    (clears_all_retransmissions (hip_get_msg_type (input_msg ctx)) = false ->
     hip_get_msg_type (input_msg ctx) <> HIP_I1 ->
     hip_get_msg_type (input_msg ctx) <> HIP_UPDATE -> r' = r).
Proof.
  intros Hb. unfold update_retransmission_slot.
  destruct (retrans_count r =? 0) eqn:E0.
  { apply Z.eqb_eq in E0. exists r. repeat split; auto. }
  apply Z.eqb_neq in E0.
  destruct (hip_clear_retransmission_buffered r Hb E0) as (rc & Hc & Hc0).
  assert (Hbuf : exists b, retrans_buf r = Some b).
  { destruct Hb as [?|(b & ? & _)]; [contradiction|eauto]. }
  destruct Hbuf as (b & Hbuf).
  destruct (hip_get_msg_type (input_msg ctx)) eqn:T; cbn [clears_all_retransmissions].
  - rewrite Hbuf. cbn [mbind option_bind].
    destruct (hip_hit_is_bigger (hit_our entry) (hit_peer entry)) eqn:B.
    + destruct (match buf_msg_type b with HIP_I1 => true | _ => false end);
        cbn [andb].
      * exists rc. rewrite Hc. repeat split; auto; try discriminate; congruence.
      * exists r. repeat split; auto; try discriminate; congruence.
    + rewrite andb_false_r. exists r.
      repeat split; auto; try discriminate; congruence.
  - exists rc. rewrite Hc. repeat split; auto; discriminate.
  - exists rc. rewrite Hc. repeat split; auto; discriminate.
  - exists rc. rewrite Hc. repeat split; auto; discriminate.
  - unfold update_retrans_is_invalid. rewrite Hbuf.
    destruct (hip_classify_update_type (input_msg ctx));
      cbn [mbind option_bind];
      repeat match goal with
             | |- context [match buf_classify_update_type b with _ => _ end] =>
                 destruct (buf_classify_update_type b)
             end;
      first [ exists rc; rewrite Hc; repeat split; auto; try discriminate;
              congruence
            | exists r; repeat split; auto; try discriminate; congruence ].
  - exists r. repeat split; auto; discriminate.
  - exists rc. rewrite Hc. repeat split; auto; discriminate.
  - exists rc. rewrite Hc. repeat split; auto; discriminate.
  - exists r. repeat split; auto; discriminate.
Qed.

(** X13: on a queue of three slots, each unused or holding a buffered
    message, [hip_update_retransmissions] returns 0 and keeps three slots.
    Every slot is either left exactly as it was or was in use and has its
    count set to 0.  Without a host association nothing changes; after an
    I2, R1, R2, CLOSE or CLOSE_ACK every slot has count 0; after an I1 the
    queue is unchanged unless the local HIT is bigger than the peer HIT;
    after a NOTIFY or any other packet type the queue is unchanged. *)
Theorem hip_update_retransmissions_only_clears (ctx : hip_packet_context)
  (queue : list hip_msg_retrans) :
  length queue = HIP_RETRANSMIT_QUEUE_SIZE ->
  Forall (buffered buf_msg_total_len) queue ->
  exists queue',
    hip_update_retransmissions hip_get_msg_type hip_classify_update_type
      buf_msg_type buf_msg_total_len buf_classify_update_type ctx queue
      = Some (0, queue') /\
    length queue' = HIP_RETRANSMIT_QUEUE_SIZE /\
    (forall i r r', queue !! i = Some r -> queue' !! i = Some r' ->
       r' = r \/ (retrans_count r <> 0 /\ retrans_count r' = 0)) /\
    (hadb_entry ctx = None -> queue' = queue) /\
    (hadb_entry ctx <> None ->
     clears_all_retransmissions (hip_get_msg_type (input_msg ctx)) = true ->
     Forall (fun r => retrans_count r = 0) queue') /\
    (forall entry, hadb_entry ctx = Some entry ->
       hip_get_msg_type (input_msg ctx) = HIP_I1 ->
       hip_hit_is_bigger (hit_our entry) (hit_peer entry) = false ->
       queue' = queue) /\
    (clears_all_retransmissions (hip_get_msg_type (input_msg ctx)) = false ->
     hip_get_msg_type (input_msg ctx) <> HIP_I1 ->
     hip_get_msg_type (input_msg ctx) <> HIP_UPDATE -> queue' = queue).
Proof.
  intros Hlen Hall. unfold hip_update_retransmissions.
  destruct queue as [|a [|b [|c [|]]]]; try discriminate Hlen.
  destruct (hadb_entry ctx) as [entry|] eqn:He.
  2:{ exists [a; b; c]. repeat split; auto; try congruence.
      intros i r r' H1 H2. left. congruence. }
  apply Forall_cons_1 in Hall as [Ha Hall].
  apply Forall_cons_1 in Hall as [Hb Hall].
  apply Forall_cons_1 in Hall as [Hc _].
  destruct (update_retransmission_slot_spec ctx entry a Ha)
    as (a' & Ea & Ca & Aa & Ia & Oa).
  destruct (update_retransmission_slot_spec ctx entry b Hb)
    as (b' & Eb & Cb & Ab & Ib & Ob).
  destruct (update_retransmission_slot_spec ctx entry c Hc)
    as (c' & Ec & Cc & Ac & Ic & Oc).
  exists [a'; b'; c'].
  split.
  { cbn. rewrite Ea. cbn. rewrite Eb. cbn. rewrite Ec. reflexivity. }
  split; [reflexivity|].
  split.
  { intros [|[|[|i]]] r r' H1 H2; cbn in H1, H2; try discriminate H1;
      injection H1 as <-; injection H2 as <-; assumption. }
  split; [discriminate|].
  split.
  { intros _ T. repeat constructor; auto. }
  split.
  { intros e [= <-] T B. rewrite (Ia T B), (Ib T B), (Ic T B). reflexivity. }
  intros T1 T2 T3. rewrite (Oa T1 T2 T3), (Ob T1 T2 T3), (Oc T1 T2 T3).
  reflexivity.
Qed.

End RetransmissionFacts.

Lemma hip_update_retransmissions_only_clears_witness :
  exists queue',
    hip_update_retransmissions (fun _ => HIP_R2) (fun _ => OTHER_UPDATE_PACKET)
      (fun _ => HIP_I1) toy_buf_len (fun _ => OTHER_UPDATE_PACKET)
      (ctx_i1 hit_A hit_B [] []) toy_queue = Some (0, queue') /\
    Forall (fun r => retrans_count r = 0) queue'.
Proof.
  destruct (hip_update_retransmissions_only_clears
              (fun _ => HIP_R2) (fun _ => OTHER_UPDATE_PACKET)
              (fun _ => HIP_I1) toy_buf_len (fun _ => OTHER_UPDATE_PACKET)
              (ctx_i1 hit_A hit_B [] []) toy_queue)
    as (q & Hq & _ & _ & _ & Hclr & _).
  - reflexivity.
  - apply List.Forall_cons.
    { right. exists [1; 2; 3; 4]. split; [reflexivity|]. vm_compute. lia. }
    apply List.Forall_cons; [left; reflexivity|].
    apply List.Forall_cons; [|apply List.Forall_nil].
    right. exists [5; 6]. split; [reflexivity|]. vm_compute. lia.
  - exists q. split; [exact Hq|]. apply Hclr; [discriminate|reflexivity].
Defined.

(** ** What an accepted I2 has passed *)

Lemma check_i2_out_err_0 (err : Z) (ctx ctx' : hip_packet_context)
  (tr tr' : list hipd_event) :
  check_i2_out_err err ctx tr = Some (0, ctx', tr') -> err = 0 /\ ctx' = ctx.
Proof.
  unfold check_i2_out_err. intros [= -> <- _]. split; reflexivity.
Qed.

Lemma hip_check_i2_tail_authenticated (E : hipd_env)
  (ctx ctx' : hip_packet_context) (entry : hip_hadb_state)
  (tr tr' : list hipd_event) :
  init_peer_sets_peer_pub_only E ->
  hip_check_i2_tail E ctx entry tr = Some (0, ctx', tr') ->
  i2_authenticated E ctx ctx'.
Proof.
  intros Hinit. unfold hip_check_i2_tail, i2_authenticated. cbv zeta.
  set (loop := hip_hidb_hit_is_our E (hit_sender (input_msg ctx))
               && hip_hidb_hit_is_our E (hit_receiver (input_msg ctx))).
  set (entry1 := if loop then set_is_loopback entry 1 else entry).
  destruct (hip_verify_packet_hmac _ _ _) as [hres msg1] eqn:Hmac.
  intros H.
  destruct (hres =? 0) eqn:Hres; cbn [negb] in H; [|bad_ret H].
  apply Z.eqb_eq in Hres. subst hres.
  destruct (hip_get_param msg1 HIP_PARAM_HIP_TRANSFORM) as [[o []]|] eqn:Htfm;
    try bad_ret H.
  set (entry2 := set_hip_transform entry1 _) in H.
  destruct (hip_transform entry2 =? 0) eqn:Hsuite; [bad_ret H|].
  apply Z.eqb_neq in Hsuite.
  match type of H with
  | context [match ?h with inl _ => _ | inr _ => _ end] =>
      assert (Hnz : forall err, h = inl err -> err <> 0);
        [|assert (Hplain : forall raw,
                    h = inr raw ->
                    match hip_get_param msg1 HIP_PARAM_ENCRYPTED with
                    | Some (_, P_ENCRYPTED contents) =>
                      exists data iv crypto_len,
                        locate_encrypted_host_id (hip_transform entry2)
                          contents = inr (data, iv, crypto_len) /\
                        hip_crypto_encrypted E data iv (hip_transform entry2)
                          crypto_len
                          (if loop then hip_enc_out entry2
                           else hip_enc_in entry2) = Some raw /\
                        hip_tlv_eqb (raw_param_type E raw) HIP_PARAM_HOST_ID
                          = true
                    | _ =>
                      exists oh, hip_get_param msg1 HIP_PARAM_HOST_ID
                                 = Some (oh, P_HOST_ID raw)
                    end);
          [|destruct h as [err | raw] eqn:Hh]]
  end.
  { intros err Heq.
    destruct (hip_get_param msg1 HIP_PARAM_ENCRYPTED) as [[oe []]|];
      try (destruct (hip_get_param msg1 HIP_PARAM_HOST_ID) as [[oh []]|];
           first [discriminate Heq | injection Heq as <-; discriminate]).
    unfold locate_encrypted_host_id in Heq.
    repeat match type of Heq with
           | context [if ?b then _ else _] => destruct b
           | context [match ?x with Some _ => _ | None => _ end] => destruct x
           end;
      first [discriminate Heq | injection Heq as <-; cbv; discriminate]. }
  { intros raw Heq.
    destruct (hip_get_param msg1 HIP_PARAM_ENCRYPTED) as [[oe []]|];
      try (destruct (hip_get_param msg1 HIP_PARAM_HOST_ID) as [[oh []]|];
           try discriminate Heq; injection Heq as <-; eauto).
    destruct (locate_encrypted_host_id _ contents)
      as [err|[[data iv] crypto_len]]; [discriminate Heq|].
    destruct (hip_crypto_encrypted E _ _ _ _ _) as [plain|] eqn:Hdec;
      [|discriminate Heq].
    destruct (hip_tlv_eqb _ _) eqn:Hty; [|discriminate Heq].
    injection Heq as <-. exists data, iv, crypto_len.
    split; [reflexivity|]. split; [|exact Hty].
    rewrite <- Hdec. f_equal. destruct loop; reflexivity. }
  { apply check_i2_out_err_0 in H as [-> _]. destruct (Hnz 0 eq_refl eq_refl). }
  clear Hnz. specialize (Hplain raw eq_refl).
  destruct (hip_build_host_id_from_param E raw) as [host_id|] eqn:Hbuild;
    [|bad_ret H].
  destruct (Hinit entry2 host_id) as [p Hp].
  destruct (hip_init_peer E entry2 host_id) as [ires entry3] eqn:Hpeer.
  cbn [snd] in Hp.
  destruct (ires =? 0) eqn:Hires; cbn [negb] in H; [|bad_ret H].
  apply Z.eqb_eq in Hires. subst ires.
  destruct (verify E entry3 msg1 =? 0) eqn:Hv; cbn [negb] in H; [|bad_ret H].
  apply Z.eqb_eq in Hv.
  assert (Hkeys : hip_hmac_out entry3 = hip_hmac_out entry1 /\
                  hip_hmac_in entry3 = hip_hmac_in entry1).
  { rewrite Hp. unfold entry2. split; reflexivity. }
  destruct Hkeys as [Hko Hki].
  assert (Hmac3 :
    hip_verify_packet_hmac (hip_write_hmac E) (input_msg ctx)
      (if loop then hip_hmac_out entry3 else hip_hmac_in entry3)
    = (0, msg1)).
  { rewrite Hko, Hki. exact Hmac. }
  assert (Htfm3 : hip_transform entry3 = hip_transform entry2)
    by (rewrite Hp; reflexivity).
  assert (Hsig : exists o ids,
            hip_get_param msg1 HIP_PARAM_HIP_TRANSFORM
              = Some (o, P_HIP_TRANSFORM ids) /\
            hip_transform entry3 = hip_get_param_transform_suite_id E ids /\
            hip_transform entry3 <> 0).
  { exists o, suite_ids. rewrite Htfm3. repeat split; assumption. }
  assert (Hid : exists raw host_id e0,
            hip_build_host_id_from_param E raw = Some host_id /\
            hip_init_peer E e0 host_id = (0, entry3) /\
            match hip_get_param msg1 HIP_PARAM_ENCRYPTED with
            | Some (_, P_ENCRYPTED contents) =>
              exists data iv crypto_len,
                locate_encrypted_host_id (hip_transform entry3) contents
                  = inr (data, iv, crypto_len) /\
                hip_crypto_encrypted E data iv (hip_transform entry3)
                  crypto_len
                  (if loop then hip_enc_out entry3 else hip_enc_in entry3)
                  = Some raw /\
                hip_tlv_eqb (raw_param_type E raw) HIP_PARAM_HOST_ID = true
            | _ =>
              exists oh, hip_get_param msg1 HIP_PARAM_HOST_ID
                         = Some (oh, P_HOST_ID raw)
            end).
  { exists raw, host_id, entry2.
    split; [exact Hbuild|]. split; [exact Hpeer|].
    rewrite Htfm3.
    replace (hip_enc_out entry3) with (hip_enc_out entry2)
      by (rewrite Hp; reflexivity).
    replace (hip_enc_in entry3) with (hip_enc_in entry2)
      by (rewrite Hp; reflexivity).
    exact Hplain. }
  destruct (hip_get_param msg1 HIP_PARAM_R1_COUNTER) as [[o' []]|] eqn:Hcnt;
    apply check_i2_out_err_0 in H as [_ ->];
    cbn [input_msg hadb_entry src_addr dst_addr error set_hadb_entry
         set_input_msg];
    rewrite ?Hcnt;
    (split; [eexists; split; [reflexivity|exact Hmac3]|];
     split; [exists entry3; repeat split; try assumption; reflexivity|auto]).
Qed.

Lemma produce_keying_material_frame (E : hipd_env)
  (ctx ctx' : hip_packet_context) (I J : bytes) (r : Z)
  (ev : list hipd_event) :
  produce_keying_material E ctx I J = Some (r, ctx', ev) ->
  input_msg ctx' = input_msg ctx /\ src_addr ctx' = src_addr ctx /\
  dst_addr ctx' = dst_addr ctx /\ error ctx' = error ctx.
Proof.
  unfold produce_keying_material. intros H.
  repeat match type of H with
         | context [if ?b then _ else _] => destruct b
         | context [match ?x with Some _ => _ | None => _ end] => destruct x
         | context [match ?x with (_, _) => _ end] => destruct x
         | context [match ?x with P_ESP_INFO _ _ _ => _ | _ => _ end] =>
             destruct x
         end;
    try discriminate H; injection H as _ <- _; repeat split.
Qed.

Lemma i2_authenticated_frame (E : hipd_env) (ctx0 ctx ctx' : hip_packet_context) :
  input_msg ctx = input_msg ctx0 -> src_addr ctx = src_addr ctx0 ->
  dst_addr ctx = dst_addr ctx0 -> error ctx = error ctx0 ->
  i2_authenticated E ctx ctx' -> i2_authenticated E ctx0 ctx'.
Proof.
  unfold i2_authenticated. intros -> -> -> ->. exact id.
Qed.

Lemma hip_check_i2_mid_authenticated (E : hipd_env)
  (ctx ctx' : hip_packet_context) (v : Z) (skip : bool)
  (tr tr' : list hipd_event) :
  init_peer_sets_peer_pub_only E ->
  hip_check_i2_mid E ctx v skip tr = Some (0, ctx', tr') ->
  (exists off sK sI sJ version group,
     hip_get_param (input_msg ctx) HIP_PARAM_SOLUTION
       = Some (off, P_SOLUTION sK sI sJ) /\
     hip_verify_cookie E (src_addr ctx) (dst_addr ctx) (input_msg ctx)
       sK sI sJ version group = 0) /\
  i2_authenticated E ctx ctx'.
Proof.
  intros Hinit. unfold hip_check_i2_mid. intros H.
  destruct (hip_get_param (input_msg ctx) HIP_PARAM_SOLUTION)
    as [[o1 []]|]; try bad_ret H.
  destruct (hip_get_param (input_msg ctx) HIP_PARAM_DIFFIE_HELLMAN)
    as [[o2 []]|]; try bad_ret H.
  destruct (i2_dh_group_known (group_id pub_val)); cbn [negb] in H;
    [|bad_ret H].
  destruct (hip_get_dh_size E (group_id pub_val) =? ntohs (pub_len pub_val));
    cbn [negb] in H; [|bad_ret H].
  destruct (hip_verify_cookie E _ _ _ _ _ _ _ _ =? 0) eqn:Hc;
    cbn [negb] in H; [|bad_ret H].
  apply Z.eqb_eq in Hc. split; [eauto 8|].
  destruct skip.
  - destruct (hadb_entry ctx) as [entry|]; [|discriminate H].
    eapply hip_check_i2_tail_authenticated; [exact Hinit|exact H].
  - destruct (produce_keying_material E ctx _ _) as [[[kres ctx1] ev]|] eqn:Hk;
      [|discriminate H].
    destruct (kres =? 0); cbn [negb] in H; [|bad_ret H].
    destruct (hadb_entry ctx1) as [entry|]; [|discriminate H].
    apply produce_keying_material_frame in Hk as (F1 & F2 & F3 & F4).
    apply hip_check_i2_tail_authenticated in H; [|exact Hinit].
    eapply i2_authenticated_frame; eauto.
Qed.

(** X14: an I2 that [hip_check_i2] accepts (return value 0) is addressed to
    a HIT of this host and has sane controls; its SOLUTION parameter has
    passed [hip_verify_cookie] for the addresses of the packet; its HMAC has
    been verified under the HIP-HMAC key of the host association that the
    context holds afterwards (the outgoing key when sender and receiver HIT
    are both local, the incoming key otherwise); its signature has been
    verified by the [verify] function for that host association as it was
    before the birthday was taken from R1_COUNTER (when the message has
    one), with the HIP transform that [hip_get_param_transform_suite_id]
    selects from HIP_TRANSFORM, which is not 0, and with the peer's host
    identity that [hip_build_host_id_from_param] has built (from the
    contents of the ENCRYPTED parameter, which [hip_crypto_encrypted] has
    decrypted under the HIP encryption key of the association and which
    are a HOST_ID, when the message has one; from the HOST_ID parameter
    otherwise) and [hip_init_peer] has stored with return value 0; and the
    addresses and the error flag of the context are as they were.
    [hip_init_peer] is taken to store the peer's host identity only. *)
Theorem hip_check_i2_accepts_only_authenticated_i2 (E : hipd_env)
  (ctx ctx' : hip_packet_context) (tr : list hipd_event) :
  init_peer_sets_peer_pub_only E ->
  hip_check_i2 E ctx = Some (0, ctx', tr) ->
  let msg := input_msg ctx in
  hip_hidb_hit_is_our E (hit_receiver msg) = true /\
  hip_controls_sane E (ntohs (control msg)) HIP_PACKET_CTRL_ANON = true /\
  (exists off sK sI sJ version group,
     hip_get_param msg HIP_PARAM_SOLUTION = Some (off, P_SOLUTION sK sI sJ) /\
     hip_verify_cookie E (src_addr ctx) (dst_addr ctx) msg
       sK sI sJ version group = 0) /\
  (exists entry',
     hadb_entry ctx' = Some entry' /\
     hip_verify_packet_hmac (hip_write_hmac E) msg
       (if hip_hidb_hit_is_our E (hit_sender msg)
           && hip_hidb_hit_is_our E (hit_receiver msg)
        then hip_hmac_out entry' else hip_hmac_in entry')
     = (0, input_msg ctx')) /\
  (exists entry,
     verify E entry (input_msg ctx') = 0 /\
     (exists o ids,
        hip_get_param (input_msg ctx') HIP_PARAM_HIP_TRANSFORM
          = Some (o, P_HIP_TRANSFORM ids) /\
        hip_transform entry = hip_get_param_transform_suite_id E ids /\
        hip_transform entry <> 0) /\
     (exists raw host_id e0,
        hip_build_host_id_from_param E raw = Some host_id /\
        hip_init_peer E e0 host_id = (0, entry) /\
        match hip_get_param (input_msg ctx') HIP_PARAM_ENCRYPTED with
        | Some (_, P_ENCRYPTED contents) =>
          exists data iv crypto_len,
            locate_encrypted_host_id (hip_transform entry) contents
              = inr (data, iv, crypto_len) /\
            hip_crypto_encrypted E data iv (hip_transform entry) crypto_len
              (if hip_hidb_hit_is_our E (hit_sender msg)
                  && hip_hidb_hit_is_our E (hit_receiver msg)
               then hip_enc_out entry else hip_enc_in entry)
              = Some raw /\
            hip_tlv_eqb (raw_param_type E raw) HIP_PARAM_HOST_ID = true
        | _ =>
          exists oh, hip_get_param (input_msg ctx') HIP_PARAM_HOST_ID
                     = Some (oh, P_HOST_ID raw)
        end) /\
     hadb_entry ctx'
     = Some match hip_get_param (input_msg ctx') HIP_PARAM_R1_COUNTER with
            | Some (_, P_R1_COUNTER generation) => set_birthday entry generation
            | _ => entry
            end) /\
  src_addr ctx' = src_addr ctx /\ dst_addr ctx' = dst_addr ctx /\
  error ctx' = error ctx.
Proof.
  intros Hinit. unfold hip_check_i2. intros H. cbv zeta.
  destruct (hip_hidb_hit_is_our E (hit_receiver (input_msg ctx))) eqn:Hour;
    cbn [negb] in H; [|bad_ret H].
  destruct (hip_controls_sane E _ _) eqn:Hsane; cbn [negb] in H; [|bad_ret H].
  split; [reflexivity|]. split; [reflexivity|].
  assert (Hcreate : forall c0 v tr0,
    input_msg c0 = input_msg ctx -> src_addr c0 = src_addr ctx ->
    dst_addr c0 = dst_addr ctx -> error c0 = error ctx ->
    hip_check_i2_create E c0 v tr0 = Some (0, ctx', tr) ->
    (exists off sK sI sJ version group,
       hip_get_param (input_msg ctx) HIP_PARAM_SOLUTION
         = Some (off, P_SOLUTION sK sI sJ) /\
       hip_verify_cookie E (src_addr ctx) (dst_addr ctx) (input_msg ctx)
         sK sI sJ version group = 0) /\
    i2_authenticated E ctx ctx').
  { intros c0 v tr0 F1 F2 F3 F4 Hc. unfold hip_check_i2_create in Hc.
    destruct (hip_hadb_create_state E); [|bad_ret Hc].
    apply hip_check_i2_mid_authenticated in Hc as [Hcookie Hauth];
      [|exact Hinit].
    cbn in Hcookie. rewrite F1, F2, F3 in Hcookie. split; [exact Hcookie|].
    eapply i2_authenticated_frame; [| | | |exact Hauth]; cbn; auto. }
  assert (Hgoal :
    (exists off sK sI sJ version group,
       hip_get_param (input_msg ctx) HIP_PARAM_SOLUTION
         = Some (off, P_SOLUTION sK sI sJ) /\
       hip_verify_cookie E (src_addr ctx) (dst_addr ctx) (input_msg ctx)
         sK sI sJ version group = 0) /\
    i2_authenticated E ctx ctx').
  { destruct (match hadb_entry ctx with
              | Some _ => default false (i2_is_retransmission ctx)
              | None => false
              end).
    - now apply hip_check_i2_mid_authenticated in H.
    - destruct (hadb_entry ctx) as [old|].
      + destruct (hip_del_peer_info_entry E old =? 0); cbn [negb] in H;
          [|bad_ret H].
        eapply Hcreate; [| | | |exact H]; reflexivity.
      + eapply Hcreate; [| | | |exact H]; reflexivity. }
  destruct Hgoal as [Hcookie Hauth]. split; [exact Hcookie|].
  unfold i2_authenticated in Hauth. cbv zeta in Hauth.
  rewrite Hour in Hauth. exact Hauth.
Qed.

Lemma hip_check_i2_accepts_only_authenticated_i2_witness :
  let ctx := ctx_i2 msg_i2_ok (Some entry_after_i2) in
  let ctx' := run_ctx (hip_check_i2 toy_env ctx) ctx in
  hip_hidb_hit_is_our toy_env (hit_receiver (input_msg ctx)) = true /\
  (exists entry',
     hadb_entry ctx' = Some entry' /\
     hip_verify_packet_hmac (hip_write_hmac toy_env) (input_msg ctx)
       (if hip_hidb_hit_is_our toy_env (hit_sender (input_msg ctx))
           && hip_hidb_hit_is_our toy_env (hit_receiver (input_msg ctx))
        then hip_hmac_out entry' else hip_hmac_in entry')
     = (0, input_msg ctx')) /\
  (exists entry,
     verify toy_env entry (input_msg ctx') = 0 /\
     hip_transform entry <> 0 /\
     hadb_entry ctx'
     = Some match hip_get_param (input_msg ctx') HIP_PARAM_R1_COUNTER with
            | Some (_, P_R1_COUNTER generation) => set_birthday entry generation
            | _ => entry
            end).
Proof.
  cbv zeta.
  pose proof (hip_check_i2_accepts_only_authenticated_i2 toy_env
                (ctx_i2 msg_i2_ok (Some entry_after_i2))
                (run_ctx (hip_check_i2 toy_env
                            (ctx_i2 msg_i2_ok (Some entry_after_i2)))
                   (ctx_i2 msg_i2_ok (Some entry_after_i2)))
                (run_events (hip_check_i2 toy_env
                               (ctx_i2 msg_i2_ok (Some entry_after_i2)))))
    as H.
  cbv zeta in H.
  destruct H as (H1 & _ & _ & H4 & H5 & _).
  - intros e h. exists (Some h). reflexivity.
  - vm_compute. reflexivity.
  - split; [exact H1|]. split; [exact H4|].
    destruct H5 as (e & Hv & (o & ids & _ & _ & Hnz) & _ & He).
    exists e. split; [exact Hv|]. split; [exact Hnz|exact He].
Defined.

(** ** What an accepted R2 has passed *)

(** X15: an R2 that [hip_check_r2] accepts (return value 0) is addressed to
    a HIT of this host, has sane controls and belongs to a host association;
    the pseudo message built from it and the peer's host identity carries
    the HMAC2 of the packet under the incoming HIP-HMAC key (the outgoing
    one for a loopback association), its signature is verified, and the
    context is left as it was.  A rejected R2 gives -1 or -EINVAL; the error
    flag of the context is set to that value, except when the packet is
    rejected for its receiver HIT or its controls: then the context is left
    unmarked. *)
Theorem hip_check_r2_accepts_only_authenticated_r2
  (pseudo_hmac2 : hip_common -> option bytes -> Z * hip_common)
  (E : hipd_env) (ctx : hip_packet_context) :
  let msg := input_msg ctx in
  let r := hip_check_r2 pseudo_hmac2 E ctx in
  (r.1 = 0 ->
   r.2 = ctx /\
   hip_hidb_hit_is_our E (hit_receiver msg) = true /\
   hip_controls_sane E (ntohs (control msg)) 0 = true /\
   exists entry msg_copy off hmac,
     hadb_entry ctx = Some entry /\
     pseudo_hmac2 msg (peer_pub entry) = (0, msg_copy) /\
     hip_get_param msg HIP_PARAM_HMAC2 = Some (off, hmac) /\
     verify_hmac (hip_write_hmac E) msg_copy (hip_get_msg_total_len msg_copy)
       (hmac_data_of hmac)
       (if is_loopback entry =? 0 then hip_hmac_in entry
        else hip_hmac_out entry)
       HIP_DIGEST_SHA1_HMAC = 0 /\
     verify E entry msg = 0) /\
  (r.1 <> 0 ->
   (r.1 = -1 \/ r.1 = - EINVAL) /\
   (r.2 = set_error ctx r.1 \/
    r.2 = ctx /\ r.1 = -1 /\
    (hip_hidb_hit_is_our E (hit_receiver msg) = false \/
     hip_controls_sane E (ntohs (control msg)) 0 = false))).
Proof.
  cbv zeta. unfold hip_check_r2.
  destruct (hip_hidb_hit_is_our E (hit_receiver (input_msg ctx))) eqn:Hour;
    cbn [negb].
  2:{ cbn. split; [discriminate|]. intros _. auto 6. }
  destruct (hip_controls_sane E _ 0) eqn:Hsane; cbn [negb].
  2:{ cbn. split; [discriminate|]. intros _. auto 6. }
  destruct (hadb_entry ctx) as [entry|] eqn:He.
  2:{ cbn. split; [discriminate|]. intros _. auto. }
  unfold verify_packet_hmac2.
  destruct (pseudo_hmac2 (input_msg ctx) (peer_pub entry)) as [perr copy]
    eqn:Hp.
  assert (Hkey : (if negb (is_loopback entry =? 0) then hip_hmac_out entry
                  else hip_hmac_in entry)
                 = (if is_loopback entry =? 0 then hip_hmac_in entry
                    else hip_hmac_out entry)).
  { destruct (is_loopback entry =? 0); reflexivity. }
  rewrite Hkey. clear Hkey.
  destruct (perr =? 0) eqn:Hperr; cbn [negb].
  2:{ cbn. split; [discriminate|]. intros _. auto. }
  apply Z.eqb_eq in Hperr. subst perr.
  destruct (hip_get_param (input_msg ctx) HIP_PARAM_HMAC2) as [[off hmac]|]
    eqn:Hh.
  2:{ cbn. split; [discriminate|]. intros _. auto. }
  destruct (verify_hmac _ _ _ _ _ _ =? 0) eqn:Hv; cbn [negb].
  2:{ cbn. split; [discriminate|]. intros _. auto. }
  apply Z.eqb_eq in Hv. cbn [Z.eqb negb].
  destruct (verify E entry (input_msg ctx) =? 0) eqn:Hs; cbn [negb].
  2:{ cbn. split; [discriminate|]. intros _. auto. }
  apply Z.eqb_eq in Hs. cbn. split; [|intros []; reflexivity].
  intros _. repeat split. exists entry, copy, off, hmac. repeat split; auto.
Qed.

Lemma hip_check_r2_accepts_only_authenticated_r2_witness :
  (hip_check_r2 toy_pseudo_hmac2 toy_env ctx_r2).2 = ctx_r2 /\
  hip_hidb_hit_is_our toy_env (hit_receiver (input_msg ctx_r2)) = true.
Proof.
  pose proof (hip_check_r2_accepts_only_authenticated_r2 toy_pseudo_hmac2
                toy_env ctx_r2) as H.
  cbv zeta in H. destruct H as [H _].
  destruct H as (H1 & H2 & _).
  - vm_compute. reflexivity.
  - split; [exact H1|exact H2].
Defined.

(** ** Userspace ESP: what is encrypted can be decrypted *)

Lemma buf_read_agree (pkt o : bytes) (N off len : nat) :
  take N pkt = take N o -> (N <= length pkt)%nat -> (off + len <= N)%nat ->
  buf_read pkt off len = Some (take len (drop off o)).
Proof.
  intros Heq Hlen Hle. unfold buf_read.
  assert (Hb : (off + len <=? length pkt)%nat = true) by (apply Nat.leb_le; lia).
  rewrite Hb. f_equal.
  rewrite !take_drop_commute.
  replace (take (off + len) pkt) with (take (off + len) (take N pkt))
    by (rewrite take_take; f_equal; lia).
  rewrite Heq, take_take. do 2 f_equal. lia.
Qed.

Lemma take_drop_app3 {A} (a b c : list A) (n m : nat) :
  n = length a -> m = length b -> take m (drop n (a ++ b ++ c)) = b.
Proof.
  intros -> ->. rewrite drop_app_length. apply take_app_length.
Qed.

(** X16: for the suites AES-CBC and 3DES-CBC with HMAC-SHA1, a packet that
    [payload_encrypt] has produced is accepted by [payload_decrypt] under
    the same SA, which gives back the payload, its length and the next
    header value.  The cipher is taken to decrypt what it encrypts and to
    keep the length, the HMAC to deliver at least twelve octets; the
    receiver is handed the octets counted by the packet length (ESP header
    and token, IV, ciphertext and twelve octets of ICV). *)
Theorem payload_decrypt_inverts_payload_encrypt
  (data_offset : hip_sa_entry -> Z) (key_length : esp_ealg -> Z)
  (cbc : cbc_cipher -> bool -> hip_crypto_key -> bytes -> bytes -> bytes)
  (hmac : EVP_MD -> hip_crypto_key -> Z -> bytes -> bytes)
  (in_ : bytes) (in_type in_len : Z) (out : bytes)
  (entry : hip_sa_entry) (rnd : bytes)
  (in' out' : bytes) (n : Z) (pkt dout : bytes) (t0 l0 : Z) :
  ealg entry = HIP_ESP_AES_SHA1 \/ ealg entry = HIP_ESP_3DES_SHA1 ->
  (forall c k iv x, length (cbc c true k iv x) = length x) ->
  (forall c k iv x, cbc c false k iv (cbc c true k iv x) = x) ->
  (forall k kl x, (12 <= length (hmac EVP_sha1 k kl x))%nat) ->
  0 <= data_offset entry -> 0 <= in_len ->
  data_offset entry + in_len + 48 < 2 ^ 16 ->
  (16 <= length rnd)%nat ->
  payload_encrypt data_offset key_length cbc hmac in_ in_type in_len out 0
    entry rnd = Some (0, in', out', n) ->
  let len := data_offset entry + n in
  (Z.to_nat len <= length pkt)%nat ->
  take (Z.to_nat len) pkt = take (Z.to_nat len) out' ->
  (Z.to_nat in_len + 18 <= length dout)%nat ->
  exists dout',
    payload_decrypt data_offset key_length cbc hmac pkt len dout t0 l0 entry
      = Some (0, dout', in_type, in_len) /\
    take (Z.to_nat in_len) dout' = take (Z.to_nat in_len) in_.
Proof.
  intros Hsuite Hclen Hcinv Hdig Hd0 Hl0 Hsmall Hrnd Hrun len Hpl Hpkt Hdout.
  assert (Hiv : exists iv_len c ekey,
             esp_iv_len entry = inr iv_len /\ (iv_len = 8 \/ iv_len = 16) /\
             esp_cipher (ealg entry) = Some c /\
             enc_key entry = Some ekey /\
             esp_auth_md (ealg entry) = Some EVP_sha1).
  { unfold payload_encrypt in Hrun. unfold esp_iv_len, esp_cipher, esp_auth_md in *.
    destruct Hsuite as [Hs|Hs]; rewrite Hs in *;
      destruct (enc_key entry) as [ekey|]; try discriminate Hrun;
      eauto 10. }
  destruct Hiv as (iv_len & c & ekey & Hiv & Hivv & Hc & Hek & Hmd).
  pose proof (esp_iv_len_values entry iv_len Hiv) as Hvals.
  destruct (esp_pad_len_spec iv_len in_len Hvals) as [Hpad _].
  assert (Hpos : (0 <? iv_len) = true) by (apply Z.ltb_lt; lia).
  rewrite Hpos in Hpad.
  unfold payload_encrypt in Hrun. rewrite Hiv, Hc, Hmd, Hek, Hpos in Hrun.
  cbn [default] in Hrun.
  set (pad_len := esp_pad_len iv_len in_len) in *.
  set (d := data_offset entry) in *.
  assert (Hwd : wrap16 d = d) by (unfold wrap16; apply Z.mod_small; lia).
  rewrite Hwd in Hrun.
  assert (He1 : wrap16 (in_len + (pad_len + sizeof_hip_esp_tail))
                = in_len + pad_len + 2).
  { unfold wrap16, sizeof_hip_esp_tail. rewrite Z.mod_small; lia. }
  rewrite He1 in Hrun.
  assert (He2 : wrap16 (in_len + pad_len + 2 + iv_len)
                = in_len + pad_len + 2 + iv_len).
  { unfold wrap16. rewrite Z.mod_small; lia. }
  rewrite He2 in Hrun.
  assert (He3 : wrap16 (0 + (in_len + pad_len + 2 + iv_len))
                = in_len + pad_len + 2 + iv_len).
  { unfold wrap16. rewrite Z.mod_small; lia. }
  rewrite He3 in Hrun.
  assert (He4 : wrap16 (in_len + pad_len + 2 + iv_len + d)
                = d + iv_len + in_len + pad_len + 2).
  { unfold wrap16. rewrite Z.mod_small; lia. }
  rewrite He4 in Hrun.
  assert (He5 : wrap16 (in_len + pad_len + 2 + iv_len + ICV_LENGTH)
                = in_len + pad_len + 2 + iv_len + 12).
  { unfold wrap16, ICV_LENGTH. rewrite Z.mod_small; lia. }
  rewrite He5 in Hrun.
  change (id ekey) with ekey in Hrun.
  set (civ := take (Z.to_nat iv_len) rnd) in *.
  assert (Hciv : length civ = Z.to_nat iv_len).
  { unfold civ. rewrite length_take. lia. }
  destruct (buf_write out (Z.to_nat d) civ) as [out1|] eqn:W1;
    [|discriminate Hrun].
  cbn [mbind option_bind] in Hrun.
  destruct (esp_write_padding in_ _ 0 _) as [in1|] eqn:Wp;
    [|discriminate Hrun].
  cbn [mbind option_bind] in Hrun.
  destruct (buf_write in1 _ _) as [in2|] eqn:Wt; [|discriminate Hrun].
  cbn [mbind option_bind] in Hrun.
  destruct (buf_read in2 0 _) as [plain|] eqn:Rp; [|discriminate Hrun].
  cbn [mbind option_bind] in Hrun.
  destruct (buf_write out1 _ _) as [out2|] eqn:W2; [|discriminate Hrun].
  cbn [mbind option_bind] in Hrun.
  destruct (auth_key entry) as [key|] eqn:Hak; [|discriminate Hrun].
  destruct (buf_read out2 0 _) as [authed|] eqn:Ra; [|discriminate Hrun].
  cbn [mbind option_bind] in Hrun.
  destruct (buf_write out2 _ _) as [out3|] eqn:W3; [|discriminate Hrun].
  cbn [mbind option_bind] in Hrun.
  injection Hrun as <- <- <-.
  (* the sizes as natural numbers *)
  set (D := Z.to_nat d) in *.
  set (V := Z.to_nat iv_len) in *.
  set (L := Z.to_nat in_len) in *.
  set (P := Z.to_nat pad_len) in *.
  replace (Z.to_nat (in_len + pad_len)) with (L + P)%nat in Wt by lia.
  replace (Z.to_nat (in_len + pad_len + 2)) with (L + P + 2)%nat in Rp by lia.
  replace (Z.to_nat (d + iv_len)) with (D + V)%nat in W2 by lia.
  replace (Z.to_nat (d + iv_len + in_len + pad_len + 2))
    with (D + V + (L + P + 2))%nat in Ra, W3 by lia.
  assert (HP : (1 <= P <= 16)%nat) by lia.
  (* the input buffer *)
  apply esp_write_padding_Some in Wp as [Hple ->].
  rewrite Nat.add_0_r in *. specialize (Hple ltac:(lia)).
  assert (Hpl8 : wrap8 pad_len = pad_len)
    by (unfold wrap8; apply Z.mod_small; lia).
  rewrite Hpl8 in Wt.
  assert (Hpadl : length (pad_octets 0 P) = P).
  { unfold pad_octets. now rewrite length_fmap, length_seq. }
  apply buf_write_Some in Wt as [_ ->].
  apply buf_read_Some in Rp as [_ ->]. rewrite drop_0 in W2.
  assert (Hplain :
    take (L + P + 2)
      (take (L + P) (take L in_ ++ pad_octets 0 P ++ drop (L + P) in_)
       ++ [pad_len; in_type]
       ++ drop (L + P + length [pad_len; in_type])
            (take L in_ ++ pad_octets 0 P ++ drop (L + P) in_))
    = take L in_ ++ pad_octets 0 P ++ [pad_len; in_type]).
  { assert (Hbody :
      take (L + P) (take L in_ ++ pad_octets 0 P ++ drop (L + P) in_)
      = take L in_ ++ pad_octets 0 P).
    { rewrite app_assoc. apply take_app_length'.
      rewrite length_app, length_take, Hpadl. lia. }
    rewrite Hbody.
    rewrite (app_assoc (take L in_ ++ pad_octets 0 P)).
    rewrite take_app_length' by
      (rewrite !length_app, length_take, Hpadl; cbn [length]; lia).
    now rewrite <- app_assoc. }
  rewrite Hplain in W2.
  set (plain := take L in_ ++ pad_octets 0 P ++ [pad_len; in_type]) in *.
  assert (Hplen : length plain = (L + P + 2)%nat).
  { unfold plain. rewrite !length_app, length_take, Hpadl. cbn [length]. lia. }
  set (C := cbc c true ekey civ plain) in *.
  assert (HC : length C = (L + P + 2)%nat).
  { unfold C. rewrite Hclen. exact Hplen. }
  (* the output buffer *)
  apply buf_write_Some in W1 as [Hb1 ->]. rewrite Hciv in Hb1.
  set (H := take D out) in *.
  assert (HH : length H = D) by (unfold H; rewrite length_take; lia).
  apply buf_write_Some in W2 as [Hb2 ->]. rewrite HC in Hb2.
  assert (Hhead : take (D + V) (H ++ civ ++ drop (D + length civ) out)
                  = H ++ civ).
  { rewrite app_assoc. apply take_app_length'. rewrite length_app. lia. }
  rewrite Hhead in *.
  apply buf_read_Some in Ra as [_ ->]. rewrite drop_0 in W3.
  assert (Hauth : forall R, take (D + V + (L + P + 2)) ((H ++ civ) ++ C ++ R)
                            = (H ++ civ) ++ C).
  { intros R. rewrite app_assoc. apply take_app_length'.
    rewrite !length_app. lia. }
  rewrite Hauth in W3.
  set (digest := hmac EVP_sha1 key (key_length (ealg entry))
                   ((H ++ civ) ++ C)) in *.
  apply buf_write_Some in W3 as [Hb3 ->].
  rewrite Hauth in Hpkt.
  set (R := drop (D + V + (L + P + 2) + length digest) _) in *.
  assert (Hdl : (12 <= length digest)%nat) by apply Hdig.
  clearbody R.
  (* the receiver *)
  assert (Hlen : len = d + iv_len + in_len + pad_len + 2 + 12)
    by (unfold len; lia).
  assert (HN : Z.to_nat len = (D + V + (L + P + 2) + 12)%nat) by lia.
  rewrite HN in Hpl, Hpkt.
  set (o := ((H ++ civ) ++ C) ++ digest ++ R) in *.
  unfold payload_decrypt. rewrite Hmd, Hak, Hiv, Hc, Hek. fold d.
  rewrite Hwd.
  assert (Hd1 : wrap16 (len - ICV_LENGTH) = d + iv_len + in_len + pad_len + 2).
  { unfold wrap16, ICV_LENGTH. rewrite Z.mod_small; lia. }
  rewrite Hd1.
  replace (Z.to_nat (d + iv_len + in_len + pad_len + 2))
    with (D + V + (L + P + 2))%nat by lia.
  rewrite (buf_read_agree pkt o _ 0 _ Hpkt Hpl) by lia.
  cbn [mbind option_bind]. rewrite drop_0.
  assert (Ho1 : take (D + V + (L + P + 2)) o = (H ++ civ) ++ C).
  { unfold o. apply take_app_length'. rewrite !length_app. lia. }
  rewrite Ho1. fold digest. cbv beta iota.
  change (Z.to_nat ICV_LENGTH) with 12%nat.
  rewrite (buf_read_agree pkt o _ (D + V + (L + P + 2)) 12 Hpkt Hpl) by lia.
  cbn [mbind option_bind].
  assert (Ho2 : take 12 (drop (D + V + (L + P + 2)) o) = take 12 digest).
  { unfold o. rewrite drop_app_length' by (rewrite !length_app; lia).
    apply take_app_le. lia. }
  rewrite Ho2.
  assert (Hcmp : memcmp (take 12 digest) digest 12 = 0).
  { apply memcmp_of_take. now rewrite take_take. }
  rewrite Hcmp. cbn [Z.eqb negb].
  assert (Hd2 : wrap16 (d + iv_len + in_len + pad_len + 2 - d)
                = iv_len + in_len + pad_len + 2).
  { unfold wrap16. rewrite Z.mod_small; lia. }
  rewrite Hd2.
  fold D V. rewrite (buf_read_agree pkt o _ D V Hpkt Hpl) by lia.
  cbn [mbind option_bind].
  assert (Ho3 : take V (drop D o) = civ).
  { unfold o. rewrite <- !app_assoc. apply take_drop_app3; lia. }
  rewrite Ho3.
  assert (Hd3 : wrap16 (iv_len + in_len + pad_len + 2 - iv_len)
                = in_len + pad_len + 2).
  { unfold wrap16. rewrite Z.mod_small; lia. }
  rewrite Hd3.
  replace (Z.to_nat (d + iv_len)) with (D + V)%nat by lia.
  replace (Z.to_nat (in_len + pad_len + 2)) with (L + P + 2)%nat by lia.
  rewrite (buf_read_agree pkt o _ (D + V) (L + P + 2) Hpkt Hpl) by lia.
  cbn [mbind option_bind default].
  assert (Ho4 : take (L + P + 2) (drop (D + V) o) = C).
  { unfold o. rewrite <- (app_assoc (H ++ civ)).
    apply take_drop_app3; [rewrite length_app|]; lia. }
  rewrite Ho4. change (id ekey) with ekey. unfold C at 1. rewrite Hcinv.
  unfold buf_write. rewrite Hplen.
  assert (Hfit : (0 + (L + P + 2) <=? length dout)%nat = true)
    by (apply Nat.leb_le; lia).
  rewrite Hfit. cbn [mbind option_bind]. rewrite take_0. cbn [app].
  replace (Z.to_nat (in_len + pad_len + 2 - sizeof_hip_esp_tail))
    with (L + P)%nat by (unfold sizeof_hip_esp_tail; lia).
  replace (Z.to_nat (in_len + pad_len + 2 - sizeof_hip_esp_tail + 1))
    with (L + P + 1)%nat by (unfold sizeof_hip_esp_tail; lia).
  assert (Hk1 : (plain ++ drop (0 + (L + P + 2)) dout) !! (L + P)%nat
                = Some pad_len).
  { unfold plain. rewrite app_assoc, <- app_assoc.
    rewrite lookup_app_r by (rewrite length_app, length_take, Hpadl; lia).
    rewrite length_app, length_take, Hpadl.
    replace (L + P - (L `min` length in_ + P))%nat with 0%nat by lia.
    reflexivity. }
  assert (Hk2 : (plain ++ drop (0 + (L + P + 2)) dout) !! (L + P + 1)%nat
                = Some in_type).
  { unfold plain. rewrite app_assoc, <- app_assoc.
    rewrite lookup_app_r by (rewrite length_app, length_take, Hpadl; lia).
    rewrite length_app, length_take, Hpadl.
    replace (L + P + 1 - (L `min` length in_ + P))%nat with 1%nat by lia.
    reflexivity. }
  rewrite Hk1, Hk2. cbn [mbind option_bind].
  assert (Hd4 : wrap16 (in_len + pad_len + 2 - (pad_len + sizeof_hip_esp_tail))
                = in_len).
  { unfold wrap16, sizeof_hip_esp_tail. rewrite Z.mod_small; lia. }
  rewrite Hd4.
  assert (Htail : (in_len + pad_len + 2 <? sizeof_hip_esp_tail) = false)
    by (apply Z.ltb_ge; unfold sizeof_hip_esp_tail; lia).
  rewrite Htail.
  eexists. split; [reflexivity|].
  unfold plain. rewrite <- app_assoc.
  rewrite take_app_le by (rewrite length_take; lia).
  rewrite take_take. f_equal. lia.
Qed.

Lemma toy_cbc_length (c : cbc_cipher) (k iv x : bytes) :
  length (toy_cbc c true k iv x) = length x.
Proof. unfold toy_cbc. apply length_fmap. Qed.

Lemma toy_cbc_inverse (c : cbc_cipher) (k iv x : bytes) :
  toy_cbc c false k iv (toy_cbc c true k iv x) = x.
Proof.
  unfold toy_cbc. rewrite <- list_fmap_compose.
  rewrite <- (list_fmap_id x) at 2. apply list_fmap_ext. intros i y _. cbn.
  rewrite Z.lxor_assoc, Z.lxor_nilpotent. apply Z.lxor_0_r.
Qed.

Lemma payload_decrypt_inverts_payload_encrypt_witness :
  exists dout',
    payload_decrypt toy_data_offset toy_auth_key_length toy_cbc toy_hmac
      toy_packet 52 (replicate 64 0) 0 0 (toy_sa HIP_ESP_AES_SHA1)
      = Some (0, dout', 6, 5) /\
    take 5 dout' = [10; 20; 30; 40; 50].
Proof.
  apply (payload_decrypt_inverts_payload_encrypt toy_data_offset
           toy_auth_key_length toy_cbc toy_hmac esp_payload_buf 6 5
           esp_out_buf (toy_sa HIP_ESP_AES_SHA1) toy_rnd
           (enc_in (toy_encrypt HIP_ESP_AES_SHA1))
           (enc_out (toy_encrypt HIP_ESP_AES_SHA1)) 44
           toy_packet (replicate 64 0) 0 0).
  - left. reflexivity.
  - apply toy_cbc_length.
  - apply toy_cbc_inverse.
  - intros k kl x. unfold toy_hmac. rewrite length_replicate. lia.
  - unfold toy_data_offset. lia.
  - lia.
  - unfold toy_data_offset. lia.
  - vm_compute. lia.
  - vm_compute. reflexivity.
  - vm_compute. lia.
  - vm_compute. reflexivity.
  - vm_compute. lia.
Defined.

(** X17: [payload_decrypt] returns 0, 1 or -1, and it authenticates before
    it decrypts: whenever it returns 1 (the ICV does not match) or -1
    (unsupported suite or missing key) the output buffer, the next header
    value and the output length are exactly what they were.  It returns 0
    only for the suites with an HMAC case (3DES, AES and NULL encryption
    with SHA-1, 3DES and NULL with MD5), with an authentication key and,
    for the block ciphers, an encryption key; Blowfish is never accepted. *)
Theorem payload_decrypt_writes_only_authenticated_data
  (data_offset : hip_sa_entry -> Z) (key_length : esp_ealg -> Z)
  (cbc : cbc_cipher -> bool -> hip_crypto_key -> bytes -> bytes -> bytes)
  (hmac : EVP_MD -> hip_crypto_key -> Z -> bytes -> bytes)
  (in_ : bytes) (in_len : Z) (out : bytes) (out_type out_len : Z)
  (entry : hip_sa_entry) (r : Z) (out' : bytes) (out_type' out_len' : Z) :
  payload_decrypt data_offset key_length cbc hmac in_ in_len out out_type
    out_len entry = Some (r, out', out_type', out_len') ->
  (r = 0 \/ r = 1 \/ r = -1) /\
  (r <> 0 -> out' = out /\ out_type' = out_type /\ out_len' = out_len) /\
  (r = 0 ->
   (is_sha1_suite (ealg entry) = true \/ is_md5_suite (ealg entry) = true) /\
   auth_key entry <> None /\
   (esp_cipher (ealg entry) <> None -> enc_key entry <> None) /\
   length out' = length out).
Proof.
  unfold payload_decrypt. intros H.
  destruct (esp_auth_md (ealg entry)) as [md|] eqn:Hmd.
  2:{ injection H as <- <- <- <-. repeat split; auto; discriminate. }
  destruct (auth_key entry) as [key|] eqn:Hak.
  2:{ injection H as <- <- <- <-. repeat split; auto; discriminate. }
  match type of H with (?x ≫= _) = _ => destruct x; [|discriminate H] end.
  cbn [mbind option_bind] in H.
  match type of H with (?x ≫= _) = _ => destruct x; [|discriminate H] end.
  cbn [mbind option_bind] in H.
  destruct (negb _).
  { injection H as <- <- <- <-. repeat split; auto; discriminate. }
  destruct (esp_iv_len entry) as [err|iv_len] eqn:Hiv.
  { apply esp_iv_len_err in Hiv. subst err.
    injection H as <- <- <- <-. repeat split; auto; discriminate. }
  match type of H with (?x ≫= _) = _ => destruct x; [|discriminate H] end.
  cbn [mbind option_bind] in H.
  match type of H with (?x ≫= _) = _ => destruct x; [|discriminate H] end.
  cbn [mbind option_bind] in H.
  match type of H with (?x ≫= _) = _ =>
    destruct x as [out1|] eqn:W; [|discriminate H] end.
  cbn [mbind option_bind] in H.
  match type of H with
  | (if ?b then None else _) = _ => destruct b; [discriminate H|]
  end.
  match type of H with (?x ≫= _) = _ => destruct x; [|discriminate H] end.
  cbn [mbind option_bind] in H.
  match type of H with (?x ≫= _) = _ => destruct x; [|discriminate H] end.
  cbn [mbind option_bind] in H.
  injection H as <- <- <- <-.
  split; [auto|]. split; [intros []; reflexivity|]. intros _.
  split.
  { revert Hmd. unfold esp_auth_md, is_sha1_suite, is_md5_suite.
    destruct (ealg entry); intros [=]; auto. }
  split; [discriminate|].
  split.
  { revert Hiv. unfold esp_iv_len, esp_cipher.
    destruct (ealg entry), (enc_key entry); intros [=] Hn; congruence. }
  destruct (esp_cipher (ealg entry));
    apply buf_write_length in W; exact W.
Qed.

Lemma payload_decrypt_writes_only_authenticated_data_witness :
  dec_out (toy_decrypt tampered_packet) = replicate 64 0 /\
  dec_type (toy_decrypt tampered_packet) = 0 /\
  dec_len (toy_decrypt tampered_packet) = 0.
Proof.
  apply (payload_decrypt_writes_only_authenticated_data toy_data_offset
           toy_auth_key_length toy_cbc toy_hmac tampered_packet 52
           (replicate 64 0) 0 0 (toy_sa HIP_ESP_AES_SHA1)
           (dec_ret (toy_decrypt tampered_packet))).
  - vm_compute. reflexivity.
  - vm_compute. discriminate.
Defined.

(** ** What an accepted R1 has passed *)

Lemma check_r1_out_err_0 (err : Z) (ctx ctx' : hip_packet_context) :
  check_r1_out_err err ctx = Some (0, ctx') -> err = 0 /\ ctx' = ctx.
Proof.
  unfold check_r1_out_err. intros [= -> <-]. split; reflexivity.
Qed.

(** X18: an R1 that [hip_check_r1] accepts (return value 0) belongs to a
    host association, is addressed to a HIT of this host and has sane
    controls; it carries a HOST_ID from which the peer identity of the
    association was initialised, and its signature is verified for the
    association left in the context.  When that association speaks HIPv2,
    the R1 carries a DH_GROUP_LIST and a DIFFIE_HELLMAN parameter, and the
    group of the latter is the first group of the local preference list
    [HIP_DH_GROUP_LIST] that the peer's list contains: an R1 with any other
    group is rejected. *)
Theorem hip_check_r1_accepts_only_verified_r1
  (hit_is_opportunistic_hit : hip_hit_t -> bool)
  (hip_handle_opp_r1 : hip_packet_context -> hip_packet_context)
  (hip_hadb_get_peer_addr : hip_hadb_state -> bytes)
  (hip_hadb_add_peer_addr : hip_hadb_state -> bytes -> hip_hadb_state)
  (hip_relay_add_rvs_to_ha : hip_common -> hip_hadb_state -> hip_hadb_state)
  (di_type_len : bytes -> Z) (ipv6_addr_cmp : bytes -> bytes -> Z)
  (dh_group_list_param : hip_common -> option (list Z))
  (E : hipd_env) (ctx ctx' : hip_packet_context) :
  hip_check_r1 hit_is_opportunistic_hit hip_handle_opp_r1
    hip_hadb_get_peer_addr hip_hadb_add_peer_addr hip_relay_add_rvs_to_ha
    di_type_len ipv6_addr_cmp dh_group_list_param E ctx = Some (0, ctx') ->
  let msg := input_msg ctx' in
  hadb_entry ctx <> None /\
  hip_hidb_hit_is_our E (hit_receiver msg) = true /\
  hip_controls_sane E (ntohs (control msg)) HIP_PACKET_CTRL_ANON = true /\
  exists entry off raw host_id e0,
    hadb_entry ctx' = Some entry /\
    hip_get_param msg HIP_PARAM_HOST_ID = Some (off, P_HOST_ID raw) /\
    hip_build_host_id_from_param E raw = Some host_id /\
    hip_init_peer E e0 host_id = (0, entry) /\
    verify E entry msg = 0 /\
    (hip_version entry = HIP_V2 ->
     exists dh_list off' pv pv2,
       dh_group_list_param msg = Some dh_list /\
       hip_get_param msg HIP_PARAM_DIFFIE_HELLMAN
         = Some (off', P_DIFFIE_HELLMAN pv pv2) /\
       first_dh_match HIP_DH_GROUP_LIST dh_list = Some (group_id pv)).
Proof.
  unfold hip_check_r1. intros H. cbv zeta.
  destruct (hadb_entry ctx) as [entry0|] eqn:He0; [|bad_r1 H].
  split; [discriminate|].
  set (ctx1 := if hit_is_opportunistic_hit (hit_peer entry0)
               then hip_handle_opp_r1 ctx else ctx) in *.
  clearbody ctx1.
  destruct (hip_hidb_hit_is_our E (hit_receiver (input_msg ctx1))) eqn:Hour;
    cbn [negb] in H; [|bad_r1 H].
  destruct (hip_controls_sane E _ _) eqn:Hsane; cbn [negb] in H; [|bad_r1 H].
  destruct (hadb_entry ctx1) as [entry1|]; [|discriminate H].
  cbn [mbind option_bind] in H.
  set (entry3 := hip_relay_add_rvs_to_ha _ _) in H. clearbody entry3.
  cbn [set_hadb_entry input_msg] in H.
  destruct (hip_get_param (input_msg ctx1) HIP_PARAM_HOST_ID)
    as [[off []]|] eqn:Hhid; try bad_r1 H.
  destruct (hip_build_host_id_from_param E raw) as [host_id|] eqn:Hb;
    [|bad_r1 H].
  destruct (di_type_len host_id <? 0); [bad_r1 H|].
  destruct (hip_init_peer E entry3 host_id) as [ires entry4] eqn:Hinit.
  destruct (ires =? 0) eqn:Hi; cbn [negb] in H; [|bad_r1 H].
  apply Z.eqb_eq in Hi. subst ires.
  unfold hip_check_r1_verify in H. cbv zeta in H.
  cbn [set_hadb_entry input_msg] in H.
  set (de := if hip_version entry4 =? HIP_V2 then _ else 0) in H.
  assert (Hd : de = 0).
  { destruct (de =? 0) eqn:Hd; cbn [negb] in H.
    - now apply Z.eqb_eq in Hd.
    - now apply check_r1_out_err_0 in H as [-> _]. }
  rewrite Hd in H. cbn [Z.eqb negb] in H. unfold de in Hd. clear de.
  destruct (verify E entry4 (input_msg ctx1) =? 0) eqn:Hv; cbn [negb] in H;
    [|bad_r1 H].
  apply check_r1_out_err_0 in H as [_ ->].
  cbn [input_msg set_hadb_entry hadb_entry].
  apply Z.eqb_eq in Hv.
  split; [exact Hour|]. split; [exact Hsane|].
  exists entry4, off, raw, host_id, entry3.
  repeat split; try assumption.
  intros Hv2. rewrite Hv2, Z.eqb_refl in Hd.
  destruct (dh_group_list_param (input_msg ctx1)) as [dh_list|];
    [|discriminate Hd].
  destruct (hip_get_param (input_msg ctx1) HIP_PARAM_DIFFIE_HELLMAN)
    as [[off' []]|]; try discriminate Hd.
  destruct (check_dh_downgrade_v2 (group_id pub_val) dh_list <? 0) eqn:Hc;
    [discriminate Hd|]. clear Hd.
  exists dh_list, off', pub_val, pub_val2.
  split; [reflexivity|]. split; [reflexivity|].
  apply (proj1 (check_dh_downgrade_v2_outer_spec _ _ _)).
  apply Z.ltb_ge in Hc. unfold check_dh_downgrade_v2 in *.
  destruct (check_dh_downgrade_v2_outer_result HIP_DH_GROUP_LIST
              (group_id pub_val) dh_list) as [Hr|Hr]; [exact Hr|].
  rewrite Hr in Hc. lia.
Qed.

Lemma hip_check_r1_accepts_only_verified_r1_witness :
  (fst <$> toy_check_r1 HIP_DH_NIST_P_384) = Some 0 /\
  (fst <$> toy_check_r1 HIP_DH_OAKLEY_5) = Some (- EINVAL) /\
  hip_hidb_hit_is_our toy_env
    (hit_receiver (input_msg (ctx_r1_for_B HIP_DH_NIST_P_384))) = true.
Proof.
  split; [vm_compute; reflexivity|]. split; [vm_compute; reflexivity|].
  pose proof (hip_check_r1_accepts_only_verified_r1
                (fun _ => false) (fun c => c) (fun e => our_addr e)
                (fun e _ => e) (fun _ e => e) (fun _ => 0)
                (fun a b => memcmp a b 16)
                (fun _ => Some [HIP_DH_NIST_P_384; HIP_DH_OAKLEY_5])
                toy_env (ctx_r1_for_B HIP_DH_NIST_P_384)
                (set_hadb_entry (ctx_r1_for_B HIP_DH_NIST_P_384)
                   (Some (set_peer_pub
                            (set_ids hip_hadb_state_zero hit_B hit_A
                               (replicate 16 2) None None HIP_V2)
                            (Some [3; 1; 4; 1; 5]))))) as H.
  cbv zeta in H. destruct H as (_ & H & _).
  - vm_compute. reflexivity.
  - exact H.
Defined.

(** ** Which packets reach the handlers *)

Lemma relay_or_run_handlers_spec
  (run : hip_hdr -> hip_state -> hip_packet_context -> hip_packet_context)
  (rvs : bool)
  (relay : hip_hdr -> hip_state -> hip_packet_context -> Z * hip_packet_context)
  (type : hip_hdr) (st : hip_state) (c0 : hip_packet_context) :
  let res := relay_or_run_handlers run rvs relay type st c0 in
  (res.1.1 = 0 \/ rvs = true /\ res.1.1 = - ECANCELED) /\
  (res.1.1 = 0 <-> res.2 <> None) /\
  (forall type' st' c, res.2 = Some (type', st', c) ->
     type' = type /\ st' = st /\ res.1.2 = run type st c /\
     (if rvs then relay type st c0 = (0, c) else c = c0)).
Proof.
  cbv zeta. unfold relay_or_run_handlers. destruct rvs.
  - destruct (relay type st c0) as [relayed c'].
    destruct (relayed =? 0) eqn:Hr; cbn [negb fst snd].
    + apply Z.eqb_eq in Hr. subst relayed.
      split; [left; reflexivity|].
      split; [split; [discriminate | reflexivity]|].
      intros type' st' c [= <- <- <-]. repeat split.
    + split; [right; split; reflexivity|].
      split; [split; [discriminate | intros H; now destruct H]|].
      intros type' st' c [=].
  - cbn [fst snd]. split; [left; reflexivity|].
    split; [split; [discriminate | reflexivity]|].
    intros type' st' c [= <- <- <-]. repeat split.
Qed.

(** X19: [hip_receive_control_packet] returns 0 exactly when it hands the
    packet to the registered handlers, whatever these do with it; otherwise
    it returns -1 or, in a build with CONFIG_HIP_RVS only, -ECANCELED.  The
    handlers are run only for a message that passed [hip_check_network_msg]
    and whose receiver HIT is a local or the zero HIT, or, in a build with
    CONFIG_HIP_RVS, while the relay is not off; in such a build they are
    run only after [hip_relay_handle_relay_to] has returned 0, on the
    context as it left it.  They get the type of the message and the state
    of the host association found for it (NONE without one).  That
    association has the HIP version of the message, and [packet_to_drop]
    has not asked to drop the packet: an R1 or R2 for a local HIT never
    reaches the handlers in the states R2-SENT and ESTABLISHED of an
    association found by the two HITs. *)
Theorem handlers_run_only_for_admitted_packets
  (hip_check_network_msg : hip_common -> Z)
  (hip_addr_is_loopback ipv6_addr_any : bytes -> bool)
  (hip_get_msg_type : hip_common -> hip_hdr)
  (hip_hadb_find_byhits : hip_hit_t -> hip_hit_t -> option hip_hadb_state)
  (hip_opp_get_hadb_entry_i1_r1 : hip_common -> bytes -> option hip_hadb_state)
  (run : hip_hdr -> hip_state -> hip_packet_context -> hip_packet_context)
  (shotgun_on : bool) (addresses_num_items : Z)
  (peer_list : hip_hadb_state -> option Z)
  (rvs relay_off : bool)
  (relay : hip_hdr -> hip_state -> hip_packet_context -> Z * hip_packet_context)
  (E : hipd_env) (ctx : hip_packet_context) :
  let res := hip_receive_control_packet hip_check_network_msg
               hip_addr_is_loopback ipv6_addr_any hip_get_msg_type
               hip_hadb_find_byhits hip_opp_get_hadb_entry_i1_r1 run
               shotgun_on addresses_num_items peer_list rvs relay_off relay
               E ctx in
  let msg := input_msg ctx in
  (res.1.1 = 0 \/ res.1.1 = -1 \/ rvs = true /\ res.1.1 = - ECANCELED) /\
  (res.1.1 = 0 <-> res.2 <> None) /\
  (res.1.1 = -1 -> input_msg res.1.2 = msg /\ error res.1.2 = error ctx) /\
  (forall type st c, res.2 = Some (type, st, c) ->
     res.1.2 = run type st c /\
     hip_check_network_msg msg = 0 /\
     (hip_hidb_hit_is_our E (hit_receiver msg) = true \/
      ipv6_addr_any (hit_receiver msg) = true \/
      rvs = true /\ relay_off = false) /\
     type = hip_get_msg_type msg /\
     exists c0,
       (if rvs then relay type st c0 = (0, c) else c = c0) /\
       input_msg c0 = msg /\
       src_addr c0 = src_addr ctx /\ dst_addr c0 = dst_addr ctx /\
       error c0 = error ctx /\
       match hadb_entry c0 with
       | Some entry =>
           state entry = st /\
           hip_version entry = wrap8 (hip_get_msg_version msg) /\
           (hip_hadb_find_byhits (hit_sender msg) (hit_receiver msg) <> None ->
            hip_hidb_hit_is_our E (hit_receiver msg) = true ->
            type = HIP_R1 \/ type = HIP_R2 ->
            st <> HIP_STATE_R2_SENT /\ st <> HIP_STATE_ESTABLISHED)
       | None => st = HIP_STATE_NONE
       end).
Proof.
  cbv zeta. unfold hip_receive_control_packet.
  assert (Hrej : forall c : hip_packet_context,
    input_msg c = input_msg ctx -> error c = error ctx ->
    let res : Z * hip_packet_context
              * option (hip_hdr * hip_state * hip_packet_context) :=
      (-1, c, None) in
    (res.1.1 = 0 \/ res.1.1 = -1 \/ rvs = true /\ res.1.1 = - ECANCELED) /\
    (res.1.1 = 0 <-> res.2 <> None) /\
    (res.1.1 = -1 ->
     input_msg res.1.2 = input_msg ctx /\ error res.1.2 = error ctx) /\
    (forall type st c', res.2 = Some (type, st, c') ->
       res.1.2 = run type st c' /\
       hip_check_network_msg (input_msg ctx) = 0 /\
       (hip_hidb_hit_is_our E (hit_receiver (input_msg ctx)) = true \/
        ipv6_addr_any (hit_receiver (input_msg ctx)) = true \/
        rvs = true /\ relay_off = false) /\
       type = hip_get_msg_type (input_msg ctx) /\
       exists c0,
         (if rvs then relay type st c0 = (0, c') else c' = c0) /\
         input_msg c0 = input_msg ctx /\
         src_addr c0 = src_addr ctx /\ dst_addr c0 = dst_addr ctx /\
         error c0 = error ctx /\
         match hadb_entry c0 with
         | Some entry =>
             state entry = st /\
             hip_version entry = wrap8 (hip_get_msg_version (input_msg ctx)) /\
             (hip_hadb_find_byhits (hit_sender (input_msg ctx))
                (hit_receiver (input_msg ctx)) <> None ->
              hip_hidb_hit_is_our E (hit_receiver (input_msg ctx)) = true ->
              type = HIP_R1 \/ type = HIP_R2 ->
              st <> HIP_STATE_R2_SENT /\ st <> HIP_STATE_ESTABLISHED)
         | None => st = HIP_STATE_NONE
         end)).
  { intros c Hm He. cbn [fst snd].
    split; [right; left; reflexivity|].
    split; [split; [discriminate | intros H; now destruct H]|].
    split; [intros _; split; assumption|]. intros type st c' [=]. }
  destruct (hip_check_network_msg (input_msg ctx) =? 0) eqn:Hchk; cbn [negb].
  2:{ apply Hrej; reflexivity. }
  apply Z.eqb_eq in Hchk.
  match goal with |- context [if ?b then (-1, ctx, None) else _] =>
    destruct b end.
  { apply Hrej; reflexivity. }
  destruct (negb (hip_hidb_hit_is_our E (hit_receiver (input_msg ctx)))
            && negb (ipv6_addr_any (hit_receiver (input_msg ctx)))
            && (if rvs then relay_off else true)) eqn:Hdst.
  { apply Hrej; reflexivity. }
  assert (Hrecv : hip_hidb_hit_is_our E (hit_receiver (input_msg ctx)) = true
                  \/ ipv6_addr_any (hit_receiver (input_msg ctx)) = true
                  \/ rvs = true /\ relay_off = false).
  { destruct (hip_hidb_hit_is_our E _), (ipv6_addr_any _), rvs, relay_off;
      auto; discriminate Hdst. }
  clear Hdst.
  set (type := hip_get_msg_type (input_msg ctx)).
  assert (Hrun : forall st c0,
    input_msg c0 = input_msg ctx -> src_addr c0 = src_addr ctx ->
    dst_addr c0 = dst_addr ctx -> error c0 = error ctx ->
    match hadb_entry c0 with
    | Some entry =>
        state entry = st /\
        hip_version entry = wrap8 (hip_get_msg_version (input_msg ctx)) /\
        (hip_hadb_find_byhits (hit_sender (input_msg ctx))
           (hit_receiver (input_msg ctx)) <> None ->
         hip_hidb_hit_is_our E (hit_receiver (input_msg ctx)) = true ->
         type = HIP_R1 \/ type = HIP_R2 ->
         st <> HIP_STATE_R2_SENT /\ st <> HIP_STATE_ESTABLISHED)
    | None => st = HIP_STATE_NONE
    end ->
    let res := relay_or_run_handlers run rvs relay type st c0 in
    (res.1.1 = 0 \/ res.1.1 = -1 \/ rvs = true /\ res.1.1 = - ECANCELED) /\
    (res.1.1 = 0 <-> res.2 <> None) /\
    (res.1.1 = -1 ->
     input_msg res.1.2 = input_msg ctx /\ error res.1.2 = error ctx) /\
    (forall type' st' c', res.2 = Some (type', st', c') ->
       res.1.2 = run type' st' c' /\
       hip_check_network_msg (input_msg ctx) = 0 /\
       (hip_hidb_hit_is_our E (hit_receiver (input_msg ctx)) = true \/
        ipv6_addr_any (hit_receiver (input_msg ctx)) = true \/
        rvs = true /\ relay_off = false) /\
       type' = type /\
       exists c1,
         (if rvs then relay type' st' c1 = (0, c') else c' = c1) /\
         input_msg c1 = input_msg ctx /\
         src_addr c1 = src_addr ctx /\ dst_addr c1 = dst_addr ctx /\
         error c1 = error ctx /\
         match hadb_entry c1 with
         | Some entry =>
             state entry = st' /\
             hip_version entry = wrap8 (hip_get_msg_version (input_msg ctx)) /\
             (hip_hadb_find_byhits (hit_sender (input_msg ctx))
                (hit_receiver (input_msg ctx)) <> None ->
              hip_hidb_hit_is_our E (hit_receiver (input_msg ctx)) = true ->
              type' = HIP_R1 \/ type' = HIP_R2 ->
              st' <> HIP_STATE_R2_SENT /\ st' <> HIP_STATE_ESTABLISHED)
         | None => st' = HIP_STATE_NONE
         end)).
  { intros st c0 M S D Er Hent.
    destruct (relay_or_run_handlers_spec run rvs relay type st c0)
      as (Hret & Hiff & Hcall).
    cbv zeta.
    split; [destruct Hret as [H0 | H0]; auto|].
    split; [exact Hiff|].
    split.
    { intros H1. exfalso. destruct Hret as [H0 | [_ H0]]; rewrite H0 in H1;
        discriminate H1. }
    intros type' st' c' Hsome.
    destruct (Hcall _ _ _ Hsome) as (-> & -> & Hres & Hrel).
    split; [exact Hres|]. split; [exact Hchk|]. split; [exact Hrecv|].
    split; [reflexivity|].
    exists c0. repeat split; assumption. }
  cbn [hadb_entry set_hadb_entry src_addr input_msg].
  destruct (hip_hadb_find_byhits _ _) as [found|] eqn:Hfind.
  - (* an association is found *)
    destruct (packet_to_drop E shotgun_on addresses_num_items
                (peer_list found) found type
                (hit_receiver (input_msg ctx)) =? 1) eqn:Hdrop.
    { apply Hrej; reflexivity. }
    apply Z.eqb_neq in Hdrop.
    assert (Hnd : hip_hidb_hit_is_our E (hit_receiver (input_msg ctx)) = true ->
                  type = HIP_R1 \/ type = HIP_R2 ->
                  state found <> HIP_STATE_R2_SENT /\
                  state found <> HIP_STATE_ESTABLISHED).
    { intros Hour Ht. unfold packet_to_drop in Hdrop. rewrite Hour in Hdrop.
      cbn [negb] in Hdrop.
      assert (Hr : is_r1_or_r2 type = true)
        by (destruct Ht as [Ht | Ht]; rewrite Ht; reflexivity).
      split; intros Hs; rewrite Hs, Hr in Hdrop; now apply Hdrop. }
    cbn [hadb_entry set_hadb_entry].
    destruct (hip_version found =? 0) eqn:Hv0.
    + apply Hrun; try reflexivity. cbn.
      split; [reflexivity|]. split; [reflexivity|]. intros _. exact Hnd.
    + destruct (hip_version found =? wrap8 (hip_get_msg_version (input_msg ctx)))
        eqn:Hv; cbn [negb].
      * apply Z.eqb_eq in Hv. apply Hrun; try reflexivity. cbn.
        split; [reflexivity|]. split; [exact Hv|]. intros _. exact Hnd.
      * apply Hrej; reflexivity.
  - (* no association for the two HITs *)
    match goal with
    | |- context [hadb_entry ?c2] =>
        assert (Hc2 : input_msg c2 = input_msg ctx /\
                      src_addr c2 = src_addr ctx /\
                      dst_addr c2 = dst_addr ctx /\ error c2 = error ctx)
          by (destruct type; cbn; auto);
        set (ctx2 := c2) in *
    end.
    clearbody ctx2. destruct Hc2 as (M & S & D & Er).
    destruct (hadb_entry ctx2) as [entry|] eqn:He2.
    + destruct (hip_version entry =? 0) eqn:Hv0.
      * apply Hrun; cbn; auto.
        split; [reflexivity|]. split; [reflexivity|].
        intros Hn. now destruct Hn.
      * destruct (hip_version entry
                  =? wrap8 (hip_get_msg_version (input_msg ctx)))
          eqn:Hv; cbn [negb].
        -- apply Z.eqb_eq in Hv. apply Hrun; auto. rewrite He2.
           split; [reflexivity|]. split; [exact Hv|].
           intros Hn. now destruct Hn.
        -- apply Hrej; assumption.
    + apply Hrun; auto. rewrite He2. reflexivity.
Qed.

(** ** Configuration of the ESP protection *)

Lemma token_sanity_checks_spec (g : token_globals) :
  let r := token_sanity_checks g in
  r.2 = g /\ (r.1 = 0 \/ r.1 = -1) /\
  (r.1 = 0 <-> 0 < hash_length_g g /\ 0 < hash_structure_length g).
Proof.
  unfold token_sanity_checks.
  destruct (hash_length_g g <=? 0) eqn:H1; cbn.
  { apply Z.leb_le in H1. repeat split; auto; try lia; discriminate. }
  apply Z.leb_gt in H1.
  destruct (hash_structure_length g <=? 0) eqn:H2; cbn.
  { apply Z.leb_le in H2. repeat split; auto; try lia; discriminate. }
  apply Z.leb_gt in H2. repeat split; auto.
Qed.

(** X20: [esp_prot_token_config] returns 0 or -1.  When it returns 0, the
    token transform is one of PLAIN, PARALLEL, CUMULATIVE, PARA_CUMUL and
    TREE, hash length and hash structure length are positive, the transforms
    without cumulative authentication (PLAIN, PARALLEL, TREE) have ring
    buffer size and numbers of linear and random elements 0, and the
    transforms without parallel chains (PLAIN, CUMULATIVE, TREE) have one
    hash chain.  Without a configuration file the result is 0 with the PLAIN
    defaults, whatever the variables held; a configuration file that does
    not set the token transform is rejected, although every other setting
    has a default.  [esp_prot_verifier_config] returns 0 exactly when the
    window size it has set is positive, and 64 is the size without a file or
    without the setting. *)
Theorem esp_prot_config_invariants (cfg : option config_t) (g : token_globals)
  (w : Z) :
  let r := esp_prot_token_config cfg g in
  let g' := r.2 in
  let v := esp_prot_verifier_config cfg w in
  (r.1 = 0 \/ r.1 = -1) /\
  (r.1 = 0 ->
   ESP_PROT_TFM_PLAIN <= token_transform g' <= ESP_PROT_TFM_TREE /\
   0 < hash_length_g g' /\ 0 < hash_structure_length g' /\
   (is_cumulative (token_transform g') = false ->
    tg_ring_buffer_size g' = 0 /\ tg_num_linear_elements g' = 0 /\
    tg_num_random_elements g' = 0) /\
   (token_transform g' <> ESP_PROT_TFM_PARALLEL ->
    token_transform g' <> ESP_PROT_TFM_PARA_CUMUL ->
    tg_num_parallel_hchains g' = 1)) /\
  (cfg = None -> r = (0, token_defaults)) /\
  (forall c, cfg = Some c -> c path_token_transform = None -> r.1 = -1) /\
  (v.1 = 0 \/ v.1 = -1) /\ (v.1 = 0 <-> 0 < v.2) /\
  (cfg = None -> v = (0, 64)) /\
  (forall c, cfg = Some c -> c path_window_size = None -> v = (0, 64)) /\
  (forall c x, cfg = Some c -> c path_window_size = Some x -> v.2 = x).
Proof.
  cbv zeta.
  assert (Hv : let v := esp_prot_verifier_config cfg w in
               (v.1 = 0 \/ v.1 = -1) /\ (v.1 = 0 <-> 0 < v.2) /\
               (cfg = None -> v = (0, 64)) /\
               (forall c, cfg = Some c -> c path_window_size = None ->
                          v = (0, 64)) /\
               (forall c x, cfg = Some c -> c path_window_size = Some x ->
                            v.2 = x)).
  { unfold esp_prot_verifier_config, lookup_or_default, wrap_config_lookup_int.
    destruct cfg as [c|].
    - destruct (c path_window_size) as [x|] eqn:Hx.
      + destruct (x <=? 0) eqn:Hle; cbn;
          [apply Z.leb_le in Hle | apply Z.leb_gt in Hle];
          repeat split; auto; try lia; try discriminate;
          try (intros; congruence).
      + cbn. repeat split; auto; try lia; try discriminate;
          try (intros; congruence).
    - cbn. repeat split; auto; try lia; discriminate. }
  cbv zeta in Hv.
  assert (Ht : let r := esp_prot_token_config cfg g in
    (r.1 = 0 \/ r.1 = -1) /\
    (r.1 = 0 ->
     ESP_PROT_TFM_PLAIN <= token_transform r.2 <= ESP_PROT_TFM_TREE /\
     0 < hash_length_g r.2 /\ 0 < hash_structure_length r.2 /\
     (is_cumulative (token_transform r.2) = false ->
      tg_ring_buffer_size r.2 = 0 /\ tg_num_linear_elements r.2 = 0 /\
      tg_num_random_elements r.2 = 0) /\
     (token_transform r.2 <> ESP_PROT_TFM_PARALLEL ->
      token_transform r.2 <> ESP_PROT_TFM_PARA_CUMUL ->
      tg_num_parallel_hchains r.2 = 1)) /\
    (cfg = None -> r = (0, token_defaults)) /\
    (forall c, cfg = Some c -> c path_token_transform = None -> r.1 = -1)).
  { cbv zeta. unfold esp_prot_token_config.
    destruct cfg as [c|].
    2:{ cbn. repeat split; auto; try lia; discriminate. }
    set (tfm := lookup_or_default c path_token_transform _ _).
    assert (Hmiss : c path_token_transform = None -> tfm = 0).
    { unfold tfm, lookup_or_default, wrap_config_lookup_int.
      intros ->. reflexivity. }
    unfold ESP_PROT_TFM_PLAIN, ESP_PROT_TFM_PARALLEL, ESP_PROT_TFM_CUMULATIVE,
      ESP_PROT_TFM_PARA_CUMUL, ESP_PROT_TFM_TREE in *.
    repeat match goal with
           | |- context [tfm =? ?k] =>
               let E := fresh "E" in
               destruct (tfm =? k) eqn:E;
               [apply Z.eqb_eq in E | apply Z.eqb_neq in E]
           end;
      try match goal with
          | |- context [token_sanity_checks ?gg] =>
              destruct (token_sanity_checks_spec gg) as (S2 & S1 & S0);
              destruct (token_sanity_checks gg) as [r0 g0];
              cbn [fst snd] in *; subst g0; cbn [token_transform
                hash_length_g hash_structure_length tg_num_parallel_hchains
                tg_ring_buffer_size tg_num_linear_elements
                tg_num_random_elements] in *
          end.
    all: split; [solve [auto]|].
    all: split; [|split; [discriminate|]].
    all: try (intros c' [= <-] Hn; specialize (Hmiss Hn); cbn; lia).
    all: try (intros Hr0; apply S0 in Hr0 as [? ?]; rewrite ?E, ?E0, ?E1, ?E2, ?E3;
              unfold is_cumulative; cbn;
              repeat split; auto; try lia; try discriminate; intros; lia).
    all: cbn; discriminate. }
  cbv zeta in Ht.
  destruct Ht as (T1 & T2 & T3 & T4). destruct Hv as (V1 & V2 & V3 & V4 & V5).
  repeat split; try assumption; try apply T2; try apply V2; auto.
Qed.

(** ** Firewall rules: what a parsed rule looks like *)

Section RuleFacts.

Import RuleManagement.

Variable inet_pton6 : string -> option bytes.
Variable parse_hi : string -> bytes -> option bytes.

Lemma parse_negation_suffix (token : string) (rest : list string)
  (b : Z) (t : option string) (rest' : list string) :
  parse_negation token rest = (b, t, rest') -> rest' `suffix_of` rest.
Proof.
  unfold parse_negation, strtok.
  destruct (String.eqb token NEGATE_STR); intros [= _ _ <-].
  - destruct rest; [reflexivity|]. apply suffix_cons_r. reflexivity.
  - reflexivity.
Qed.

Lemma parse_hit_suffix (token : string) (rest : list string)
  (v : option hit_option) (rest'' : list string) :
  parse_hit inet_pton6 token rest = Some (v, rest'') ->
  rest'' `suffix_of` rest.
Proof.
  unfold parse_hit.
  destruct (parse_negation token rest) as [[b t] rest'] eqn:Hn.
  apply parse_negation_suffix in Hn.
  destruct t; cbn; [|discriminate]. intros [= _ <-]. exact Hn.
Qed.

Lemma parse_type_suffix (token : string) (rest : list string)
  (v : option int_option) (rest'' : list string) :
  parse_type token rest = Some (v, rest'') -> rest'' `suffix_of` rest.
Proof.
  unfold parse_type.
  destruct (parse_negation token rest) as [[b t] rest'] eqn:Hn.
  apply parse_negation_suffix in Hn.
  destruct t; cbn; [|discriminate]. intros [= _ <-]. exact Hn.
Qed.

Lemma parse_state_suffix (token : string) (rest : list string)
  (v : option state_option) (rest'' : list string) :
  parse_state token rest = Some (v, rest'') -> rest'' `suffix_of` rest.
Proof.
  unfold parse_state.
  destruct (parse_negation token rest) as [[b t] rest'] eqn:Hn.
  apply parse_negation_suffix in Hn.
  destruct t; cbn; [|discriminate]. intros [= _ <-]. exact Hn.
Qed.

Lemma parse_if_suffix (token : string) (rest : list string)
  (v : option string_option) (rest'' : list string) :
  parse_if token rest = Some (v, rest'') -> rest'' `suffix_of` rest.
Proof.
  unfold parse_if.
  destruct (parse_negation token rest) as [[b t] rest'] eqn:Hn.
  apply parse_negation_suffix in Hn.
  destruct t as [t|]; cbn [mbind option_bind]; [|discriminate].
  destruct (IF_NAMESIZE <? String.length t)%nat;
    [intros [= _ <-]; exact Hn|].
  destruct (String.length t =? IF_NAMESIZE)%nat; [discriminate|].
  intros [= _ <-]. exact Hn.
Qed.

Lemma store_value_Continue {A} (parsed : option (option A * list string))
  (store : rule -> option A -> rule) (r r' : rule) (o' : option_kind)
  (rest'' : list string) :
  store_value parsed store r = Continue r' o' rest'' ->
  exists v, parsed = Some (Some v, rest'') /\ r' = store r (Some v) /\
            o' = NO_OPTION.
Proof.
  unfold store_value. destruct parsed as [[[v|] rest0]|]; intros [=].
  subst. eauto.
Qed.

Lemma store_value_not_Break {A} (parsed : option (option A * list string))
  (store : rule -> option A -> rule) (r r' : rule) (rest'' : list string) :
  store_value parsed store r <> Break r' rest''.
Proof.
  unfold store_value. destruct parsed as [[[v|] rest0]|]; discriminate.
Qed.

Lemma store_value_not_OutOfFuel {A}
  (parsed : option (option A * list string))
  (store : rule -> option A -> rule) (r : rule) :
  store_value parsed store r <> Return OutOfFuel.
Proof.
  unfold store_value. destruct parsed as [[[v|] rest0]|]; discriminate.
Qed.

(** A round that reads an option. *)
Lemma match_option_spec (r : rule) (token : string) (rest : list string) :
  rule_wf r -> accept r = -1 ->
  match match_option r token rest with
  | Continue r' o' rest' =>
      rest' = rest /\ rule_wf r' /\ accept r' = -1 /\ hook r' = hook r /\
      pending_ok r' o'
  | Break r' rest' =>
      rest' = rest /\ rule_wf r' /\ hook r' = hook r /\
      (token = ACCEPT_STR /\ accept r' = 1 \/
       token = DROP_STR /\ accept r' = 0)
  | Return res => res = Rejected
  end.
Proof.
  intros W Hacc. unfold match_option.
  assert (Wst : forall s, rule_wf (set_rule_state r s)) by (intros s; exact W).
  assert (Wacc : forall a, rule_wf (set_accept r a)) by (intros a; exact W).
  repeat match goal with
         | |- context [String.eqb token ?s] =>
             let E := fresh "E" in
             destruct (String.eqb token s) eqn:E;
             [apply String.eqb_eq in E|]
         end;
    try reflexivity.
  - destruct (src_hit r) eqn:H; [reflexivity|].
    split; [reflexivity|]. split; [exact W|]. repeat split; auto.
  - destruct (dst_hit r); [reflexivity|].
    split; [reflexivity|]. split; [exact W|]. repeat split; auto.
  - destruct (src_hit r) as [h|] eqn:H; [|reflexivity].
    destruct (hit_boolean h =? 0) eqn:Hb; [reflexivity|].
    apply Z.eqb_neq in Hb.
    destruct (src_hi r) eqn:Hhi; [reflexivity|].
    split; [reflexivity|]. split; [exact W|]. repeat split; eauto.
  - destruct (type r); [reflexivity|].
    split; [reflexivity|]. split; [exact W|]. repeat split; auto.
  - destruct (state r); [reflexivity|].
    split; [reflexivity|]. split; [exact W|]. repeat split; auto.
  - destruct (cert r); [reflexivity|].
    destruct (hook r) eqn:Hh; try reflexivity.
    split; [reflexivity|]. split; [exact W|]. repeat split; auto.
  - destruct (state r); [|reflexivity].
    split; [reflexivity|]. split; [apply Wst|]. repeat split; auto.
  - destruct (state r); [|reflexivity].
    split; [reflexivity|]. split; [apply Wst|]. repeat split; auto.
  - destruct (state r); [|reflexivity].
    split; [reflexivity|]. split; [apply Wst|]. repeat split; auto.
  - destruct (in_if r); [reflexivity|].
    destruct (hook r) eqn:Hh; try reflexivity;
      (split; [reflexivity|]; split; [exact W|]; repeat split; auto;
       cbn; congruence).
  - destruct (in_if r); [reflexivity|].
    destruct (hook r) eqn:Hh; try reflexivity;
      (split; [reflexivity|]; split; [exact W|]; repeat split; auto;
       cbn; congruence).
  - rewrite Hacc. cbn [Z.ltb Z.compare].
    split; [reflexivity|]. split; [apply Wacc|]. repeat split; auto.
  - rewrite Hacc. cbn [Z.ltb Z.compare].
    split; [reflexivity|]. split; [apply Wacc|]. repeat split; auto.
Qed.

(** A round that reads the value of an option. *)
Lemma match_value_spec (r : rule) (o : option_kind) (token : string)
  (rest : list string) :
  rule_wf r -> accept r = -1 -> pending_ok r o -> o <> NO_OPTION ->
  match match_value inet_pton6 parse_hi r o token rest with
  | Continue r' o' rest' =>
      rest' `suffix_of` rest /\ rule_wf r' /\ accept r' = -1 /\
      hook r' = hook r /\ pending_ok r' o'
  | Break _ _ => False
  | Return res => res <> OutOfFuel
  end.
Proof.
  intros W Hacc Hp Hno. unfold match_value.
  pose proof W as (W1 & W2 & W3 & W4).
  destruct o; try contradiction; cbn in Hp.
  - destruct (parse_hit inet_pton6 token rest) as [[[v|] rest']|] eqn:Hh;
      cbn; try discriminate.
    apply parse_hit_suffix in Hh. split; [exact Hh|].
    split; [|repeat split; auto].
    unfold rule_wf. cbn. repeat split; auto.
    intros Hhi. apply W4 in Hhi as (h & Hs & _). congruence.
  - destruct (parse_hit inet_pton6 token rest) as [[[v|] rest']|] eqn:Hh;
      cbn; try discriminate.
    apply parse_hit_suffix in Hh. split; [exact Hh|].
    split; [exact W|repeat split; auto].
  - destruct Hp as (Hn & h & Hs & Hb). rewrite Hs.
    destruct (parse_hi token (hit_value h)); [|discriminate].
    split; [reflexivity|]. split; [|repeat split; auto].
    unfold rule_wf. cbn. repeat split; auto. intros _. eauto.
  - split; [reflexivity|]. split; [exact W|repeat split; auto].
  - destruct (parse_type token rest) as [[[v|] rest']|] eqn:Hh;
      cbn; try discriminate.
    apply parse_type_suffix in Hh. split; [exact Hh|].
    split; [exact W|repeat split; auto].
  - destruct (parse_state token rest) as [[[v|] rest']|] eqn:Hh;
      cbn; try discriminate.
    apply parse_state_suffix in Hh. split; [exact Hh|].
    split; [exact W|repeat split; auto].
  - destruct (parse_if token rest) as [[[v|] rest']|] eqn:Hh;
      cbn; try discriminate.
    apply parse_if_suffix in Hh. split; [exact Hh|].
    split; [|repeat split; auto].
    unfold rule_wf. cbn. repeat split; auto.
  - destruct (parse_if token rest) as [[[v|] rest']|] eqn:Hh;
      cbn; try discriminate.
    apply parse_if_suffix in Hh. split; [exact Hh|].
    split; [|repeat split; auto].
    unfold rule_wf. cbn. repeat split; auto.
  - split; [reflexivity|]. split; [|repeat split; auto].
    unfold rule_wf. cbn. repeat split; auto.
  - split; [reflexivity|]. split; [exact W|repeat split; auto].
Qed.

Lemma last_suffix {A} (l l' : list A) (x : A) :
  l' `suffix_of` l -> last l' = Some x -> last l = Some x.
Proof.
  intros [pre ->] H. destruct l' as [|y l']; [discriminate H|].
  rewrite last_app. rewrite H. reflexivity.
Qed.

Lemma parse_rule_loop_spec (fuel : nat) :
  forall (r : rule) (o : option_kind) (rest : list string),
    rule_wf r -> accept r = -1 -> pending_ok r o ->
    (length rest < fuel)%nat ->
    match parse_rule_loop inet_pton6 parse_hi fuel r o rest with
    | Parsed r' =>
        rule_wf r' /\ hook r' = hook r /\
        (accept r' = 1 /\ last rest = Some ACCEPT_STR \/
         accept r' = 0 /\ last rest = Some DROP_STR)
    | OutOfFuel => False
    | _ => True
    end.
Proof.
  induction fuel as [|fuel IH]; intros r o rest W Hacc Hp Hf; [lia|].
  cbn [parse_rule_loop]. unfold strtok.
  destruct rest as [|token rest]; cbn [head tail].
  { unfold finish_rule. rewrite Hacc. exact I. }
  cbn [length] in Hf.
  assert (Hround :
    match (match o with
           | NO_OPTION => match_option r token rest
           | _ => match_value inet_pton6 parse_hi r o token rest
           end) with
    | Continue r' o' rest' =>
        rest' `suffix_of` rest /\ rule_wf r' /\ accept r' = -1 /\
        hook r' = hook r /\ pending_ok r' o'
    | Break r' rest' =>
        rest' = rest /\ rule_wf r' /\ hook r' = hook r /\
        (token = ACCEPT_STR /\ accept r' = 1 \/
         token = DROP_STR /\ accept r' = 0)
    | Return res => res <> OutOfFuel /\ forall x, res <> Parsed x
    end).
  { assert (Ho : o = NO_OPTION \/ o <> NO_OPTION)
      by (destruct o; auto; right; discriminate).
    destruct Ho as [->|Hno].
    - pose proof (match_option_spec r token rest W Hacc) as H.
      destruct (match_option r token rest); auto.
      + destruct H as (-> & H). split; [reflexivity|exact H].
      + subst res. split; discriminate.
    - pose proof (match_value_spec r o token rest W Hacc Hp Hno) as H.
      assert (Hnp : forall res,
                match_value inet_pton6 parse_hi r o token rest = Return res ->
                forall x, res <> Parsed x).
      { unfold match_value. intros res.
        destruct o; try discriminate;
          try (unfold store_value;
               match goal with
               | |- context [match ?p with _ => _ end] =>
                   destruct p as [[[?|] ?]|]
               end; intros [= <-]; discriminate).
        destruct (src_hit r); [|intros [= <-]; discriminate].
        destruct (parse_hi _ _); intros [= <-]; discriminate. }
      destruct o; try contradiction;
        (destruct (match_value _ _ _ _ _ _) as [r1 o1 rest1|r1 rest1|res];
         [exact H | destruct H | split; [exact H | exact (Hnp res eq_refl)]]). }
  destruct (match o with
            | NO_OPTION => match_option r token rest
            | _ => match_value inet_pton6 parse_hi r o token rest
            end) as [r' o' rest'|r' rest'|res].
  - destruct Hround as (Hs & W' & Hacc' & Hh & Hp').
    assert (Hlen : (length rest' < fuel)%nat).
    { apply suffix_length in Hs. lia. }
    specialize (IH r' o' rest' W' Hacc' Hp' Hlen).
    destruct (parse_rule_loop inet_pton6 parse_hi fuel r' o' rest');
      auto.
    destruct IH as (W'' & Hh'' & Hv). split; [exact W''|].
    split; [congruence|].
    assert (Hs' : rest' `suffix_of` token :: rest)
      by (apply suffix_cons_r; exact Hs).
    destruct Hv as [[? Hl]|[? Hl]]; [left|right]; split; auto;
      eapply last_suffix; eauto.
  - destruct Hround as (-> & W' & Hh & Hv). unfold finish_rule, strtok.
    destruct (accept r' =? -1); [exact I|].
    destruct rest as [|t rest]; cbn [head fst]; [|exact I].
    split; [exact W'|]. split; [exact Hh|].
    destruct Hv as [[-> ?]|[-> ?]]; [left|right]; split; auto.
  - destruct Hround as [Hn1 Hn2]. destruct res; auto.
    exfalso. eapply Hn2. reflexivity.
Qed.

(** X21: [parse_rule] comes to a result on every list of tokens.  A rule
    that it delivers starts with the token of its hook (INPUT, OUTPUT or
    FORWARD) and ends with its verdict: ACCEPT (accept = 1) or DROP
    (accept = 0) is the last token.  Such a rule has a certificate option
    only in the FORWARD hook, an incoming interface never in the OUTPUT
    hook, an outgoing interface never in the INPUT hook, and a host
    identity only together with a source HIT that is not negated. *)
Theorem parse_rule_delivers_well_formed_rules (tokens : list string) :
  parse_rule inet_pton6 parse_hi tokens <> OutOfFuel /\
  forall r, parse_rule inet_pton6 parse_hi tokens = Parsed r ->
    head tokens = Some (hook_token (hook r)) /\
    (accept r = 1 /\ last tokens = Some ACCEPT_STR \/
     accept r = 0 /\ last tokens = Some DROP_STR) /\
    (cert r <> None -> hook r = NF_IP6_FORWARD) /\
    (in_if r <> None -> hook r <> NF_IP6_LOCAL_OUT) /\
    (out_if r <> None -> hook r <> NF_IP6_LOCAL_IN) /\
    (src_hi r <> None ->
     exists h, src_hit r = Some h /\ hit_boolean h <> 0).
Proof.
  unfold parse_rule, strtok.
  destruct tokens as [|token rest]; cbn [head tail].
  { split; [discriminate|]. intros r [=]. }
  assert (Hloop : forall h,
    match parse_rule_loop inet_pton6 parse_hi (S (length rest))
            (alloc_empty_rule h) NO_OPTION rest with
    | Parsed r' =>
        rule_wf r' /\ hook r' = h /\
        (accept r' = 1 /\ last rest = Some ACCEPT_STR \/
         accept r' = 0 /\ last rest = Some DROP_STR)
    | OutOfFuel => False
    | _ => True
    end).
  { intros h. apply parse_rule_loop_spec; cbn; auto.
    unfold rule_wf. cbn. repeat split; intros; congruence. }
  assert (Hlast : forall v, last rest = Some v -> last (token :: rest) = Some v).
  { intros v Hv. destruct rest; [discriminate Hv|exact Hv]. }
  assert (Hfin : forall h, token = hook_token h ->
    let res := parse_rule_loop inet_pton6 parse_hi (S (length rest))
                 (alloc_empty_rule h) NO_OPTION rest in
    res <> OutOfFuel /\
    forall r, res = Parsed r ->
      Some token = Some (hook_token (hook r)) /\
      (accept r = 1 /\ last (token :: rest) = Some ACCEPT_STR \/
       accept r = 0 /\ last (token :: rest) = Some DROP_STR) /\
      (cert r <> None -> hook r = NF_IP6_FORWARD) /\
      (in_if r <> None -> hook r <> NF_IP6_LOCAL_OUT) /\
      (out_if r <> None -> hook r <> NF_IP6_LOCAL_IN) /\
      (src_hi r <> None ->
       exists h, src_hit r = Some h /\ hit_boolean h <> 0)).
  { intros h Ht. cbv zeta. specialize (Hloop h).
    destruct (parse_rule_loop _ _ _ _ _ _) as [r'| | |];
      [|split; [discriminate|intros ? [=]]
       |split; [discriminate|intros ? [=]]|contradiction].
    destruct Hloop as ((W1 & W2 & W3 & W4) & Hh & Hv).
    split; [discriminate|]. intros r [= <-].
    split; [congruence|].
    split; [destruct Hv as [[? ?]|[? ?]]; auto|].
    auto. }
  destruct (String.eqb token INPUT_STR) eqn:E1.
  { apply String.eqb_eq in E1. apply (Hfin NF_IP6_LOCAL_IN E1). }
  destruct (String.eqb token OUTPUT_STR) eqn:E2.
  { apply String.eqb_eq in E2. apply (Hfin NF_IP6_LOCAL_OUT E2). }
  destruct (String.eqb token FORWARD_STR) eqn:E3.
  { apply String.eqb_eq in E3. apply (Hfin NF_IP6_FORWARD E3). }
  split; [discriminate|]. intros r [=].
Qed.

End RuleFacts.

(** The second [-o] of a rule replaces the first one, while [-o] after [-i]
    is refused: the test made for [-o] looks at the incoming interface. *)
Lemma parse_rule_delivers_well_formed_rules_witness :
  (exists r, toy_parse_rule rule_two_out_ifs = RuleManagement.Parsed r /\
             RuleManagement.hook r = RuleManagement.NF_IP6_FORWARD /\
             RuleManagement.accept r = 0 /\
             RuleManagement.out_if r
             = Some {| RuleManagement.string_boolean := 1;
                       RuleManagement.string_value := "eth1"%string |}) /\
  toy_parse_rule rule_in_and_out_if = RuleManagement.Rejected /\
  toy_parse_rule rule_verdict_first = RuleManagement.Rejected /\
  last rule_two_out_ifs = Some RuleManagement.DROP_STR.
Proof.
  split; [|split; [vm_compute; reflexivity|split; [vm_compute; reflexivity|]]].
  - eexists. split; [vm_compute; reflexivity|]. repeat split.
  - destruct (parse_rule_delivers_well_formed_rules
                (fun _ => Some (replicate 16 0)) (fun _ _ => None)
                rule_two_out_ifs) as [_ H].
    edestruct H as (_ & [[Ha _]|[_ Hl]] & _).
    + vm_compute. reflexivity.
    + discriminate Ha.
    + exact Hl.
Defined.


(** ** The white list of interfaces *)

Lemma white_list_scan_spec (l : list Z) (if_index : Z) (count : nat) :
  forall i, (i + count <= length l)%nat ->
    exists r, white_list_scan l if_index i count = Some r /\
              (r = 0 \/ r = 1) /\
              (r = 1 <-> In if_index (take count (drop i l))).
Proof.
  induction count as [|c IH]; intros i Hlen; cbn [white_list_scan].
  { exists 0. rewrite take_0. cbn. intuition lia. }
  destruct (lookup_lt_is_Some_2 l i ltac:(lia)) as [x Hx].
  rewrite Hx. cbn [mbind option_bind].
  rewrite (drop_S _ _ _ Hx). cbn [take].
  destruct (x =? if_index) eqn:E.
  - apply Z.eqb_eq in E. exists 1. split; [reflexivity|].
    split; [auto|]. split; [intros _; left; exact E|reflexivity].
  - apply Z.eqb_neq in E.
    destruct (IH (S i) ltac:(lia)) as (r & Hr & H01 & Hin).
    exists r. split; [exact Hr|]. split; [exact H01|].
    rewrite Hin. cbn [In]. intuition congruence.
Qed.

(** X22: on a white list of five slots, [netdev_is_in_white_list] returns 1
    exactly for the indices stored in the slots in use and 0 for all others.
    While a slot is free, [netdev_white_list_add_index] uses the next slot:
    afterwards the added index is found, every index found before is still
    found, and no other index is.  Adding an index to a full white list
    stops the daemon. *)
Theorem white_list_add_then_lookup (wl : white_list) (if_index : Z) :
  white_list_ok wl ->
  let n := Z.to_nat (hip_netdev_white_list_count wl) in
  (forall j, exists r,
     netdev_is_in_white_list wl j = Some r /\ (r = 0 \/ r = 1) /\
     (r = 1 <-> In j (take n (hip_netdev_white_list wl)))) /\
  (hip_netdev_white_list_count wl < HIP_NETDEV_MAX_WHITE_LIST ->
   exists wl',
     netdev_white_list_add_index wl if_index = Some wl' /\
     white_list_ok wl' /\
     hip_netdev_white_list_count wl'
     = hip_netdev_white_list_count wl + 1 /\
     netdev_is_in_white_list wl' if_index = Some 1 /\
     forall j, j <> if_index ->
       netdev_is_in_white_list wl' j = netdev_is_in_white_list wl j) /\
  (hip_netdev_white_list_count wl = HIP_NETDEV_MAX_WHITE_LIST ->
   netdev_white_list_add_index wl if_index = None).
Proof.
  intros [Hlen Hcnt] n. unfold HIP_NETDEV_MAX_WHITE_LIST in *.
  assert (Hlook : forall (w : white_list) j,
    (Z.to_nat (hip_netdev_white_list_count w)
     <= length (hip_netdev_white_list w))%nat ->
    exists r, netdev_is_in_white_list w j = Some r /\ (r = 0 \/ r = 1) /\
      (r = 1 <-> In j (take (Z.to_nat (hip_netdev_white_list_count w))
                         (hip_netdev_white_list w)))).
  { intros w j Hw. unfold netdev_is_in_white_list.
    destruct (white_list_scan_spec (hip_netdev_white_list w) j
                (Z.to_nat (hip_netdev_white_list_count w)) 0%nat ltac:(lia))
      as (r & Hr & H01 & Hin).
    rewrite drop_0 in Hin. eauto. }
  split; [intros j; apply Hlook; lia|]. split.
  - intros Hfree. unfold netdev_white_list_add_index,
      HIP_NETDEV_MAX_WHITE_LIST.
    assert (H1 : (hip_netdev_white_list_count wl <? 5) = true)
      by (apply Z.ltb_lt; lia).
    assert (H2 : (0 <=? hip_netdev_white_list_count wl) = true)
      by (apply Z.leb_le; lia).
    assert (H3 : (Z.to_nat (hip_netdev_white_list_count wl)
                  <? length (hip_netdev_white_list wl))%nat = true)
      by (apply Nat.ltb_lt; lia).
    rewrite H1, H2, H3. cbn [andb].
    eexists. split; [reflexivity|].
    set (l := hip_netdev_white_list wl) in *.
    set (c := hip_netdev_white_list_count wl) in *.
    assert (Htake : take (Z.to_nat (c + 1)) (<[Z.to_nat c := if_index]> l)
                    = take (Z.to_nat c) l ++ [if_index]).
    { replace (Z.to_nat (c + 1)) with (S (Z.to_nat c)) by lia.
      fold n. assert (Hn : (n < length l)%nat) by (unfold n; fold c; lia).
      destruct (lookup_lt_is_Some_2 l n Hn) as [x Hx].
      rewrite (take_S_r _ _ if_index)
        by (apply list_lookup_insert_eq; exact Hn).
      f_equal. apply take_insert_ge. lia. }
    split; [|split; [reflexivity|]].
    { split; cbn; unfold HIP_NETDEV_MAX_WHITE_LIST;
        [rewrite length_insert; exact Hlen|lia]. }
    assert (Hw' : (Z.to_nat (c + 1)
                   <= length (<[Z.to_nat c := if_index]> l))%nat)
      by (rewrite length_insert; lia).
    split.
    + destruct (Hlook {| hip_netdev_white_list := <[Z.to_nat c := if_index]> l;
                         hip_netdev_white_list_count := c + 1 |} if_index Hw')
        as (r & Hr & _ & Hin).
      cbn [hip_netdev_white_list hip_netdev_white_list_count] in Hin.
      rewrite Htake in Hin. rewrite Hr. f_equal. apply Hin.
      apply in_or_app. right. left. reflexivity.
    + intros j Hj.
      destruct (Hlook {| hip_netdev_white_list := <[Z.to_nat c := if_index]> l;
                         hip_netdev_white_list_count := c + 1 |} j Hw')
        as (r & Hr & H01 & Hin).
      cbn [hip_netdev_white_list hip_netdev_white_list_count] in Hin.
      rewrite Htake in Hin.
      destruct (Hlook wl j ltac:(fold l c; lia)) as (r0 & Hr0 & H010 & Hin0).
      fold l c in Hin0. rewrite Hr, Hr0. f_equal.
      assert (Hiff : r = 1 <-> r0 = 1).
      { rewrite Hin, Hin0. rewrite in_app_iff. cbn [In]. intuition congruence. }
      destruct H01 as [-> | ->], H010 as [-> | ->]; try reflexivity;
        exfalso; intuition discriminate.
  - intros Hfull. unfold netdev_white_list_add_index,
      HIP_NETDEV_MAX_WHITE_LIST. rewrite Hfull. reflexivity.
Qed.

Lemma white_list_add_then_lookup_witness :
  exists wl',
    netdev_white_list_add_index white_list_empty 3 = Some wl' /\
    netdev_is_in_white_list wl' 3 = Some 1.
Proof.
  assert (Hok : white_list_ok white_list_empty).
  { split; [reflexivity|]. cbn. unfold HIP_NETDEV_MAX_WHITE_LIST. lia. }
  destruct (white_list_add_then_lookup white_list_empty 3 Hok)
    as (_ & Hadd & _).
  destruct Hadd as (wl' & H1 & _ & _ & H2 & _).
  - cbn. unfold HIP_NETDEV_MAX_WHITE_LIST. lia.
  - exists wl'. split; assumption.
Defined.

(** ** Filtering local addresses *)

Lemma ntohs_range (x : Z) : 0 <= ntohs x < 2 ^ 16.
Proof.
  unfold ntohs.
  change 255 with (Z.ones 8). rewrite !Z.land_ones by lia.
  rewrite Z.shiftl_mul_pow2 by lia.
  pose proof (Z.mod_pos_bound x (2 ^ 8) ltac:(lia)) as H0.
  pose proof (Z.mod_pos_bound (Z.shiftr x 8) (2 ^ 8) ltac:(lia)) as H1.
  set (a := x mod 2 ^ 8 * 2 ^ 8) in *.
  set (b := Z.shiftr x 8 mod 2 ^ 8) in *.
  pose proof (Z.add_lor_land a b) as Hs.
  assert (Ha : 0 <= a) by (unfold a; lia).
  assert (Hl : 0 <= Z.lor a b) by (apply Z.lor_nonneg; lia).
  assert (Hn : 0 <= Z.land a b) by (apply Z.land_nonneg; lia).
  split; [exact Hl|]. unfold a in *. lia.
Qed.

Lemma IN_MULTICAST_of_16_bits (y : Z) :
  0 <= y < 2 ^ 16 -> IN_MULTICAST y = false.
Proof.
  intros Hy. unfold IN_MULTICAST.
  assert (H0 : Z.land y 4026531840 = 0).
  { rewrite <- (Z.mod_small y (2 ^ 16)) by lia.
    rewrite <- Z.land_ones by lia. rewrite <- Z.land_assoc.
    change (Z.land (Z.ones 16) 4026531840) with 0. apply Z.land_0_r. }
  rewrite H0. reflexivity.
Qed.

(** X23: [filter_address] returns FA_ADD or FA_IGNORE, and FA_IGNORE for
    every address family other than IPv4 and IPv6, for every IPv6 address
    when [suppress_af_family] is AF_INET and for every IPv4 address when it
    is AF_INET6.  Its multicast test for IPv4 addresses never
    fires, since it is made on [ntohs] of the address: an IPv4 address is
    added exactly when it is neither INADDR_ANY nor INADDR_BROADCAST, no
    LSI and no loopback address, whether it is a multicast address or
    not. *)
Theorem filter_address_never_ignores_ipv4_multicast
  (ipv6_addr_is_hit : bytes -> bool) (IS_LSI32 IS_IPV4_LOOPBACK IS_LSI : Z -> bool)
  (suppress : Z) (addr : sockaddr) :
  let r := filter_address ipv6_addr_is_hit IS_LSI32 IS_IPV4_LOOPBACK IS_LSI
             suppress addr in
  (r = FA_ADD \/ r = FA_IGNORE) /\
  (forall f, addr = sockaddr_other f -> r = FA_IGNORE) /\
  (forall a, addr = sockaddr_in6 a -> suppress = AF_INET -> r = FA_IGNORE) /\
  (forall a, addr = sockaddr_in a -> suppress = AF_INET6 -> r = FA_IGNORE) /\
  (forall a, addr = sockaddr_in a ->
     (r = FA_ADD <->
      suppress <> AF_INET6 /\ a <> INADDR_ANY /\ a <> INADDR_BROADCAST /\
      IS_LSI32 a = false /\ IS_IPV4_LOOPBACK a = false /\ IS_LSI a = false)) /\
  (forall a, addr = sockaddr_in6 a -> r = FA_ADD ->
     IN6_IS_ADDR_UNSPECIFIED a = false /\ IN6_IS_ADDR_LOOPBACK a = false /\
     IN6_IS_ADDR_MULTICAST a = false /\ IN6_IS_ADDR_LINKLOCAL a = false /\
     IN6_IS_ADDR_V4MAPPED a = false /\ IN6_IS_ADDR_V4COMPAT a = false /\
     ipv6_addr_is_hit a = false).
Proof.
  cbv zeta. unfold filter_address, FA_ADD, FA_IGNORE.
  destruct addr as [a6|a4|f].
  - split.
    { repeat match goal with |- context [if ?b then _ else _] =>
               destruct b end; auto. }
    split; [intros ? [=]|]. split.
    { intros a _ ->. rewrite Z.eqb_refl. reflexivity. }
    split; [intros ? [=]|]. split; [intros ? [=]|].
    intros a [= <-].
    repeat match goal with |- context [if ?b then _ else _] =>
             destruct b end; intros H; try discriminate H; repeat split.
  - pose proof (IN_MULTICAST_of_16_bits _ (ntohs_range (wrap16 a4))) as Hm.
    rewrite Hm. split.
    { repeat match goal with |- context [if ?b then _ else _] =>
               destruct b end; auto. }
    split; [intros ? [=]|]. split; [intros ? [=]|]. split.
    { intros a _ ->. rewrite Z.eqb_refl. reflexivity. }
    split; [|intros ? [=]].
    intros a [= <-].
    destruct (suppress =? AF_INET6) eqn:E1;
      [apply Z.eqb_eq in E1|apply Z.eqb_neq in E1].
    { split; [discriminate|]. intros (H & _). contradiction. }
    destruct (a4 =? INADDR_ANY) eqn:E2;
      [apply Z.eqb_eq in E2|apply Z.eqb_neq in E2].
    { split; [discriminate|]. intros (_ & H & _). contradiction. }
    destruct (a4 =? INADDR_BROADCAST) eqn:E3;
      [apply Z.eqb_eq in E3|apply Z.eqb_neq in E3].
    { split; [discriminate|]. intros (_ & _ & H & _). contradiction. }
    destruct (IS_LSI32 a4), (IS_IPV4_LOOPBACK a4), (IS_LSI a4);
      (split;
       [intros H; try discriminate H; repeat split; auto
       |intros (_ & _ & _ & H1 & H2 & H3); try discriminate; reflexivity]).
  - split; [auto|]. split; [intros; reflexivity|].
    split; [intros ? [=]|]. split; [intros ? [=]|].
    split; intros ? [=].
Qed.

Lemma filter_address_never_ignores_ipv4_multicast_witness :
  filter_address (fun _ => false) (fun _ => false) (fun _ => false)
    (fun _ => false) 0 (sockaddr_in all_hosts_group) = FA_ADD.
Proof.
  destruct (filter_address_never_ignores_ipv4_multicast
              (fun _ => false) (fun _ => false) (fun _ => false)
              (fun _ => false) 0 (sockaddr_in all_hosts_group))
    as (_ & _ & _ & _ & H & _).
  apply (H all_hosts_group eq_refl).
  repeat split; discriminate.
Defined.

(** ** Negotiating the ESP protection transform *)

Lemma select_transform_inner_spec (ours : list Z) (theirs : list Z)
  (i : nat) (t : Z) (count : nat) :
  ours !! i = Some t ->
  forall j, (j + count <= length theirs)%nat ->
    select_transform_inner ours theirs i j count
    = Some (existsb (Z.eqb t) (take count (drop j theirs))).
Proof.
  intros Ht. induction count as [|c IH]; intros j Hlen;
    cbn [select_transform_inner].
  { rewrite take_0. reflexivity. }
  rewrite Ht. cbn [mbind option_bind].
  destruct (lookup_lt_is_Some_2 theirs j ltac:(lia)) as [x Hx].
  rewrite Hx. cbn [mbind option_bind].
  rewrite (drop_S _ _ _ Hx). cbn [take existsb].
  destruct (t =? x); [reflexivity|]. cbn [orb]. apply IH. lia.
Qed.

Lemma select_transform_outer_spec (ours theirs : list Z) (np : nat)
  (count : nat) :
  (np <= length theirs)%nat ->
  forall i, (i + count <= length ours)%nat ->
    select_transform_outer ours theirs np i count
    = Some (default ESP_PROT_TFM_UNUSED
              (first_dh_match (take count (drop i ours)) (take np theirs))).
Proof.
  intros Hnp. induction count as [|c IH]; intros i Hlen;
    cbn [select_transform_outer].
  { rewrite take_0. reflexivity. }
  destruct (lookup_lt_is_Some_2 ours i ltac:(lia)) as [t Ht].
  rewrite (select_transform_inner_spec ours theirs i t np Ht 0%nat)
    by lia.
  cbn [mbind option_bind]. rewrite drop_0.
  rewrite (drop_S _ _ _ Ht). cbn [take]. unfold first_dh_match.
  cbn [List.find].
  destruct (existsb (Z.eqb t) (take np theirs)); [exact Ht|].
  apply IH. lia.
Qed.

(** X24: when the two counts lie within their arrays,
    [esp_prot_select_transform] returns the first transform of the local
    preference list that the peer's list contains, and
    [ESP_PROT_TFM_UNUSED] when the lists have no transform in common: the
    local order decides, not the peer's.  [esp_prot_r1_handle_transforms]
    stores this choice when userspace IPsec is in use and the R1 carries the
    parameter, and [ESP_PROT_TFM_UNUSED] otherwise; it always returns 0. *)
Theorem esp_prot_transform_is_first_local_match
  (esp_prot_transforms transforms : list Z)
  (esp_prot_num_transforms num_transforms userspace old_param : Z) :
  (Z.to_nat esp_prot_num_transforms <= length esp_prot_transforms)%nat ->
  (Z.to_nat num_transforms <= length transforms)%nat ->
  let ours := take (Z.to_nat esp_prot_num_transforms) esp_prot_transforms in
  let theirs := take (Z.to_nat num_transforms) transforms in
  let chosen := default ESP_PROT_TFM_UNUSED (first_dh_match ours theirs) in
  esp_prot_select_transform esp_prot_transforms esp_prot_num_transforms
    num_transforms transforms = Some chosen /\
  (chosen <> ESP_PROT_TFM_UNUSED -> In chosen ours /\ In chosen theirs) /\
  ((forall t, In t ours -> ~ In t theirs) -> chosen = ESP_PROT_TFM_UNUSED) /\
  esp_prot_r1_handle_transforms userspace esp_prot_transforms
    esp_prot_num_transforms (Some (num_transforms, transforms)) old_param
  = Some (0, if userspace =? 0 then old_param else 1,
          if userspace =? 0 then ESP_PROT_TFM_UNUSED else chosen) /\
  esp_prot_r1_handle_transforms userspace esp_prot_transforms
    esp_prot_num_transforms None old_param
  = Some (0, if userspace =? 0 then old_param else 0, ESP_PROT_TFM_UNUSED).
Proof.
  intros Hl Hp ours theirs chosen.
  assert (Hsel : esp_prot_select_transform esp_prot_transforms
                   esp_prot_num_transforms num_transforms transforms
                 = Some chosen).
  { unfold esp_prot_select_transform.
    rewrite select_transform_outer_spec by lia. rewrite drop_0. reflexivity. }
  split; [exact Hsel|].
  assert (Hfind : forall t, first_dh_match ours theirs = Some t ->
                            In t ours /\ In t theirs).
  { unfold first_dh_match. intros t Hf. apply List.find_some in Hf as [Hin Hex].
    split; [exact Hin|]. apply existsb_exists in Hex as (x & Hx & Hxe).
    apply Z.eqb_eq in Hxe. now subst x. }
  split.
  { unfold chosen. destruct (first_dh_match ours theirs) as [t|] eqn:Hf;
      cbn [default]; [intros _; now apply Hfind|intros H; now destruct H]. }
  split.
  { intros Hdisj. unfold chosen.
    destruct (first_dh_match ours theirs) as [t|] eqn:Hf; [|reflexivity].
    destruct (Hfind t eq_refl) as [H1 H2]. destruct (Hdisj t H1 H2). }
  unfold esp_prot_r1_handle_transforms. rewrite Hsel.
  destruct (userspace =? 0); split; reflexivity.
Qed.

Lemma esp_prot_transform_is_first_local_match_witness :
  esp_prot_select_transform
    [ESP_PROT_TFM_TREE; ESP_PROT_TFM_PLAIN; ESP_PROT_TFM_UNUSED; 0; 0; 0] 3
    2 [ESP_PROT_TFM_PLAIN; ESP_PROT_TFM_TREE; 0; 0; 0; 0]
  = Some ESP_PROT_TFM_TREE.
Proof.
  refine (proj1 (esp_prot_transform_is_first_local_match
            [ESP_PROT_TFM_TREE; ESP_PROT_TFM_PLAIN; ESP_PROT_TFM_UNUSED;
             0; 0; 0]
            [ESP_PROT_TFM_PLAIN; ESP_PROT_TFM_TREE; 0; 0; 0; 0]
            3 2 1 0 _ _)); cbn; lia.
Defined.

(** ** Handling an accepted I2 and an accepted R2 *)


Ltac bad_handle_i2 H :=
  exfalso; unfold handle_i2_out_err in H; injection H as H _;
  cbv in H; discriminate H.

Lemma hip_handle_i2_accepts
  (ifindex : bytes -> Z)
  (add_peer_addr : hip_hadb_state -> bytes -> Z * hip_hadb_state)
  (i2_anchor : hip_packet_context -> Z)
  (E : hipd_env) (ctx ctx' : hip_packet_context) :
  hip_handle_i2 ifindex add_peer_addr i2_anchor E ctx = Some (0, ctx') ->
  exists entry e3 o k old new o' ids,
    hadb_entry ctx = Some entry /\
    hip_get_param (input_msg ctx) HIP_PARAM_ESP_INFO
      = Some (o, P_ESP_INFO k old new) /\
    hip_get_param (input_msg ctx) HIP_PARAM_ESP_TRANSFORM
      = Some (o', P_ESP_TRANSFORM ids) /\
    hip_select_esp_transform E ids <> 0 /\
    ctx' = set_hadb_entry ctx
             (Some (set_state
                      (set_esp_transform e3 (hip_select_esp_transform E ids))
                      HIP_STATE_ESTABLISHED)).
Proof.
  unfold hip_handle_i2. intros H.
  destruct (hadb_entry ctx) as [entry|]; [|discriminate H].
  cbn [mbind option_bind] in H.
  destruct (ifindex (our_addr entry) <? 0); [bad_handle_i2 H|].
  destruct (hip_get_param (input_msg ctx) HIP_PARAM_ESP_INFO)
    as [[o []]|]; try bad_handle_i2 H.
  destruct (add_peer_addr _ _) as [added e3].
  destruct (added =? 0); cbn [negb] in H; [|bad_handle_i2 H].
  destruct (hip_get_param (input_msg ctx) HIP_PARAM_ESP_TRANSFORM)
    as [[o' []]|]; try bad_handle_i2 H.
  cbn [esp_transform set_esp_transform] in H.
  destruct (hip_select_esp_transform E suite_ids =? 0) eqn:Hsel;
    [bad_handle_i2 H|].
  apply Z.eqb_neq in Hsel.
  destruct (i2_anchor _ =? 0); cbn [negb] in H; [|bad_handle_i2 H].
  unfold handle_i2_out_err in H. cbn [Z.eqb] in H. injection H as <-.
  eexists entry, e3, _, _, _, _, _, _. repeat split; try reflexivity.
  exact Hsel.
Qed.

Lemma hip_handle_i2_succeeds
  (ifindex : bytes -> Z)
  (add_peer_addr : hip_hadb_state -> bytes -> Z * hip_hadb_state)
  (i2_anchor : hip_packet_context -> Z)
  (E : hipd_env) (ctx : hip_packet_context) (entry : hip_hadb_state)
  (o k old new o' : Z) (ids : list Z) :
  hadb_entry ctx = Some entry ->
  hip_get_param (input_msg ctx) HIP_PARAM_ESP_INFO
    = Some (o, P_ESP_INFO k old new) ->
  hip_get_param (input_msg ctx) HIP_PARAM_ESP_TRANSFORM
    = Some (o', P_ESP_TRANSFORM ids) ->
  hip_select_esp_transform E ids <> 0 ->
  (forall a, 0 <= ifindex a) ->
  (forall e a, (add_peer_addr e a).1 = 0) ->
  (forall c, i2_anchor c = 0) ->
  exists ctx', hip_handle_i2 ifindex add_peer_addr i2_anchor E ctx
               = Some (0, ctx').
Proof.
  intros He Hinfo Htfm Hsel Hif Hadd Hanchor.
  unfold hip_handle_i2. rewrite He. cbn [mbind option_bind].
  assert (Hi : (ifindex (our_addr entry) <? 0) = false)
    by (apply Z.ltb_ge; apply Hif).
  rewrite Hi, Hinfo.
  match goal with |- context [add_peer_addr ?e ?a] =>
    pose proof (Hadd e a) as Ha; destruct (add_peer_addr e a) as [added e3]
  end.
  cbn [fst] in Ha. subst added. cbn [Z.eqb negb]. rewrite Htfm.
  cbn [esp_transform set_esp_transform].
  apply Z.eqb_neq in Hsel. rewrite Hsel, Hanchor. cbn [Z.eqb negb].
  eexists. reflexivity.
Qed.

Lemma hip_handle_r2_accepts
  (r2_anchor : hip_hadb_state -> hip_common -> Z)
  (reg_response reg_failed reg_from :
     hip_hadb_state -> hip_common -> hip_hadb_state)
  (rvs : bool)
  (relay : hip_hdr -> hip_state -> hip_packet_context -> hip_packet_context)
  (type : hip_hdr) (st : hip_state) (ctx ctx' : hip_packet_context)
  (tr : list hipd_event) :
  hip_handle_r2 r2_anchor reg_response reg_failed reg_from rvs relay type st
    ctx = Some (0, ctx', tr) ->
  exists e', hadb_entry ctx' = Some e' /\ state e' = HIP_STATE_ESTABLISHED /\
             tr = [EvInsertState e'].
Proof.
  unfold hip_handle_r2. intros H.
  destruct (hadb_entry ctx) as [entry|]; [|discriminate H].
  cbn [mbind option_bind] in H.
  destruct (hip_get_param (input_msg ctx) HIP_PARAM_ESP_INFO)
    as [[o []]|]; try (injection H as H _ _; cbv in H; discriminate H).
  destruct (negb _); [injection H as H _ _; discriminate H|].
  match type of H with (?x ≫= _) = _ => destruct x; [|discriminate H] end.
  cbn [mbind option_bind] in H. injection H as <- <-.
  eexists. repeat split.
Qed.

Lemma hip_handle_r2_succeeds
  (r2_anchor : hip_hadb_state -> hip_common -> Z)
  (reg_response reg_failed reg_from :
     hip_hadb_state -> hip_common -> hip_hadb_state)
  (rvs : bool)
  (relay : hip_hdr -> hip_state -> hip_packet_context -> hip_packet_context)
  (type : hip_hdr) (st : hip_state) (ctx : hip_packet_context)
  (entry : hip_hadb_state) (o k old new : Z) :
  hadb_entry ctx = Some entry ->
  hip_get_param (input_msg ctx) HIP_PARAM_ESP_INFO
    = Some (o, P_ESP_INFO k old new) ->
  (forall e m, r2_anchor e m = 0) ->
  (rvs = true -> forall c, hadb_entry (relay type st c) <> None) ->
  exists ctx' tr,
    hip_handle_r2 r2_anchor reg_response reg_failed reg_from rvs relay type
      st ctx = Some (0, ctx', tr).
Proof.
  intros He Hinfo Hanchor Hrelay.
  unfold hip_handle_r2. rewrite He. cbn [mbind option_bind].
  rewrite Hinfo, Hanchor. cbn [Z.eqb negb].
  destruct rvs.
  - specialize (Hrelay eq_refl).
    match goal with |- context [hadb_entry (relay ?t ?s ?c)] =>
      pose proof (Hrelay c) as Hr; destruct (hadb_entry (relay t s c))
    end; [|now destruct Hr].
    cbn [mbind option_bind]. eexists _, _. reflexivity.
  - cbn [hadb_entry set_hadb_entry mbind option_bind].
    eexists _, _. reflexivity.
Qed.

(** ** C6: both sides of an I2/I2 collision *)

(** C6, as amended: in an I2/I2 collision of two hosts in state I2-SENT with
    HIT_A > HIT_B, [hip_handle_i2_in_i2_sent] on the host with the smaller
    HIT (B) sets the error flag of the packet context and returns 1, so B
    drops the I2 it received; on the host with the bigger HIT (A) the
    handler leaves the context as it is and returns its error flag (0 for a
    packet not marked before), so A accepts B's I2.  Both sides reach
    ESTABLISHED: [hip_handle_i2], with which A handles B's I2, returns 0
    only with the host association in state ESTABLISHED, and it returns 0
    when the I2 carries ESP_INFO and a usable ESP_TRANSFORM and the helpers
    succeed; [hip_handle_r2], with which B handles the R2 that answers its
    own I2, returns 0 only with the host association in state ESTABLISHED,
    and it returns 0 for B's association when the R2 carries ESP_INFO and
    the helpers succeed. *)
Theorem i2_collision_smaller_hit_drops
  (ifindex : bytes -> Z)
  (add_peer_addr : hip_hadb_state -> bytes -> Z * hip_hadb_state)
  (i2_anchor : hip_packet_context -> Z)
  (r2_anchor : hip_hadb_state -> hip_common -> Z)
  (reg_response reg_failed reg_from :
     hip_hadb_state -> hip_common -> hip_hadb_state)
  (rvs : bool)
  (relay : hip_hdr -> hip_state -> hip_packet_context -> hip_packet_context)
  (E : hipd_env)
  (ctxA ctxB : hip_packet_context) (eA eB : hip_hadb_state) :
  hadb_entry ctxA = Some eA -> hadb_entry ctxB = Some eB ->
  hit_peer eA = hit_our eB -> hit_peer eB = hit_our eA ->
  hip_hit_is_bigger (hit_our eA) (hit_our eB) = true ->
  hip_handle_i2_in_i2_sent ctxB = Some (1, set_error ctxB 1) /\
  hip_handle_i2_in_i2_sent ctxA = Some (error ctxA, ctxA) /\
  (forall ctx1 ctx2,
     hip_handle_i2 ifindex add_peer_addr i2_anchor E ctx1 = Some (0, ctx2) ->
     exists e2, hadb_entry ctx2 = Some e2 /\
                state e2 = HIP_STATE_ESTABLISHED) /\
  (forall o k old new o' ids,
     hip_get_param (input_msg ctxA) HIP_PARAM_ESP_INFO
       = Some (o, P_ESP_INFO k old new) ->
     hip_get_param (input_msg ctxA) HIP_PARAM_ESP_TRANSFORM
       = Some (o', P_ESP_TRANSFORM ids) ->
     hip_select_esp_transform E ids <> 0 ->
     (forall a, 0 <= ifindex a) ->
     (forall e a, (add_peer_addr e a).1 = 0) ->
     (forall c, i2_anchor c = 0) ->
     forall ctx1,
       hadb_entry ctx1 <> None ->
       params (input_msg ctx1) = params (input_msg ctxA) ->
       exists ctx2 e2,
         hip_handle_i2 ifindex add_peer_addr i2_anchor E ctx1
           = Some (0, ctx2) /\
         hadb_entry ctx2 = Some e2 /\ state e2 = HIP_STATE_ESTABLISHED) /\
  (forall type st ctxR ctxR' tr,
     hip_handle_r2 r2_anchor reg_response reg_failed reg_from rvs relay type
       st ctxR = Some (0, ctxR', tr) ->
     exists e2, hadb_entry ctxR' = Some e2 /\
                state e2 = HIP_STATE_ESTABLISHED) /\
  (forall type st ctxR o k old new,
     hadb_entry ctxR = Some eB ->
     hip_get_param (input_msg ctxR) HIP_PARAM_ESP_INFO
       = Some (o, P_ESP_INFO k old new) ->
     (forall e m, r2_anchor e m = 0) ->
     (rvs = true -> forall c, hadb_entry (relay type st c) <> None) ->
     exists ctxR' e2 tr,
       hip_handle_r2 r2_anchor reg_response reg_failed reg_from rvs relay
         type st ctxR = Some (0, ctxR', tr) /\
       hadb_entry ctxR' = Some e2 /\ state e2 = HIP_STATE_ESTABLISHED).
Proof.
  intros HA HB HpA HpB Hbig.
  split.
  { unfold hip_handle_i2_in_i2_sent. rewrite HB, HpB, Hbig. reflexivity. }
  split.
  { unfold hip_handle_i2_in_i2_sent.
    rewrite HA, HpA, (hip_hit_is_bigger_asym _ _ Hbig). reflexivity. }
  assert (Hi2 : forall ctx1 ctx2,
    hip_handle_i2 ifindex add_peer_addr i2_anchor E ctx1 = Some (0, ctx2) ->
    exists e2, hadb_entry ctx2 = Some e2 /\
               state e2 = HIP_STATE_ESTABLISHED).
  { intros ctx1 ctx2 H. apply hip_handle_i2_accepts in H
      as (e & e3 & o & k & old & new & o' & ids & _ & _ & _ & _ & ->).
    eexists. split; reflexivity. }
  assert (Hr2 : forall type st ctxR ctxR' tr,
    hip_handle_r2 r2_anchor reg_response reg_failed reg_from rvs relay type
      st ctxR = Some (0, ctxR', tr) ->
    exists e2, hadb_entry ctxR' = Some e2 /\
               state e2 = HIP_STATE_ESTABLISHED).
  { intros type st ctxR ctxR' tr H.
    apply hip_handle_r2_accepts in H as (e' & He' & Hs & _).
    exists e'. split; assumption. }
  split; [exact Hi2|]. split.
  { intros o k old new o' ids Hinfo Htfm Hsel Hif Hadd Hanchor ctx1 He1 Hmsg.
    destruct (hadb_entry ctx1) as [e1|] eqn:Hent; [|now destruct He1].
    unfold hip_get_param in Hinfo, Htfm. rewrite <- Hmsg in Hinfo, Htfm.
    destruct (hip_handle_i2_succeeds ifindex add_peer_addr i2_anchor E ctx1
                e1 o k old new o' ids Hent Hinfo Htfm Hsel Hif Hadd Hanchor)
      as [ctx2 Hrun].
    destruct (Hi2 _ _ Hrun) as (e2 & He2 & Hs).
    exists ctx2, e2. repeat split; assumption. }
  split; [exact Hr2|].
  intros type st ctxR o k old new HeR Hinfo Hanchor Hrelay.
  destruct (hip_handle_r2_succeeds r2_anchor reg_response reg_failed reg_from
              rvs relay type st ctxR eB o k old new HeR Hinfo Hanchor Hrelay)
    as (ctxR' & tr & Hrun).
  destruct (Hr2 _ _ _ _ _ Hrun) as (e2 & He2 & Hs).
  exists ctxR', e2, tr. repeat split; assumption.
Qed.

Lemma i2_collision_smaller_hit_drops_witness :
  hip_handle_i2_in_i2_sent (ctx_collision hit_B hit_A)
    = Some (1, set_error (ctx_collision hit_B hit_A) 1) /\
  hip_handle_i2_in_i2_sent (ctx_collision hit_A hit_B)
    = Some (0, ctx_collision hit_A hit_B) /\
  (exists ctx2 e2,
     toy_handle_i2 (ctx_collision hit_A hit_B) = Some (0, ctx2) /\
     hadb_entry ctx2 = Some e2 /\ state e2 = HIP_STATE_ESTABLISHED) /\
  (exists ctxR' e2 tr,
     toy_handle_r2 ctx_r2_after_collision = Some (0, ctxR', tr) /\
     hadb_entry ctxR' = Some e2 /\ state e2 = HIP_STATE_ESTABLISHED).
Proof.
  destruct (i2_collision_smaller_hit_drops toy_ifindex toy_add_peer_addr
              toy_i2_anchor toy_r2_anchor toy_reg toy_reg toy_reg false
              toy_relay_in_client toy_env
              (ctx_collision hit_A hit_B) (ctx_collision hit_B hit_A)
              (entry_i2_sent hit_A hit_B) (entry_i2_sent hit_B hit_A)
              eq_refl eq_refl eq_refl eq_refl eq_refl)
    as (HB & HA & _ & Hi2 & _ & Hr2).
  split; [exact HB|]. split; [exact HA|]. split.
  - apply (Hi2 40 18432 0 16777216 288 [1]); try reflexivity.
    + vm_compute. discriminate.
    + intros a. unfold toy_ifindex. lia.
    + discriminate.
  - apply (Hr2 HIP_R2 HIP_STATE_I2_SENT ctx_r2_after_collision
             40 18432 0 1); try reflexivity.
    intros H. discriminate H.
Defined.

(** ** C4: a retransmitted I2 is checked and handled from the existing state *)










